(** * jsmnreader: the tokenizer and the token-tree reader of [jsmnreader.h]

    A shallow embedding of the C code of [src/jsmnreader.h] and the
    properties of the specification that are settled against it.

    Conventions of the embedding.
    - [char], [int] and [unsigned int] values are integers in [Z].  Bytes of
      a buffer are in [0, 256).  The tests the code makes on a [char] are
      equalities with ASCII constants and the range tests [< 32 || >= 127]
      and the hexadecimal ranges; these give the same answer whether [char]
      is signed or unsigned, so the byte is kept unsigned.
    - Conversions between [int] and [unsigned int], and unsigned
      subtractions that can go below zero, are written out with [s32] and
      [u32].  Buffer positions are only incremented while they are below the
      buffer length, which is itself an [unsigned int], so those increments
      are written without a wrap.
    - A pointer to a token array is [option (list jsmntok_t)]: [None] is the
      null pointer, [Some l] a block of [length l] cells.  A write in a cell
      that the block does not have is undefined.
    - The allocator is the one of glibc and of the Microsoft runtime:
      [malloc(0)] gives a block of no byte, and [realloc] to zero bytes
      frees a block and gives the null pointer.  A [char *] that the
      reader returns is a [strres]: a string with its NUL, or such a block
      of no byte, of which no byte may be read.
    - The code is compiled without [JSMN_PARENT_LINKS], as the header leaves
      it. *)

From Stdlib Require Import String Ascii.
From Stdlib Require Import ZArith List Bool Lia Sorted.
Import ListNotations.
Open Scope Z_scope.

(** ** Machine integers *)

Definition u32 (x : Z) : Z := x mod 2 ^ 32.

Definition s32 (x : Z) : Z :=
  let y := x mod 2 ^ 32 in if y <? 2 ^ 31 then y else y - 2 ^ 32.

(** The value [-1] stored in an [unsigned int]. *)
Definition UINT_NEG1 : Z := u32 (-1).

(** ** Buffers *)

Definition byte_of (a : Ascii.ascii) : Z := Z.of_N (Ascii.N_of_ascii a).

(** Text of a C string literal.  Concrete JSON inputs are written with an
    apostrophe where the JSON text has a double quote (code 34). *)
Fixpoint text (s : String.string) : list Z :=
  match s with
  | String.EmptyString => []
  | String.String a s' =>
      (if byte_of a =? 39 then 34 else byte_of a) :: text s'
  end.

(** [js[pos]]; the byte after the last one is the terminating NUL. *)
Definition char_at (js : list Z) (pos : Z) : Z := nth (Z.to_nat pos) js 0.

Definition len_of (js : list Z) : Z := Z.of_nat (length js).

Fixpoint list_eqb (a b : list Z) : bool :=
  match a, b with
  | [], [] => true
  | x :: a', y :: b' => (x =? y) && list_eqb a' b'
  | _, _ => false
  end.

(** ** Tokens *)

Inductive jsmntype_t :=
| JSMN_UNDEFINED
| JSMN_OBJECT
| JSMN_ARRAY
| JSMN_STRING
| JSMN_PRIMITIVE.

Definition jsmntype_eqb (a b : jsmntype_t) : bool :=
  match a, b with
  | JSMN_UNDEFINED, JSMN_UNDEFINED
  | JSMN_OBJECT, JSMN_OBJECT
  | JSMN_ARRAY, JSMN_ARRAY
  | JSMN_STRING, JSMN_STRING
  | JSMN_PRIMITIVE, JSMN_PRIMITIVE => true
  | _, _ => false
  end.

Definition JSMN_SUCCESS : Z := 0.
Definition JSMN_ERROR_NOMEM : Z := -1.
Definition JSMN_ERROR_INVAL : Z := -2.
Definition JSMN_ERROR_PART : Z := -3.
Definition JSMN_ERROR_NOFILE : Z := -4.

Record jsmntok_t := mktok {
  type : jsmntype_t;
  start : Z;
  end_ : Z;
  size : Z
}.

Record jsmn_parser := mkparser {
  pos : Z;
  toknext : Z;
  toksuper : Z
}.

Definition set_pos (p : jsmn_parser) (x : Z) : jsmn_parser :=
  mkparser x (toknext p) (toksuper p).
Definition set_toknext (p : jsmn_parser) (x : Z) : jsmn_parser :=
  mkparser (pos p) x (toksuper p).
Definition set_toksuper (p : jsmn_parser) (x : Z) : jsmn_parser :=
  mkparser (pos p) (toknext p) x.

(** A cell whose contents were never written. *)
Definition tok_blank : jsmntok_t := mktok JSMN_UNDEFINED 0 0 0.

Fixpoint list_upd {A : Type} (l : list A) (i : nat) (f : A -> A) : list A :=
  match l, i with
  | [], _ => []
  | x :: l', O => f x :: l'
  | x :: l', S i' => x :: list_upd l' i' f
  end.

(** [tokens[i]] read and updated in place. *)
Definition tok_at (toks : list jsmntok_t) (i : Z) : jsmntok_t :=
  nth (Z.to_nat i) toks tok_blank.

Definition tok_set (toks : list jsmntok_t) (i : Z)
  (f : jsmntok_t -> jsmntok_t) : list jsmntok_t :=
  list_upd toks (Z.to_nat i) f.

Definition size_incr (t : jsmntok_t) : jsmntok_t :=
  mktok (type t) (start t) (end_ t) (size t + 1).

Definition set_end (e : Z) (t : jsmntok_t) : jsmntok_t :=
  mktok (type t) (start t) e (size t).

(** [start != -1 && end == -1]: a container whose closing bracket has not
    been read. *)
Definition tok_open (t : jsmntok_t) : bool :=
  negb (start t =? -1) && (end_ t =? -1).

Definition is_container (ty : jsmntype_t) : bool :=
  match ty with
  | JSMN_OBJECT | JSMN_ARRAY => true
  | _ => false
  end.

(** ** The tokenizer *)

Module Jsmn.

(** What [jsmn_alloc_token] returns: the null pointer, the address of
    [tokens[i]], or a pointer that must not be used: the local [tok] that no
    path assigned (sizing mode with no room left), or the address of a cell
    that the block does not have, through which the function has already
    written. *)
Inductive tokptr :=
| NullPtr
| TokPtr (i : Z)
| WildPtr.

Definition alloc_init (t : jsmntok_t) : jsmntok_t := mktok (type t) (-1) (-1) 0.

(** [jsmn_alloc_token] writes the cell [tokens[toknext]] whenever
    [toknext < num_tokens]; [toks] is the block that [tokens] points to,
    and a cell that it does not have cannot be written. *)
Definition jsmn_alloc_token (parser : jsmn_parser) (toks : list jsmntok_t)
  (num_tokens : Z) (parsemode_sizecheck : bool)
  : tokptr * jsmn_parser * list jsmntok_t :=
  if negb parsemode_sizecheck && (num_tokens <=? toknext parser) then
    (NullPtr, parser, toks)
  else if toknext parser <? num_tokens then
    let i := toknext parser in
    if i <? Z.of_nat (length toks) then
      (TokPtr i, set_toknext parser (u32 (i + 1)), tok_set toks i alloc_init)
    else (WildPtr, parser, toks)
  else
    (WildPtr, parser, toks).

Definition jsmn_fill_token (ty : jsmntype_t) (st en : Z) (_ : jsmntok_t)
  : jsmntok_t :=
  mktok ty st en 0.

(** Outcome of the scanning loop of a primitive or a string: the position at
    which the loop was left for the token, or the error it returned. *)
Inductive scan :=
| Found (p : Z)
| Failed (err : Z).

Definition is_prim_end (c : Z) : bool :=
  (c =? 9) || (c =? 13) || (c =? 10) || (c =? 32) ||
  (c =? 44) || (c =? 93) || (c =? 125).

(** The [for] loop of [jsmn_parse_primitive].  [n] bounds the number of
    iterations left: the loop variant [len - pos]. *)
Fixpoint primitive_scan (n : nat) (js : list Z) (len p : Z) : scan :=
  match n with
  | O => Failed JSMN_ERROR_PART
  | S n' =>
      if (p <? len) && negb (char_at js p =? 0) then
        if is_prim_end (char_at js p) then Found p
        else if (char_at js p <? 32) || (127 <=? char_at js p) then
          Failed JSMN_ERROR_INVAL
        else primitive_scan n' js len (p + 1)
      else Failed JSMN_ERROR_PART
  end.

Definition variant (len p : Z) : nat := Z.to_nat (len - p).

(** A call returns [None] when it uses the pointer [WildPtr], which C leaves
    undefined; otherwise the [int] result with the parser and the array as
    the call left them. *)
Definition call := option (Z * jsmn_parser * option (list jsmntok_t)).

Definition jsmn_parse_primitive (parser : jsmn_parser) (js : list Z)
  (len : Z) (tokens : option (list jsmntok_t)) (num_tokens : Z)
  (parsemode_sizecheck : bool) : call :=
  let st := s32 (pos parser) in
  match primitive_scan (variant len (pos parser)) js len (pos parser) with
  | Failed err => Some (err, set_pos parser (u32 st), tokens)
  | Found p =>
      match tokens with
      | None => Some (0, set_pos parser (p - 1), None)
      | Some toks =>
          match jsmn_alloc_token (set_pos parser p) toks num_tokens
                  parsemode_sizecheck with
          | (NullPtr, parser', toks') =>
              Some (JSMN_ERROR_NOMEM, set_pos parser' (u32 st), Some toks')
          | (WildPtr, _, _) => None
          | (TokPtr i, parser', toks') =>
              Some (0, set_pos parser' (p - 1),
                    Some (tok_set toks' i
                            (jsmn_fill_token JSMN_PRIMITIVE st (s32 p))))
          end
      end
  end.

Definition is_hex (c : Z) : bool :=
  ((48 <=? c) && (c <=? 57)) || ((65 <=? c) && (c <=? 70)) ||
  ((97 <=? c) && (c <=? 102)).

(** The inner loop over the digits of [\uXXXX]: at most [i] more digits are
    read; the result is the position after the last digit read, or [None]
    on a character that is not a hexadecimal digit. *)
Fixpoint hex_scan (i : nat) (js : list Z) (len p : Z) : option Z :=
  match i with
  | O => Some p
  | S i' =>
      if (p <? len) && negb (char_at js p =? 0) then
        if is_hex (char_at js p) then hex_scan i' js len (p + 1) else None
      else Some p
  end.

Definition is_simple_escape (c : Z) : bool :=
  (c =? 34) || (c =? 47) || (c =? 92) || (c =? 98) || (c =? 102) ||
  (c =? 114) || (c =? 110) || (c =? 116).

(** The [switch] on the character after a backslash, entered with [p] on
    that character: the position on which the switch is left. *)
Definition escape_scan (js : list Z) (len p : Z) : option Z :=
  if is_simple_escape (char_at js p) then Some p
  else if char_at js p =? 117 then
    match hex_scan 4 js len (p + 1) with
    | Some q => Some (q - 1)
    | None => None
    end
  else None.

(** The [for] loop of [jsmn_parse_string], entered after the opening
    quote. *)
Fixpoint string_scan (n : nat) (js : list Z) (len p : Z) : scan :=
  match n with
  | O => Failed JSMN_ERROR_PART
  | S n' =>
      if (p <? len) && negb (char_at js p =? 0) then
        if char_at js p =? 34 then Found p
        else if (char_at js p =? 92) && (p + 1 <? len) then
          match escape_scan js len (p + 1) with
          | Some q => string_scan n' js len (q + 1)
          | None => Failed JSMN_ERROR_INVAL
          end
        else string_scan n' js len (p + 1)
      else Failed JSMN_ERROR_PART
  end.

Definition jsmn_parse_string (parser : jsmn_parser) (js : list Z)
  (len : Z) (tokens : option (list jsmntok_t)) (num_tokens : Z)
  (parsemode_sizecheck : bool) : call :=
  let st := s32 (pos parser) in
  match string_scan (variant len (pos parser + 1)) js len (pos parser + 1) with
  | Failed err => Some (err, set_pos parser (u32 st), tokens)
  | Found p =>
      match tokens with
      | None => Some (0, set_pos parser p, None)
      | Some toks =>
          match jsmn_alloc_token (set_pos parser p) toks num_tokens
                  parsemode_sizecheck with
          | (NullPtr, parser', toks') =>
              Some (JSMN_ERROR_NOMEM, set_pos parser' (u32 st), Some toks')
          | (WildPtr, _, _) => None
          | (TokPtr i, parser', toks') =>
              Some (0, parser',
                    Some (tok_set toks' i
                            (jsmn_fill_token JSMN_STRING (st + 1) (s32 p))))
          end
      end
  end.

(** [for (i = k - 1; i >= 0; i--)] stopping at the first open token: the
    index found, or [-1]. *)
Fixpoint last_open (toks : list jsmntok_t) (k : nat) : Z :=
  match k with
  | O => -1
  | S k' =>
      if tok_open (nth k' toks tok_blank) then Z.of_nat k'
      else last_open toks k'
  end.

(** The same loop stopping at the first open token that is an array or an
    object (the [','] case). *)
Fixpoint last_open_container (toks : list jsmntok_t) (k : nat) : Z :=
  match k with
  | O => -1
  | S k' =>
      if is_container (type (nth k' toks tok_blank))
         && tok_open (nth k' toks tok_blank)
      then Z.of_nat k'
      else last_open_container toks k'
  end.

(** State of a run of [jsmn_parse]: the parser, the token array and the
    local [count]. *)
Record pstate := mkstate {
  ps_parser : jsmn_parser;
  ps_tokens : option (list jsmntok_t);
  ps_count : Z
}.

(** One pass through the [switch] of the main loop. *)
Inductive step_result :=
| Next (st : pstate)
| Stop (r : Z) (st : pstate)
| Wild.

(** [parser->toknext - 1] stored in an [int]. *)
Definition prev_tok (parser : jsmn_parser) : Z := s32 (u32 (toknext parser - 1)).

Definition bump_super (parser : jsmn_parser) (toks : list jsmntok_t)
  : list jsmntok_t :=
  if toksuper parser =? -1 then toks
  else tok_set toks (toksuper parser) size_incr.

Definition case_open (c : Z) (num_tokens : Z) (sc : bool) (st : pstate)
  : step_result :=
  let parser := ps_parser st in
  let count := ps_count st + 1 in
  match ps_tokens st with
  | None => Next (mkstate parser None count)
  | Some toks =>
      match jsmn_alloc_token parser toks num_tokens sc with
      | (NullPtr, parser', toks') =>
          Stop JSMN_ERROR_NOMEM (mkstate parser' (Some toks') count)
      | (WildPtr, _, _) => Wild
      | (TokPtr tk, parser', toks') =>
          if negb (toksuper parser' =? -1)
             && jsmntype_eqb (type (tok_at toks' (toksuper parser')))
                  JSMN_OBJECT
          then Stop JSMN_ERROR_INVAL (mkstate parser' (Some toks') count)
          else
            let toks1 := bump_super parser' toks' in
            let ty := if c =? 123 then JSMN_OBJECT else JSMN_ARRAY in
            let toks2 :=
              tok_set toks1 tk
                (fun t => mktok ty (s32 (pos parser')) (end_ t) (size t)) in
            Next (mkstate (set_toksuper parser' (prev_tok parser'))
                    (Some toks2) count)
      end
  end.

Definition case_close (c : Z) (st : pstate) : step_result :=
  let parser := ps_parser st in
  match ps_tokens st with
  | None => Next st
  | Some toks =>
      let ty := if c =? 125 then JSMN_OBJECT else JSMN_ARRAY in
      let i := last_open toks (Z.to_nat (toknext parser)) in
      if i =? -1 then Stop JSMN_ERROR_INVAL st
      else if negb (jsmntype_eqb (type (tok_at toks i)) ty) then
        Stop JSMN_ERROR_INVAL st
      else
        let toks' := tok_set toks i (set_end (s32 (u32 (pos parser + 1)))) in
        let j := last_open toks' (Z.to_nat (i + 1)) in
        Next (mkstate (set_toksuper parser j) (Some toks') (ps_count st))
  end.

Definition case_token (r : call) (count : Z) : step_result :=
  match r with
  | None => Wild
  | Some (r, parser', tokens') =>
      if r <? 0 then Stop r (mkstate parser' tokens' count)
      else
        let tokens2 :=
          match tokens' with
          | None => None
          | Some toks => Some (bump_super parser' toks)
          end in
        Next (mkstate parser' tokens2 (count + 1))
  end.

Definition case_comma (st : pstate) : step_result :=
  let parser := ps_parser st in
  match ps_tokens st with
  | None => Next st
  | Some toks =>
      if negb (toksuper parser =? -1)
         && negb (is_container (type (tok_at toks (toksuper parser))))
      then
        let i := last_open_container toks (Z.to_nat (toknext parser)) in
        if i =? -1 then Next st
        else Next (mkstate (set_toksuper parser i) (Some toks) (ps_count st))
      else Next st
  end.

Definition is_space (c : Z) : bool :=
  (c =? 9) || (c =? 13) || (c =? 10) || (c =? 32).

Definition is_prim_start (c : Z) : bool :=
  (c =? 45) || ((48 <=? c) && (c <=? 57)) ||
  (c =? 116) || (c =? 102) || (c =? 110).

Definition case_primitive (js : list Z) (len num_tokens : Z) (sc : bool)
  (st : pstate) : step_result :=
  let parser := ps_parser st in
  let key_error :=
    match ps_tokens st with
    | None => false
    | Some toks =>
        negb (toksuper parser =? -1) &&
        (let t := tok_at toks (toksuper parser) in
         jsmntype_eqb (type t) JSMN_OBJECT
         || (jsmntype_eqb (type t) JSMN_STRING && negb (size t =? 0)))
    end in
  if key_error then Stop JSMN_ERROR_INVAL st
  else
    case_token
      (jsmn_parse_primitive parser js len (ps_tokens st) num_tokens sc)
      (ps_count st).

Definition parse_step (js : list Z) (len num_tokens : Z) (sc : bool)
  (st : pstate) : step_result :=
  let c := char_at js (pos (ps_parser st)) in
  if (c =? 123) || (c =? 91) then case_open c num_tokens sc st
  else if (c =? 125) || (c =? 93) then case_close c st
  else if c =? 34 then
    case_token
      (jsmn_parse_string (ps_parser st) js len (ps_tokens st) num_tokens sc)
      (ps_count st)
  else if is_space c then Next st
  else if c =? 58 then
    Next (mkstate (set_toksuper (ps_parser st) (prev_tok (ps_parser st)))
            (ps_tokens st) (ps_count st))
  else if c =? 44 then case_comma st
  else if is_prim_start c then case_primitive js len num_tokens sc st
  else Stop JSMN_ERROR_INVAL st.

(** The code after the main loop: an opened container that was never closed
    makes the text incomplete. *)
Definition parse_finish (st : pstate) : Z * pstate :=
  match ps_tokens st with
  | None => (ps_count st, st)
  | Some toks =>
      if last_open toks (Z.to_nat (toknext (ps_parser st))) =? -1
      then (ps_count st, st)
      else (JSMN_ERROR_PART, st)
  end.

Definition next_char (st : pstate) : pstate :=
  mkstate (set_pos (ps_parser st) (pos (ps_parser st) + 1))
    (ps_tokens st) (ps_count st).

(** The main loop; [n] is its variant [len - pos]. *)
Fixpoint parse_loop (n : nat) (js : list Z) (len num_tokens : Z) (sc : bool)
  (st : pstate) : option (Z * pstate) :=
  match n with
  | O => Some (parse_finish st)
  | S n' =>
      if (pos (ps_parser st) <? len)
         && negb (char_at js (pos (ps_parser st)) =? 0)
      then
        match parse_step js len num_tokens sc st with
        | Next st' => parse_loop n' js len num_tokens sc (next_char st')
        | Stop r st' => Some (r, st')
        | Wild => None
        end
      else Some (parse_finish st)
  end.

Definition jsmn_parse (parser : jsmn_parser) (js : list Z) (len : Z)
  (tokens : option (list jsmntok_t)) (num_tokens : Z)
  (parsemode_sizecheck : bool) : call :=
  match parse_loop (variant len (pos parser)) js len num_tokens
          parsemode_sizecheck
          (mkstate parser tokens (s32 (toknext parser))) with
  | Some (r, st) => Some (r, ps_parser st, ps_tokens st)
  | None => None
  end.

Definition jsmn_init : jsmn_parser := mkparser 0 0 (-1).

End Jsmn.

(** ** The reader *)

Record jsmnreader_obj := mkreader {
  txt : list Z;
  txt_size : Z;
  tokens : option (list jsmntok_t);
  tokens_count : Z
}.

Inductive jsmnreaderobjread_t :=
| JSMNR_BOTH
| JSMNR_KEYONLY
| JSMNR_ITEMONLY.

(** Result of a query: the value returned, a read outside a block, of the
    token array or of a string ([Fault], undefined in C), or a walk that did
    not end within its bound ([Timeout]). *)
Inductive run (A : Type) :=
| Done (a : A)
| Fault
| Timeout.
Arguments Done {A} a.
Arguments Fault {A}.
Arguments Timeout {A}.

(** [realloc] of the token block to [n] cells, as the C libraries the code
    is built with do it (glibc, the Microsoft runtime).  A request for zero
    bytes on a block frees the block and gives the null pointer; on the null
    pointer it is [malloc(0)], which gives a block of no cell.  New cells
    are unwritten. *)
Definition realloc_tokens (old : option (list jsmntok_t)) (n : Z)
  : option (list jsmntok_t) :=
  if n =? 0 then
    match old with
    | Some _ => None
    | None => Some []
    end
  else
    let l := match old with Some l => l | None => [] end in
    Some (firstn (Z.to_nat n) l
            ++ repeat tok_blank (Z.to_nat n - length l)).

Definition jsmnreader_init : jsmnreader_obj := mkreader [] 0 (Some []) 0.

Definition jsmnreader_load (str : list Z) (str_size : Z)
  (reader : jsmnreader_obj) : option (Z * jsmnreader_obj) :=
  let toks0 := realloc_tokens (tokens reader) 0 in
  match Jsmn.jsmn_parse Jsmn.jsmn_init str str_size toks0 2 true with
  | None => None
  | Some (check, _, toks1) =>
      let count := if 0 <=? check then u32 check else 2 in
      let toks2 := realloc_tokens toks1 count in
      match Jsmn.jsmn_parse Jsmn.jsmn_init str str_size toks2 count false with
      | None => None
      | Some (check2, _, toks3) =>
          if check2 =? JSMN_ERROR_NOMEM then
            Some (JSMN_ERROR_NOMEM, mkreader str str_size toks3 count)
          else if check2 =? JSMN_ERROR_INVAL then
            Some (JSMN_ERROR_INVAL,
                  mkreader str str_size (realloc_tokens toks3 0) 0)
          else if check2 =? JSMN_ERROR_PART then
            Some (JSMN_ERROR_PART,
                  mkreader str str_size (realloc_tokens toks3 0) 0)
          else Some (JSMN_SUCCESS, mkreader str str_size toks3 count)
      end
  end.

(** [*(reader->tokens + i)] *)
Definition tok_read (reader : jsmnreader_obj) (i : Z) : option jsmntok_t :=
  match tokens reader with
  | None => None
  | Some l => if i <? 0 then None else nth_error l (Z.to_nat i)
  end.

(** The first NUL ends a C string. *)
Fixpoint cstr (s : list Z) : list Z :=
  match s with
  | [] => []
  | c :: s' => if c =? 0 then [] else c :: cstr s'
  end.

(** The loop of [jsmnreader_tree_parsepath] on a path that is not empty:
    [temp] is [temp_str], [acc] the segments stored so far; the end of the
    list is the terminating NUL. *)
Fixpoint parsepath_loop (s temp : list Z) (acc : list (list Z))
  : list (list Z) :=
  match s with
  | [] => acc ++ [temp]
  | c :: s' =>
      if c =? 92 then parsepath_loop s' [] (acc ++ [temp])
      else parsepath_loop s' (temp ++ [c]) acc
  end.

(** The segments and [*path_count]. *)
Definition jsmnreader_tree_parsepath (mypath : list Z) : list (list Z) * Z :=
  match cstr mypath with
  | [] => ([], 0)
  | s => let l := parsepath_loop s [] [] in (l, Z.of_nat (length l))
  end.

(** What a [char *] of the reader points to: a string with its terminating
    NUL, the block of no byte that [malloc(0)] gives, in which nothing is
    written, or nothing (a local that no path assigned). *)
Inductive strres :=
| Str (s : list Z)
| ZeroBlock
| Unset.

(** A read of the string in a block, as [strcmp], [strtol] and
    [raw_str[0]] do it: the string goes to the first NUL of the block, and
    the first byte at least is read, which the block of [malloc(0)] does
    not have. *)
Definition read_str {A : Type} (b : strres) (k : list Z -> A) : run A :=
  match b with
  | Str s => Done (k (cstr s))
  | ZeroBlock | Unset => Fault
  end.

Definition run_join {A : Type} (r : run (run A)) : run A :=
  match r with
  | Done x => x
  | Fault => Fault
  | Timeout => Timeout
  end.

(** The loop of [jsmnreader_extract]; [n] is its variant [end - r].  The
    result is the sequence of the [w] characters stored in [txt]. *)
Fixpoint extract_loop (n : nat) (buf : list Z) (r e : Z) : list Z :=
  match n with
  | O => []
  | S n' =>
      if r <? e then
        if negb (char_at buf r =? 92) then
          char_at buf r :: extract_loop n' buf (r + 1) e
        else if char_at buf (r + 1) =? 92 then
          92 :: extract_loop n' buf (r + 2) e
        else if char_at buf (r + 1) =? 34 then
          34 :: extract_loop n' buf (r + 2) e
        else extract_loop n' buf (r + 2) e
      else []
  end.

(** The block that holds the characters stored: [txt] starts as the block of
    [malloc(0)], and each character stored grows it by [realloc] and writes
    the terminating NUL after the character.  When no character is stored,
    [txt] is still the block of [malloc(0)], without a terminator. *)
Definition as_block (s : list Z) : strres :=
  match s with
  | [] => ZeroBlock
  | _ => Str s
  end.

Definition jsmnreader_extract (st en : Z) (reader : jsmnreader_obj) : strres :=
  as_block (extract_loop (Z.to_nat (en - st)) (txt reader) st en).

(** The characters that [jsmnreader_extract] stores for the span of a
    token, and the block it returns for it. *)
Definition tok_text (t : jsmntok_t) (reader : jsmnreader_obj) : list Z :=
  extract_loop (Z.to_nat (u32 (end_ t) - u32 (start t))) (txt reader)
    (u32 (start t)) (u32 (end_ t)).

Definition tok_str (t : jsmntok_t) (reader : jsmnreader_obj) : strres :=
  jsmnreader_extract (u32 (start t)) (u32 (end_ t)) reader.

(** The guard shared by the accessors:
    [tokens_count > 0] and [index < tokens_count], then the token is read. *)
Definition with_token {A : Type} (index : Z) (reader : jsmnreader_obj)
  (miss : A) (k : jsmntok_t -> A) : run A :=
  if (0 <? tokens_count reader) && (index <? tokens_count reader) then
    match tok_read reader index with
    | Some t => Done (k t)
    | None => Fault
    end
  else Done miss.

Definition is_digit (c : Z) : bool := (48 <=? c) && (c <=? 57).

Definition is_c_space (c : Z) : bool :=
  (c =? 32) || ((9 <=? c) && (c <=? 13)).

Fixpoint skip_spaces (s : list Z) : list Z :=
  match s with
  | c :: s' => if is_c_space c then skip_spaces s' else s
  | [] => []
  end.

Fixpoint digits_value (acc : Z) (s : list Z) : Z :=
  match s with
  | c :: s' => if is_digit c then digits_value (10 * acc + (c - 48)) s' else acc
  | [] => acc
  end.

(** [strtol(s, NULL, 10)] of the C library for a [long] of [long_bits] bits:
    white space, an optional sign, the longest run of decimal digits; zero
    when there is no digit, the nearest bound when out of range. *)
Definition strtol (long_bits : Z) (s : list Z) : Z :=
  let s1 := skip_spaces s in
  let v :=
    match s1 with
    | c :: s2 =>
        if c =? 45 then - digits_value 0 s2
        else if c =? 43 then digits_value 0 s2
        else digits_value 0 s1
    | [] => 0
    end in
  Z.max (- 2 ^ (long_bits - 1)) (Z.min (2 ^ (long_bits - 1) - 1) v).

Section Accessors.

(** Width of the C type [long]. *)
Variable long_bits : Z.

Definition jsmnreader_token_get_int (index : Z) (reader : jsmnreader_obj)
  : run Z :=
  run_join (with_token index reader (Done 0) (fun t =>
    if jsmntype_eqb (type t) JSMN_PRIMITIVE then
      read_str (tok_str t reader) (fun raw_str =>
        let num := s32 (strtol long_bits raw_str) in
        if (char_at raw_str 0 =? 116)
           && list_eqb raw_str (text "true"%string)
        then 1
        else num)
    else Done 0)).

End Accessors.

Definition jsmnreader_token_get_string (index : Z) (reader : jsmnreader_obj)
  : run strres :=
  with_token index reader (Str []) (fun t =>
    if jsmntype_eqb (type t) JSMN_STRING
       || jsmntype_eqb (type t) JSMN_PRIMITIVE
    then tok_str t reader
    else Str []).

Definition jsmnreader_token_get_object (index : Z) (reader : jsmnreader_obj)
  : run Z :=
  with_token index reader UINT_NEG1 (fun t =>
    if jsmntype_eqb (type t) JSMN_OBJECT then index else UINT_NEG1).

Definition jsmnreader_token_get_array (index : Z) (reader : jsmnreader_obj)
  : run Z :=
  with_token index reader UINT_NEG1 (fun t =>
    if jsmntype_eqb (type t) JSMN_ARRAY then index else UINT_NEG1).

(** [jsmnreader_dataskip]: the value of [*r] on return.  The argument [objs]
    of the C function is never read or written and is left out.  [fuel]
    bounds the depth of the recursion and the iterations of each loop. *)
Fixpoint jsmnreader_dataskip (fuel : nat) (reader : jsmnreader_obj)
  (r : Z) (mode : Z) {struct fuel} : run Z :=
  match fuel with
  | O => Timeout
  | S f =>
      match tok_read reader r with
      | None => Fault
      | Some t =>
          let check_offset := if mode =? 0 then 1 else 0 in
          (fix loop (k : nat) (r objs_sub : Z) {struct k} : run Z :=
             if (r <? tokens_count reader) && (0 <? objs_sub) then
               match k with
               | O => Timeout
               | S k' =>
                   match tok_read reader (r + check_offset) with
                   | None => Fault
                   | Some t' =>
                       match type t' with
                       | JSMN_OBJECT =>
                           match jsmnreader_dataskip f reader
                                   (if mode =? 0 then r + 1 else r) 0 with
                           | Done r' => loop k' r' (objs_sub - 1)
                           | e => e
                           end
                       | JSMN_ARRAY =>
                           match jsmnreader_dataskip f reader
                                   (if mode =? 0 then r + 1 else r) 1 with
                           | Done r' => loop k' r' (objs_sub - 1)
                           | e => e
                           end
                       | _ =>
                           loop k' (if mode =? 1 then r + 1 else r + 2)
                             (objs_sub - 1)
                       end
                   end
               end
             else Done r) f (r + 1) (u32 (size t))
      end
  end.

(** Enough for any walk that moves forward in the token array. *)
Definition walk_fuel (reader : jsmnreader_obj) : nat :=
  S (Z.to_nat (tokens_count reader)).

(** *** Path resolution *)

(** The variables of the loop of [jsmnreader_tree_get_x]. *)
Record xstate := mkx {
  x_r : Z;
  x_objs : Z;
  x_i : Z;
  x_offset : Z;
  x_loc : Z
}.

(** [selected_token]: under its guard, [strcmp] reads [ex_txt]. *)
Definition selected (path_list : list (list Z)) (path_count i : Z)
  (ex_txt : strres) : run bool :=
  if (0 <? path_count) && (i <? path_count) then
    read_str ex_txt (list_eqb (nth (Z.to_nat i) path_list []))
  else Done false.

Definition skip_value (reader : jsmnreader_obj) (mode : Z) (s : xstate)
  : run (bool * xstate) :=
  match jsmnreader_dataskip (walk_fuel reader) reader (x_r s + 1) mode with
  | Done r' =>
      Done (false, mkx r' (x_objs s - 1) (x_i s) (x_offset s) (x_loc s))
  | Fault => Fault
  | Timeout => Timeout
  end.

Definition found_value (s : xstate) : xstate :=
  mkx (x_r s) (x_objs s) (x_i s) (x_offset s) (x_r s + 1).

(** One pass through the body of the loop: [finished_loop] and the
    variables after it. *)
Definition tree_get_x_body (reader : jsmnreader_obj)
  (path_list : list (list Z)) (path_count : Z) (s : xstate)
  : run (bool * xstate) :=
  match tok_read reader (x_r s) with
  | None => Fault
  | Some key =>
      match selected path_list path_count (x_i s) (tok_str key reader) with
      | Fault => Fault
      | Timeout => Timeout
      | Done sel =>
      match tok_read reader (x_r s + 1) with
      | None => Fault
      | Some v =>
          match type v with
          | JSMN_UNDEFINED => Done (true, s)
          | JSMN_PRIMITIVE | JSMN_STRING =>
              Done (sel,
                    mkx (x_r s + 2) (x_objs s - 1) (x_i s) (x_offset s)
                      (if sel then x_r s + 1 else x_loc s))
          | JSMN_OBJECT =>
              if negb sel then skip_value reader 0 s
              else if x_i s =? u32 (path_count - 1) then
                Done (true, found_value s)
              else
                let i1 := u32 (x_i s + 1) in
                let i2 :=
                  if u32 (path_count - 1) <? i1 then u32 (path_count - 1)
                  else i1 in
                Done (false,
                      mkx (x_r s + 2) (u32 (size v)) i2 (x_r s + 1) (x_loc s))
          | JSMN_ARRAY =>
              if negb sel then skip_value reader 1 s
              else if x_i s =? u32 (path_count - 1) then
                Done (true, found_value s)
              else Done (true, s)
          end
      end
      end
  end.

(** The [while] loop; the result is [loc]. *)
Fixpoint tree_get_x_loop (n : nat) (reader : jsmnreader_obj)
  (path_list : list (list Z)) (path_count : Z) (s : xstate) : run Z :=
  if (0 <? x_objs s) && (x_r s <? tokens_count reader) then
    match n with
    | O => Timeout
    | S n' =>
        match tree_get_x_body reader path_list path_count s with
        | Done (true, s') => Done (x_loc s')
        | Done (false, s') =>
            tree_get_x_loop n' reader path_list path_count s'
        | Fault => Fault
        | Timeout => Timeout
        end
    end
  else Done (x_loc s).

(** [in_offset]: the scope is in range and is an object or an array. *)
Definition in_offset (containers_only_objects : bool) (offset : Z)
  (reader : jsmnreader_obj) : run bool :=
  with_token offset reader false (fun t =>
    match type t with
    | JSMN_OBJECT => true
    | JSMN_ARRAY => negb containers_only_objects
    | _ => false
    end).

Definition jsmnreader_tree_get_x (mypath : list Z) (offset : Z)
  (reader : jsmnreader_obj) : run Z :=
  match in_offset false offset reader with
  | Fault => Fault
  | Timeout => Timeout
  | Done false => Done 0
  | Done true =>
      let '(path_list, path_count) := jsmnreader_tree_parsepath mypath in
      match tok_read reader offset with
      | None => Fault
      | Some t =>
          tree_get_x_loop (walk_fuel reader) reader path_list path_count
            (mkx (offset + 1) (u32 (size t)) 0 offset UINT_NEG1)
      end
  end.

(** *** Enumerators *)

(** The loop of [jsmnreader_token_array_tokens]: the cells [edit[0..i)]
    written, in order.  [n] is the variant [objs]. *)
Fixpoint array_tokens_loop (n : nat) (reader : jsmnreader_obj)
  (r objs : Z) (edit : list Z) : run (list Z) :=
  if (0 <? objs) && (r <? tokens_count reader) then
    match n with
    | O => Timeout
    | S n' =>
        match tok_read reader r with
        | None => Fault
        | Some t =>
            match type t with
            | JSMN_UNDEFINED =>
                array_tokens_loop n' reader r (objs - 1) edit
            | JSMN_STRING | JSMN_PRIMITIVE =>
                array_tokens_loop n' reader (r + 1) (objs - 1) (edit ++ [r])
            | JSMN_OBJECT =>
                match jsmnreader_dataskip (walk_fuel reader) reader r 0 with
                | Done r' =>
                    array_tokens_loop n' reader r' (objs - 1) (edit ++ [r])
                | Fault => Fault
                | Timeout => Timeout
                end
            | JSMN_ARRAY =>
                match jsmnreader_dataskip (walk_fuel reader) reader r 1 with
                | Done r' =>
                    array_tokens_loop n' reader r' (objs - 1) (edit ++ [r])
                | Fault => Fault
                | Timeout => Timeout
                end
            end
        end
    end
  else Done edit.

(** [jsmnreader_token_array_tokens]: the cells of [*arrays] that were
    written, in order, and [*arrays_size], the number of cells of the
    block. *)
Definition jsmnreader_token_array_tokens (offset : Z)
  (reader : jsmnreader_obj) : run (list Z * Z) :=
  match jsmnreader_token_get_array offset reader with
  | Fault => Fault
  | Timeout => Timeout
  | Done g =>
      if g =? UINT_NEG1 then Done ([], 0)
      else
        match tok_read reader offset with
        | None => Fault
        | Some t =>
            let sz := u32 (size t) in
            match array_tokens_loop (Z.to_nat sz) reader (offset + 1) sz []
            with
            | Done edit => Done (edit, sz)
            | Fault => Fault
            | Timeout => Timeout
            end
        end
  end.

(** The two [realloc]-and-store statements guarded by [read_setting]. *)
Definition emit (read_setting : jsmnreaderobjread_t) (r : Z)
  (arrays : list Z) : list Z :=
  let a1 :=
    match read_setting with
    | JSMNR_BOTH | JSMNR_KEYONLY => arrays ++ [r]
    | JSMNR_ITEMONLY => arrays
    end in
  match read_setting with
  | JSMNR_BOTH | JSMNR_ITEMONLY => a1 ++ [r + 1]
  | JSMNR_KEYONLY => a1
  end.

(** The variables of the loop of [jsmnreader_token_object_tokens]. *)
Record ostate := mko {
  o_r : Z;
  o_objs : Z;
  o_i : Z;
  o_offset : Z;
  o_arrays : list Z
}.

Definition object_tokens_body (read_setting : jsmnreaderobjread_t)
  (reader : jsmnreader_obj) (path_list : list (list Z)) (path_count : Z)
  (s : ostate) : run ostate :=
  match tok_read reader (o_r s) with
  | None => Fault
  | Some key =>
      match selected path_list path_count (o_i s) (tok_str key reader) with
      | Fault => Fault
      | Timeout => Timeout
      | Done sel =>
      match tok_read reader (o_r s + 1) with
      | None => Fault
      | Some v =>
          let arrays :=
            if o_i s =? path_count then emit read_setting (o_r s) (o_arrays s)
            else o_arrays s in
          let skip mode :=
            match jsmnreader_dataskip (walk_fuel reader) reader
                    (o_r s + 1) mode with
            | Done r' =>
                Done (mko r' (o_objs s - 1) (o_i s) (o_offset s) arrays)
            | Fault => Fault
            | Timeout => Timeout
            end in
          match type v with
          | JSMN_UNDEFINED =>
              Done (mko (o_r s) (o_objs s) (o_i s) (o_offset s) arrays)
          | JSMN_PRIMITIVE | JSMN_STRING =>
              Done (mko (o_r s + 2) (o_objs s - 1) (o_i s) (o_offset s) arrays)
          | JSMN_OBJECT =>
              if negb sel then skip 0
              else if o_i s =? path_count - 1 then
                Done (mko (o_r s + 2) (u32 (size v)) (o_i s + 1) (o_r s + 1)
                        arrays)
              else
                let i1 := o_i s + 1 in
                let i2 := if path_count - 1 <? i1 then path_count - 1 else i1 in
                Done (mko (o_r s + 2) (u32 (size v)) i2 (o_r s + 1) arrays)
          | JSMN_ARRAY =>
              if negb sel then skip 1
              else Done (mko (o_r s) (o_objs s) (o_i s) (o_offset s) arrays)
          end
      end
      end
  end.

(** The [while] loop.  A pass that leaves [r] and [objs] as they were is
    repeated for ever; [n] bounds the passes. *)
Fixpoint object_tokens_loop (n : nat) (read_setting : jsmnreaderobjread_t)
  (reader : jsmnreader_obj) (path_list : list (list Z)) (path_count : Z)
  (s : ostate) : run (list Z) :=
  if (0 <? o_objs s) && (o_r s <? tokens_count reader) then
    match n with
    | O => Timeout
    | S n' =>
        match object_tokens_body read_setting reader path_list path_count s
        with
        | Done s' =>
            object_tokens_loop n' read_setting reader path_list path_count s'
        | Fault => Fault
        | Timeout => Timeout
        end
    end
  else Done (o_arrays s).

(** [jsmnreader_token_object_tokens]: the contents of [*arrays];
    [*arrays_size] is its length. *)
Definition jsmnreader_token_object_tokens (offset : Z)
  (read_setting : jsmnreaderobjread_t) (reader : jsmnreader_obj)
  : run (list Z) :=
  match in_offset true offset reader with
  | Fault => Fault
  | Timeout => Timeout
  | Done false => Done []
  | Done true =>
      let '(path_list, path_count) := jsmnreader_tree_parsepath [] in
      match tok_read reader offset with
      | None => Fault
      | Some t =>
          object_tokens_loop (walk_fuel reader) read_setting reader
            path_list path_count
            (mko (offset + 1) (u32 (size t)) 0 offset [])
      end
  end.

(** ** Notions used by the statements *)

(** A document as [jsmnreader_load] leaves it. *)
Definition loaded (reader : jsmnreader_obj) : Prop :=
  exists str str_size reader0 r,
    jsmnreader_load str str_size reader0 = Some (r, reader).

(** The token block has [tokens_count] cells. *)
Definition reader_wf (reader : jsmnreader_obj) : Prop :=
  match tokens reader with
  | Some l => Z.of_nat (length l) = tokens_count reader
  | None => tokens_count reader = 0
  end.

(** The type of the token at an index of the token sequence. *)
Definition type_at (reader : jsmnreader_obj) (index : Z) : option jsmntype_t :=
  if (0 <=? index) && (index <? tokens_count reader) then
    option_map type (tok_read reader index)
  else None.

(** The bytes of the span of a token in the buffer. *)
Definition raw_text (t : jsmntok_t) (reader : jsmnreader_obj) : list Z :=
  firstn (Z.to_nat (end_ t - start t))
    (skipn (Z.to_nat (start t)) (txt reader)).

Definition same_shape (a b : option (list jsmntok_t)) : Prop :=
  match a, b with
  | None, None => True
  | Some l, Some l' => length l = length l'
  | _, _ => False
  end.

(** The reader that [jsmnreader_load] leaves for a text, from a reader just
    initialised. *)
Definition load_text (js : list Z) : jsmnreader_obj :=
  match jsmnreader_load js (len_of js) jsmnreader_init with
  | Some (_, reader) => reader
  | None => jsmnreader_init
  end.

(** The variables of the path walk after a descent into the value [v] of
    the key at [r]: the scope is the container at [r + 1], the segment cursor
    is one further, and the scan is on the first child of the container with
    the container's child count. *)
Definition descend (s : xstate) (v : jsmntok_t) : xstate :=
  mkx (x_r s + 2) (u32 (size v)) (x_i s + 1) (x_r s + 1) (x_loc s).

(** The descent rule as the specification words it: a matching key with a
    container value and segments left makes the walk descend, whatever the
    kind of the container. *)
Definition descends_on_match (reader : jsmnreader_obj)
  (path_list : list (list Z)) (path_count : Z) (s : xstate) : Prop :=
  forall key v,
    tok_read reader (x_r s) = Some key ->
    tok_read reader (x_r s + 1) = Some v ->
    selected path_list path_count (x_i s) (tok_str key reader) = Done true ->
    is_container (type v) = true ->
    x_i s + 1 < path_count ->
    tree_get_x_body reader path_list path_count s = Done (false, descend s v).

(** Unescaping as the specification words it: backslash-quote and
    backslash-backslash give the quote and the backslash, and of any other
    backslash sequence the backslash is dropped and the character after it
    is copied. *)
Fixpoint unescape_keep_next (s : list Z) : list Z :=
  match s with
  | [] => []
  | c :: s' =>
      if c =? 92 then
        match s' with
        | [] => []
        | d :: s'' =>
            if d =? 92 then 92 :: unescape_keep_next s''
            else if d =? 34 then 34 :: unescape_keep_next s''
            else d :: unescape_keep_next s''
        end
      else c :: unescape_keep_next s'
  end.

(** Unescaping with the other sequences removed whole: backslash-quote and
    backslash-backslash give the quote and the backslash, and of any other
    backslash sequence both the backslash and the character after it are
    dropped. *)
Fixpoint unescape_drop_next (s : list Z) : list Z :=
  match s with
  | [] => []
  | c :: s' =>
      if c =? 92 then
        match s' with
        | [] => []
        | d :: s'' =>
            if d =? 92 then 92 :: unescape_drop_next s''
            else if d =? 34 then 34 :: unescape_drop_next s''
            else unescape_drop_next s''
        end
      else c :: unescape_drop_next s'
  end.

(** No backslash sequence is cut by the end of the text. *)
Fixpoint escapes_closed (s : list Z) : bool :=
  match s with
  | [] => true
  | c :: s' =>
      if c =? 92 then
        match s' with
        | [] => false
        | _ :: s'' => escapes_closed s''
        end
      else escapes_closed s'
  end.

(** The span of a token is a piece of the buffer that is not cut in the
    middle of a backslash sequence, or is followed by a byte that is neither
    a backslash nor a quote.  The tokenizer ends a string on the quote that
    closes it, having read each backslash with the character after it, and a
    primitive on a separator. *)
Definition span_ok (t : jsmntok_t) (reader : jsmnreader_obj) : Prop :=
  0 <= start t <= end_ t /\ end_ t <= len_of (txt reader)
  /\ end_ t < 2 ^ 32
  /\ (escapes_closed (raw_text t reader) = true
      \/ (char_at (txt reader) (end_ t) <> 92
          /\ char_at (txt reader) (end_ t) <> 34)).

(** The text starts, after white space, with a decimal digit or with a sign
    and a decimal digit. *)
Definition starts_numeric (s : list Z) : bool :=
  match skip_spaces s with
  | [] => false
  | c :: r =>
      if (c =? 45) || (c =? 43) then
        match r with
        | d :: _ => is_digit d
        | [] => false
        end
      else is_digit c
  end.

(** The integer of a text as the accessor [get_int] of the specification
    gives it: 1 for [true], else the base-10 conversion. *)
Definition int_of_text (long_bits : Z) (s : list Z) : Z :=
  if list_eqb s (text "true"%string) then 1 else s32 (strtol long_bits s).

(** ** JSON texts

    The grammar of RFC 8259 on the bytes of a text. *)

Definition ws_char (c : Z) : Prop := c = 32 \/ c = 9 \/ c = 10 \/ c = 13.

Definition json_ws (w : list Z) : Prop := Forall ws_char w.

Definition digit_char (c : Z) : Prop := 48 <= c <= 57.

Definition hex_char (c : Z) : Prop :=
  48 <= c <= 57 \/ 65 <= c <= 70 \/ 97 <= c <= 102.

Definition json_digits (s : list Z) : Prop := s <> [] /\ Forall digit_char s.

Definition json_int (s : list Z) : Prop :=
  s = [48]
  \/ exists d ds, s = d :: ds /\ 49 <= d <= 57 /\ Forall digit_char ds.

Definition json_frac (s : list Z) : Prop :=
  s = [] \/ exists ds, s = 46 :: ds /\ json_digits ds.

Definition json_exp (s : list Z) : Prop :=
  s = []
  \/ exists e sg ds,
      s = e :: sg ++ ds /\ (e = 101 \/ e = 69)
      /\ (sg = [] \/ sg = [43] \/ sg = [45]) /\ json_digits ds.

Definition json_number (s : list Z) : Prop :=
  exists sg i f e,
    s = sg ++ i ++ f ++ e /\ (sg = [] \/ sg = [45])
    /\ json_int i /\ json_frac f /\ json_exp e.

Definition json_literal (s : list Z) : Prop :=
  s = text "true"%string \/ s = text "false"%string \/ s = text "null"%string.

(** The characters between the quotes of a string: any byte from the space
    on except the quote and the backslash, a backslash with one of the
    eight escape letters, or a backslash with [u] and four hexadecimal
    digits. *)
Inductive json_chars : list Z -> Prop :=
| chars_nil : json_chars []
| chars_plain c s :
    32 <= c -> c <> 34 -> c <> 92 -> json_chars s -> json_chars (c :: s)
| chars_escape c s :
    In c [34; 92; 47; 98; 102; 110; 114; 116] ->
    json_chars s -> json_chars (92 :: c :: s)
| chars_unicode h1 h2 h3 h4 s :
    hex_char h1 -> hex_char h2 -> hex_char h3 -> hex_char h4 ->
    json_chars s -> json_chars (92 :: 117 :: h1 :: h2 :: h3 :: h4 :: s).

Inductive json_value : list Z -> Prop :=
| jv_literal s : json_literal s -> json_value s
| jv_number s : json_number s -> json_value s
| jv_string s : json_chars s -> json_value (34 :: s ++ [34])
| jv_array_empty w : json_ws w -> json_value (91 :: w ++ [93])
| jv_array body : json_elements body -> json_value (91 :: body ++ [93])
| jv_object_empty w : json_ws w -> json_value (123 :: w ++ [125])
| jv_object body : json_members body -> json_value (123 :: body ++ [125])

with json_elements : list Z -> Prop :=
| je_last w1 v w2 :
    json_ws w1 -> json_value v -> json_ws w2 ->
    json_elements (w1 ++ v ++ w2)
| je_cons w1 v w2 rest :
    json_ws w1 -> json_value v -> json_ws w2 -> json_elements rest ->
    json_elements (w1 ++ v ++ w2 ++ 44 :: rest)

with json_members : list Z -> Prop :=
| jm_last w1 k w2 w3 v w4 :
    json_ws w1 -> json_chars k -> json_ws w2 -> json_ws w3 ->
    json_value v -> json_ws w4 ->
    json_members (w1 ++ (34 :: k ++ [34]) ++ w2 ++ 58 :: w3 ++ v ++ w4)
| jm_cons w1 k w2 w3 v w4 rest :
    json_ws w1 -> json_chars k -> json_ws w2 -> json_ws w3 ->
    json_value v -> json_ws w4 -> json_members rest ->
    json_members
      (w1 ++ (34 :: k ++ [34]) ++ w2 ++ 58 :: w3 ++ v ++ w4 ++ 44 :: rest).

Scheme json_value_ind3 := Minimality for json_value Sort Prop
  with json_elements_ind3 := Minimality for json_elements Sort Prop
  with json_members_ind3 := Minimality for json_members Sort Prop.

Combined Scheme json_mutind
  from json_value_ind3, json_elements_ind3, json_members_ind3.

(** A JSON text: a value with white space around it. *)
Definition json_text (js : list Z) : Prop :=
  exists w1 v w2,
    json_ws w1 /\ json_value v /\ json_ws w2 /\ js = w1 ++ v ++ w2.

(** The runs of [jsmn_parse] that the statements compare: the sizing run
    as the first pass of [jsmnreader_load] makes it on a reader that has a
    token block, on the null pointer that [realloc] of the block to zero
    bytes gives, and a run on a block of [num_tokens] cells. *)
Definition sizing_run (js : list Z) : Jsmn.call :=
  Jsmn.jsmn_parse Jsmn.jsmn_init js (len_of js) (realloc_tokens (Some []) 0)
    2 true.

Definition block_run (sizecheck : bool) (js : list Z)
  (toks : list jsmntok_t) : Jsmn.call :=
  Jsmn.jsmn_parse Jsmn.jsmn_init js (len_of js) (Some toks)
    (Z.of_nat (length toks)) sizecheck.

(** The main loop from a state, with its variant. *)
Definition parse_from (js : list Z) (num_tokens : Z) (sc : bool)
  (st : Jsmn.pstate) : option (Z * Jsmn.pstate) :=
  Jsmn.parse_loop (Jsmn.variant (len_of js) (pos (Jsmn.ps_parser st)))
    js (len_of js) num_tokens sc st.

(** A run on a block: the state with position [p], next token [k], superior
    token [s], the cells [T] and the count [cnt]. *)
Definition fill_state (p k s : Z) (T : list jsmntok_t) (cnt : Z)
  : Jsmn.pstate :=
  Jsmn.mkstate (mkparser p k s) (Some T) cnt.

(** The cells below [k] are open or closed, and of the type, they were. *)
Definition frame (k : Z) (T T' : list jsmntok_t) : Prop :=
  length T' = length T
  /\ forall i, 0 <= i < k ->
       tok_open (tok_at T' i) = tok_open (tok_at T i)
       /\ type (tok_at T' i) = type (tok_at T i).

Definition closed_from (T : list jsmntok_t) (a b : Z) : Prop :=
  forall i, a <= i < b -> tok_open (tok_at T i) = false.

(** The superior token under which a value may start: an array, or a key
    that has no value yet. *)
Definition value_parent (t : jsmntok_t) : Prop :=
  type t = JSMN_ARRAY \/ (type t = JSMN_STRING /\ size t = 0).

(** The text of a primitive as the tokenizer scans it: a first character
    that starts a primitive, then printable characters that do not end
    one. *)
Definition prim_char (c : Z) : Prop :=
  32 <= c < 127 /\ Jsmn.is_prim_end c = false.

Definition prim_text (s : list Z) : Prop :=
  Jsmn.is_prim_start (hd 0 s) = true /\ s <> [] /\ Forall prim_char s.

(** What a run on a block of [num] cells does over the text of a value [v]
    of the buffer [js]: it reads [v], stores [m] tokens for it, leaves the
    cells below as they were and every token of [v] closed, and leaves as
    superior token the one it found or the innermost container still
    open. *)
Definition value_run (js : list Z) (v : list Z) : Prop :=
  exists m, 0 < m <= len_of v /\
  forall num pre post p k s T cnt,
    js = pre ++ v ++ post -> p = len_of pre ->
    (Jsmn.is_prim_start (hd 0 v) = true ->
     Jsmn.is_prim_end (hd 0 post) = true) ->
    Z.of_nat (length T) = num -> 0 <= k -> k + m <= num -> k <= p ->
    s = -1 \/ (0 <= s < k /\ value_parent (tok_at T s)) ->
    exists T' s',
      parse_from js num false (fill_state p k s T cnt)
      = parse_from js num false
          (fill_state (p + len_of v) (k + m) s' T' (cnt + m))
      /\ frame k T T' /\ closed_from T' k (k + m)
      /\ (s' = s \/ s' = Jsmn.last_open T (Z.to_nat k)).

(** The same over what stands between the brackets of a container of type
    [ty] whose token is at [a], the innermost container still open. *)
Definition body_run (js : list Z) (ty : jsmntype_t) (body : list Z)
  : Prop :=
  exists m, 0 <= m <= len_of body /\
  forall num pre post p k a T cnt,
    js = pre ++ body ++ post -> p = len_of pre ->
    Jsmn.is_prim_end (hd 0 post) = true ->
    Z.of_nat (length T) = num -> 0 <= a < k -> k + m <= num -> k <= p ->
    type (tok_at T a) = ty -> Jsmn.last_open T (Z.to_nat k) = a ->
    exists T' s',
      parse_from js num false (fill_state p k a T cnt)
      = parse_from js num false
          (fill_state (p + len_of body) (k + m) s' T' (cnt + m))
      /\ frame k T T' /\ closed_from T' k (k + m).

(** The elements of an array: the superior token is the array before and
    after. *)
Definition elements_run (js : list Z) (body : list Z) : Prop :=
  exists m, 0 < m <= len_of body /\
  forall num pre post p k a T cnt,
    js = pre ++ body ++ post -> p = len_of pre ->
    Jsmn.is_prim_end (hd 0 post) = true ->
    Z.of_nat (length T) = num -> 0 <= a < k -> k + m <= num -> k <= p ->
    type (tok_at T a) = JSMN_ARRAY -> Jsmn.last_open T (Z.to_nat k) = a ->
    exists T',
      parse_from js num false (fill_state p k a T cnt)
      = parse_from js num false
          (fill_state (p + len_of body) (k + m) a T' (cnt + m))
      /\ frame k T T' /\ closed_from T' k (k + m).

(** The members of an object: any superior token before and after. *)
Definition members_run (js : list Z) (body : list Z) : Prop :=
  exists m, 0 < m <= len_of body /\
  forall num pre post p k s T cnt,
    js = pre ++ body ++ post -> p = len_of pre ->
    Jsmn.is_prim_end (hd 0 post) = true ->
    Z.of_nat (length T) = num -> 0 <= k -> k + m <= num -> k <= p ->
    s = -1 \/ 0 <= s < k ->
    exists T' s',
      parse_from js num false (fill_state p k s T cnt)
      = parse_from js num false
          (fill_state (p + len_of body) (k + m) s' T' (cnt + m))
      /\ frame k T T' /\ closed_from T' k (k + m)
      /\ (s' = -1 \/ 0 <= s' < k + m).

(** A state of a run moved to the position [p]. *)
Definition at_pos (st : Jsmn.pstate) (p : Z) : Jsmn.pstate :=
  Jsmn.mkstate (set_pos (Jsmn.ps_parser st) p) (Jsmn.ps_tokens st)
    (Jsmn.ps_count st).

(** A step of the main loop leaves the token block its size. *)
Definition step_keeps_shape (t : option (list jsmntok_t))
  (s : Jsmn.step_result) : Prop :=
  match s with
  | Jsmn.Next st' | Jsmn.Stop _ st' => same_shape t (Jsmn.ps_tokens st')
  | Jsmn.Wild => True
  end.

(** A step of the main loop does not move the position back. *)
Definition step_moves_on (p : Z) (s : Jsmn.step_result) : Prop :=
  match s with
  | Jsmn.Next st' => p <= pos (Jsmn.ps_parser st')
  | _ => True
  end.

(** A state of a run without a token block. *)
Definition null_state (p : jsmn_parser) (count : Z) : Jsmn.pstate :=
  Jsmn.mkstate p None count.

(** A step that does not stop with [JSMN_ERROR_NOMEM]. *)
Definition not_nomem (s : Jsmn.step_result) : Prop :=
  match s with
  | Jsmn.Stop r _ => r <> JSMN_ERROR_NOMEM
  | _ => True
  end.

(** The bytes of a buffer from [p] up to [q]. *)
Definition slice (js : list Z) (p q : Z) : list Z :=
  firstn (Z.to_nat (q - p)) (skipn (Z.to_nat p) js).

(** A String or Primitive token has a span as [span_ok] says, in the buffer
    [js]. *)
Definition scalar_ok (js : list Z) (t : jsmntok_t) : Prop :=
  type t = JSMN_STRING \/ type t = JSMN_PRIMITIVE ->
  span_ok t (mkreader js (len_of js) None 0).

(** The tokens stored so far by a run on a block of [num] cells. *)
Definition tokens_ok (js : list Z) (num : Z) (st : Jsmn.pstate) : Prop :=
  match Jsmn.ps_tokens st with
  | None => True
  | Some T =>
      Z.of_nat (length T) = num
      /\ 0 <= toknext (Jsmn.ps_parser st) <= num
      /\ forall i, 0 <= i < toknext (Jsmn.ps_parser st) ->
           scalar_ok js (tok_at T i)
  end.

(** The local [count] of [jsmn_parse] is the number of tokens stored. *)
Definition count_ok (st : Jsmn.pstate) : Prop :=
  match Jsmn.ps_tokens st with
  | None => True
  | Some _ => Jsmn.ps_count st = toknext (Jsmn.ps_parser st)
  end.

(** Every cell of the block is used. *)
Definition block_full (num : Z) (st : Jsmn.pstate) : Prop :=
  toknext (Jsmn.ps_parser st) = num.

(** What a step of a run on a block leaves: the stored tokens with their
    count when the run goes on; when it stops, one of the two errors after
    which the block is dropped, or no room left in a block that is full. *)
Definition step_tokens_ok (js : list Z) (num : Z) (s : Jsmn.step_result)
  : Prop :=
  match s with
  | Jsmn.Next st' => tokens_ok js num st' /\ count_ok st'
  | Jsmn.Stop r st' =>
      r = JSMN_ERROR_INVAL \/ r = JSMN_ERROR_PART
      \/ (r = JSMN_ERROR_NOMEM /\ tokens_ok js num st' /\ block_full num st')
  | Jsmn.Wild => True
  end.

(** A successful or interrupted load of the buffer [str]. *)
Definition loaded_from (str : list Z) (reader : jsmnreader_obj) : Prop :=
  exists str_size reader0 r,
    jsmnreader_load str str_size reader0 = Some (r, reader).

(** ** Notions used by the properties of the token array *)

(** How a stored token changes in one pass of the main loop at position
    [p]: not at all, by one more child, or by the end that a closing bracket
    of its kind gives it. *)
Inductive evolves (js : list Z) (p : Z) : jsmntok_t -> jsmntok_t -> Prop :=
| ev_same t : evolves js p t t
| ev_child t : evolves js p t (size_incr t)
| ev_close t :
    tok_open t = true ->
    (char_at js p = 125 /\ type t = JSMN_OBJECT)
    \/ (char_at js p = 93 /\ type t = JSMN_ARRAY) ->
    evolves js p t (set_end (p + 1) t).

(** The token that a pass at position [p] stores, with the position [p'] at
    which the pass leaves the parser. *)
Inductive created (js : list Z) (len p : Z) : Z -> jsmntok_t -> Prop :=
| cr_open ty sz :
    (char_at js p = 123 /\ ty = JSMN_OBJECT)
    \/ (char_at js p = 91 /\ ty = JSMN_ARRAY) ->
    created js len p p (mktok ty p (-1) sz)
| cr_string q sz :
    char_at js p = 34 ->
    Jsmn.string_scan (Jsmn.variant len (p + 1)) js len (p + 1)
    = Jsmn.Found q ->
    created js len p q (mktok JSMN_STRING (p + 1) q sz)
| cr_primitive q sz :
    Jsmn.is_prim_start (char_at js p) = true ->
    Jsmn.primitive_scan (Jsmn.variant len p) js len p = Jsmn.Found q ->
    created js len p (q - 1) (mktok JSMN_PRIMITIVE p q sz).

(** The tokens stored so far: the cells below [toknext]. *)
Definition stored (st : Jsmn.pstate) : list jsmntok_t :=
  match Jsmn.ps_tokens st with
  | Some T => firstn (Z.to_nat (toknext (Jsmn.ps_parser st))) T
  | None => []
  end.

(** What a pass that goes on does to the block: the stored tokens evolve,
    and at most one token is stored after them. *)
Definition step_effect (js : list Z) (len num p k : Z) (T : list jsmntok_t)
  (st' : Jsmn.pstate) : Prop :=
  exists T',
    Jsmn.ps_tokens st' = Some T' /\ length T' = length T
    /\ (forall i, 0 <= i < k -> evolves js p (tok_at T i) (tok_at T' i))
    /\ ((toknext (Jsmn.ps_parser st') = k /\ pos (Jsmn.ps_parser st') = p)
        \/ (toknext (Jsmn.ps_parser st') = k + 1 /\ k < num
            /\ created js len p (pos (Jsmn.ps_parser st')) (tok_at T' k))).

(** A token as the tokenizer leaves it in the buffer [js]: an object or an
    array starts on its opening bracket and, once closed, ends just after a
    closing bracket of its kind; a string lies between two quotes with
    every backslash paired; a primitive is a run of printable characters
    that starts as a primitive does and is followed by a separator. *)
Definition tok_good (js : list Z) (t : jsmntok_t) : Prop :=
  match type t with
  | JSMN_UNDEFINED => False
  | JSMN_OBJECT =>
      0 <= start t < len_of js /\ char_at js (start t) = 123
      /\ (end_ t = -1
          \/ (start t < end_ t <= len_of js
              /\ char_at js (end_ t - 1) = 125))
  | JSMN_ARRAY =>
      0 <= start t < len_of js /\ char_at js (start t) = 91
      /\ (end_ t = -1
          \/ (start t < end_ t <= len_of js
              /\ char_at js (end_ t - 1) = 93))
  | JSMN_STRING =>
      1 <= start t <= end_ t /\ end_ t < len_of js
      /\ char_at js (start t - 1) = 34 /\ char_at js (end_ t) = 34
      /\ escapes_closed (slice js (start t) (end_ t)) = true
  | JSMN_PRIMITIVE =>
      0 <= start t < end_ t /\ end_ t < len_of js
      /\ prim_text (slice js (start t) (end_ t))
      /\ Jsmn.is_prim_end (char_at js (end_ t)) = true
  end.

(** The stored tokens when the main loop is at position [p]: each is as
    [tok_good] says and starts before [p], and they are in the order of
    their starts. *)
Definition toks_good (js : list Z) (p : Z) (l : list jsmntok_t) : Prop :=
  Forall (fun t => tok_good js t /\ start t < p) l
  /\ StronglySorted Z.lt (map start l).

(** A token with both ends set. *)
Definition tok_closed (t : jsmntok_t) : Prop :=
  start t <> -1 /\ end_ t <> -1.

(** ** The other accessors of the reader *)

(** [strtoul(s, NULL, 10)] of the C library for an [unsigned long] of
    [long_bits] bits: white space, an optional sign, the longest run of
    decimal digits; zero when there is no digit, the largest value when out
    of range, and the negation in the unsigned type after a minus sign. *)
Definition strtoul (long_bits : Z) (s : list Z) : Z :=
  let s1 := skip_spaces s in
  let '(neg, v) :=
    match s1 with
    | c :: s2 =>
        if c =? 45 then (true, digits_value 0 s2)
        else if c =? 43 then (false, digits_value 0 s2)
        else (false, digits_value 0 s1)
    | [] => (false, 0)
    end in
  if 2 ^ long_bits - 1 <? v then 2 ^ long_bits - 1
  else if neg then (- v) mod 2 ^ long_bits
  else v.

Section MoreAccessors.

(** Width of the C types [long] and [unsigned long]. *)
Variable long_bits : Z.

Definition jsmnreader_token_get_uint (index : Z) (reader : jsmnreader_obj)
  : run Z :=
  run_join (with_token index reader (Done 0) (fun t =>
    if jsmntype_eqb (type t) JSMN_PRIMITIVE then
      read_str (tok_str t reader) (fun raw_str =>
        let num := u32 (strtoul long_bits raw_str) in
        if (char_at raw_str 0 =? 116)
           && list_eqb raw_str (text "true"%string)
        then 1
        else num)
    else Done 0)).

End MoreAccessors.

Definition jsmnreader_token_is_null (index : Z) (reader : jsmnreader_obj)
  : run Z :=
  run_join (with_token index reader (Done 0) (fun t =>
    if jsmntype_eqb (type t) JSMN_PRIMITIVE then
      read_str (tok_str t reader) (fun raw_str =>
        if (char_at raw_str 0 =? 110)
           && list_eqb raw_str (text "null"%string)
        then 1
        else 0)
    else Done 0)).

Definition jsmnreader_token_is_special (index : Z) (reader : jsmnreader_obj)
  : run Z :=
  run_join (with_token index reader (Done 0) (fun t =>
    if jsmntype_eqb (type t) JSMN_PRIMITIVE then
      read_str (tok_str t reader) (fun raw_str =>
        let c := char_at raw_str 0 in
        if c =? 110 then
          if list_eqb raw_str (text "null"%string) then 1 else 0
        else if c =? 116 then
          if list_eqb raw_str (text "true"%string) then 1 else 0
        else if c =? 102 then
          if list_eqb raw_str (text "false"%string) then 1 else 0
        else 0)
    else Done 0)).

(** [jsmnreader_token_get_raw]: a string is extracted from the quote before
    it to the quote after it, a primitive over its span; both through
    [jsmnreader_extract]. *)
Definition jsmnreader_token_get_raw (index : Z) (reader : jsmnreader_obj)
  : run strres :=
  with_token index reader (Str []) (fun t =>
    match type t with
    | JSMN_STRING =>
        jsmnreader_extract (u32 (start t - 1)) (u32 (end_ t + 1)) reader
    | JSMN_PRIMITIVE => jsmnreader_extract (u32 (start t)) (u32 (end_ t)) reader
    | _ => Str []
    end).

Definition jsmnreader_token_size (index : Z) (reader : jsmnreader_obj)
  : run Z :=
  with_token index reader 0 (fun t =>
    if jsmntype_eqb (type t) JSMN_OBJECT || jsmntype_eqb (type t) JSMN_ARRAY
    then u32 (size t)
    else 0).

(** The loop of [jsmnreader_token_array]: the token of the element number
    [index], or the [-1] returned after the loop.  [n] is the variant
    [objs]; [i] counts the elements passed. *)
Fixpoint token_array_loop (n : nat) (reader : jsmnreader_obj)
  (index r objs i : Z) : run Z :=
  if (0 <? objs) && (r <? tokens_count reader) then
    match n with
    | O => Timeout
    | S n' =>
        match tok_read reader r with
        | None => Fault
        | Some t =>
            match type t with
            | JSMN_UNDEFINED =>
                token_array_loop n' reader index r (objs - 1) i
            | JSMN_STRING | JSMN_PRIMITIVE =>
                if i =? index then Done r
                else token_array_loop n' reader index (r + 1) (objs - 1)
                       (i + 1)
            | JSMN_OBJECT =>
                if i =? index then Done r
                else
                  match jsmnreader_dataskip (walk_fuel reader) reader r 0 with
                  | Done r' =>
                      token_array_loop n' reader index r' (objs - 1) (i + 1)
                  | Fault => Fault
                  | Timeout => Timeout
                  end
            | JSMN_ARRAY =>
                if i =? index then Done r
                else
                  match jsmnreader_dataskip (walk_fuel reader) reader r 1 with
                  | Done r' =>
                      token_array_loop n' reader index r' (objs - 1) (i + 1)
                  | Fault => Fault
                  | Timeout => Timeout
                  end
            end
        end
    end
  else Done UINT_NEG1.

Definition jsmnreader_token_array (index offset : Z)
  (reader : jsmnreader_obj) : run Z :=
  match jsmnreader_token_get_array offset reader with
  | Fault => Fault
  | Timeout => Timeout
  | Done g =>
      if g =? UINT_NEG1 then Done UINT_NEG1
      else
        match tok_read reader offset with
        | None => Fault
        | Some t =>
            let sz := u32 (size t) in
            token_array_loop (Z.to_nat sz) reader index (offset + 1) sz 0
        end
  end.

(** [jsmnreader_token_object]: the cell [index] of the list that
    [jsmnreader_token_object_tokens] builds, or [-1]. *)
Definition jsmnreader_token_object (index offset : Z)
  (read_setting : jsmnreaderobjread_t) (reader : jsmnreader_obj) : run Z :=
  match jsmnreader_token_object_tokens offset read_setting reader with
  | Fault => Fault
  | Timeout => Timeout
  | Done arrays =>
      let arrays_size := u32 (Z.of_nat (length arrays)) in
      if (0 <? arrays_size) && (index <? arrays_size) then
        match nth_error arrays (Z.to_nat index) with
        | Some num => Done num
        | None => Fault
        end
      else Done UINT_NEG1
  end.

(** *** Typed path queries *)

(** The token that a typed path query reads after [jsmnreader_tree_get_x]:
    none when the location is [-1]; [as_int] tells whether the location is
    kept in an [int] or in an [unsigned int]. *)
Definition at_loc {A : Type} (as_int : bool) (mypath : list Z) (offset : Z)
  (reader : jsmnreader_obj) (miss : A) (k : Z -> jsmntok_t -> run A)
  : run A :=
  match jsmnreader_tree_get_x mypath offset reader with
  | Fault => Fault
  | Timeout => Timeout
  | Done loc =>
      if loc =? UINT_NEG1 then Done miss
      else
        match tok_read reader (if as_int then s32 loc else loc) with
        | None => Fault
        | Some t => k loc t
        end
  end.

Section TreeAccessors.

Variable long_bits : Z.

Definition jsmnreader_tree_get_int (mypath : list Z) (offset : Z)
  (reader : jsmnreader_obj) : run Z :=
  at_loc true mypath offset reader 0 (fun loc t =>
    if jsmntype_eqb (type t) JSMN_PRIMITIVE
    then jsmnreader_token_get_int long_bits loc reader
    else Done 0).

Definition jsmnreader_tree_get_uint (mypath : list Z) (offset : Z)
  (reader : jsmnreader_obj) : run Z :=
  at_loc true mypath offset reader 0 (fun loc t =>
    if jsmntype_eqb (type t) JSMN_PRIMITIVE
    then jsmnreader_token_get_uint long_bits loc reader
    else Done 0).

End TreeAccessors.

Definition jsmnreader_tree_get_string (mypath : list Z) (offset : Z)
  (reader : jsmnreader_obj) : run strres :=
  at_loc true mypath offset reader ZeroBlock (fun loc t =>
    if jsmntype_eqb (type t) JSMN_STRING
       || jsmntype_eqb (type t) JSMN_PRIMITIVE
    then jsmnreader_token_get_string loc reader
    else Done Unset).

Definition jsmnreader_tree_get_raw (mypath : list Z) (offset : Z)
  (reader : jsmnreader_obj) : run strres :=
  at_loc true mypath offset reader ZeroBlock (fun loc t =>
    if jsmntype_eqb (type t) JSMN_STRING
       || jsmntype_eqb (type t) JSMN_PRIMITIVE
    then jsmnreader_token_get_raw loc reader
    else Done Unset).

Definition jsmnreader_tree_get_object (mypath : list Z) (offset : Z)
  (reader : jsmnreader_obj) : run Z :=
  at_loc false mypath offset reader UINT_NEG1 (fun loc t =>
    Done (if jsmntype_eqb (type t) JSMN_OBJECT then loc else UINT_NEG1)).

Definition jsmnreader_tree_get_array (mypath : list Z) (offset : Z)
  (reader : jsmnreader_obj) : run Z :=
  at_loc false mypath offset reader UINT_NEG1 (fun loc t =>
    Done (if jsmntype_eqb (type t) JSMN_ARRAY then loc else UINT_NEG1)).

Definition jsmnreader_tree_get_any (mypath : list Z) (offset : Z)
  (reader : jsmnreader_obj) : run Z :=
  match jsmnreader_tree_get_x mypath offset reader with
  | Done loc => if loc =? UINT_NEG1 then Done UINT_NEG1 else Done loc
  | e => e
  end.


(** The segments of a path put together again, a backslash between two
    segments. *)
Fixpoint join_path (l : list (list Z)) : list Z :=
  match l with
  | [] => []
  | s :: l' =>
      match l' with
      | [] => s
      | _ => s ++ 92 :: join_path l'
      end
  end.

(** What [jsmnreader_tree_get_x] found at [loc], walking from the token
    [r0] with the segment number [i0] to match: the token at [loc] is
    there and has a type, and some key at or after [r0] has the text of the
    segment [i0]. *)
Definition found_at (reader : jsmnreader_obj) (path_list : list (list Z))
  (path_count r0 i0 loc : Z) : Prop :=
  r0 < loc
  /\ (exists v, tok_read reader loc = Some v /\ type v <> JSMN_UNDEFINED)
  /\ exists r key,
       r0 <= r /\ tok_read reader r = Some key
       /\ selected path_list path_count i0 (tok_str key reader) = Done true.

Definition loop_result_ok (reader : jsmnreader_obj)
  (path_list : list (list Z)) (path_count r0 i0 : Z) (res : run Z) : Prop :=
  match res with
  | Timeout => False
  | Fault => True
  | Done loc =>
      loc = UINT_NEG1 \/ found_at reader path_list path_count r0 i0 loc
  end.

(** The list that [jsmnreader_token_object_tokens] builds from the keys it
    passes, by the setting: the keys, the tokens after them, or both in
    turn. *)
Definition render (read_setting : jsmnreaderobjread_t) (keys : list Z)
  : list Z :=
  match read_setting with
  | JSMNR_KEYONLY => keys
  | JSMNR_ITEMONLY => map (fun r => r + 1) keys
  | JSMNR_BOTH => flat_map (fun r => [r; r + 1]) keys
  end.

Definition run_map {A B : Type} (f : A -> B) (r : run A) : run B :=
  match r with
  | Done a => Done (f a)
  | Fault => Fault
  | Timeout => Timeout
  end.

(** An element listed by [jsmnreader_token_array_tokens] for the array at
    [offset]: a token of the block after [offset] that has a type. *)
Definition listed (reader : jsmnreader_obj) (offset r : Z) : Prop :=
  offset < r < tokens_count reader
  /\ exists t, tok_read reader r = Some t /\ type t <> JSMN_UNDEFINED.

(** * Properties *)

(** ** The token block keeps its size *)

Lemma list_upd_length {A : Type} (f : A -> A) (l : list A) (i : nat) :
  length (list_upd l i f) = length l.
Proof.
  revert i; induction l as [|x l IH]; intros [|i]; simpl; auto.
Qed.

Lemma tok_set_length toks i f : length (tok_set toks i f) = length toks.
Proof. apply list_upd_length. Qed.

Lemma same_shape_refl a : same_shape a a.
Proof. destruct a; simpl; auto. Qed.

Lemma same_shape_trans a b c :
  same_shape a b -> same_shape b c -> same_shape a c.
Proof. destruct a, b, c; simpl; intros; try tauto; congruence. Qed.

Lemma alloc_length parser toks n sc ptr parser' toks' :
  Jsmn.jsmn_alloc_token parser toks n sc = (ptr, parser', toks') ->
  length toks' = length toks.
Proof.
  unfold Jsmn.jsmn_alloc_token.
  destruct (_ && _); [intros H; inversion H; auto|].
  destruct (_ <? _); [destruct (_ <? _)|];
    intros H; inversion H; auto using tok_set_length.
Qed.

Lemma parse_primitive_shape parser js len t n sc r parser' t' :
  Jsmn.jsmn_parse_primitive parser js len t n sc = Some (r, parser', t') ->
  same_shape t t'.
Proof.
  unfold Jsmn.jsmn_parse_primitive.
  destruct (Jsmn.primitive_scan _ _ _ _).
  - destruct t as [toks|]; [|intros H; inversion H; simpl; auto].
    destruct (Jsmn.jsmn_alloc_token _ _ _ _) as [[ptr p1] t1] eqn:E.
    apply alloc_length in E.
    destruct ptr; intros H; inversion H; subst; simpl;
      rewrite ?tok_set_length; auto.
  - intros H; inversion H; apply same_shape_refl.
Qed.

Lemma parse_string_shape parser js len t n sc r parser' t' :
  Jsmn.jsmn_parse_string parser js len t n sc = Some (r, parser', t') ->
  same_shape t t'.
Proof.
  unfold Jsmn.jsmn_parse_string.
  destruct (Jsmn.string_scan _ _ _ _).
  - destruct t as [toks|]; [|intros H; inversion H; simpl; auto].
    destruct (Jsmn.jsmn_alloc_token _ _ _ _) as [[ptr p1] t1] eqn:E.
    apply alloc_length in E.
    destruct ptr; intros H; inversion H; subst; simpl;
      rewrite ?tok_set_length; auto.
  - intros H; inversion H; apply same_shape_refl.
Qed.

Lemma bump_super_length parser toks :
  length (Jsmn.bump_super parser toks) = length toks.
Proof.
  unfold Jsmn.bump_super; destruct (_ =? _); auto using tok_set_length.
Qed.

Lemma case_token_shape t c count :
  (forall r p t', c = Some (r, p, t') -> same_shape t t') ->
  step_keeps_shape t (Jsmn.case_token c count).
Proof.
  intros H; unfold Jsmn.case_token.
  destruct c as [[[r p] t']|]; simpl; auto.
  specialize (H _ _ _ eq_refl).
  destruct (r <? 0); simpl; auto.
  destruct t as [l|], t' as [l'|]; simpl in *; auto.
  rewrite bump_super_length; auto.
Qed.

Lemma parse_step_shape js len n sc st :
  step_keeps_shape (Jsmn.ps_tokens st) (Jsmn.parse_step js len n sc st).
Proof.
  unfold Jsmn.parse_step.
  destruct (_ || _).
  { unfold Jsmn.case_open.
    destruct (Jsmn.ps_tokens st) as [toks|]; simpl; auto.
    destruct (Jsmn.jsmn_alloc_token _ _ _ _) as [[ptr p1] t1] eqn:E.
    apply alloc_length in E.
    destruct ptr; simpl; auto.
    destruct (_ && _); simpl; auto.
    rewrite tok_set_length, bump_super_length; auto. }
  destruct (_ || _).
  { unfold Jsmn.case_close.
    destruct (Jsmn.ps_tokens st) as [toks|] eqn:E; simpl; rewrite ?E; simpl; auto.
    destruct (_ =? _); simpl; rewrite ?E; simpl; auto.
    destruct (negb _); simpl; rewrite ?E; simpl; auto.
    rewrite tok_set_length; auto. }
  destruct (_ =? 34).
  { apply case_token_shape; intros; eapply parse_string_shape; eauto. }
  destruct (Jsmn.is_space _); [apply same_shape_refl|].
  destruct (_ =? 58); [apply same_shape_refl|].
  destruct (_ =? 44).
  { unfold Jsmn.case_comma.
    destruct (Jsmn.ps_tokens st) as [toks|] eqn:E; simpl; rewrite ?E; simpl; auto.
    destruct (_ && _); simpl; rewrite ?E; simpl; auto.
    destruct (_ =? _); simpl; rewrite ?E; simpl; auto. }
  destruct (Jsmn.is_prim_start _); [|apply same_shape_refl].
  unfold Jsmn.case_primitive.
  match goal with |- context [if ?b then _ else _] => destruct b end;
    [apply same_shape_refl|].
  apply case_token_shape; intros; eapply parse_primitive_shape; eauto.
Qed.

Lemma parse_loop_shape js len num sc n st r st' :
  Jsmn.parse_loop n js len num sc st = Some (r, st') ->
  same_shape (Jsmn.ps_tokens st) (Jsmn.ps_tokens st').
Proof.
  assert (F : forall s r' s', Jsmn.parse_finish s = (r', s') -> s' = s).
  { intros s r' s'; unfold Jsmn.parse_finish.
    destruct (Jsmn.ps_tokens s); [destruct (_ =? _)|];
      intros H; inversion H; auto. }
  revert st; induction n as [|n IH]; intros st; simpl.
  - intros H; inversion H as [H1]; apply F in H1; subst; apply same_shape_refl.
  - destruct (_ && _).
    + pose proof (parse_step_shape js len num sc st) as S.
      destruct (Jsmn.parse_step js len num sc st); simpl in S.
      * intros H; apply IH in H; simpl in H.
        eapply same_shape_trans; eauto.
      * intros H; inversion H; subst; auto.
      * discriminate.
    + intros H; inversion H as [H1]; apply F in H1; subst.
      apply same_shape_refl.
Qed.

Lemma jsmn_parse_shape parser js len t num sc r parser' t' :
  Jsmn.jsmn_parse parser js len t num sc = Some (r, parser', t') ->
  same_shape t t'.
Proof.
  unfold Jsmn.jsmn_parse.
  destruct (Jsmn.parse_loop _ _ _ _ _ _) as [[r0 st]|] eqn:E; [|discriminate].
  intros H; inversion H; subst.
  apply parse_loop_shape in E; auto.
Qed.

Lemma realloc_tokens_wf old n :
  0 <= n ->
  reader_wf (mkreader [] 0 (realloc_tokens old n) n).
Proof.
  intros Hn; unfold reader_wf, realloc_tokens; simpl.
  destruct (n =? 0) eqn:E; simpl.
  - apply Z.eqb_eq in E. destruct old; simpl; lia.
  - rewrite length_app, length_firstn, repeat_length. lia.
Qed.

Lemma loaded_wf reader : loaded reader -> reader_wf reader.
Proof.
  intros (str & sz & rd0 & r & H).
  unfold jsmnreader_load in H.
  destruct (Jsmn.jsmn_parse _ _ _ _ 2 true) as [[[check p1] toks1]|];
    [|discriminate].
  set (count := if 0 <=? check then u32 check else 2) in *.
  assert (Hc : 0 <= count).
  { unfold count, u32; destruct (0 <=? check); [|lia].
    apply Z.mod_pos_bound; lia. }
  destruct (Jsmn.jsmn_parse _ _ _ _ count false)
    as [[[check2 p2] toks3]|] eqn:E2; [|discriminate].
  apply jsmn_parse_shape in E2.
  pose proof (realloc_tokens_wf toks1 count Hc) as W.
  assert (W3 : reader_wf (mkreader str sz toks3 count)).
  { unfold reader_wf in *; simpl in *.
    destruct (realloc_tokens toks1 count), toks3; simpl in E2;
      try tauto; congruence. }
  pose proof (realloc_tokens_wf toks3 0 ltac:(lia)) as W0.
  destruct (check2 =? _); [inversion H; subst; auto|].
  destruct (check2 =? _); [inversion H; subst; exact W0|].
  destruct (check2 =? _); inversion H; subst; [exact W0|auto].
Qed.

Lemma wf_tok_read reader index :
  reader_wf reader -> 0 <= index < tokens_count reader ->
  exists t, tok_read reader index = Some t.
Proof.
  unfold reader_wf, tok_read; intros W H.
  destruct (tokens reader) as [l|]; [|lia].
  destruct (index <? 0) eqn:E; [lia|].
  destruct (nth_error l (Z.to_nat index)) eqn:N; eauto.
  apply nth_error_None in N; lia.
Qed.

(** ** Token accessors *)

Lemma with_token_in_range {A : Type} reader index (miss : A) k t :
  0 <= index < tokens_count reader ->
  tok_read reader index = Some t ->
  with_token index reader miss k = Done (k t).
Proof.
  intros H E; unfold with_token; rewrite E.
  replace (0 <? tokens_count reader) with true by (symmetry; apply Z.ltb_lt; lia).
  replace (index <? tokens_count reader) with true
    by (symmetry; apply Z.ltb_lt; lia).
  reflexivity.
Qed.

Lemma with_token_out_of_range {A : Type} reader index (miss : A) k :
  tokens_count reader <= index ->
  with_token index reader miss k = Done miss.
Proof.
  intros H; unfold with_token.
  replace (index <? tokens_count reader) with false
    by (symmetry; apply Z.ltb_ge; lia).
  rewrite andb_false_r; reflexivity.
Qed.

Lemma with_token_type {A : Type} reader index (miss : A) k :
  reader_wf reader -> 0 <= index ->
  with_token index reader miss k =
  Done (match (if index <? tokens_count reader
               then tok_read reader index else None) with
        | Some t => k t
        | None => miss
        end).
Proof.
  intros W H.
  destruct (index <? tokens_count reader) eqn:E.
  - apply Z.ltb_lt in E.
    destruct (wf_tok_read reader index W) as [t Ht]; [lia|].
    rewrite Ht; apply with_token_in_range; auto; lia.
  - apply Z.ltb_ge in E. apply with_token_out_of_range; auto.
Qed.

(** C10.  In a loaded document, [jsmnreader_token_get_object] returns the
    index when it is within the token count and the token there is an Object,
    and 4294967295 otherwise; [jsmnreader_token_get_array] does the same with
    Array.  Both are functions of the token sequence alone: the text of the
    document, on which paths are resolved, plays no part, and as functions
    they return nothing but the index, so the document is as it was. *)
Theorem token_get_object_array_spec (reader : jsmnreader_obj) (index : Z) :
  loaded reader -> 0 <= index ->
  jsmnreader_token_get_object index reader =
    Done (match type_at reader index with
          | Some JSMN_OBJECT => index
          | _ => 4294967295
          end)
  /\ jsmnreader_token_get_array index reader =
    Done (match type_at reader index with
          | Some JSMN_ARRAY => index
          | _ => 4294967295
          end)
  /\ forall buf n,
      let reader' := mkreader buf n (tokens reader) (tokens_count reader) in
      jsmnreader_token_get_object index reader'
        = jsmnreader_token_get_object index reader
      /\ jsmnreader_token_get_array index reader'
        = jsmnreader_token_get_array index reader.
Proof.
  intros L H. apply loaded_wf in L.
  unfold jsmnreader_token_get_object, jsmnreader_token_get_array.
  rewrite !with_token_type by auto.
  unfold type_at.
  replace (0 <=? index) with true by (symmetry; apply Z.leb_le; lia).
  simpl andb.
  repeat split.
  - destruct (index <? tokens_count reader); auto.
    destruct (tok_read reader index) as [t|]; simpl; auto.
    destruct (type t); reflexivity.
  - destruct (index <? tokens_count reader); auto.
    destruct (tok_read reader index) as [t|]; simpl; auto.
    destruct (type t); reflexivity.
  - rewrite with_token_type; auto.
  - rewrite with_token_type; auto.
Qed.

Lemma token_get_object_array_spec_witness :
  jsmnreader_token_get_object 2
    (load_text (text "[1,{'x':1},[2,3],4]"%string)) = Done 2
  /\ jsmnreader_token_get_array 2
    (load_text (text "[1,{'x':1},[2,3],4]"%string)) = Done 4294967295.
Proof.
  destruct (token_get_object_array_spec
              (load_text (text "[1,{'x':1},[2,3],4]"%string)) 2)
    as (Ho & Ha & _).
  - exists (text "[1,{'x':1},[2,3],4]"%string), 19, jsmnreader_init, 0.
    vm_compute. reflexivity.
  - lia.
  - split; [exact Ho | exact Ha].
Defined.

(** ** Path resolution *)

(** C2.  The code at the inputs of the claim: when the scope of
    [jsmnreader_tree_get_x] is out of the range of the token sequence of a
    loaded document, or is on a token that is neither an Object nor an Array,
    the call returns 0, the index of the root token, and not the sentinel
    4294967295 that the header promises for a failure. *)
Theorem tree_get_x_bad_scope_returns_zero (reader : jsmnreader_obj)
  (mypath : list Z) (offset : Z) :
  loaded reader -> 0 <= offset ->
  match type_at reader offset with
  | Some JSMN_OBJECT | Some JSMN_ARRAY => False
  | _ => True
  end ->
  jsmnreader_tree_get_x mypath offset reader = Done 0
  /\ 0 <> 4294967295.
Proof.
  intros L H T. apply loaded_wf in L. split; [|lia].
  unfold jsmnreader_tree_get_x, in_offset.
  rewrite with_token_type by auto.
  unfold type_at in T.
  replace (0 <=? offset) with true in T by (symmetry; apply Z.leb_le; lia).
  simpl andb in T.
  destruct (offset <? tokens_count reader); auto.
  destruct (tok_read reader offset) as [t|]; simpl in *; auto.
  destruct (type t); simpl; auto; contradiction.
Qed.

Lemma tree_get_x_bad_scope_returns_zero_witness :
  jsmnreader_tree_get_x (text "a"%string) 7
    (load_text (text "{'a':1}"%string)) = Done 0
  /\ 0 <> 4294967295.
Proof.
  apply (tree_get_x_bad_scope_returns_zero
           (load_text (text "{'a':1}"%string)) (text "a"%string) 7).
  - exists (text "{'a':1}"%string), 7, jsmnreader_init, 0.
    vm_compute. reflexivity.
  - lia.
  - vm_compute. exact I.
Defined.

Lemma u32_small x : 0 <= x < 2 ^ 32 -> u32 x = x.
Proof. intros H; unfold u32; apply Z.mod_small; auto. Qed.

Lemma selected_bounds path_list path_count i ex_txt :
  selected path_list path_count i ex_txt = Done true ->
  0 < path_count /\ i < path_count.
Proof.
  unfold selected; intros H.
  destruct (_ && _) eqn:G; [|discriminate].
  apply andb_prop in G; destruct G as [H1 H2].
  apply Z.ltb_lt in H1; apply Z.ltb_lt in H2; auto.
Qed.

(** C3, as the code has it.  When the current segment matches a key whose
    value is an Object and segments remain after it, the walk descends: the
    scope becomes that Object, the segment cursor advances by one and the
    scan goes on from the first child of the Object.  When the value is an
    Array the walk does not descend: it stops there and the result is [loc]
    as it was. *)
Theorem tree_get_x_descends_into_objects (reader : jsmnreader_obj)
  (path_list : list (list Z)) (path_count : Z) (s : xstate)
  (key v : jsmntok_t) (n : nat) :
  0 < x_objs s -> x_r s < tokens_count reader ->
  tok_read reader (x_r s) = Some key ->
  tok_read reader (x_r s + 1) = Some v ->
  selected path_list path_count (x_i s) (tok_str key reader) = Done true ->
  0 <= x_i s -> x_i s + 1 < path_count -> path_count < 2 ^ 32 ->
  (type v = JSMN_OBJECT ->
     tree_get_x_body reader path_list path_count s = Done (false, descend s v)
     /\ tree_get_x_loop (S n) reader path_list path_count s
        = tree_get_x_loop n reader path_list path_count (descend s v))
  /\ (type v = JSMN_ARRAY ->
     tree_get_x_body reader path_list path_count s = Done (true, s)
     /\ tree_get_x_loop (S n) reader path_list path_count s
        = Done (x_loc s)).
Proof.
  intros Ho Hr Hk Hv Hs Hi Hlt Hpc.
  assert (C : (0 <? x_objs s) && (x_r s <? tokens_count reader) = true).
  { apply andb_true_intro; split; apply Z.ltb_lt; lia. }
  assert (Hlast : (x_i s =? u32 (path_count - 1)) = false).
  { rewrite u32_small by lia. apply Z.eqb_neq; lia. }
  assert (Hi1 : u32 (x_i s + 1) = x_i s + 1) by (apply u32_small; lia).
  assert (Hclamp : (u32 (path_count - 1) <? u32 (x_i s + 1)) = false).
  { rewrite Hi1, u32_small by lia. apply Z.ltb_ge; lia. }
  split; intros Ht.
  - assert (B : tree_get_x_body reader path_list path_count s
                = Done (false, descend s v)).
    { unfold tree_get_x_body. rewrite Hk, Hv, Hs, Ht. simpl negb.
      cbv iota. rewrite Hlast, Hclamp, Hi1. reflexivity. }
    split; [exact B|].
    simpl. rewrite C, B. reflexivity.
  - assert (B : tree_get_x_body reader path_list path_count s
                = Done (true, s)).
    { unfold tree_get_x_body. rewrite Hk, Hv, Hs, Ht. simpl negb.
      cbv iota. rewrite Hlast. reflexivity. }
    split; [exact B|].
    simpl. rewrite C, B. reflexivity.
Qed.

Lemma tree_get_x_descends_into_objects_witness :
  let reader := load_text (text "{'a':{'b':'x'}}"%string) in
  let s := mkx 1 1 0 0 4294967295 in
  tree_get_x_body reader [text "a"%string; text "b"%string] 2 s
  = Done (false, mkx 3 1 1 2 4294967295).
Proof.
  intros reader s.
  assert (H1 : 0 < x_objs s) by (simpl; lia).
  assert (H2 : x_r s < tokens_count reader) by (vm_compute; reflexivity).
  assert (H3 : tok_read reader (x_r s) = Some (mktok JSMN_STRING 2 3 1))
    by (vm_compute; reflexivity).
  assert (H4 : tok_read reader (x_r s + 1) = Some (mktok JSMN_OBJECT 5 14 1))
    by (vm_compute; reflexivity).
  assert (H5 : selected [text "a"%string; text "b"%string] 2 (x_i s)
                 (tok_str (mktok JSMN_STRING 2 3 1) reader) = Done true)
    by (vm_compute; reflexivity).
  assert (H6 : 0 <= x_i s) by (simpl; lia).
  assert (H7 : x_i s + 1 < 2) by (simpl; lia).
  assert (H8 : 2 < 2 ^ 32) by lia.
  exact (proj1 (proj1 (tree_get_x_descends_into_objects reader
                         [text "a"%string; text "b"%string] 2 s
                         (mktok JSMN_STRING 2 3 1) (mktok JSMN_OBJECT 5 14 1)
                         0%nat H1 H2 H3 H4 H5 H6 H7 H8) eq_refl)).
Defined.

(** C3, the claim as worded fails on an Array value: in the document
    [{'a':['b','c']}] (apostrophes for quotes) with the path [a\b], the key
    [a] matches the first segment, its value is an Array and a segment
    remains, yet the walk does not descend; it stops and the call returns
    4294967295. *)
Lemma tree_get_x_array_value_not_descended :
  let reader := load_text (text "{'a':['b','c']}"%string) in
  let path_list := [text "a"%string; text "b"%string] in
  let s := mkx 1 1 0 0 4294967295 in
  jsmnreader_tree_parsepath (text "a\b"%string) = (path_list, 2)
  /\ ~ descends_on_match reader path_list 2 s
  /\ tree_get_x_body reader path_list 2 s = Done (true, s)
  /\ jsmnreader_tree_get_x (text "a\b"%string) 0 reader = Done 4294967295.
Proof.
  intros reader path_list s.
  split; [vm_compute; reflexivity|].
  split; [|split; vm_compute; reflexivity].
  intros D.
  specialize (D (mktok JSMN_STRING 2 3 1) (mktok JSMN_ARRAY 5 14 2)).
  assert (B : tree_get_x_body reader path_list 2 s = Done (true, s))
    by (vm_compute; reflexivity).
  rewrite B in D.
  assert (X : Done (true, s)
              = Done (false, descend s (mktok JSMN_ARRAY 5 14 2))).
  { apply D; vm_compute; reflexivity. }
  discriminate X.
Qed.

(** ** Text of a token *)

Lemma char_at_app pre s :
  char_at (pre ++ s) (Z.of_nat (length pre)) = hd 0 s.
Proof.
  unfold char_at. rewrite Nat2Z.id.
  rewrite app_nth2 by lia. rewrite Nat.sub_diag. destruct s; reflexivity.
Qed.

Lemma char_at_app1 pre c s :
  char_at (pre ++ c :: s) (Z.of_nat (length pre) + 1) = hd 0 s.
Proof.
  replace (pre ++ c :: s) with ((pre ++ [c]) ++ s)
    by (rewrite <- app_assoc; reflexivity).
  replace (Z.of_nat (length pre) + 1) with (Z.of_nat (length (pre ++ [c])))
    by (rewrite length_app; simpl; lia).
  apply char_at_app.
Qed.

(** The loop of [jsmnreader_extract] over a span [s] of the buffer followed
    by the byte [hd 0 post]. *)
Lemma extract_loop_spec n :
  forall pre s post,
    (length s <= n)%nat ->
    escapes_closed s = true \/ (hd 0 post <> 92 /\ hd 0 post <> 34) ->
    extract_loop n (pre ++ s ++ post) (Z.of_nat (length pre))
      (Z.of_nat (length pre) + Z.of_nat (length s))
    = unescape_drop_next s.
Proof.
  induction n as [|n IH]; intros pre s post Hn Hc.
  - destruct s; [reflexivity | simpl in Hn; lia].
  - destruct s as [|c s].
    + simpl. rewrite Z.add_0_r, Z.ltb_irrefl. reflexivity.
    + cbn [extract_loop].
      replace (Z.of_nat (length pre) <?
               Z.of_nat (length pre) + Z.of_nat (length (c :: s))) with true
        by (symmetry; apply Z.ltb_lt; simpl length; lia).
      rewrite char_at_app. cbn [hd app unescape_drop_next].
      assert (Step1 : forall k,
                 extract_loop n (pre ++ c :: s ++ post)
                   (Z.of_nat (length pre) + 1)
                   (Z.of_nat (length pre) + Z.of_nat (length (c :: s)))
                 = k ->
                 escapes_closed s = true
                 \/ (hd 0 post <> 92 /\ hd 0 post <> 34) ->
                 unescape_drop_next s = k).
      { intros k Hk Hc'. rewrite <- Hk.
        replace (pre ++ c :: s ++ post) with ((pre ++ [c]) ++ s ++ post)
          by (rewrite <- app_assoc; reflexivity).
        replace (Z.of_nat (length pre) + 1)
          with (Z.of_nat (length (pre ++ [c])))
          by (rewrite length_app; simpl; lia).
        replace (Z.of_nat (length pre) + Z.of_nat (length (c :: s)))
          with (Z.of_nat (length (pre ++ [c])) + Z.of_nat (length s))
          by (rewrite length_app; simpl length; lia).
        symmetry; apply IH; [simpl in Hn; lia | exact Hc']. }
      destruct (c =? 92) eqn:Ec; cbn [negb].
      * destruct s as [|d s].
        { (* the backslash is the last byte of the span *)
          destruct Hc as [Hc|[H92 H34]]; [simpl in Hc; rewrite Ec in Hc; discriminate|].
          rewrite char_at_app1. cbn [app hd].
          apply Z.eqb_neq in H92, H34. rewrite H92, H34.
          destruct n; simpl;
            [reflexivity|].
          replace (Z.of_nat (length pre) + 2 <? Z.of_nat (length pre) + 1)
            with false by (symmetry; apply Z.ltb_ge; lia).
          reflexivity. }
        rewrite char_at_app1. cbn [app hd].
        assert (Step2 :
                  extract_loop n (pre ++ c :: (d :: s) ++ post)
                    (Z.of_nat (length pre) + 2)
                    (Z.of_nat (length pre) + Z.of_nat (length (c :: d :: s)))
                  = unescape_drop_next s).
        { replace (pre ++ c :: (d :: s) ++ post)
            with ((pre ++ [c; d]) ++ s ++ post)
            by (rewrite <- app_assoc; reflexivity).
          replace (Z.of_nat (length pre) + 2)
            with (Z.of_nat (length (pre ++ [c; d])))
            by (rewrite length_app; simpl; lia).
          replace (Z.of_nat (length pre) + Z.of_nat (length (c :: d :: s)))
            with (Z.of_nat (length (pre ++ [c; d])) + Z.of_nat (length s))
            by (rewrite length_app; simpl length; lia).
          apply IH; [simpl in Hn; lia|].
          destruct Hc as [Hc|Hc]; [left|right; exact Hc].
          simpl in Hc; rewrite Ec in Hc; exact Hc. }
        cbn [app] in Step2. rewrite Step2.
        destruct (d =? 92); [reflexivity|].
        destruct (d =? 34); reflexivity.
      * f_equal. symmetry. eapply Step1; [reflexivity|].
        destruct Hc as [Hc|Hc]; [left|right; exact Hc].
        simpl in Hc; rewrite Ec in Hc; exact Hc.
Qed.

Lemma span_split (l : list Z) (a b : nat) :
  (a <= b)%nat -> (b <= length l)%nat ->
  l = firstn a l ++ firstn (b - a) (skipn a l) ++ skipn b l
  /\ length (firstn a l) = a
  /\ length (firstn (b - a) (skipn a l)) = (b - a)%nat.
Proof.
  intros Hab Hb. repeat split.
  - rewrite <- (firstn_skipn a l) at 1. f_equal.
    rewrite <- (firstn_skipn (b - a) (skipn a l)) at 1. f_equal.
    rewrite skipn_skipn. f_equal. lia.
  - rewrite length_firstn. lia.
  - rewrite length_firstn, length_skipn. lia.
Qed.

Lemma char_at_skipn l (b : nat) : char_at l (Z.of_nat b) = hd 0 (skipn b l).
Proof.
  unfold char_at. rewrite Nat2Z.id. revert l; induction b; intros [|x l];
    simpl; auto.
Qed.

(** The text that the accessors extract for a token. *)
Lemma tok_text_spec t reader :
  span_ok t reader ->
  tok_text t reader = unescape_drop_next (raw_text t reader).
Proof.
  intros (Hs & He & H32 & Hc).
  unfold tok_text, jsmnreader_extract, raw_text, len_of in *.
  rewrite !u32_small by lia.
  set (a := Z.to_nat (start t)). set (b := Z.to_nat (end_ t)).
  destruct (span_split (txt reader) a b) as (Hl & Ha & Hb);
    [unfold a, b; lia | unfold b; lia |].
  replace (Z.to_nat (end_ t - start t)) with (b - a)%nat in *
    by (unfold a, b; lia).
  fold a in Hc.
  set (s := firstn (b - a) (skipn a (txt reader))) in *.
  rewrite Hl at 1.
  replace (start t) with (Z.of_nat (length (firstn a (txt reader))))
    by (rewrite Ha; unfold a; lia).
  replace (end_ t) with
    (Z.of_nat (length (firstn a (txt reader))) + Z.of_nat (length s))
    by (rewrite Ha, Hb; unfold a, b; lia).
  apply extract_loop_spec; [lia|].
  destruct Hc as [Hc|Hc]; [left; exact Hc|right].
  replace (end_ t) with (Z.of_nat b) in Hc by (unfold b; lia).
  rewrite char_at_skipn in Hc. exact Hc.
Qed.

Lemma tok_str_block t reader :
  tok_str t reader = as_block (tok_text t reader).
Proof. reflexivity. Qed.

Lemma as_block_str s : s <> [] -> as_block s = Str s.
Proof. destruct s; [contradiction|reflexivity]. Qed.

Lemma unescape_drop_next_plain s :
  ~ In 92 s -> unescape_drop_next s = s /\ escapes_closed s = true.
Proof.
  induction s as [|c s IH]; intros H; [split; reflexivity|].
  simpl. destruct (c =? 92) eqn:E.
  - apply Z.eqb_eq in E. exfalso; apply H; left; auto.
  - destruct IH as [I1 I2]; [intros X; apply H; right; auto|].
    rewrite I1, I2; split; reflexivity.
Qed.

Lemma list_eqb_eq a b : list_eqb a b = true <-> a = b.
Proof.
  revert b; induction a as [|x a IH]; intros [|y b]; simpl;
    try (split; [discriminate | congruence]); [tauto|].
  rewrite andb_true_iff, Z.eqb_eq, IH.
  split; [intros [H1 H2]; subst; reflexivity|].
  intros H; inversion H; auto.
Qed.

(** The block returned for a String or Primitive token whose span is as
    [span_ok] says, in any reader. *)
Lemma get_string_of_span (reader : jsmnreader_obj) (index : Z)
  (t : jsmntok_t) :
  0 <= index < tokens_count reader ->
  tok_read reader index = Some t ->
  type t = JSMN_STRING \/ type t = JSMN_PRIMITIVE ->
  span_ok t reader ->
  jsmnreader_token_get_string index reader
  = Done (as_block (unescape_drop_next (raw_text t reader))).
Proof.
  intros Hi Ht Hty Hs.
  unfold jsmnreader_token_get_string.
  rewrite (with_token_in_range _ _ _ _ t) by auto.
  rewrite tok_str_block, tok_text_spec by auto.
  destruct Hty as [E|E]; rewrite E; reflexivity.
Qed.

(** C4, the claim as worded fails: in the document [['a\nb']] (apostrophes
    for quotes) the text of the string token is [a\nb]; the specification
    drops the backslash and keeps the [n], the code drops both. *)
Lemma token_get_string_drops_escaped_char :
  let reader := load_text (text "['a\nb']"%string) in
  tok_read reader 1 = Some (mktok JSMN_STRING 2 6 0)
  /\ raw_text (mktok JSMN_STRING 2 6 0) reader = text "a\nb"%string
  /\ unescape_keep_next (text "a\nb"%string) = text "anb"%string
  /\ jsmnreader_token_get_string 1 reader = Done (Str (text "ab"%string))
  /\ jsmnreader_token_get_string 1 reader
     <> Done (Str (unescape_keep_next
                     (raw_text (mktok JSMN_STRING 2 6 0) reader))).
Proof.
  vm_compute. repeat split; discriminate.
Qed.

(** ** Integer of a primitive *)

Lemma s32_small x : - 2 ^ 31 <= x < 2 ^ 31 -> s32 x = x.
Proof.
  intros H; unfold s32.
  destruct (Z_lt_le_dec x 0).
  - replace (x mod 2 ^ 32) with (x + 2 ^ 32).
    + replace (x + 2 ^ 32 <? 2 ^ 31) with false
        by (symmetry; apply Z.ltb_ge; lia). lia.
    + apply Z.mod_unique with (q := -1); lia.
  - rewrite Z.mod_small by lia.
    replace (x <? 2 ^ 31) with true by (symmetry; apply Z.ltb_lt; lia).
    reflexivity.
Qed.

Lemma long_range long_bits :
  32 <= long_bits -> 2 ^ 31 <= 2 ^ (long_bits - 1).
Proof. intros H. apply Z.pow_le_mono_r; lia. Qed.

Lemma strtol_non_numeric long_bits s :
  32 <= long_bits -> starts_numeric s = false -> strtol long_bits s = 0.
Proof.
  intros Hl H. pose proof (long_range long_bits Hl) as R.
  unfold strtol, starts_numeric in *.
  assert (V : match skip_spaces s with
              | [] => 0
              | c :: s2 =>
                  if c =? 45 then - digits_value 0 s2
                  else if c =? 43 then digits_value 0 s2
                  else digits_value 0 (skip_spaces s)
              end = 0).
  { destruct (skip_spaces s) as [|c r]; [reflexivity|].
    destruct (c =? 45) eqn:E1; simpl in H.
    - destruct r as [|d r]; [reflexivity|]. simpl. rewrite H. reflexivity.
    - destruct (c =? 43) eqn:E2; simpl in H.
      + destruct r as [|d r]; [reflexivity|]. simpl. rewrite H. reflexivity.
      + simpl. rewrite H. reflexivity. }
  rewrite V. lia.
Qed.

(** C7, the claim as worded fails on a primitive with a backslash: in the
    document [[1\x2]] the raw text of the primitive is [1\x2], whose base-10
    conversion is 1; the code converts the extracted text [12] and returns
    12. *)
Lemma token_get_int_not_of_raw_text :
  let reader := load_text (text "[1\x2]"%string) in
  jsmnreader_load (text "[1\x2]"%string) 6 jsmnreader_init
  = Some (JSMN_SUCCESS, reader)
  /\ tok_read reader 1 = Some (mktok JSMN_PRIMITIVE 1 5 0)
  /\ raw_text (mktok JSMN_PRIMITIVE 1 5 0) reader = text "1\x2"%string
  /\ int_of_text 64 (text "1\x2"%string) = 1
  /\ jsmnreader_token_get_int 64 1 reader = Done 12
  /\ jsmnreader_token_get_int 64 1 reader
     <> Done (int_of_text 64 (raw_text (mktok JSMN_PRIMITIVE 1 5 0) reader)).
Proof.
  vm_compute. repeat split; discriminate.
Qed.

(** ** Loading *)

(** C5, as the code has it.  The text [{'a':}] (apostrophes for quotes) is
    accepted: [jsmnreader_load] returns [JSMN_SUCCESS] with two tokens, the
    Object with one child and the String [a]; the tokenizer has no check
    for a key without a value.  The truncated text [{'a':1] fails with
    [JSMN_ERROR_PART] and leaves no token. *)
Theorem load_missing_value_and_truncated :
  jsmnreader_load (text "{'a':}"%string) 6 jsmnreader_init
  = Some (JSMN_SUCCESS,
          mkreader (text "{'a':}"%string) 6
            (Some [mktok JSMN_OBJECT 0 6 1; mktok JSMN_STRING 2 3 0]) 2)
  /\ jsmnreader_load (text "{'a':1"%string) 6 jsmnreader_init
  = Some (JSMN_ERROR_PART, mkreader (text "{'a':1"%string) 6 None 0).
Proof. split; vm_compute; reflexivity. Qed.

(** C5, the claim as worded fails: loading [{'a':}] does not return
    [JSMN_ERROR_INVAL]. *)
Lemma load_missing_value_not_invalid :
  ~ exists reader,
      jsmnreader_load (text "{'a':}"%string) 6 jsmnreader_init
      = Some (JSMN_ERROR_INVAL, reader).
Proof.
  intros [reader H].
  destruct load_missing_value_and_truncated as [E _].
  rewrite E in H. discriminate H.
Qed.

(** C6, the code at the failing input [[1,2,3].  The sizing pass fails on the
    unfinished primitive, so the fill pass runs on the two cells of the
    fallback count and runs out of them: [jsmnreader_load] returns
    [JSMN_ERROR_NOMEM] and, unlike the two other error paths, leaves the
    token count at 2 with the two tokens written so far, which the queries
    then see. *)
Theorem load_nomem_keeps_tokens :
  let reader :=
    mkreader (text "[1,2,3"%string) 6
      (Some [mktok JSMN_ARRAY 0 (-1) 1; mktok JSMN_PRIMITIVE 1 2 0]) 2 in
  jsmnreader_load (text "[1,2,3"%string) 6 jsmnreader_init
  = Some (JSMN_ERROR_NOMEM, reader)
  /\ tokens_count reader = 2
  /\ jsmnreader_token_get_array 0 reader = Done 0
  /\ jsmnreader_token_get_int 64 1 reader = Done 1.
Proof. vm_compute. repeat split; reflexivity. Qed.

(** ** Enumerators *)

(** C8.  The children of the Object of [{'a':1,'b':2}] (apostrophes for
    quotes): the two keys under [JSMNR_KEYONLY], the two values under
    [JSMNR_ITEMONLY], and under [JSMNR_BOTH] the four indices, each key
    followed by its value, in the order of the text. *)
Theorem object_tokens_of_two_pairs :
  let reader := load_text (text "{'a':1,'b':2}"%string) in
  jsmnreader_load (text "{'a':1,'b':2}"%string) 13 jsmnreader_init
  = Some (JSMN_SUCCESS, reader)
  /\ jsmnreader_token_get_object 0 reader = Done 0
  /\ jsmnreader_token_object_tokens 0 JSMNR_KEYONLY reader = Done [1; 3]
  /\ jsmnreader_token_object_tokens 0 JSMNR_ITEMONLY reader = Done [2; 4]
  /\ jsmnreader_token_object_tokens 0 JSMNR_BOTH reader = Done [1; 2; 3; 4]
  /\ map (fun i => (type_at reader i, jsmnreader_token_get_string i reader))
       [1; 2; 3; 4]
     = [(Some JSMN_STRING, Done (Str (text "a"%string)));
        (Some JSMN_PRIMITIVE, Done (Str (text "1"%string)));
        (Some JSMN_STRING, Done (Str (text "b"%string)));
        (Some JSMN_PRIMITIVE, Done (Str (text "2"%string)))].
Proof. vm_compute. repeat split; reflexivity. Qed.

(** C9.  The children of the Array of [[1,{'x':1},[2,3],4]] (apostrophes
    for quotes): four indices, one for each element in the order of the
    text; the nested Object and Array are given by the index of their own
    token, and the tokens inside them, skipped by [jsmnreader_dataskip],
    give no entry. *)
Theorem array_tokens_of_nested_array :
  let reader := load_text (text "[1,{'x':1},[2,3],4]"%string) in
  jsmnreader_load (text "[1,{'x':1},[2,3],4]"%string) 19 jsmnreader_init
  = Some (JSMN_SUCCESS, reader)
  /\ tokens_count reader = 9
  /\ jsmnreader_token_array_tokens 0 reader = Done ([1; 2; 5; 8], 4)
  /\ map (type_at reader) [1; 2; 5; 8]
     = [Some JSMN_PRIMITIVE; Some JSMN_OBJECT; Some JSMN_ARRAY;
        Some JSMN_PRIMITIVE]
  /\ jsmnreader_dataskip (walk_fuel reader) reader 2 0 = Done 5
  /\ jsmnreader_dataskip (walk_fuel reader) reader 5 1 = Done 8.
Proof. vm_compute. repeat split; reflexivity. Qed.

(** ** The main loop and its variant *)

Ltac to_prop :=
  repeat match goal with
    | H : _ && _ = true |- _ => apply andb_prop in H; destruct H
    | H : _ || _ = true |- _ => apply orb_prop in H; destruct H
    | H : _ || _ = false |- _ => apply orb_false_elim in H; destruct H
    | H : negb _ = true |- _ => apply negb_true_iff in H
    | H : negb _ = false |- _ => apply negb_false_iff in H
    | H : (_ =? _) = true |- _ => apply Z.eqb_eq in H
    | H : (_ =? _) = false |- _ => apply Z.eqb_neq in H
    | H : (_ <? _) = true |- _ => apply Z.ltb_lt in H
    | H : (_ <? _) = false |- _ => apply Z.ltb_ge in H
    | H : (_ <=? _) = true |- _ => apply Z.leb_le in H
    | H : (_ <=? _) = false |- _ => apply Z.leb_gt in H
    end.

Lemma prim_start_not_end c :
  Jsmn.is_prim_start c = true -> Jsmn.is_prim_end c = false.
Proof.
  unfold Jsmn.is_prim_start, Jsmn.is_prim_end; intros H.
  destruct ((c =? 9) || (c =? 13) || (c =? 10) || (c =? 32) || (c =? 44) ||
            (c =? 93) || (c =? 125)) eqn:E; [|reflexivity].
  exfalso. to_prop; lia.
Qed.

Lemma hex_scan_pos i js len :
  forall p q, Jsmn.hex_scan i js len p = Some q -> p <= q.
Proof.
  induction i as [|i IH]; simpl; intros p q H.
  - inversion H; lia.
  - destruct (_ && _); [|inversion H; lia].
    destruct (Jsmn.is_hex _); [|discriminate].
    apply IH in H; lia.
Qed.

Lemma escape_scan_pos js len p q :
  Jsmn.escape_scan js len p = Some q -> p <= q.
Proof.
  unfold Jsmn.escape_scan.
  destruct (Jsmn.is_simple_escape _); [intros H; inversion H; lia|].
  destruct (_ =? 117); [|discriminate].
  destruct (Jsmn.hex_scan 4 js len (p + 1)) eqn:E; [|discriminate].
  apply hex_scan_pos in E. intros H; inversion H; lia.
Qed.

Lemma string_scan_pos n js len :
  forall p q, Jsmn.string_scan n js len p = Jsmn.Found q -> p <= q.
Proof.
  induction n as [|n IH]; simpl; intros p q H; [discriminate|].
  destruct (_ && _); [|discriminate].
  destruct (_ =? 34); [inversion H; lia|].
  destruct (_ && _).
  - destruct (Jsmn.escape_scan js len (p + 1)) eqn:E; [|discriminate].
    apply escape_scan_pos in E. apply IH in H. lia.
  - apply IH in H. lia.
Qed.

Lemma primitive_scan_pos n js len :
  forall p q,
    Jsmn.primitive_scan n js len p = Jsmn.Found q ->
    Jsmn.is_prim_end (char_at js p) = false -> p < q.
Proof.
  induction n as [|n IH]; simpl; intros p q H E; [discriminate|].
  destruct (_ && _); [|discriminate].
  rewrite E in H.
  destruct (_ || _); [discriminate|].
  destruct n as [|n]; [discriminate|].
  destruct (Jsmn.is_prim_end (char_at js (p + 1))) eqn:E1.
  - simpl in H. destruct (_ && _); [|discriminate].
    rewrite E1 in H. inversion H; lia.
  - apply IH in H; auto. lia.
Qed.

Lemma string_scan_failed n js len :
  forall p err, Jsmn.string_scan n js len p = Jsmn.Failed err -> err < 0.
Proof.
  induction n as [|n IH]; simpl; intros p err H.
  - inversion H; unfold JSMN_ERROR_PART; lia.
  - destruct (_ && _); [|inversion H; unfold JSMN_ERROR_PART; lia].
    destruct (_ =? 34); [discriminate|].
    destruct (_ && _); [|eapply IH; eauto].
    destruct (Jsmn.escape_scan js len (p + 1)); [eapply IH; eauto|].
    inversion H; unfold JSMN_ERROR_INVAL; lia.
Qed.

Lemma primitive_scan_failed n js len :
  forall p err, Jsmn.primitive_scan n js len p = Jsmn.Failed err -> err < 0.
Proof.
  induction n as [|n IH]; simpl; intros p err H.
  - inversion H; unfold JSMN_ERROR_PART; lia.
  - destruct (_ && _); [|inversion H; unfold JSMN_ERROR_PART; lia].
    destruct (Jsmn.is_prim_end _); [discriminate|].
    destruct (_ || _); [inversion H; unfold JSMN_ERROR_INVAL; lia|].
    eapply IH; eauto.
Qed.

Lemma alloc_pos parser toks n sc ptr parser' toks' :
  Jsmn.jsmn_alloc_token parser toks n sc = (ptr, parser', toks') ->
  pos parser' = pos parser /\ toksuper parser' = toksuper parser.
Proof.
  unfold Jsmn.jsmn_alloc_token.
  destruct (_ && _); [intros H; inversion H; auto|].
  destruct (_ <? _); [destruct (_ <? _)|]; intros H; inversion H; auto.
Qed.

Lemma case_token_pos p c count :
  (forall r q t', c = Some (r, q, t') -> 0 <= r -> p <= pos q) ->
  step_moves_on p (Jsmn.case_token c count).
Proof.
  intros H; unfold Jsmn.case_token.
  destruct c as [[[r q] t']|]; simpl; auto.
  destruct (r <? 0) eqn:E; simpl; auto.
  apply Z.ltb_ge in E. eapply H; eauto.
Qed.

Lemma parse_step_pos js len num sc st :
  step_moves_on (pos (Jsmn.ps_parser st)) (Jsmn.parse_step js len num sc st).
Proof.
  unfold Jsmn.parse_step.
  destruct (_ || _).
  { unfold Jsmn.case_open.
    destruct (Jsmn.ps_tokens st) as [toks|]; simpl; [|lia].
    destruct (Jsmn.jsmn_alloc_token _ _ _ _) as [[ptr p1] t1] eqn:E.
    apply alloc_pos in E. destruct E as [E _].
    destruct ptr; simpl; auto.
    destruct (_ && _); simpl; auto. lia. }
  destruct (_ || _).
  { unfold Jsmn.case_close.
    destruct (Jsmn.ps_tokens st) as [toks|]; simpl; [|lia].
    destruct (_ =? _); simpl; auto.
    destruct (negb _); simpl; auto. lia. }
  destruct (_ =? 34).
  { apply case_token_pos. intros r q t'.
    unfold Jsmn.jsmn_parse_string.
    destruct (Jsmn.string_scan _ _ _ _) as [p|err] eqn:S.
    - apply string_scan_pos in S.
      destruct (Jsmn.ps_tokens st) as [toks|].
      + destruct (Jsmn.jsmn_alloc_token _ _ _ _) as [[ptr p1] t1] eqn:E.
        apply alloc_pos in E. destruct E as [E _]. simpl in E.
        destruct ptr; intros H; inversion H; subst; simpl; try lia.
        unfold JSMN_ERROR_NOMEM; lia.
      + intros H; inversion H; subst; simpl; lia.
    - apply string_scan_failed in S.
      intros H; inversion H; subst. lia. }
  destruct (Jsmn.is_space _); [simpl; lia|].
  destruct (_ =? 58); [simpl; lia|].
  destruct (_ =? 44).
  { unfold Jsmn.case_comma.
    destruct (Jsmn.ps_tokens st) as [toks|]; simpl; [|lia].
    destruct (_ && _); simpl; [|lia].
    destruct (_ =? _); simpl; lia. }
  destruct (Jsmn.is_prim_start _) eqn:PS; [|exact I].
  apply prim_start_not_end in PS.
  unfold Jsmn.case_primitive.
  match goal with |- context [if ?b then _ else _] => destruct b end;
    [exact I|].
  apply case_token_pos. intros r q t'.
  unfold Jsmn.jsmn_parse_primitive.
  destruct (Jsmn.primitive_scan _ _ _ _) as [p|err] eqn:S.
  - apply primitive_scan_pos in S; auto.
    destruct (Jsmn.ps_tokens st) as [toks|].
    + destruct (Jsmn.jsmn_alloc_token _ _ _ _) as [[ptr p1] t1] eqn:E.
      apply alloc_pos in E. destruct E as [E _]. simpl in E.
      destruct ptr; intros H; inversion H; subst; simpl; try lia.
      unfold JSMN_ERROR_NOMEM; lia.
    + intros H; inversion H; subst; simpl; lia.
  - apply primitive_scan_failed in S.
    intros H; inversion H; subst. lia.
Qed.

Lemma parse_loop_fuel js len num sc :
  forall n m st,
    (Jsmn.variant len (pos (Jsmn.ps_parser st)) <= n)%nat ->
    (Jsmn.variant len (pos (Jsmn.ps_parser st)) <= m)%nat ->
    Jsmn.parse_loop n js len num sc st = Jsmn.parse_loop m js len num sc st.
Proof.
  assert (E : forall k st,
             (Jsmn.variant len (pos (Jsmn.ps_parser st)) <= 0)%nat ->
             Jsmn.parse_loop k js len num sc st
             = Some (Jsmn.parse_finish st)).
  { intros [|k] st H; simpl; [reflexivity|].
    replace (pos (Jsmn.ps_parser st) <? len) with false; [reflexivity|].
    symmetry; apply Z.ltb_ge. unfold Jsmn.variant in H. lia. }
  induction n as [|n IH]; intros m st Hn Hm.
  - rewrite (E 0%nat), (E m); auto.
  - destruct m as [|m]; [rewrite (E (S n)), (E 0%nat); auto|].
    simpl.
    destruct (pos (Jsmn.ps_parser st) <? len) eqn:C; [|reflexivity].
    apply Z.ltb_lt in C. simpl.
    destruct (negb _); [|reflexivity].
    pose proof (parse_step_pos js len num sc st) as P.
    destruct (Jsmn.parse_step js len num sc st) as [st'| |]; auto.
    simpl in P. unfold Jsmn.variant in *.
    apply IH; simpl; lia.
Qed.

Lemma parse_from_step js num sc st :
  pos (Jsmn.ps_parser st) < len_of js ->
  char_at js (pos (Jsmn.ps_parser st)) <> 0 ->
  parse_from js num sc st
  = match Jsmn.parse_step js (len_of js) num sc st with
    | Jsmn.Next st' => parse_from js num sc (Jsmn.next_char st')
    | Jsmn.Stop r st' => Some (r, st')
    | Jsmn.Wild => None
    end.
Proof.
  intros Hp Hc. unfold parse_from.
  destruct (Jsmn.variant (len_of js) (pos (Jsmn.ps_parser st))) as [|n] eqn:V;
    [unfold Jsmn.variant in V; lia|].
  simpl.
  replace (pos (Jsmn.ps_parser st) <? len_of js) with true
    by (symmetry; apply Z.ltb_lt; auto).
  replace (char_at js (pos (Jsmn.ps_parser st)) =? 0) with false
    by (symmetry; apply Z.eqb_neq; auto).
  simpl.
  pose proof (parse_step_pos js (len_of js) num sc st) as P.
  destruct (Jsmn.parse_step js (len_of js) num sc st) as [st'| |]; auto.
  simpl in P. apply parse_loop_fuel; unfold Jsmn.variant in *; simpl; lia.
Qed.

Lemma parse_from_end js num sc st :
  len_of js <= pos (Jsmn.ps_parser st) ->
  parse_from js num sc st = Some (Jsmn.parse_finish st).
Proof.
  intros H. unfold parse_from.
  replace (Jsmn.variant (len_of js) (pos (Jsmn.ps_parser st))) with 0%nat
    by (unfold Jsmn.variant; lia).
  reflexivity.
Qed.

(** ** The sizing run follows any run that ends with a count *)

Lemma case_token_null_follows c c0 count :
  (forall r q t',
      c = Some (r, q, t') -> 0 <= r ->
      exists q0, c0 = Some (0, q0, None) /\ pos q0 = pos q) ->
  match Jsmn.case_token c count with
  | Jsmn.Next st1 =>
      exists p1,
        Jsmn.case_token c0 count = Jsmn.Next (null_state p1 (Jsmn.ps_count st1))
        /\ pos p1 = pos (Jsmn.ps_parser st1)
  | Jsmn.Stop r _ => r < 0
  | Jsmn.Wild => True
  end.
Proof.
  intros H. unfold Jsmn.case_token at 1.
  destruct c as [[[r q] t']|]; auto.
  destruct (r <? 0) eqn:E; [apply Z.ltb_lt in E; auto|].
  apply Z.ltb_ge in E.
  destruct (H _ _ _ eq_refl E) as (q0 & -> & Hq).
  exists q0. simpl. split; auto.
Qed.

Lemma null_step_follows js len num sc num' sc' st p0 :
  pos p0 = pos (Jsmn.ps_parser st) ->
  match Jsmn.parse_step js len num sc st with
  | Jsmn.Next st1 =>
      exists p1,
        Jsmn.parse_step js len num' sc' (null_state p0 (Jsmn.ps_count st))
        = Jsmn.Next (null_state p1 (Jsmn.ps_count st1))
        /\ pos p1 = pos (Jsmn.ps_parser st1)
  | Jsmn.Stop r _ => r < 0
  | Jsmn.Wild => True
  end.
Proof.
  intros Hp. unfold Jsmn.parse_step. simpl. rewrite Hp.
  destruct (_ || _).
  { unfold Jsmn.case_open. simpl.
    destruct (Jsmn.ps_tokens st) as [toks|]; [|exists p0; auto].
    destruct (Jsmn.jsmn_alloc_token _ _ _ _) as [[ptr p1] t1] eqn:E.
    apply alloc_pos in E. destruct E as [E _].
    destruct ptr; auto; [unfold JSMN_ERROR_NOMEM; lia|].
    destruct (_ && _); [unfold JSMN_ERROR_INVAL; lia|].
    exists p0. simpl. split; auto. lia. }
  destruct (_ || _).
  { unfold Jsmn.case_close. simpl.
    destruct (Jsmn.ps_tokens st) as [toks|]; [|exists p0; auto].
    destruct (_ =? _); [unfold JSMN_ERROR_INVAL; lia|].
    destruct (negb _); [unfold JSMN_ERROR_INVAL; lia|].
    exists p0. simpl. auto. }
  destruct (_ =? 34).
  { apply case_token_null_follows. intros r q t'.
    unfold Jsmn.jsmn_parse_string. rewrite Hp.
    destruct (Jsmn.string_scan _ _ _ _) as [p|err] eqn:S.
    - intros H Hr. exists (set_pos p0 p). split; [reflexivity|].
      destruct (Jsmn.ps_tokens st) as [toks|].
      + destruct (Jsmn.jsmn_alloc_token _ _ _ _) as [[ptr p1] t1] eqn:E.
        apply alloc_pos in E. destruct E as [E _]. simpl in E.
        destruct ptr; inversion H; subst; simpl; auto.
        unfold JSMN_ERROR_NOMEM in Hr; lia.
      + inversion H; subst; reflexivity.
    - apply string_scan_failed in S.
      intros H; inversion H; subst. lia. }
  destruct (Jsmn.is_space _); [exists p0; auto|].
  destruct (_ =? 58); [eexists; split; [reflexivity|simpl; auto]|].
  destruct (_ =? 44).
  { unfold Jsmn.case_comma. simpl.
    destruct (Jsmn.ps_tokens st) as [toks|]; [|exists p0; auto].
    destruct (_ && _); [|exists p0; auto].
    destruct (_ =? _); exists p0; auto. }
  destruct (Jsmn.is_prim_start _) eqn:PS; [|unfold JSMN_ERROR_INVAL; lia].
  unfold Jsmn.case_primitive. simpl.
  match goal with |- context [if ?b then Jsmn.Stop _ _ else _] => destruct b end;
    [unfold JSMN_ERROR_INVAL; lia|].
  apply case_token_null_follows. intros r q t'.
  unfold Jsmn.jsmn_parse_primitive. rewrite Hp.
  destruct (Jsmn.primitive_scan _ _ _ _) as [p|err] eqn:S.
  - intros H Hr. exists (set_pos p0 (p - 1)). split; [reflexivity|].
    destruct (Jsmn.ps_tokens st) as [toks|].
    + destruct (Jsmn.jsmn_alloc_token _ _ _ _) as [[ptr p1] t1] eqn:E.
      destruct ptr; inversion H; subst; simpl; auto.
      unfold JSMN_ERROR_NOMEM in Hr; lia.
    + inversion H; subst; reflexivity.
  - apply primitive_scan_failed in S.
    intros H; inversion H; subst. lia.
Qed.

Lemma null_loop_follows js len num sc num' sc' :
  forall n st r st' p0,
    Jsmn.parse_loop n js len num sc st = Some (r, st') ->
    0 <= r ->
    pos p0 = pos (Jsmn.ps_parser st) ->
    exists st0,
      Jsmn.parse_loop n js len num' sc' (null_state p0 (Jsmn.ps_count st))
      = Some (r, st0).
Proof.
  assert (F : forall st r st' p0,
             Jsmn.parse_finish st = (r, st') -> 0 <= r ->
             exists st0,
               Jsmn.parse_finish (null_state p0 (Jsmn.ps_count st))
               = (r, st0)).
  { intros st r st' p0. unfold Jsmn.parse_finish. simpl.
    destruct (Jsmn.ps_tokens st).
    - destruct (_ =? _); intros H Hr; inversion H; subst; eauto.
      unfold JSMN_ERROR_PART in Hr; lia.
    - intros H _; inversion H; subst; eauto. }
  induction n as [|n IH]; intros st r st' p0 H Hr Hp; simpl in *.
  - inversion H as [H1]. destruct (F _ _ _ p0 H1 Hr) as [st0 ->]. eauto.
  - rewrite Hp.
    destruct (_ && _).
    + pose proof (null_step_follows js len num sc num' sc' st p0 Hp) as S.
      destruct (Jsmn.parse_step js len num sc st) as [st1|r1 st1|].
      * destruct S as (p1 & -> & Hp1).
        apply (IH _ _ _ (set_pos p1 (pos p1 + 1))) in H; auto.
        simpl. rewrite Hp1. reflexivity.
      * inversion H; subst. lia.
      * discriminate.
    + inversion H as [H1]. destruct (F _ _ _ p0 H1 Hr) as [st0 ->]. eauto.
Qed.

(** ** Sizing mode on a block with room *)

Lemma alloc_sizecheck parser toks num ptr parser' toks' :
  Jsmn.jsmn_alloc_token parser toks num false = (ptr, parser', toks') ->
  ptr <> Jsmn.NullPtr ->
  Jsmn.jsmn_alloc_token parser toks num true = (ptr, parser', toks').
Proof.
  unfold Jsmn.jsmn_alloc_token. simpl.
  destruct (num <=? toknext parser) eqn:E.
  - intros H; inversion H; subst. congruence.
  - apply Z.leb_gt in E.
    replace (toknext parser <? num) with true
      by (symmetry; apply Z.ltb_lt; auto).
    auto.
Qed.

Lemma case_token_sizecheck c c' count :
  (forall r q t', c = Some (r, q, t') -> r <> JSMN_ERROR_NOMEM -> c' = c) ->
  not_nomem (Jsmn.case_token c count) ->
  Jsmn.case_token c count <> Jsmn.Wild ->
  Jsmn.case_token c' count = Jsmn.case_token c count.
Proof.
  intros H. unfold Jsmn.case_token at 1 2.
  destruct c as [[[r q] t']|]; [|simpl; congruence].
  destruct (r <? 0) eqn:E; simpl; intros N _.
  - rewrite (H _ _ _ eq_refl N). reflexivity.
  - rewrite (H _ _ _ eq_refl); [reflexivity|].
    apply Z.ltb_ge in E. unfold JSMN_ERROR_NOMEM. lia.
Qed.

Lemma parse_step_sizecheck js len num st :
  not_nomem (Jsmn.parse_step js len num false st) ->
  Jsmn.parse_step js len num false st <> Jsmn.Wild ->
  Jsmn.parse_step js len num true st = Jsmn.parse_step js len num false st.
Proof.
  unfold Jsmn.parse_step.
  destruct (_ || _).
  { unfold Jsmn.case_open.
    destruct (Jsmn.ps_tokens st) as [toks|]; [|reflexivity].
    destruct (Jsmn.jsmn_alloc_token _ _ _ false) as [[ptr p1] t1] eqn:E.
    destruct ptr; simpl; try congruence.
    apply alloc_sizecheck in E; [|discriminate]. rewrite E. reflexivity. }
  destruct (_ || _); [reflexivity|].
  destruct (_ =? 34).
  { apply case_token_sizecheck. intros r q t'.
    unfold Jsmn.jsmn_parse_string.
    destruct (Jsmn.string_scan _ _ _ _) as [p|err]; [|reflexivity].
    destruct (Jsmn.ps_tokens st) as [toks|]; [|reflexivity].
    destruct (Jsmn.jsmn_alloc_token _ _ _ false) as [[ptr p1] t1] eqn:E.
    destruct ptr; intros H N; inversion H; subst; try congruence.
    apply alloc_sizecheck in E; [|discriminate]. rewrite E. reflexivity. }
  destruct (Jsmn.is_space _); [reflexivity|].
  destruct (_ =? 58); [reflexivity|].
  destruct (_ =? 44); [reflexivity|].
  destruct (Jsmn.is_prim_start _); [|reflexivity].
  unfold Jsmn.case_primitive.
  match goal with |- context [if ?b then Jsmn.Stop _ _ else _] => destruct b end;
    [reflexivity|].
  apply case_token_sizecheck. intros r q t'.
  unfold Jsmn.jsmn_parse_primitive.
  destruct (Jsmn.primitive_scan _ _ _ _) as [p|err]; [|reflexivity].
  destruct (Jsmn.ps_tokens st) as [toks|]; [|reflexivity].
  destruct (Jsmn.jsmn_alloc_token _ _ _ false) as [[ptr p1] t1] eqn:E.
  destruct ptr; intros H N; inversion H; subst; try congruence.
  apply alloc_sizecheck in E; [|discriminate]. rewrite E. reflexivity.
Qed.

Lemma parse_loop_sizecheck js len num :
  forall n st r st',
    Jsmn.parse_loop n js len num false st = Some (r, st') ->
    r <> JSMN_ERROR_NOMEM ->
    Jsmn.parse_loop n js len num true st = Some (r, st').
Proof.
  induction n as [|n IH]; intros st r st' H N; simpl in *; [exact H|].
  destruct (_ && _); [|exact H].
  rewrite parse_step_sizecheck.
  - destruct (Jsmn.parse_step js len num false st); auto.
  - destruct (Jsmn.parse_step js len num false st); simpl; auto.
    inversion H; subst; auto.
  - destruct (Jsmn.parse_step js len num false st); congruence.
Qed.

(** ** Cells of the block *)

Lemma nth_list_upd_same {A : Type} (f : A -> A) (d : A) :
  forall l i, (i < length l)%nat -> nth i (list_upd l i f) d = f (nth i l d).
Proof.
  induction l as [|x l IH]; intros [|i] H; simpl in *; try lia; auto.
  apply IH; lia.
Qed.

Lemma nth_list_upd_other {A : Type} (f : A -> A) (d : A) :
  forall l i j, i <> j -> nth j (list_upd l i f) d = nth j l d.
Proof.
  induction l as [|x l IH]; intros [|i] [|j] H; simpl in *; auto;
    try congruence.
Qed.

Lemma tok_at_set_same T i f :
  0 <= i < Z.of_nat (length T) ->
  tok_at (tok_set T i f) i = f (tok_at T i).
Proof.
  intros H; unfold tok_at, tok_set. apply nth_list_upd_same. lia.
Qed.

Lemma tok_at_set_other T i j f :
  0 <= i -> 0 <= j -> i <> j ->
  tok_at (tok_set T i f) j = tok_at T j.
Proof.
  intros Hi Hj H; unfold tok_at, tok_set. apply nth_list_upd_other. lia.
Qed.

Lemma frame_refl k T : frame k T T.
Proof. split; auto. Qed.

Lemma frame_trans k T1 T2 T3 :
  frame k T1 T2 -> frame k T2 T3 -> frame k T1 T3.
Proof.
  intros [L1 F1] [L2 F2]. split; [congruence|].
  intros i Hi. destruct (F1 i Hi), (F2 i Hi). split; congruence.
Qed.

Lemma frame_weaken k k' T T' : k' <= k -> frame k T T' -> frame k' T T'.
Proof. intros H [L F]. split; auto. intros i Hi; apply F; lia. Qed.

Lemma frame_set_above k T i f :
  0 <= i -> k <= i -> frame k T (tok_set T i f).
Proof.
  intros H0 H. split; [apply tok_set_length|].
  intros j Hj. rewrite tok_at_set_other by lia. auto.
Qed.

Lemma frame_set_same k T i f :
  0 <= i ->
  (forall t, tok_open (f t) = tok_open t /\ type (f t) = type t) ->
  frame k T (tok_set T i f).
Proof.
  intros H0 H. split; [apply tok_set_length|].
  intros j Hj. destruct (Z.eq_dec i j) as [->|N].
  - destruct (Z_lt_le_dec j (Z.of_nat (length T))).
    + rewrite tok_at_set_same by lia. apply H.
    + unfold tok_at, tok_set.
      rewrite !nth_overflow; rewrite ?list_upd_length; auto; lia.
  - rewrite tok_at_set_other by lia. auto.
Qed.

Lemma frame_bump_super k T parser :
  toksuper parser = -1 \/ 0 <= toksuper parser ->
  frame k T (Jsmn.bump_super parser T).
Proof.
  intros H. unfold Jsmn.bump_super.
  destruct (toksuper parser =? -1) eqn:E; [apply frame_refl|].
  apply Z.eqb_neq in E.
  apply frame_set_same; [lia|]. intros t; split; reflexivity.
Qed.

Lemma tok_at_bump_super_other T parser j :
  toksuper parser = -1 \/ 0 <= toksuper parser ->
  0 <= j -> toksuper parser <> j ->
  tok_at (Jsmn.bump_super parser T) j = tok_at T j.
Proof.
  intros H Hj N. unfold Jsmn.bump_super.
  destruct (toksuper parser =? -1) eqn:E; [reflexivity|].
  apply Z.eqb_neq in E. apply tok_at_set_other; lia.
Qed.

Lemma last_open_range T k : -1 <= Jsmn.last_open T k < Z.of_nat k.
Proof.
  induction k as [|k IH]; simpl; [lia|].
  destruct (tok_open _); lia.
Qed.

Lemma last_open_container_range T k :
  -1 <= Jsmn.last_open_container T k < Z.of_nat k.
Proof.
  induction k as [|k IH]; simpl; [lia|].
  destruct (_ && _); lia.
Qed.

Lemma last_open_ext T T' k :
  (forall i, 0 <= i < Z.of_nat k ->
     tok_open (tok_at T' i) = tok_open (tok_at T i)) ->
  Jsmn.last_open T' k = Jsmn.last_open T k.
Proof.
  induction k as [|k IH]; intros H; simpl; [reflexivity|].
  pose proof (H (Z.of_nat k)) as Hk. unfold tok_at in Hk.
  rewrite Nat2Z.id in Hk. rewrite Hk by lia.
  rewrite IH; [reflexivity|]. intros i Hi; apply H; lia.
Qed.

Lemma last_open_frame k T T' :
  0 <= k -> frame k T T' ->
  Jsmn.last_open T' (Z.to_nat k) = Jsmn.last_open T (Z.to_nat k).
Proof.
  intros Hk [_ F]. apply last_open_ext. intros i Hi. apply F. lia.
Qed.

Lemma last_open_skip T a b :
  0 <= a <= b -> closed_from T a b ->
  Jsmn.last_open T (Z.to_nat b) = Jsmn.last_open T (Z.to_nat a).
Proof.
  intros H C.
  replace (Z.to_nat b) with (Z.to_nat (b - a) + Z.to_nat a)%nat by lia.
  assert (G : forall n, (Z.of_nat n <= b - a) ->
            Jsmn.last_open T (n + Z.to_nat a)
            = Jsmn.last_open T (Z.to_nat a)).
  { induction n as [|n IH]; intros Hn; [reflexivity|].
    simpl. pose proof (C (Z.of_nat (n + Z.to_nat a))) as Hc.
    unfold tok_at in Hc. rewrite Nat2Z.id in Hc. rewrite Hc by lia.
    apply IH; lia. }
  apply G. lia.
Qed.

Lemma last_open_hit T a :
  0 <= a -> tok_open (tok_at T a) = true ->
  Jsmn.last_open T (Z.to_nat (a + 1)) = a.
Proof.
  intros H O. replace (Z.to_nat (a + 1)) with (S (Z.to_nat a)) by lia.
  simpl. unfold tok_at in O. rewrite O. lia.
Qed.

Lemma last_open_miss T a :
  0 <= a -> tok_open (tok_at T a) = false ->
  Jsmn.last_open T (Z.to_nat (a + 1)) = Jsmn.last_open T (Z.to_nat a).
Proof.
  intros H O. replace (Z.to_nat (a + 1)) with (S (Z.to_nat a)) by lia.
  simpl. unfold tok_at in O. rewrite O. reflexivity.
Qed.

Lemma last_open_all_closed T k :
  0 <= k -> closed_from T 0 k -> Jsmn.last_open T (Z.to_nat k) = -1.
Proof.
  intros H C. rewrite (last_open_skip T 0 k) by (auto; lia). reflexivity.
Qed.

Lemma len_of_app a b : len_of (a ++ b) = len_of a + len_of b.
Proof. unfold len_of. rewrite length_app. lia. Qed.

Lemma len_of_cons c a : len_of (c :: a) = 1 + len_of a.
Proof. unfold len_of. simpl length. lia. Qed.

Lemma len_of_nonneg a : 0 <= len_of a.
Proof. unfold len_of. lia. Qed.

Lemma char_at_mid pre c post :
  char_at (pre ++ c :: post) (len_of pre) = c.
Proof. unfold len_of. rewrite char_at_app. reflexivity. Qed.

(** ** A run on a block, step by step *)

Lemma char_at_off pre l i :
  0 <= i -> char_at (pre ++ l) (len_of pre + i) = char_at l i.
Proof.
  intros H. unfold char_at, len_of.
  rewrite app_nth2 by lia. f_equal. lia.
Qed.

Lemma s32_pos x : 0 <= x < 2 ^ 31 -> s32 x = x.
Proof. intros H; apply s32_small; lia. Qed.

Lemma prev_tok_succ p k s :
  0 <= k < 2 ^ 31 -> Jsmn.prev_tok (mkparser p (u32 (k + 1)) s) = k.
Proof.
  intros H. unfold Jsmn.prev_tok. simpl.
  rewrite (u32_small (k + 1)) by lia.
  replace (k + 1 - 1) with k by lia.
  rewrite u32_small by lia. apply s32_pos; lia.
Qed.

Lemma alloc_room p k s T num :
  0 <= k < num -> k < Z.of_nat (length T) ->
  Jsmn.jsmn_alloc_token (mkparser p k s) T num false
  = (Jsmn.TokPtr k, mkparser p (u32 (k + 1)) s, tok_set T k Jsmn.alloc_init).
Proof.
  intros H HT. unfold Jsmn.jsmn_alloc_token. simpl.
  replace (num <=? k) with false by (symmetry; apply Z.leb_gt; lia).
  replace (k <? num) with true by (symmetry; apply Z.ltb_lt; lia).
  replace (k <? Z.of_nat (length T)) with true
    by (symmetry; apply Z.ltb_lt; lia).
  reflexivity.
Qed.

Section Fill.

Variable js : list Z.
Hypothesis Hlen : len_of js < 2 ^ 31.

Section Steps.

Variable num : Z.

Lemma run_ws_char p k s T cnt :
  0 <= p < len_of js -> ws_char (char_at js p) ->
  parse_from js num false (fill_state p k s T cnt)
  = parse_from js num false (fill_state (p + 1) k s T cnt).
Proof.
  intros Hp Hc.
  rewrite parse_from_step;
    [|simpl; lia
     |simpl; destruct Hc as [E|[E|[E|E]]]; rewrite E; lia].
  unfold Jsmn.parse_step. cbn [Jsmn.ps_parser fill_state pos].
  destruct Hc as [E|[E|[E|E]]]; rewrite E; reflexivity.
Qed.

Lemma run_ws w :
  json_ws w ->
  forall pre post p k s T cnt,
    js = pre ++ w ++ post -> p = len_of pre ->
    parse_from js num false (fill_state p k s T cnt)
    = parse_from js num false (fill_state (p + len_of w) k s T cnt).
Proof.
  induction 1 as [|c w Hc Hw IH]; intros pre post p k s T cnt Hjs Hp.
  - change (len_of []) with 0. rewrite Z.add_0_r. reflexivity.
  - assert (L : len_of js = len_of pre + (1 + len_of w) + len_of post)
      by (rewrite Hjs, !len_of_app, len_of_cons; lia).
    pose proof (len_of_nonneg pre). pose proof (len_of_nonneg w).
    pose proof (len_of_nonneg post).
    rewrite run_ws_char;
      [|lia|rewrite Hjs, Hp; cbn [app]; rewrite char_at_mid; exact Hc].
    rewrite (IH (pre ++ [c]) post);
      [|rewrite Hjs, <- app_assoc; reflexivity
       |rewrite len_of_app, len_of_cons; change (len_of []) with 0; lia].
    rewrite len_of_cons. f_equal. f_equal; lia.
Qed.

Lemma run_colon p k s T cnt :
  0 <= p < len_of js -> char_at js p = 58 ->
  parse_from js num false (fill_state p k s T cnt)
  = parse_from js num false
      (fill_state (p + 1) k (Jsmn.prev_tok (mkparser p k s)) T cnt).
Proof.
  intros Hp E.
  rewrite parse_from_step; [|simpl; lia|simpl; rewrite E; lia].
  unfold Jsmn.parse_step. cbn [Jsmn.ps_parser fill_state pos].
  rewrite E. reflexivity.
Qed.

Lemma run_comma p k s T cnt :
  0 <= p < len_of js -> char_at js p = 44 ->
  s = -1 \/ 0 <= s < k ->
  exists s',
    parse_from js num false (fill_state p k s T cnt)
    = parse_from js num false (fill_state (p + 1) k s' T cnt)
    /\ (s' = -1 \/ 0 <= s' < k)
    /\ (is_container (type (tok_at T s)) = true -> s' = s).
Proof.
  intros Hp E Hs.
  rewrite parse_from_step; [|simpl; lia|simpl; rewrite E; lia].
  unfold Jsmn.parse_step. cbn [Jsmn.ps_parser fill_state pos].
  rewrite E. cbn [Z.eqb Pos.eqb orb Jsmn.is_space].
  unfold Jsmn.case_comma.
  cbn [Jsmn.ps_parser Jsmn.ps_tokens Jsmn.ps_count fill_state toksuper
       toknext pos].
  destruct (negb (s =? -1) && negb (is_container (type (tok_at T s))))
    eqn:C.
  - pose proof (last_open_container_range T (Z.to_nat k)) as R.
    destruct (Jsmn.last_open_container T (Z.to_nat k) =? -1) eqn:E1.
    + exists s. split; [reflexivity|]. split; auto.
    + apply Z.eqb_neq in E1.
      exists (Jsmn.last_open_container T (Z.to_nat k)).
      split; [reflexivity|]. split; [right; lia|].
      intros X. rewrite X in C. rewrite andb_false_r in C. discriminate.
  - exists s. split; [reflexivity|]. split; auto.
Qed.

Lemma run_open c p k s T cnt :
  0 <= p < len_of js -> char_at js p = c -> c = 123 \/ c = 91 ->
  Z.of_nat (length T) = num -> 0 <= k < num -> k <= p ->
  s = -1 \/ (0 <= s < k /\ type (tok_at T s) <> JSMN_OBJECT) ->
  exists T',
    parse_from js num false (fill_state p k s T cnt)
    = parse_from js num false (fill_state (p + 1) (k + 1) k T' (cnt + 1))
    /\ frame k T T'
    /\ tok_open (tok_at T' k) = true
    /\ type (tok_at T' k) = (if c =? 123 then JSMN_OBJECT else JSMN_ARRAY).
Proof.
  intros Hp E Hc HT Hk Hkp Hs.
  rewrite parse_from_step;
    [|simpl; lia|simpl; rewrite E; destruct Hc as [->| ->]; lia].
  unfold Jsmn.parse_step. cbn [Jsmn.ps_parser fill_state pos].
  rewrite E.
  replace ((c =? 123) || (c =? 91)) with true
    by (destruct Hc as [->| ->]; reflexivity).
  unfold Jsmn.case_open.
  cbn [Jsmn.ps_parser Jsmn.ps_tokens Jsmn.ps_count fill_state].
  rewrite alloc_room by lia.
  cbn [toksuper pos].
  set (T1 := tok_set T k Jsmn.alloc_init).
  assert (F1 : frame k T T1) by (apply frame_set_above; lia).
  assert (NoInval :
            negb (s =? -1) && jsmntype_eqb (type (tok_at T1 s)) JSMN_OBJECT
            = false).
  { destruct Hs as [->|[Hs Hty]]; [reflexivity|].
    destruct F1 as [_ F1]. destruct (F1 s Hs) as [_ ->].
    destruct (type (tok_at T s)); try congruence; apply andb_false_r. }
  rewrite NoInval.
  set (P1 := mkparser p (u32 (k + 1)) s).
  set (T2 := Jsmn.bump_super P1 T1).
  assert (F2 : frame k T1 T2).
  { apply frame_bump_super. simpl. destruct Hs as [->|[Hs _]]; lia. }
  eexists. split.
  { unfold Jsmn.next_char. cbn [Jsmn.ps_parser Jsmn.ps_tokens Jsmn.ps_count].
    replace (Jsmn.prev_tok P1) with k
      by (symmetry; apply prev_tok_succ; lia).
    unfold set_toksuper, set_pos, P1. cbn [pos toknext toksuper].
    rewrite u32_small by lia. reflexivity. }
  assert (L2 : length T2 = length T).
  { destruct F1 as [L1 _], F2 as [L2 _]. congruence. }
  split; [|split].
  - eapply frame_trans; [exact F1|].
    eapply frame_trans; [exact F2|].
    apply frame_set_above; lia.
  - rewrite tok_at_set_same by lia. unfold tok_open. cbn [start end_].
    assert (E2 : tok_at T2 k = tok_at T1 k).
    { unfold T2. apply tok_at_bump_super_other; simpl;
        destruct Hs as [->|[Hs _]]; lia. }
    rewrite E2. unfold T1. rewrite tok_at_set_same by lia.
    unfold P1. cbn [pos Jsmn.alloc_init end_].
    rewrite s32_pos by lia.
    replace (p =? -1) with false by (symmetry; apply Z.eqb_neq; lia).
    reflexivity.
  - rewrite tok_at_set_same by lia. reflexivity.
Qed.

Lemma run_close c p k s T cnt a :
  0 <= p < len_of js -> char_at js p = c -> c = 125 \/ c = 93 ->
  Z.of_nat (length T) = num -> 0 <= k <= num ->
  Jsmn.last_open T (Z.to_nat k) = a -> 0 <= a ->
  type (tok_at T a) = (if c =? 125 then JSMN_OBJECT else JSMN_ARRAY) ->
  exists T',
    parse_from js num false (fill_state p k s T cnt)
    = parse_from js num false
        (fill_state (p + 1) k (Jsmn.last_open T (Z.to_nat a)) T' cnt)
    /\ frame a T T'
    /\ tok_open (tok_at T' a) = false
    /\ (forall i, 0 <= i -> i <> a -> tok_at T' i = tok_at T i).
Proof.
  intros Hp E Hc HT Hk Ha Ha0 Hty.
  pose proof (last_open_range T (Z.to_nat k)) as R. rewrite Ha in R.
  rewrite parse_from_step;
    [|simpl; lia|simpl; rewrite E; destruct Hc as [->| ->]; lia].
  unfold Jsmn.parse_step. cbn [Jsmn.ps_parser fill_state pos].
  rewrite E.
  replace ((c =? 123) || (c =? 91)) with false
    by (destruct Hc as [->| ->]; reflexivity).
  replace ((c =? 125) || (c =? 93)) with true
    by (destruct Hc as [->| ->]; reflexivity).
  unfold Jsmn.case_close.
  cbn [Jsmn.ps_parser Jsmn.ps_tokens Jsmn.ps_count fill_state toknext pos].
  rewrite Ha.
  replace (a =? -1) with false by (symmetry; apply Z.eqb_neq; lia).
  rewrite Hty.
  replace (negb (jsmntype_eqb (if c =? 125 then JSMN_OBJECT else JSMN_ARRAY)
                   (if c =? 125 then JSMN_OBJECT else JSMN_ARRAY)))
    with false by (destruct (c =? 125); reflexivity).
  set (T' := tok_set T a (set_end (s32 (u32 (p + 1))))).
  assert (Hclosed : tok_open (tok_at T' a) = false).
  { unfold T'. rewrite tok_at_set_same by lia.
    unfold tok_open, set_end. cbn [start end_].
    rewrite u32_small, s32_pos by lia.
    replace (p + 1 =? -1) with false by (symmetry; apply Z.eqb_neq; lia).
    apply andb_false_r. }
  assert (Hother : forall i, 0 <= i -> i <> a -> tok_at T' i = tok_at T i).
  { intros i Hi N. unfold T'. apply tok_at_set_other; lia. }
  exists T'. split; [|split; [|split]]; auto.
  - unfold Jsmn.next_char, set_toksuper, set_pos.
    cbn [Jsmn.ps_parser Jsmn.ps_tokens Jsmn.ps_count pos toknext toksuper].
    rewrite last_open_miss by (auto; lia).
    rewrite (last_open_ext T T'); [reflexivity|].
    intros i Hi. rewrite Hother by lia. reflexivity.
  - unfold T'. apply frame_set_above; lia.
Qed.

Lemma hex_char_is_hex c : hex_char c -> Jsmn.is_hex c = true /\ c <> 0.
Proof.
  unfold hex_char, Jsmn.is_hex. intros H. split; [|lia].
  destruct H as [H|[H|H]].
  - replace (48 <=? c) with true by (symmetry; apply Z.leb_le; lia).
    replace (c <=? 57) with true by (symmetry; apply Z.leb_le; lia).
    reflexivity.
  - replace (65 <=? c) with true by (symmetry; apply Z.leb_le; lia).
    replace (c <=? 70) with true by (symmetry; apply Z.leb_le; lia).
    rewrite orb_true_r. reflexivity.
  - replace (97 <=? c) with true by (symmetry; apply Z.leb_le; lia).
    replace (c <=? 102) with true by (symmetry; apply Z.leb_le; lia).
    rewrite !orb_true_r. reflexivity.
Qed.

Lemma in_range_true p len c :
  p < len -> c <> 0 -> (p <? len) && negb (c =? 0) = true.
Proof.
  intros H N. apply andb_true_intro. split.
  - apply Z.ltb_lt; auto.
  - apply negb_true_iff, Z.eqb_neq; auto.
Qed.

Lemma char_at_js pre l p i :
  js = pre ++ l -> p = len_of pre + i -> 0 <= i ->
  char_at js p = char_at l i.
Proof. intros -> -> H. apply char_at_off; auto. Qed.

Lemma string_scan_quote n p :
  p < len_of js -> char_at js p = 34 ->
  Jsmn.string_scan (S n) js (len_of js) p = Jsmn.Found p.
Proof.
  intros H C. simpl. rewrite C, in_range_true by (auto; lia). reflexivity.
Qed.

Lemma string_scan_plain n p c :
  p < len_of js -> char_at js p = c -> 32 <= c -> c <> 34 -> c <> 92 ->
  Jsmn.string_scan (S n) js (len_of js) p
  = Jsmn.string_scan n js (len_of js) (p + 1).
Proof.
  intros H C H32 H34 H92. simpl.
  rewrite C, in_range_true by (auto; lia).
  replace (c =? 34) with false by (symmetry; apply Z.eqb_neq; auto).
  replace (c =? 92) with false by (symmetry; apply Z.eqb_neq; auto).
  reflexivity.
Qed.

Lemma string_scan_escape n p c :
  p + 1 < len_of js -> char_at js p = 92 -> char_at js (p + 1) = c ->
  In c [34; 92; 47; 98; 102; 110; 114; 116] ->
  Jsmn.string_scan (S n) js (len_of js) p
  = Jsmn.string_scan n js (len_of js) (p + 2).
Proof.
  intros H C0 C1 Hc. simpl.
  rewrite C0, in_range_true by (auto; lia).
  replace (p + 1 <? len_of js) with true by (symmetry; apply Z.ltb_lt; lia).
  cbn [Z.eqb Pos.eqb andb].
  unfold Jsmn.escape_scan. rewrite C1.
  replace (Jsmn.is_simple_escape c) with true.
  - replace (p + 1 + 1) with (p + 2) by lia. reflexivity.
  - simpl in Hc.
    destruct Hc as [<-|[<-|[<-|[<-|[<-|[<-|[<-|[<-|[]]]]]]]]]; reflexivity.
Qed.

Lemma hex_scan_step i p h :
  p < len_of js -> char_at js p = h -> hex_char h ->
  Jsmn.hex_scan (S i) js (len_of js) p
  = Jsmn.hex_scan i js (len_of js) (p + 1).
Proof.
  intros H C Hh. destruct (hex_char_is_hex h Hh) as [X N]. simpl.
  rewrite C, in_range_true, X by auto. reflexivity.
Qed.

Lemma string_scan_unicode n p h1 h2 h3 h4 :
  p + 5 < len_of js -> char_at js p = 92 -> char_at js (p + 1) = 117 ->
  char_at js (p + 2) = h1 -> char_at js (p + 3) = h2 ->
  char_at js (p + 4) = h3 -> char_at js (p + 5) = h4 ->
  hex_char h1 -> hex_char h2 -> hex_char h3 -> hex_char h4 ->
  Jsmn.string_scan (S n) js (len_of js) p
  = Jsmn.string_scan n js (len_of js) (p + 6).
Proof.
  intros H C0 C1 C2 C3 C4 C5 H1 H2 H3 H4.
  cbn [Jsmn.string_scan].
  rewrite C0, in_range_true by (auto; lia).
  replace (p + 1 <? len_of js) with true by (symmetry; apply Z.ltb_lt; lia).
  cbn [Z.eqb Pos.eqb andb].
  unfold Jsmn.escape_scan. rewrite C1.
  cbn [Jsmn.is_simple_escape Z.eqb Pos.eqb orb].
  replace (p + 1 + 1) with (p + 2) by lia.
  rewrite (hex_scan_step 3 (p + 2) h1) by (auto; lia).
  replace (p + 2 + 1) with (p + 3) by lia.
  rewrite (hex_scan_step 2 (p + 3) h2) by (auto; lia).
  replace (p + 3 + 1) with (p + 4) by lia.
  rewrite (hex_scan_step 1 (p + 4) h3) by (auto; lia).
  replace (p + 4 + 1) with (p + 5) by lia.
  rewrite (hex_scan_step 0 (p + 5) h4) by (auto; lia).
  cbn [Jsmn.hex_scan].
  replace (p + 5 + 1 - 1 + 1) with (p + 6) by lia. reflexivity.
Qed.

(** The scan of a string stops on its closing quote. *)
Lemma string_scan_chars body :
  json_chars body ->
  forall n pre post p,
    js = pre ++ body ++ 34 :: post -> p = len_of pre ->
    (length body < n)%nat ->
    Jsmn.string_scan n js (len_of js) p = Jsmn.Found (p + len_of body).
Proof.
  induction 1 as [|c s Hc32 Hc34 Hc92 Hs IH|c s Hc Hs IH
                 |h1 h2 h3 h4 s H1 H2 H3 H4 Hs IH];
    intros n pre post p Hjs Hp Hn;
    (destruct n as [|n]; [simpl in Hn; lia|]);
    pose proof (len_of_nonneg pre); pose proof (len_of_nonneg post);
    try pose proof (len_of_nonneg s);
    pose proof (f_equal len_of Hjs) as L;
    rewrite !len_of_app, ?len_of_cons in L.
  - rewrite string_scan_quote;
      [change (len_of []) with 0; f_equal; lia | change (len_of []) with 0 in L; lia|].
    rewrite (char_at_js pre _ p 0 Hjs) by lia. reflexivity.
  - idtac.
    rewrite (string_scan_plain n p c); auto; try lia.
    + rewrite (IH n (pre ++ [c]) post (p + 1));
        [rewrite len_of_cons; f_equal; lia
        |rewrite Hjs, <- app_assoc; reflexivity
        |rewrite len_of_app, len_of_cons; change (len_of []) with 0; lia
        |simpl in Hn; lia].
    + rewrite (char_at_js pre _ p 0 Hjs) by lia. reflexivity.
  - idtac.
    rewrite (string_scan_escape n p c); auto; try lia.
    + rewrite (IH n (pre ++ [92; c]) post (p + 2));
        [rewrite !len_of_cons; f_equal; lia
        |rewrite Hjs, <- app_assoc; reflexivity
        |rewrite len_of_app, !len_of_cons; change (len_of []) with 0; lia
        |simpl in Hn; lia].
    + rewrite (char_at_js pre _ p 0 Hjs) by lia. reflexivity.
    + rewrite (char_at_js pre _ (p + 1) 1 Hjs) by lia. reflexivity.
  - idtac.
    rewrite (string_scan_unicode n p h1 h2 h3 h4); auto; try lia.
    + rewrite (IH n (pre ++ [92; 117; h1; h2; h3; h4]) post (p + 6));
        [rewrite !len_of_cons; f_equal; lia
        |rewrite Hjs, <- app_assoc; reflexivity
        |rewrite len_of_app, !len_of_cons; change (len_of []) with 0; lia
        |simpl in Hn; lia].
    + rewrite (char_at_js pre _ p 0 Hjs) by lia. reflexivity.
    + rewrite (char_at_js pre _ (p + 1) 1 Hjs) by lia. reflexivity.
    + rewrite (char_at_js pre _ (p + 2) 2 Hjs) by lia. reflexivity.
    + rewrite (char_at_js pre _ (p + 3) 3 Hjs) by lia. reflexivity.
    + rewrite (char_at_js pre _ (p + 4) 4 Hjs) by lia. reflexivity.
    + rewrite (char_at_js pre _ (p + 5) 5 Hjs) by lia. reflexivity.
Qed.

Lemma primitive_scan_end n p :
  p < len_of js -> Jsmn.is_prim_end (char_at js p) = true ->
  Jsmn.primitive_scan (S n) js (len_of js) p = Jsmn.Found p.
Proof.
  intros H C. simpl.
  rewrite in_range_true, C; auto.
  intros E. rewrite E in C. discriminate C.
Qed.

Lemma primitive_scan_char n p :
  p < len_of js -> prim_char (char_at js p) ->
  Jsmn.primitive_scan (S n) js (len_of js) p
  = Jsmn.primitive_scan n js (len_of js) (p + 1).
Proof.
  intros H [R E]. simpl.
  rewrite in_range_true, E by (auto; lia).
  replace (char_at js p <? 32) with false by (symmetry; apply Z.ltb_ge; lia).
  replace (127 <=? char_at js p) with false
    by (symmetry; apply Z.leb_gt; lia).
  reflexivity.
Qed.

(** The scan of a primitive stops on the separator after it. *)
Lemma primitive_scan_text body :
  Forall prim_char body ->
  forall n pre post p,
    js = pre ++ body ++ post -> p = len_of pre ->
    Jsmn.is_prim_end (hd 0 post) = true ->
    (length body < n)%nat ->
    Jsmn.primitive_scan n js (len_of js) p = Jsmn.Found (p + len_of body).
Proof.
  induction 1 as [|c s Hc Hs IH]; intros n pre post p Hjs Hp He Hn;
    (destruct n as [|n]; [simpl in Hn; lia|]);
    pose proof (len_of_nonneg pre); pose proof (len_of_nonneg post);
    pose proof (f_equal len_of Hjs) as L;
    rewrite !len_of_app, ?len_of_cons in L.
  - destruct post as [|d post]; [discriminate He|].
    rewrite len_of_cons in L. pose proof (len_of_nonneg post).
    change (len_of []) with 0 in *.
    rewrite primitive_scan_end; [f_equal; lia|lia|].
    rewrite (char_at_js pre _ p 0 Hjs) by lia. exact He.
  - pose proof (len_of_nonneg s).
    rewrite primitive_scan_char; [|lia|].
    + rewrite (IH n (pre ++ [c]) post (p + 1));
        [rewrite len_of_cons; f_equal; lia
        |rewrite Hjs, <- app_assoc; reflexivity
        |rewrite len_of_app, len_of_cons; change (len_of []) with 0; lia
        |exact He
        |simpl in Hn; lia].
    + rewrite (char_at_js pre _ p 0 Hjs) by lia. exact Hc.
Qed.

Lemma run_string body pre post p k s T cnt :
  json_chars body ->
  js = pre ++ (34 :: body ++ [34]) ++ post -> p = len_of pre ->
  Z.of_nat (length T) = num -> 0 <= k < num -> k <= p ->
  s = -1 \/ 0 <= s < k ->
  exists T',
    parse_from js num false (fill_state p k s T cnt)
    = parse_from js num false
        (fill_state (p + len_of (34 :: body ++ [34])) (k + 1) s T'
           (cnt + 1))
    /\ frame k T T'
    /\ tok_open (tok_at T' k) = false
    /\ type (tok_at T' k) = JSMN_STRING
    /\ size (tok_at T' k) = 0.
Proof.
  intros Hb Hjs Hp HT Hk Hkp Hs.
  assert (Hjs' : js = (pre ++ [34]) ++ body ++ 34 :: post).
  { rewrite Hjs. repeat first [rewrite <- app_assoc | progress cbn [app]].
    reflexivity. }
  pose proof (len_of_nonneg pre). pose proof (len_of_nonneg post).
  pose proof (len_of_nonneg body).
  pose proof (f_equal len_of Hjs') as L.
  rewrite !len_of_app, !len_of_cons in L. change (len_of []) with 0 in L.
  assert (C0 : char_at js p = 34).
  { rewrite (char_at_js pre _ p 0 Hjs) by lia. reflexivity. }
  rewrite parse_from_step; [|simpl; lia|simpl; rewrite C0; lia].
  unfold Jsmn.parse_step. cbn [Jsmn.ps_parser fill_state pos].
  rewrite C0. cbn [Z.eqb Pos.eqb orb].
  unfold Jsmn.jsmn_parse_string.
  cbn [Jsmn.ps_parser Jsmn.ps_tokens Jsmn.ps_count fill_state pos].
  rewrite (string_scan_chars body Hb _ (pre ++ [34]) post (p + 1) Hjs');
    [|rewrite len_of_app, len_of_cons; change (len_of []) with 0; lia
     |unfold Jsmn.variant, len_of in *; lia].
  set (q := p + 1 + len_of body).
  unfold set_pos at 1. cbn [toknext toksuper].
  rewrite alloc_room by lia.
  unfold Jsmn.case_token.
  cbn [Z.ltb Z.compare].
  set (P1 := mkparser q (u32 (k + 1)) s).
  set (T1 := tok_set (tok_set T k Jsmn.alloc_init) k
               (Jsmn.jsmn_fill_token JSMN_STRING (s32 p + 1) (s32 q))).
  assert (L1 : length T1 = length T).
  { unfold T1. rewrite !tok_set_length. reflexivity. }
  assert (F1 : frame k T T1).
  { unfold T1. eapply frame_trans; apply frame_set_above; lia. }
  assert (F2 : frame k T1 (Jsmn.bump_super P1 T1)).
  { apply frame_bump_super. simpl. lia. }
  exists (Jsmn.bump_super P1 T1).
  assert (K : tok_at (Jsmn.bump_super P1 T1) k
              = mktok JSMN_STRING (s32 p + 1) (s32 q) 0).
  { rewrite tok_at_bump_super_other by (simpl; lia).
    unfold T1. rewrite tok_at_set_same by (rewrite tok_set_length; lia).
    reflexivity. }
  split; [|split; [|split; [|split]]].
  - unfold Jsmn.next_char, set_pos, P1, fill_state.
    cbn [Jsmn.ps_parser Jsmn.ps_tokens Jsmn.ps_count pos toknext toksuper].
    rewrite u32_small by lia.
    rewrite !len_of_cons, len_of_app, len_of_cons.
    change (len_of []) with 0.
    f_equal. f_equal. f_equal. unfold q. lia.
  - eapply frame_trans; eauto.
  - rewrite K. unfold tok_open. cbn [start end_].
    rewrite (s32_pos q) by (unfold q; lia).
    replace (q =? -1) with false
      by (symmetry; apply Z.eqb_neq; unfold q; lia).
    apply andb_false_r.
  - rewrite K. reflexivity.
  - rewrite K. reflexivity.
Qed.

Lemma prim_start_cases c :
  Jsmn.is_prim_start c = true ->
  c = 45 \/ 48 <= c <= 57 \/ c = 116 \/ c = 102 \/ c = 110.
Proof. unfold Jsmn.is_prim_start. intros H. to_prop; lia. Qed.

Lemma prim_start_switch c :
  Jsmn.is_prim_start c = true ->
  (c =? 123) || (c =? 91) = false /\ (c =? 125) || (c =? 93) = false
  /\ (c =? 34) = false /\ Jsmn.is_space c = false
  /\ (c =? 58) = false /\ (c =? 44) = false /\ c <> 0.
Proof.
  intros H. apply prim_start_cases in H. unfold Jsmn.is_space.
  repeat split; try lia;
    repeat (apply orb_false_intro); apply Z.eqb_neq; lia.
Qed.

Lemma run_primitive body pre post p k s T cnt :
  prim_text body ->
  js = pre ++ body ++ post -> p = len_of pre ->
  Jsmn.is_prim_end (hd 0 post) = true ->
  Z.of_nat (length T) = num -> 0 <= k < num -> k <= p ->
  s = -1 \/ (0 <= s < k /\ value_parent (tok_at T s)) ->
  exists T',
    parse_from js num false (fill_state p k s T cnt)
    = parse_from js num false
        (fill_state (p + len_of body) (k + 1) s T' (cnt + 1))
    /\ frame k T T'
    /\ tok_open (tok_at T' k) = false.
Proof.
  intros (Hstart & Hne & Hall) Hjs Hp He HT Hk Hkp Hs.
  destruct body as [|c body]; [congruence|]. cbn [hd] in Hstart.
  destruct post as [|d post]; [discriminate He|].
  pose proof (len_of_nonneg pre). pose proof (len_of_nonneg post).
  pose proof (len_of_nonneg body).
  pose proof (f_equal len_of Hjs) as L.
  rewrite !len_of_app, !len_of_cons in L.
  assert (C0 : char_at js p = c).
  { rewrite (char_at_js pre _ p 0 Hjs) by lia. reflexivity. }
  destruct (prim_start_switch c Hstart)
    as (S1 & S2 & S3 & S4 & S5 & S6 & S7).
  rewrite parse_from_step; [|simpl; lia|simpl; rewrite C0; exact S7].
  unfold Jsmn.parse_step. cbn [Jsmn.ps_parser fill_state pos].
  rewrite C0, S1, S2, S3, S4, S5, S6, Hstart.
  unfold Jsmn.case_primitive.
  cbn [Jsmn.ps_parser Jsmn.ps_tokens Jsmn.ps_count fill_state pos toksuper].
  assert (KE : negb (s =? -1)
               && (jsmntype_eqb (type (tok_at T s)) JSMN_OBJECT
                   || jsmntype_eqb (type (tok_at T s)) JSMN_STRING
                      && negb (size (tok_at T s) =? 0)) = false).
  { destruct Hs as [->|[Hs [Hty|[Hty Hsz]]]]; [reflexivity| |];
      rewrite Hty; [|rewrite Hsz]; apply andb_false_r. }
  rewrite KE.
  unfold Jsmn.jsmn_parse_primitive.
  cbn [pos].
  rewrite (primitive_scan_text (c :: body) Hall _ pre (d :: post) p Hjs Hp He)
    by (unfold Jsmn.variant, len_of in *; simpl length in *; lia).
  set (q := p + len_of (c :: body)).
  assert (Hq : p < q < len_of js).
  { unfold q. rewrite len_of_cons. lia. }
  unfold set_pos at 1. cbn [toknext toksuper].
  rewrite alloc_room by lia.
  unfold Jsmn.case_token.
  cbn [Z.ltb Z.compare].
  set (P1 := set_pos (mkparser q (u32 (k + 1)) s) (q - 1)).
  set (T1 := tok_set (tok_set T k Jsmn.alloc_init) k
               (Jsmn.jsmn_fill_token JSMN_PRIMITIVE (s32 p) (s32 q))).
  assert (L1 : length T1 = length T).
  { unfold T1. rewrite !tok_set_length. reflexivity. }
  assert (F1 : frame k T T1).
  { unfold T1. eapply frame_trans; apply frame_set_above; lia. }
  assert (F2 : frame k T1 (Jsmn.bump_super P1 T1)).
  { apply frame_bump_super. simpl. destruct Hs as [->|[Hs _]]; lia. }
  exists (Jsmn.bump_super P1 T1).
  assert (K : tok_at (Jsmn.bump_super P1 T1) k
              = mktok JSMN_PRIMITIVE (s32 p) (s32 q) 0).
  { rewrite tok_at_bump_super_other
      by (simpl; destruct Hs as [->|[Hs _]]; lia).
    unfold T1. rewrite tok_at_set_same by (rewrite tok_set_length; lia).
    reflexivity. }
  split; [|split].
  - unfold Jsmn.next_char, set_pos, P1, fill_state, set_pos.
    cbn [Jsmn.ps_parser Jsmn.ps_tokens Jsmn.ps_count pos toknext toksuper].
    rewrite u32_small by lia.
    f_equal. f_equal. f_equal. lia.
  - eapply frame_trans; eauto.
  - rewrite K. unfold tok_open. cbn [start end_].
    rewrite (s32_pos q) by lia.
    replace (q =? -1) with false by (symmetry; apply Z.eqb_neq; lia).
    apply andb_false_r.
Qed.

End Steps.

Ltac list_norm := repeat first [rewrite <- app_assoc | progress cbn [app]].

Ltac len_simpl :=
  repeat first [rewrite len_of_app in * | rewrite len_of_cons in *];
  change (len_of []) with 0 in *.

Ltac len_nonneg :=
  repeat match goal with
    | |- context [len_of ?l] =>
        lazymatch goal with
        | _ : 0 <= len_of l |- _ => fail
        | _ => pose proof (len_of_nonneg l)
        end
    | _ : context [len_of ?l] |- _ =>
        lazymatch goal with
        | _ : 0 <= len_of l |- _ => fail
        | _ => pose proof (len_of_nonneg l)
        end
    end.

Ltac lens := len_simpl; len_nonneg; lia.

Lemma prim_char_intro c :
  32 < c < 127 -> c <> 44 -> c <> 93 -> c <> 125 -> prim_char c.
Proof.
  intros R H1 H2 H3. split; [lia|]. unfold Jsmn.is_prim_end.
  repeat (apply orb_false_intro); apply Z.eqb_neq; lia.
Qed.

Lemma digits_prim_chars ds : Forall digit_char ds -> Forall prim_char ds.
Proof.
  intros H. eapply Forall_impl; [|exact H].
  intros c Hc. unfold digit_char in Hc. apply prim_char_intro; lia.
Qed.

Ltac prim_chars :=
  repeat (apply Forall_cons; [split; [lia | reflexivity]|]);
  apply Forall_nil.

Lemma literal_prim_text s : json_literal s -> prim_text s.
Proof.
  intros [->|[->| ->]];
    match goal with
    | |- prim_text ?t =>
        let t' := eval vm_compute in t in change (prim_text t')
    end;
    (split; [reflexivity|split; [discriminate|]]); prim_chars.
Qed.

Lemma number_prim_text s : json_number s -> prim_text s.
Proof.
  intros (sg & i & f & e & -> & Hsg & Hi & Hf & He).
  assert (Ai : Forall prim_char i /\ i <> []
               /\ Jsmn.is_prim_start (hd 0 i) = true).
  { destruct Hi as [->|(d & ds & -> & Hd & Hds)].
    - split; [prim_chars|]. split; [discriminate|reflexivity].
    - split; [|split; [discriminate|]].
      + constructor; [apply prim_char_intro; lia|].
        apply digits_prim_chars; auto.
      + cbn [hd]. unfold Jsmn.is_prim_start.
        replace (48 <=? d) with true by (symmetry; apply Z.leb_le; lia).
        replace (d <=? 57) with true by (symmetry; apply Z.leb_le; lia).
        rewrite orb_true_r. reflexivity. }
  destruct Ai as (Ai & Ni & Si).
  assert (Af : Forall prim_char f).
  { destruct Hf as [->|(ds & -> & _ & Hds)]; [constructor|].
    constructor; [apply prim_char_intro; lia|].
    apply digits_prim_chars; auto. }
  assert (Ae : Forall prim_char e).
  { destruct He as [->|(c & sgn & ds & -> & Hc & Hsgn & _ & Hds)];
      [constructor|].
    constructor; [destruct Hc as [->| ->]; apply prim_char_intro; lia|].
    apply Forall_app. split; [|apply digits_prim_chars; auto].
    destruct Hsgn as [->|[->| ->]]; prim_chars. }
  destruct Hsg as [->| ->].
  - cbn [app]. split; [|split].
    + destruct i; [congruence|exact Si].
    + destruct i; [congruence|discriminate].
    + repeat (apply Forall_app; split); auto.
  - cbn [app]. split; [reflexivity|split; [discriminate|]].
    constructor; [apply prim_char_intro; lia|].
    repeat (apply Forall_app; split); auto.
Qed.

Lemma ws_char_prim_end c : ws_char c -> Jsmn.is_prim_end c = true.
Proof. intros [->|[->|[->| ->]]]; reflexivity. Qed.

Lemma ws_then_end w post :
  json_ws w -> Jsmn.is_prim_end (hd 0 post) = true ->
  Jsmn.is_prim_end (hd 0 (w ++ post)) = true.
Proof.
  intros Hw H. destruct Hw as [|c w' Hc Hw]; [exact H|]. cbn [app hd].
  apply ws_char_prim_end; auto.
Qed.

Lemma value_run_prim s : prim_text s -> value_run js s.
Proof.
  intros Hs. exists 1. split.
  { destruct Hs as (_ & N & _). destruct s; [congruence|]. lens. }
  intros num pre post p k s0 T cnt Hjs Hp He HT Hk Hkm Hkp Hctx.
  destruct (run_primitive num s pre post p k s0 T cnt Hs Hjs Hp)
    as (T' & E & F & C); auto; try lia.
  { apply He. apply Hs. }
  exists T', s0. split; [exact E|]. split; [exact F|]. split; [|auto].
  intros i Hi. replace i with k by lia. exact C.
Qed.

Lemma value_run_string s :
  json_chars s -> value_run js (34 :: s ++ [34]).
Proof.
  intros Hs. exists 1. split; [lens|].
  intros num pre post p k s0 T cnt Hjs Hp He HT Hk Hkm Hkp Hctx.
  destruct (run_string num s pre post p k s0 T cnt Hs Hjs Hp)
    as (T' & E & F & C & _); auto; try lia.
  exists T', s0. split; [exact E|]. split; [exact F|]. split; [|auto].
  intros i Hi. replace i with k by lia. exact C.
Qed.

Lemma fill_state_eq p p' k k' s T c c' :
  p = p' -> k = k' -> c = c' ->
  fill_state p k s T c = fill_state p' k' s T c'.
Proof. intros -> -> ->. reflexivity. Qed.

Lemma body_run_ws ty w : json_ws w -> body_run js ty w.
Proof.
  intros Hw. exists 0. split; [lens|].
  intros num pre post p k a T cnt Hjs Hp He HT Ha Hkm Hkp Hty Hlo.
  exists T, a. split; [|split; [apply frame_refl|]].
  - rewrite (run_ws num w Hw pre post p k a T cnt Hjs Hp).
    f_equal. apply fill_state_eq; lia.
  - intros i Hi. lia.
Qed.

Lemma body_run_elements body :
  elements_run js body -> body_run js JSMN_ARRAY body.
Proof.
  intros (m & Hm & R). exists m. split; [lia|].
  intros num pre post p k a T cnt Hjs Hp He HT Ha Hkm Hkp Hty Hlo.
  destruct (R num pre post p k a T cnt) as (T' & E & F & C); auto.
  exists T', a. auto.
Qed.

Lemma body_run_members body :
  members_run js body -> body_run js JSMN_OBJECT body.
Proof.
  intros (m & Hm & R). exists m. split; [lia|].
  intros num pre post p k a T cnt Hjs Hp He HT Ha Hkm Hkp Hty Hlo.
  destruct (R num pre post p k a T cnt) as (T' & s' & E & F & C & _);
    auto; try lia.
  exists T', s'. auto.
Qed.

Lemma value_run_container ty o c body :
  (ty = JSMN_OBJECT /\ o = 123 /\ c = 125)
  \/ (ty = JSMN_ARRAY /\ o = 91 /\ c = 93) ->
  body_run js ty body -> value_run js (o :: body ++ [c]).
Proof.
  intros Hkind (m & Hm & R). exists (1 + m). split; [lens|].
  intros num pre post p k s T cnt Hjs Hp He HT Hk Hkm Hkp Hctx.
  assert (Ho : o = 123 \/ o = 91) by (destruct Hkind as [(_ & -> & _)|(_ & -> & _)]; auto).
  assert (Hc : c = 125 \/ c = 93) by (destruct Hkind as [(_ & _ & ->)|(_ & _ & ->)]; auto).
  assert (Hoty : (if o =? 123 then JSMN_OBJECT else JSMN_ARRAY) = ty)
    by (destruct Hkind as [(-> & -> & _)|(-> & -> & _)]; reflexivity).
  assert (Hcty : (if c =? 125 then JSMN_OBJECT else JSMN_ARRAY) = ty)
    by (destruct Hkind as [(-> & _ & ->)|(-> & _ & ->)]; reflexivity).
  pose proof (f_equal len_of Hjs) as L. len_simpl. len_nonneg.
  (* the opening bracket *)
  destruct (run_open num o p k s T cnt) as (T1 & E1 & F1 & O1 & Ty1);
    auto; try lia.
  { rewrite (char_at_js pre _ p 0 Hjs) by lia. reflexivity. }
  { destruct Hctx as [->|[Hs [Hv|[Hv _]]]]; auto; right; split; auto;
      rewrite Hv; discriminate. }
  assert (L1 : length T1 = length T) by apply F1.
  (* what stands between the brackets *)
  destruct (R num (pre ++ [o]) (c :: post) (p + 1) (k + 1) k T1 (cnt + 1))
    as (T2 & s2 & E2 & F2 & C2); try lia.
  { rewrite Hjs. list_norm. reflexivity. }
  { lens. }
  { destruct Hc as [->| ->]; reflexivity. }
  { congruence. }
  { apply last_open_hit; auto. }
  assert (L2 : length T2 = length T1) by apply F2.
  (* the closing bracket *)
  destruct (run_close num c (p + 1 + len_of body) (k + 1 + m) s2 T2
              (cnt + 1 + m) k) as (T3 & E3 & F3 & C3 & O3); auto; try lia.
  { rewrite (char_at_js (pre ++ o :: body) (c :: post) _ 0);
      [reflexivity | rewrite Hjs; list_norm; reflexivity | lens | lia]. }
  { rewrite (last_open_skip T2 (k + 1) (k + 1 + m)) by (auto; lia).
    rewrite (last_open_frame (k + 1) T1 T2) by (auto; lia).
    apply last_open_hit; auto. }
  { destruct F2 as [_ F2]. destruct (F2 k) as [_ ->]; [lia|]. congruence. }
  exists T3, (Jsmn.last_open T2 (Z.to_nat k)).
  split; [|split; [|split]].
  - rewrite E1, E2, E3. f_equal. apply fill_state_eq; lens.
  - eapply frame_trans; [exact F1|].
    eapply frame_trans; [|exact F3].
    eapply frame_weaken; [|exact F2]. lia.
  - intros i Hi. destruct (Z.eq_dec i k) as [->|N]; [exact C3|].
    rewrite O3 by lia. apply C2. lia.
  - right. apply last_open_frame; [lia|].
    eapply frame_trans; [exact F1|].
    eapply frame_weaken; [|exact F2]. lia.
Qed.

Lemma elements_run_last w1 v w2 :
  json_ws w1 -> value_run js v -> json_ws w2 ->
  elements_run js (w1 ++ v ++ w2).
Proof.
  intros Hw1 (m & Hm & R) Hw2. exists m. split; [lens|].
  intros num pre post p k a T cnt Hjs Hp He HT Ha Hkm Hkp Hty Hlo.
  pose proof (f_equal len_of Hjs) as L. len_simpl. len_nonneg.
  destruct (R num (pre ++ w1) (w2 ++ post) (p + len_of w1) k a T cnt)
    as (T1 & s1 & E2 & F & C & Hs1); auto; try lia.
  { rewrite Hjs. list_norm. reflexivity. }
  { lens. }
  { intros _. apply ws_then_end; auto. }
  { right. split; [lia|]. left. exact Hty. }
  assert (s1 = a) by (destruct Hs1; congruence). subst s1.
  exists T1. split; [|auto].
  rewrite (run_ws num w1 Hw1 pre (v ++ w2 ++ post) p k a T cnt);
    [|rewrite Hjs; list_norm; reflexivity|exact Hp].
  rewrite E2.
  rewrite (run_ws num w2 Hw2 (pre ++ w1 ++ v) post);
    [|rewrite Hjs; list_norm; reflexivity|lens].
  f_equal. apply fill_state_eq; lens.
Qed.

Lemma elements_run_cons first rest :
  elements_run js first -> elements_run js rest ->
  elements_run js (first ++ 44 :: rest).
Proof.
  intros (m1 & Hm1 & R1) (m2 & Hm2 & R2). exists (m1 + m2).
  split; [lens|].
  intros num pre post p k a T cnt Hjs Hp He HT Ha Hkm Hkp Hty Hlo.
  pose proof (f_equal len_of Hjs) as L. len_simpl. len_nonneg.
  destruct (R1 num pre (44 :: rest ++ post) p k a T cnt)
    as (T1 & E1 & F1 & C1); auto; try lia.
  { rewrite Hjs. list_norm. reflexivity. }
  assert (L1 : length T1 = length T) by apply F1.
  assert (Ty1 : type (tok_at T1 a) = JSMN_ARRAY).
  { destruct F1 as [_ F1]. destruct (F1 a) as [_ ->]; [lia|]. exact Hty. }
  destruct (run_comma num (p + len_of first) (k + m1) a T1 (cnt + m1))
    as (s' & E2 & _ & Hs'); try lia.
  { rewrite (char_at_js (pre ++ first) (44 :: rest ++ post) _ 0);
      [reflexivity | rewrite Hjs; list_norm; reflexivity | lens | lia]. }
  rewrite Hs' in E2 by (rewrite Ty1; reflexivity).
  destruct (R2 num (pre ++ first ++ [44]) post (p + len_of first + 1) (k + m1)
              a T1 (cnt + m1)) as (T2 & E3 & F2 & C2); auto; try lia.
  { rewrite Hjs. list_norm. reflexivity. }
  { lens. }
  { rewrite (last_open_skip T1 k (k + m1)) by (auto; lia).
    rewrite (last_open_frame k T T1) by (auto; lia). exact Hlo. }
  exists T2. split; [|split].
  - rewrite E1, E2, E3. f_equal. apply fill_state_eq; lens.
  - eapply frame_trans; [exact F1|].
    eapply frame_weaken; [|exact F2]. lia.
  - intros i Hi. destruct (Z_lt_le_dec i (k + m1)).
    + destruct F2 as [_ F2]. destruct (F2 i) as [-> _]; [lia|].
      apply C1. lia.
    + apply C2. lia.
Qed.

Lemma prev_tok_plain p k s :
  0 <= k < 2 ^ 31 -> Jsmn.prev_tok (mkparser p (k + 1) s) = k.
Proof.
  intros H. unfold Jsmn.prev_tok. simpl.
  replace (k + 1 - 1) with k by lia.
  rewrite u32_small by lia. apply s32_pos; lia.
Qed.

Lemma members_run_last w1 key w2 w3 v w4 :
  json_ws w1 -> json_chars key -> json_ws w2 -> json_ws w3 ->
  value_run js v -> json_ws w4 ->
  members_run js
    (w1 ++ (34 :: key ++ [34]) ++ w2 ++ 58 :: w3 ++ v ++ w4).
Proof.
  intros Hw1 Hkey Hw2 Hw3 (m & Hm & R) Hw4. exists (1 + m).
  split; [lens|].
  intros num pre post p k s T cnt Hjs Hp He HT Hk Hkm Hkp Hs.
  pose proof (f_equal len_of Hjs) as L. len_simpl. len_nonneg.
  set (p1 := p + len_of w1).
  set (p2 := p1 + (1 + (len_of key + 1))).
  set (p3 := p2 + len_of w2).
  set (p5 := p3 + 1 + len_of w3).
  (* the key *)
  destruct (run_string num key (pre ++ w1)
              (w2 ++ 58 :: w3 ++ v ++ w4 ++ post) p1 k s T cnt)
    as (T1 & E2 & F1 & C1 & Ty1 & Sz1); auto; try (unfold p1; lia).
  { rewrite Hjs. list_norm. reflexivity. }
  { unfold p1. lens. }
  assert (L1 : length T1 = length T) by apply F1.
  (* the value *)
  destruct (R num (pre ++ w1 ++ (34 :: key ++ [34]) ++ w2 ++ 58 :: w3)
              (w4 ++ post) p5 (k + 1) k T1 (cnt + 1))
    as (T2 & s2 & E6 & F2 & C2 & Hs2); try (unfold p5, p3, p2, p1; lia).
  { rewrite Hjs. list_norm. reflexivity. }
  { unfold p5, p3, p2, p1. lens. }
  { intros _. apply ws_then_end; auto. }
  { right. split; [lia|]. right. auto. }
  exists T2, s2. split; [|split; [|split]].
  - rewrite (run_ws num w1 Hw1 pre
               ((34 :: key ++ [34]) ++ w2 ++ 58 :: w3 ++ v ++ w4 ++ post)
               p k s T cnt);
      [|rewrite Hjs; list_norm; reflexivity|exact Hp].
    fold p1. rewrite E2.
    replace (p1 + len_of (34 :: key ++ [34])) with p2
      by (unfold p2; lens).
    rewrite (run_ws num w2 Hw2 (pre ++ w1 ++ (34 :: key ++ [34]))
               (58 :: w3 ++ v ++ w4 ++ post));
      [|rewrite Hjs; list_norm; reflexivity|unfold p2, p1; lens].
    fold p3.
    rewrite (run_colon num); [|unfold p3, p2, p1; lia|].
    + rewrite prev_tok_plain by lia.
      rewrite (run_ws num w3 Hw3
                 (pre ++ w1 ++ (34 :: key ++ [34]) ++ w2 ++ [58])
                 (v ++ w4 ++ post));
        [|rewrite Hjs; list_norm; reflexivity|unfold p3, p2, p1; lens].
      fold p5. rewrite E6.
      rewrite (run_ws num w4 Hw4
                 (pre ++ w1 ++ (34 :: key ++ [34]) ++ w2 ++ 58 :: w3 ++ v)
                 post);
        [|rewrite Hjs; list_norm; reflexivity
         |unfold p5, p3, p2, p1; lens].
      f_equal. apply fill_state_eq; unfold p5, p3, p2, p1; lens.
    + rewrite (char_at_js (pre ++ w1 ++ (34 :: key ++ [34]) ++ w2)
                 (58 :: w3 ++ v ++ w4 ++ post) _ 0);
        [reflexivity | rewrite Hjs; list_norm; reflexivity
        | unfold p3, p2, p1; lens | lia].
  - eapply frame_trans; [exact F1|].
    eapply frame_weaken; [|exact F2]. lia.
  - intros i Hi. destruct (Z.eq_dec i k) as [->|N].
    + destruct F2 as [_ F2]. destruct (F2 k) as [-> _]; [lia|]. exact C1.
    + replace (k + (1 + m)) with (k + 1 + m) in Hi by lia.
      apply C2. lia.
  - pose proof (last_open_range T1 (Z.to_nat (k + 1))).
    destruct Hs2 as [->| ->]; lia.
Qed.

Lemma members_run_cons first rest :
  members_run js first -> members_run js rest ->
  members_run js (first ++ 44 :: rest).
Proof.
  intros (m1 & Hm1 & R1) (m2 & Hm2 & R2). exists (m1 + m2).
  split; [lens|].
  intros num pre post p k s T cnt Hjs Hp He HT Hk Hkm Hkp Hs.
  pose proof (f_equal len_of Hjs) as L. len_simpl. len_nonneg.
  destruct (R1 num pre (44 :: rest ++ post) p k s T cnt)
    as (T1 & s1 & E1 & F1 & C1 & Hs1); auto; try lia.
  { rewrite Hjs. list_norm. reflexivity. }
  assert (L1 : length T1 = length T) by apply F1.
  destruct (run_comma num (p + len_of first) (k + m1) s1 T1 (cnt + m1))
    as (s2 & E2 & Hs2 & _); try lia.
  { rewrite (char_at_js (pre ++ first) (44 :: rest ++ post) _ 0);
      [reflexivity | rewrite Hjs; list_norm; reflexivity | lens | lia]. }
  destruct (R2 num (pre ++ first ++ [44]) post (p + len_of first + 1) (k + m1)
              s2 T1 (cnt + m1)) as (T2 & s3 & E3 & F2 & C2 & Hs3);
    auto; try lia.
  { rewrite Hjs. list_norm. reflexivity. }
  { lens. }
  exists T2, s3. split; [|split; [|split]].
  - rewrite E1, E2, E3. f_equal. apply fill_state_eq; lens.
  - eapply frame_trans; [exact F1|].
    eapply frame_weaken; [|exact F2]. lia.
  - intros i Hi. destruct (Z_lt_le_dec i (k + m1)).
    + destruct F2 as [_ F2]. destruct (F2 i) as [-> _]; [lia|].
      apply C1. lia.
    + apply C2. lia.
  - lia.
Qed.

(** Every value, sequence of elements and sequence of members of the
    grammar is read as described. *)
Lemma json_runs :
  (forall v, json_value v -> value_run js v)
  /\ (forall body, json_elements body -> elements_run js body)
  /\ (forall body, json_members body -> members_run js body).
Proof.
  apply json_mutind.
  - intros s H. apply value_run_prim, literal_prim_text, H.
  - intros s H. apply value_run_prim, number_prim_text, H.
  - intros s H. apply value_run_string, H.
  - intros w H. apply (value_run_container JSMN_ARRAY); auto.
    apply body_run_ws, H.
  - intros body _ H. apply (value_run_container JSMN_ARRAY); auto.
    apply body_run_elements, H.
  - intros w H. apply (value_run_container JSMN_OBJECT); auto.
    apply body_run_ws, H.
  - intros body _ H. apply (value_run_container JSMN_OBJECT); auto.
    apply body_run_members, H.
  - intros w1 v w2 H1 _ Hv H2. apply elements_run_last; auto.
  - intros w1 v w2 rest H1 _ Hv H2 _ Hr.
    replace (w1 ++ v ++ w2 ++ 44 :: rest)
      with ((w1 ++ v ++ w2) ++ 44 :: rest) by (list_norm; reflexivity).
    apply elements_run_cons; auto. apply elements_run_last; auto.
  - intros w1 k w2 w3 v w4 H1 Hk H2 H3 _ Hv H4.
    apply members_run_last; auto.
  - intros w1 k w2 w3 v w4 rest H1 Hk H2 H3 _ Hv H4 _ Hr.
    replace (w1 ++ (34 :: k ++ [34]) ++ w2 ++ 58 :: w3 ++ v ++ w4
               ++ 44 :: rest)
      with ((w1 ++ (34 :: k ++ [34]) ++ w2 ++ 58 :: w3 ++ v ++ w4)
              ++ 44 :: rest) by (list_norm; reflexivity).
    apply members_run_cons; auto. apply members_run_last; auto.
Qed.

(** A JSON text whose value is not a primitive that ends the buffer: the
    run on a block with room returns the number of tokens of the text. *)
Lemma fill_run_json w1 v w2 :
  json_ws w1 -> json_value v -> json_ws w2 -> js = w1 ++ v ++ w2 ->
  (Jsmn.is_prim_start (hd 0 v) = true -> w2 <> []) ->
  exists m, 0 < m /\
    forall num T,
      Z.of_nat (length T) = num -> m <= num ->
      exists st',
        parse_from js num false (fill_state 0 0 (-1) T 0) = Some (m, st')
        /\ toknext (Jsmn.ps_parser st') = m.
Proof.
  intros Hw1 Hv Hw2 Hjs Hend.
  destruct json_runs as [VR _]. destruct (VR v Hv) as (m & Hm & R).
  exists m. split; [lia|]. intros num T HT Hnum.
  pose proof (f_equal len_of Hjs) as L. len_simpl. len_nonneg.
  destruct (R num w1 w2 (0 + len_of w1) 0 (-1) T 0)
    as (T' & s' & E2 & F & C & Hs'); auto; try lia.
  { intros P. specialize (Hend P). destruct Hw2 as [|c w2 Hc _]; [congruence|].
    apply ws_char_prim_end, Hc. }
  rewrite (run_ws num w1 Hw1 [] (v ++ w2) 0 0 (-1) T 0);
    [|exact Hjs|reflexivity].
  rewrite E2.
  rewrite (run_ws num w2 Hw2 (w1 ++ v) []);
    [|rewrite Hjs; list_norm; rewrite app_nil_r; reflexivity|lens].
  rewrite parse_from_end by (simpl; lia).
  unfold Jsmn.parse_finish.
  cbn [Jsmn.ps_tokens Jsmn.ps_parser Jsmn.ps_count fill_state toknext].
  rewrite last_open_all_closed by (auto; lia).
  cbn [Z.eqb Pos.eqb]. rewrite Z.add_0_l. eexists. split; reflexivity.
Qed.

Lemma run_ws_char_any num sc st :
  0 <= pos (Jsmn.ps_parser st) < len_of js ->
  ws_char (char_at js (pos (Jsmn.ps_parser st))) ->
  parse_from js num sc st
  = parse_from js num sc (at_pos st (pos (Jsmn.ps_parser st) + 1)).
Proof.
  intros Hp Hc.
  rewrite parse_from_step;
    [|lia|destruct Hc as [E|[E|[E|E]]]; rewrite E; lia].
  unfold Jsmn.parse_step.
  destruct Hc as [E|[E|[E|E]]]; rewrite E; reflexivity.
Qed.

Lemma run_ws_any num sc w :
  json_ws w ->
  forall pre post st,
    js = pre ++ w ++ post -> pos (Jsmn.ps_parser st) = len_of pre ->
    parse_from js num sc st
    = parse_from js num sc (at_pos st (len_of pre + len_of w)).
Proof.
  induction 1 as [|c w Hc Hw IH]; intros pre post st Hjs Hp.
  - change (len_of []) with 0. rewrite Z.add_0_r, <- Hp.
    destruct st as [[p k s] t cnt]. reflexivity.
  - pose proof (f_equal len_of Hjs) as L. len_simpl. len_nonneg.
    rewrite run_ws_char_any;
      [|lia|rewrite Hjs, Hp; cbn [app]; rewrite char_at_mid; exact Hc].
    rewrite (IH (pre ++ [c]) post);
      [|rewrite Hjs; list_norm; reflexivity
       |cbn [at_pos set_pos pos Jsmn.ps_parser]; lens].
    f_equal. unfold at_pos, set_pos.
    cbn [pos toknext toksuper Jsmn.ps_parser Jsmn.ps_tokens Jsmn.ps_count].
    f_equal. f_equal. lens.
Qed.

Lemma primitive_scan_eof body :
  Forall prim_char body ->
  forall n pre p,
    js = pre ++ body -> p = len_of pre ->
    Jsmn.primitive_scan n js (len_of js) p = Jsmn.Failed JSMN_ERROR_PART.
Proof.
  induction 1 as [|c s Hc Hs IH]; intros n pre p Hjs Hp;
    (destruct n as [|n]; [reflexivity|]);
    pose proof (f_equal len_of Hjs) as L; len_simpl; len_nonneg.
  - simpl. replace (p <? len_of js) with false; [reflexivity|].
    symmetry; apply Z.ltb_ge; lia.
  - rewrite primitive_scan_char; [|lia|].
    + apply (IH n (pre ++ [c])); [rewrite Hjs; list_norm; reflexivity|lens].
    + rewrite (char_at_js pre _ p 0 Hjs) by lia. exact Hc.
Qed.

(** A JSON text that ends on a primitive: every run, on a block or not,
    stops on the primitive with [JSMN_ERROR_PART]. *)
Lemma run_bare_primitive num sc w1 v st :
  json_ws w1 -> prim_text v -> js = w1 ++ v ->
  pos (Jsmn.ps_parser st) = 0 ->
  Jsmn.ps_tokens st = None \/ toksuper (Jsmn.ps_parser st) = -1 ->
  parse_from js num sc st
  = Some (JSMN_ERROR_PART, at_pos st (len_of w1)).
Proof.
  intros Hw1 (Hstart & Hne & Hall) Hjs Hp Hsup.
  pose proof (f_equal len_of Hjs) as L. len_simpl. len_nonneg.
  destruct v as [|c v]; [congruence|]. cbn [hd] in Hstart. len_simpl.
  len_nonneg.
  rewrite (run_ws_any num sc w1 Hw1 [] (c :: v) st Hjs Hp).
  change (len_of []) with 0. rewrite Z.add_0_l.
  destruct (prim_start_switch c Hstart)
    as (S1 & S2 & S3 & S4 & S5 & S6 & S7).
  assert (C0 : char_at js (len_of w1) = c).
  { rewrite (char_at_js w1 _ _ 0 Hjs) by lia. reflexivity. }
  rewrite parse_from_step; [|simpl; lia|simpl; rewrite C0; exact S7].
  unfold Jsmn.parse_step. cbn [Jsmn.ps_parser at_pos set_pos pos].
  rewrite C0, S1, S2, S3, S4, S5, S6, Hstart.
  unfold Jsmn.case_primitive.
  cbn [Jsmn.ps_parser Jsmn.ps_tokens Jsmn.ps_count at_pos set_pos pos
       toksuper].
  replace (match Jsmn.ps_tokens st with
           | Some toks =>
               negb (toksuper (Jsmn.ps_parser st) =? -1)
               && (jsmntype_eqb
                     (type (tok_at toks (toksuper (Jsmn.ps_parser st))))
                     JSMN_OBJECT
                   || jsmntype_eqb
                        (type (tok_at toks (toksuper (Jsmn.ps_parser st))))
                        JSMN_STRING
                      && negb
                           (size (tok_at toks (toksuper (Jsmn.ps_parser st)))
                            =? 0))
           | None => false
           end) with false
    by (destruct Hsup as [-> | ->]; [|destruct (Jsmn.ps_tokens st)];
        reflexivity).
  unfold Jsmn.jsmn_parse_primitive. cbn [pos].
  rewrite (primitive_scan_eof (c :: v) Hall _ w1 (len_of w1) Hjs eq_refl).
  unfold Jsmn.case_token. cbn [Z.ltb Z.compare JSMN_ERROR_PART].
  unfold at_pos, set_pos. cbn [pos toknext toksuper].
  rewrite s32_pos, u32_small by lia. reflexivity.
Qed.

End Fill.

Lemma sizing_run_unfold js :
  sizing_run js
  = match parse_from js 2 true (null_state Jsmn.jsmn_init 0) with
    | Some (r, st) => Some (r, Jsmn.ps_parser st, Jsmn.ps_tokens st)
    | None => None
    end.
Proof. reflexivity. Qed.

Lemma block_run_unfold sc js toks :
  block_run sc js toks
  = match parse_from js (Z.of_nat (length toks)) sc
            (fill_state 0 0 (-1) toks 0) with
    | Some (r, st) => Some (r, Jsmn.ps_parser st, Jsmn.ps_tokens st)
    | None => None
    end.
Proof. reflexivity. Qed.

Lemma sizing_fill_agree js w1 v w2 :
  json_ws w1 -> json_value v -> json_ws w2 -> js = w1 ++ v ++ w2 ->
  (Jsmn.is_prim_start (hd 0 v) = true -> w2 <> []) ->
  len_of js < 2 ^ 31 ->
  exists c parser,
    sizing_run js = Some (c, parser, None)
    /\ 0 < c
    /\ forall toks,
        c <= Z.of_nat (length toks) ->
        exists parser' toks',
          block_run false js toks = Some (c, parser', Some toks')
          /\ block_run true js toks = Some (c, parser', Some toks')
          /\ toknext parser' = c.
Proof.
  intros Hw1 Hv Hw2 Hjs Hend Hlen.
  destruct (fill_run_json js Hlen w1 v w2 Hw1 Hv Hw2 Hjs Hend)
    as (m & Hm & R).
  exists m.
  (* the sizing run returns the number of tokens of the text *)
  destruct (R m (repeat tok_blank (Z.to_nat m))) as (st0 & E0 & _);
    [rewrite repeat_length; lia|lia|].
  unfold parse_from in E0.
  destruct (null_loop_follows js (len_of js) m false 2 true _ _ _ _
              Jsmn.jsmn_init E0) as (st1 & E1); [lia|reflexivity|].
  cbn [Jsmn.ps_count fill_state Jsmn.ps_parser pos] in E1.
  pose proof (parse_loop_shape _ _ _ _ _ _ _ _ E1) as Sh1.
  cbn [Jsmn.ps_tokens null_state] in Sh1.
  destruct (Jsmn.ps_tokens st1) as [|] eqn:Et1; [contradiction|].
  exists (Jsmn.ps_parser st1). split; [|split; [lia|]].
  { rewrite sizing_run_unfold. unfold parse_from.
    cbn [null_state Jsmn.ps_parser Jsmn.jsmn_init pos].
    unfold null_state in *. cbn [Jsmn.jsmn_init pos] in E1.
    rewrite E1, Et1. reflexivity. }
  (* a block with room *)
  intros toks Hc. rewrite !block_run_unfold.
  destruct (R (Z.of_nat (length toks)) toks eq_refl Hc) as (st & E & Hk).
  pose proof E as E'. unfold parse_from in E'.
  pose proof (parse_loop_shape _ _ _ _ _ _ _ _ E') as Sh.
  cbn [Jsmn.ps_tokens fill_state] in Sh.
  destruct (Jsmn.ps_tokens st) as [toks'|] eqn:Et; [|contradiction].
  apply parse_loop_sizecheck in E'; [|unfold JSMN_ERROR_NOMEM; lia].
  fold (parse_from js (Z.of_nat (length toks)) true
          (fill_state 0 0 (-1) toks 0)) in E'.
  rewrite E, E', Et.
  exists (Jsmn.ps_parser st), toks'. auto.
Qed.

Lemma json_value_prim v :
  json_value v -> Jsmn.is_prim_start (hd 0 v) = true -> prim_text v.
Proof.
  intros Hv. destruct Hv as [s H|s H|s H|w H|body H|w H|body H];
    cbn [hd]; intros P; try discriminate P.
  - apply literal_prim_text, H.
  - apply number_prim_text, H.
Qed.

(** C1.  For every JSON text (shorter than [INT_MAX]), the sizing run of
    [jsmn_parse] (the run of the first pass of [jsmnreader_load], with
    [parsemode_sizecheck = 1]) returns a count, and a fill run
    ([parsemode_sizecheck = 0]) on a block of at least that many cells
    returns the same count; when the count is not an error the fill run
    stores exactly that many tokens; and a run with
    [parsemode_sizecheck = 1] on the same block leaves the same parser and
    the same token records as the fill run. *)
Theorem sizing_count_matches_fill (js : list Z) :
  json_text js -> len_of js < 2 ^ 31 ->
  exists c parser,
    sizing_run js = Some (c, parser, None)
    /\ forall toks,
        c <= Z.of_nat (length toks) ->
        exists parser' toks',
          block_run false js toks = Some (c, parser', Some toks')
          /\ block_run true js toks = Some (c, parser', Some toks')
          /\ (0 <= c -> toknext parser' = c).
Proof.
  intros (w1 & v & w2 & Hw1 & Hv & Hw2 & Hjs) Hlen.
  assert (A : (Jsmn.is_prim_start (hd 0 v) = true -> w2 <> []) ->
              exists c parser,
                sizing_run js = Some (c, parser, None)
                /\ forall toks,
                    c <= Z.of_nat (length toks) ->
                    exists parser' toks',
                      block_run false js toks = Some (c, parser', Some toks')
                      /\ block_run true js toks
                         = Some (c, parser', Some toks')
                      /\ (0 <= c -> toknext parser' = c)).
  { intros Hend.
    destruct (sizing_fill_agree js w1 v w2 Hw1 Hv Hw2 Hjs Hend Hlen)
      as (c & parser & Hsz & _ & R).
    exists c, parser. split; [exact Hsz|].
    intros toks Hc. destruct (R toks Hc) as (p' & t' & E1 & E2 & E3).
    exists p', t'. auto. }
  destruct (Jsmn.is_prim_start (hd 0 v)) eqn:PS;
    [|apply A; intros X; discriminate X].
  destruct w2 as [|d w2]; [|apply A; intros _; discriminate].
  (* the text ends on a primitive *)
  rewrite app_nil_r in Hjs.
  pose proof (json_value_prim v Hv PS) as Hp.
  exists JSMN_ERROR_PART. eexists. split.
  - rewrite sizing_run_unfold.
    rewrite (run_bare_primitive js Hlen 2 true w1 v); auto.
  - intros toks _. rewrite !block_run_unfold.
    rewrite !(run_bare_primitive js Hlen _ _ w1 v); auto.
    eexists. eexists. split; [reflexivity|]. split; [reflexivity|].
    unfold JSMN_ERROR_PART. lia.
Qed.

Lemma json_text_sample : json_text (text "{'a':[1,'x']}"%string).
Proof.
  assert (W : json_ws []) by constructor.
  assert (V1 : json_value [49]).
  { apply jv_number. exists [], [49], [], [].
    split; [reflexivity|]. split; [left; reflexivity|].
    split; [|split; left; reflexivity].
    right. exists 49, []. split; [reflexivity|]. split; [lia|constructor]. }
  assert (V2 : json_value [34; 120; 34]).
  { apply (jv_string [120]). apply chars_plain; try lia. constructor. }
  assert (E : json_elements [49; 44; 34; 120; 34]).
  { apply (je_cons [] [49] [] [34; 120; 34] W V1 W).
    apply (je_last [] [34; 120; 34] [] W V2 W). }
  assert (A : json_value [91; 49; 44; 34; 120; 34; 93]).
  { apply (jv_array [49; 44; 34; 120; 34] E). }
  assert (K : json_chars [97]).
  { apply chars_plain; try lia. constructor. }
  assert (M : json_members [34; 97; 34; 58; 91; 49; 44; 34; 120; 34; 93]).
  { apply (jm_last [] [97] [] [] [91; 49; 44; 34; 120; 34; 93] []
             W K W W A W). }
  exists [], (text "{'a':[1,'x']}"%string), [].
  split; [exact W|]. split; [|split; [exact W|reflexivity]].
  apply (jv_object [34; 97; 34; 58; 91; 49; 44; 34; 120; 34; 93] M).
Qed.

Lemma sizing_count_matches_fill_witness :
  exists c parser,
    sizing_run (text "{'a':[1,'x']}"%string) = Some (c, parser, None)
    /\ forall toks,
        c <= Z.of_nat (length toks) ->
        exists parser' toks',
          block_run false (text "{'a':[1,'x']}"%string) toks
          = Some (c, parser', Some toks')
          /\ block_run true (text "{'a':[1,'x']}"%string) toks
             = Some (c, parser', Some toks')
          /\ (0 <= c -> toknext parser' = c).
Proof.
  apply (sizing_count_matches_fill (text "{'a':[1,'x']}"%string)).
  - exact json_text_sample.
  - vm_compute. reflexivity.
Defined.

(** The sample text has five tokens, and a block of five cells receives
    them. *)
Example sizing_and_fill_of_sample :
  sizing_run (text "{'a':[1,'x']}"%string)
  = Some (5, mkparser 13 0 (-1), None)
  /\ block_run false (text "{'a':[1,'x']}"%string) (repeat tok_blank 5)
     = Some (5, mkparser 13 5 (-1),
             Some [mktok JSMN_OBJECT 0 13 1; mktok JSMN_STRING 2 3 1;
                   mktok JSMN_ARRAY 5 12 2; mktok JSMN_PRIMITIVE 6 7 0;
                   mktok JSMN_STRING 9 10 0]).
Proof. split; vm_compute; reflexivity. Qed.

(** ** The spans of the tokens of a loaded document *)

Lemma slice_nil js p : slice js p p = [].
Proof. unfold slice. rewrite Z.sub_diag. reflexivity. Qed.

Lemma slice_cons js p q :
  0 <= p < q -> p < len_of js ->
  slice js p q = char_at js p :: slice js (p + 1) q.
Proof.
  intros H L. unfold slice, char_at, len_of in *.
  replace (Z.to_nat (q - p)) with (S (Z.to_nat (q - (p + 1)))) by lia.
  replace (Z.to_nat (p + 1)) with (S (Z.to_nat p)) by lia.
  generalize (Z.to_nat (q - (p + 1))) as k.
  assert (Hn : (Z.to_nat p < length js)%nat) by lia.
  revert Hn. generalize (Z.to_nat p) as n. clear.
  induction js as [|x js IH]; intros n Hn k; simpl in Hn; [lia|].
  destruct n as [|n]; [reflexivity|].
  cbn [skipn nth]. apply IH. lia.
Qed.

Lemma escapes_closed_plain_app l s :
  Forall (fun c => c <> 92) l ->
  escapes_closed (l ++ s) = escapes_closed s.
Proof.
  induction 1 as [|c l Hc Hl IH]; [reflexivity|].
  cbn [app escapes_closed].
  replace (c =? 92) with false by (symmetry; apply Z.eqb_neq; auto).
  exact IH.
Qed.

Lemma firstn_plus {A : Type} (a b : nat) :
  forall l : list A,
    firstn (a + b) l = firstn a l ++ firstn b (skipn a l).
Proof.
  induction a as [|a IH]; intros l; [reflexivity|].
  destruct l as [|x l]; simpl.
  - rewrite firstn_nil. reflexivity.
  - rewrite IH. reflexivity.
Qed.

Lemma slice_app js p m q :
  0 <= p <= m -> m <= q ->
  slice js p q = slice js p m ++ slice js m q.
Proof.
  intros H1 H2. unfold slice.
  replace (Z.to_nat (q - p)) with (Z.to_nat (m - p) + Z.to_nat (q - m))%nat
    by lia.
  rewrite firstn_plus. f_equal. rewrite skipn_skipn. do 2 f_equal. lia.
Qed.

(** A byte that is not NUL is a byte of the buffer. *)
Lemma in_text js len p :
  (p <? len) && negb (char_at js p =? 0) = true -> 0 <= p ->
  p < len /\ p < len_of js.
Proof.
  intros C Hp. apply andb_prop in C. destruct C as [C1 C2].
  apply Z.ltb_lt in C1. apply negb_true_iff, Z.eqb_neq in C2.
  split; [exact C1|].
  unfold char_at, len_of in *.
  destruct (Z_lt_le_dec p (Z.of_nat (length js))) as [L|L]; [exact L|].
  rewrite nth_overflow in C2 by lia. contradiction.
Qed.

Lemma is_hex_not_backslash c : Jsmn.is_hex c = true -> c <> 92.
Proof. unfold Jsmn.is_hex. intros H E. subst c. discriminate H. Qed.

Lemma hex_scan_plain i js len :
  forall p q,
    Jsmn.hex_scan i js len p = Some q -> 0 <= p ->
    p <= q /\ Forall (fun c => c <> 92) (slice js p q).
Proof.
  induction i as [|i IH]; simpl; intros p q H Hp.
  - inversion H; subst. rewrite slice_nil. split; [lia|constructor].
  - destruct ((p <? len) && negb (char_at js p =? 0)) eqn:C.
    + destruct (Jsmn.is_hex (char_at js p)) eqn:X; [|discriminate].
      apply IH in H; [|lia]. destruct H as [H1 H2].
      apply in_text in C; [|lia]. destruct C as [_ C].
      rewrite slice_cons by lia. split; [lia|].
      constructor; auto. apply is_hex_not_backslash; auto.
    + inversion H; subst. rewrite slice_nil. split; [lia|constructor].
Qed.

(** A string is left on its closing quote with every backslash paired. *)
Lemma string_scan_found n js len :
  forall p q,
    Jsmn.string_scan n js len p = Jsmn.Found q -> 0 <= p ->
    p <= q < len_of js /\ q < len
    /\ escapes_closed (slice js p q) = true.
Proof.
  induction n as [|n IH]; simpl; intros p q H Hp; [discriminate|].
  destruct ((p <? len) && negb (char_at js p =? 0)) eqn:C;
    [|discriminate].
  apply in_text in C; [|lia]. destruct C as [C0 C].
  destruct (char_at js p =? 34) eqn:Q.
  { inversion H; subst. rewrite slice_nil.
    split; [lia|split; [lia|reflexivity]]. }
  destruct ((char_at js p =? 92) && (p + 1 <? len)) eqn:B.
  - apply andb_prop in B. destruct B as [B1 B2].
    apply Z.eqb_eq in B1. apply Z.ltb_lt in B2.
    destruct (Jsmn.escape_scan js len (p + 1)) as [q0|] eqn:E;
      [|discriminate].
    pose proof (escape_scan_pos _ _ _ _ E) as P0.
    apply IH in H; [|lia]. destruct H as (H1 & H0 & H2).
    split; [lia|]. split; [lia|].
    rewrite slice_cons by lia. rewrite B1.
    rewrite (slice_cons js (p + 1)) by lia.
    cbn [escapes_closed Z.eqb Pos.eqb].
    unfold Jsmn.escape_scan in E.
    destruct (Jsmn.is_simple_escape (char_at js (p + 1))).
    + inversion E; subst q0. exact H2.
    + destruct (char_at js (p + 1) =? 117); [|discriminate].
      destruct (Jsmn.hex_scan 4 js len (p + 1 + 1)) as [hq|] eqn:X;
        [|discriminate].
      inversion E; subst q0.
      apply hex_scan_plain in X; [|lia]. destruct X as [X1 X2].
      rewrite (slice_app js (p + 1 + 1) hq q) by lia.
      rewrite escapes_closed_plain_app by auto.
      replace (hq - 1 + 1) with hq in H2 by lia. exact H2.
  - apply IH in H; [|lia]. destruct H as (H1 & H0 & H2).
    split; [lia|]. split; [lia|].
    rewrite slice_cons by lia. cbn [escapes_closed].
    destruct (char_at js p =? 92) eqn:B1; [|exact H2].
    simpl in B. apply Z.ltb_ge in B. lia.
Qed.

(** A primitive is left on the separator after it. *)
Lemma primitive_scan_found n js len :
  forall p q,
    Jsmn.primitive_scan n js len p = Jsmn.Found q -> 0 <= p ->
    p <= q < len_of js /\ Jsmn.is_prim_end (char_at js q) = true.
Proof.
  induction n as [|n IH]; simpl; intros p q H Hp; [discriminate|].
  destruct ((p <? len) && negb (char_at js p =? 0)) eqn:C;
    [|discriminate].
  apply in_text in C; [|lia]. destruct C as [_ C].
  destruct (Jsmn.is_prim_end (char_at js p)) eqn:E.
  - inversion H; subst. split; [lia|exact E].
  - destruct (_ || _); [discriminate|].
    apply IH in H; [|lia]. destruct H as [H1 H2]. split; [lia|exact H2].
Qed.

Lemma scalar_ok_string js p q :
  0 <= p -> p + 1 <= q < len_of js -> len_of js < 2 ^ 31 ->
  escapes_closed (slice js (p + 1) q) = true ->
  scalar_ok js (mktok JSMN_STRING (s32 p + 1) (s32 q) 0).
Proof.
  intros Hp Hq Hl Hc _. rewrite !s32_pos by lia.
  unfold span_ok, raw_text. cbn [start end_ txt].
  split; [lia|]. split; [lia|]. split; [lia|]. left. exact Hc.
Qed.

Lemma prim_end_not_escape c :
  Jsmn.is_prim_end c = true -> c <> 92 /\ c <> 34.
Proof.
  unfold Jsmn.is_prim_end. intros H. split; intros E; subst c; discriminate H.
Qed.

Lemma scalar_ok_primitive js p q :
  0 <= p <= q -> q < len_of js -> len_of js < 2 ^ 31 ->
  Jsmn.is_prim_end (char_at js q) = true ->
  scalar_ok js (mktok JSMN_PRIMITIVE (s32 p) (s32 q) 0).
Proof.
  intros Hp Hq Hl He _. rewrite !s32_pos by lia.
  unfold span_ok. cbn [start end_ txt].
  split; [lia|]. split; [lia|]. split; [lia|]. right.
  apply prim_end_not_escape; auto.
Qed.

Lemma scalar_ok_container js ty st en sz :
  is_container ty = true -> scalar_ok js (mktok ty st en sz).
Proof.
  intros C [H|H]; cbn [type] in H; subst ty; discriminate C.
Qed.

Lemma scalar_ok_size_incr js t : scalar_ok js t -> scalar_ok js (size_incr t).
Proof. destruct t. exact (fun H => H). Qed.

Lemma scalar_ok_set_end js e t :
  scalar_ok js t -> tok_open t = true -> scalar_ok js (set_end e t).
Proof.
  intros H O Hty. exfalso.
  destruct t as [ty st en sz]. cbn [type set_end] in Hty.
  destruct (H Hty) as (H1 & _). cbn [start end_] in H1.
  unfold tok_open in O. cbn [start end_] in O.
  apply andb_prop in O. destruct O as [_ O]. apply Z.eqb_eq in O. lia.
Qed.

Lemma nth_list_upd_cases {A : Type} (f : A -> A) (d : A) :
  forall l i j,
    nth i (list_upd l j f) d = nth i l d
    \/ (i = j /\ nth i (list_upd l j f) d = f (nth i l d)).
Proof.
  induction l as [|x l IH]; intros [|i] [|j]; simpl; auto.
  destruct (IH i j) as [H|[H1 H2]]; auto.
Qed.

Lemma tok_set_keeps (P : jsmntok_t -> Prop) T j f i :
  0 <= i -> 0 <= j ->
  (i = j -> P (tok_at T i) -> P (f (tok_at T i))) ->
  P (tok_at T i) -> P (tok_at (tok_set T j f) i).
Proof.
  intros Hi Hj Hf H. unfold tok_at, tok_set in *.
  destruct (nth_list_upd_cases f tok_blank T (Z.to_nat i) (Z.to_nat j))
    as [E|[E1 E2]].
  - rewrite E. exact H.
  - rewrite E2. apply Hf; auto. lia.
Qed.

Lemma tok_set_keeps_all (P : jsmntok_t -> Prop) T j f i :
  (forall t, P t -> P (f t)) ->
  P (tok_at T i) -> P (tok_at (tok_set T j f) i).
Proof.
  intros Hf H. unfold tok_at, tok_set in *.
  destruct (nth_list_upd_cases f tok_blank T (Z.to_nat i) (Z.to_nat j))
    as [E|[E1 E2]].
  - rewrite E. exact H.
  - rewrite E2. apply Hf; auto.
Qed.

Lemma bump_super_keeps js parser T i :
  scalar_ok js (tok_at T i) ->
  scalar_ok js (tok_at (Jsmn.bump_super parser T) i).
Proof.
  intros H. unfold Jsmn.bump_super.
  destruct (toksuper parser =? -1); [exact H|].
  apply (tok_set_keeps_all (scalar_ok js)); [|exact H].
  apply scalar_ok_size_incr.
Qed.

Lemma last_open_is_open T k :
  0 <= Jsmn.last_open T k ->
  tok_open (tok_at T (Jsmn.last_open T k)) = true.
Proof.
  induction k as [|k IH]; simpl; [lia|].
  destruct (tok_open (nth k T tok_blank)) eqn:O; [|exact IH].
  intros _. unfold tok_at. rewrite Nat2Z.id. exact O.
Qed.

(** Without the sizing mode [jsmn_alloc_token] gives the next cell, or the
    null pointer when the block has no cell left. *)
Lemma alloc_fill parser toks num :
  Z.of_nat (length toks) = num ->
  Jsmn.jsmn_alloc_token parser toks num false
  = if num <=? toknext parser then (Jsmn.NullPtr, parser, toks)
    else (Jsmn.TokPtr (toknext parser),
          set_toknext parser (u32 (toknext parser + 1)),
          tok_set toks (toknext parser) Jsmn.alloc_init).
Proof.
  intros HT. unfold Jsmn.jsmn_alloc_token. cbn [negb andb].
  destruct (num <=? toknext parser) eqn:E; [reflexivity|].
  apply Z.leb_gt in E.
  replace (toknext parser <? num) with true
    by (symmetry; apply Z.ltb_lt; lia).
  replace (toknext parser <? Z.of_nat (length toks)) with true
    by (symmetry; apply Z.ltb_lt; lia).
  reflexivity.
Qed.

(** The cell just taken holds the new token, the cells before it are as
    they were. *)
Lemma push_ok js T k f i :
  0 <= k < Z.of_nat (length T) ->
  (forall t0, scalar_ok js (f t0)) ->
  (forall j, 0 <= j < k -> scalar_ok js (tok_at T j)) ->
  0 <= i < k + 1 ->
  scalar_ok js (tok_at (tok_set (tok_set T k Jsmn.alloc_init) k f) i).
Proof.
  intros Hk Hf H Hi.
  destruct (Z.eq_dec i k) as [->|N].
  - rewrite tok_at_set_same by (rewrite tok_set_length; lia). apply Hf.
  - rewrite !tok_at_set_other by lia. apply H. lia.
Qed.

Lemma string_scan_error n js len :
  forall p err,
    Jsmn.string_scan n js len p = Jsmn.Failed err ->
    err = JSMN_ERROR_INVAL \/ err = JSMN_ERROR_PART.
Proof.
  induction n as [|n IH]; simpl; intros p err H.
  - inversion H; auto.
  - destruct (_ && _); [|inversion H; auto].
    destruct (_ =? 34); [discriminate|].
    destruct (_ && _); [|eapply IH; eauto].
    destruct (Jsmn.escape_scan js len (p + 1)); [eapply IH; eauto|].
    inversion H; auto.
Qed.

Lemma primitive_scan_error n js len :
  forall p err,
    Jsmn.primitive_scan n js len p = Jsmn.Failed err ->
    err = JSMN_ERROR_INVAL \/ err = JSMN_ERROR_PART.
Proof.
  induction n as [|n IH]; simpl; intros p err H.
  - inversion H; auto.
  - destruct (_ && _); [|inversion H; auto].
    destruct (Jsmn.is_prim_end _); [discriminate|].
    destruct (_ || _); [inversion H; auto|].
    eapply IH; eauto.
Qed.

(** A step of a run that fills a block keeps the spans of the stored
    tokens good. *)
Lemma parse_step_tokens_ok js len num parser T cnt :
  len_of js < 2 ^ 31 -> num < 2 ^ 32 ->
  0 <= pos parser ->
  tokens_ok js num (Jsmn.mkstate parser (Some T) cnt) ->
  cnt = toknext parser ->
  step_tokens_ok js num
    (Jsmn.parse_step js len num false (Jsmn.mkstate parser (Some T) cnt)).
Proof.
  intros Hl Hn Hp (HL & Hk & HT) Hc.
  destruct parser as [p k s].
  cbn [Jsmn.ps_parser Jsmn.ps_tokens toknext pos] in *.
  assert (OK : forall p' s' c',
             tokens_ok js num (Jsmn.mkstate (mkparser p' k s') (Some T) c'))
    by (intros; split; [|split]; assumption).
  unfold Jsmn.parse_step. cbn [Jsmn.ps_parser Jsmn.ps_tokens Jsmn.ps_count].
  destruct (_ || _).
  { unfold Jsmn.case_open. cbn [Jsmn.ps_parser Jsmn.ps_tokens Jsmn.ps_count].
    rewrite alloc_fill by assumption. cbn [toknext].
    destruct (num <=? k) eqn:E.
    - apply Z.leb_le in E. right; right.
      split; [reflexivity|]. split; [apply OK|]. unfold block_full; simpl; lia.
    - apply Z.leb_gt in E.
      destruct (negb _ && _); [left; reflexivity|].
      unfold step_tokens_ok, tokens_ok, count_ok, set_toksuper, set_toknext.
      cbn [Jsmn.ps_parser Jsmn.ps_tokens Jsmn.ps_count toknext pos].
      rewrite u32_small by lia.
      split; [split; [|split]|].
      + rewrite tok_set_length, bump_super_length, tok_set_length. exact HL.
      + lia.
      + intros i Hi. destruct (Z.eq_dec i k) as [->|N].
        * rewrite tok_at_set_same
            by (rewrite bump_super_length, tok_set_length; lia).
          apply scalar_ok_container. destruct (_ =? 123); reflexivity.
        * rewrite tok_at_set_other by lia. apply bump_super_keeps.
          rewrite tok_at_set_other by lia. apply HT; lia.
      + lia. }
  destruct (_ || _).
  { unfold Jsmn.case_close.
    cbn [Jsmn.ps_parser Jsmn.ps_tokens Jsmn.ps_count toknext pos].
    pose proof (last_open_range T (Z.to_nat k)) as R.
    pose proof (last_open_is_open T (Z.to_nat k)) as O.
    destruct (Jsmn.last_open T (Z.to_nat k) =? -1) eqn:E;
      [left; reflexivity|].
    apply Z.eqb_neq in E.
    destruct (negb _); [left; reflexivity|].
    unfold step_tokens_ok, tokens_ok, count_ok, set_toksuper.
    cbn [Jsmn.ps_parser Jsmn.ps_tokens Jsmn.ps_count toknext pos].
    split; [|exact Hc].
    split; [rewrite tok_set_length; exact HL|]. split; [lia|].
    intros i Hi. apply (tok_set_keeps (scalar_ok js)); [lia|lia| |apply HT; lia].
    intros -> H. apply scalar_ok_set_end; auto. apply O; lia. }
  destruct (_ =? 34).
  { unfold Jsmn.jsmn_parse_string. cbn [pos].
    destruct (Jsmn.string_scan _ js len (p + 1)) as [q|err] eqn:S.
    - apply string_scan_found in S; [|lia]. destruct S as (S1 & S0 & S2).
      rewrite alloc_fill by assumption. unfold set_pos. cbn [toknext pos toksuper].
      destruct (num <=? k) eqn:E.
      + apply Z.leb_le in E. right; right.
        split; [reflexivity|]. split; [apply OK|].
        unfold block_full; simpl; lia.
      + apply Z.leb_gt in E. unfold Jsmn.case_token.
        replace (0 <? 0) with false by reflexivity.
        unfold step_tokens_ok, tokens_ok, count_ok, set_toknext.
        cbn [Jsmn.ps_parser Jsmn.ps_tokens Jsmn.ps_count toknext pos].
        rewrite u32_small by lia.
        split; [split; [|split]|].
        * rewrite bump_super_length, !tok_set_length. exact HL.
        * lia.
        * intros i Hi. apply bump_super_keeps. apply push_ok; auto; [lia|].
          intros t0. unfold Jsmn.jsmn_fill_token.
          apply scalar_ok_string; auto; lia.
        * lia.
    - apply string_scan_error in S. unfold Jsmn.case_token.
      destruct S as [-> | ->]; simpl; auto. }
  destruct (Jsmn.is_space _); [split; [apply OK|exact Hc]|].
  destruct (_ =? 58); [split; [apply OK|exact Hc]|].
  destruct (_ =? 44).
  { unfold Jsmn.case_comma.
    cbn [Jsmn.ps_parser Jsmn.ps_tokens Jsmn.ps_count toknext pos].
    destruct (_ && _); [|split; [apply OK|exact Hc]].
    destruct (_ =? -1); split; solve [apply OK | exact Hc]. }
  destruct (Jsmn.is_prim_start _) eqn:PS; [|left; reflexivity].
  unfold Jsmn.case_primitive.
  cbn [Jsmn.ps_parser Jsmn.ps_tokens Jsmn.ps_count toknext pos].
  destruct (negb _ && _); [left; reflexivity|].
  unfold Jsmn.jsmn_parse_primitive. cbn [pos].
  destruct (Jsmn.primitive_scan _ js len p) as [q|err] eqn:S.
  - apply primitive_scan_found in S; [|lia]. destruct S as (S1 & S2).
    rewrite alloc_fill by assumption. unfold set_pos. cbn [toknext pos toksuper].
    destruct (num <=? k) eqn:E.
    + apply Z.leb_le in E. right; right.
      split; [reflexivity|]. split; [apply OK|].
      unfold block_full; simpl; lia.
    + apply Z.leb_gt in E. unfold Jsmn.case_token.
      replace (0 <? 0) with false by reflexivity.
      unfold step_tokens_ok, tokens_ok, count_ok, set_toknext.
      cbn [Jsmn.ps_parser Jsmn.ps_tokens Jsmn.ps_count toknext pos].
      rewrite u32_small by lia.
      split; [split; [|split]|].
      * rewrite bump_super_length, !tok_set_length. exact HL.
      * lia.
      * intros i Hi. apply bump_super_keeps. apply push_ok; auto; [lia|].
        intros t0. unfold Jsmn.jsmn_fill_token.
        apply scalar_ok_primitive; auto; lia.
      * lia.
  - apply primitive_scan_error in S. unfold Jsmn.case_token.
    destruct S as [-> | ->]; simpl; auto.
Qed.

Lemma parse_finish_tokens_ok js num st T :
  forall r st',
    Jsmn.ps_tokens st = Some T ->
    tokens_ok js num st -> count_ok st ->
    Jsmn.parse_finish st = (r, st') ->
    r = JSMN_ERROR_INVAL \/ r = JSMN_ERROR_PART
    \/ (tokens_ok js num st'
        /\ ((r = JSMN_ERROR_NOMEM /\ block_full num st')
            \/ r = toknext (Jsmn.ps_parser st'))).
Proof.
  intros r st' HT OK Hc. unfold Jsmn.parse_finish, count_ok in *.
  rewrite HT in *.
  destruct (_ =? -1); intros H; inversion H; subst; auto.
Qed.

(** A run that fills a block of [num] cells ends with one of the two errors
    after which the block is dropped, or with good spans in the cells
    below [toknext]; these are all the cells when there was no room left,
    and as many as the result says otherwise. *)
Lemma parse_loop_tokens_ok js len num :
  len_of js < 2 ^ 31 -> num < 2 ^ 32 ->
  forall n st T r st',
    Jsmn.ps_tokens st = Some T ->
    0 <= pos (Jsmn.ps_parser st) ->
    tokens_ok js num st -> count_ok st ->
    Jsmn.parse_loop n js len num false st = Some (r, st') ->
    r = JSMN_ERROR_INVAL \/ r = JSMN_ERROR_PART
    \/ (tokens_ok js num st'
        /\ ((r = JSMN_ERROR_NOMEM /\ block_full num st')
            \/ r = toknext (Jsmn.ps_parser st'))).
Proof.
  intros Hl Hn.
  induction n as [|n IH]; intros st T r st' HT Hp OK Hc H; simpl in H.
  - inversion H as [F]. eapply parse_finish_tokens_ok; eauto.
  - destruct (_ && _);
      [|inversion H as [F]; eapply parse_finish_tokens_ok; eauto].
    pose proof (parse_step_shape js len num false st) as Sh.
    pose proof (parse_step_pos js len num false st) as Mv.
    destruct st as [parser toks cnt]. cbn [Jsmn.ps_tokens] in HT. subst toks.
    pose proof (parse_step_tokens_ok js len num parser T cnt Hl Hn Hp OK Hc)
      as St.
    destruct (Jsmn.parse_step js len num false _) as [st1|r1 st1|];
      [| |discriminate].
    + destruct St as [OK1 Hc1].
      cbn [step_keeps_shape same_shape Jsmn.ps_tokens] in Sh.
      cbn [step_moves_on Jsmn.ps_parser] in Mv.
      destruct (Jsmn.ps_tokens st1) as [T1|] eqn:E1; [|contradiction].
      apply (IH (Jsmn.next_char st1) T1 r st'); auto.
      unfold Jsmn.next_char, set_pos. simpl in Hp |- *. lia.
    + inversion H; subst r1 st1.
      destruct St as [St|[St|(E & OK1 & F)]]; auto.
      right; right. split; [exact OK1|]. left. split; assumption.
Qed.

Lemma realloc_tokens_length old n T :
  realloc_tokens old n = Some T -> 0 <= n -> Z.of_nat (length T) = n.
Proof.
  unfold realloc_tokens. destruct (n =? 0) eqn:E.
  - apply Z.eqb_eq in E. destruct old; [discriminate|].
    intros H _. inversion H; subst. reflexivity.
  - intros H Hn. inversion H; subst T.
    rewrite length_app, length_firstn, repeat_length. lia.
Qed.

Lemma span_ok_of_scalar js t reader :
  txt reader = js ->
  type t = JSMN_STRING \/ type t = JSMN_PRIMITIVE ->
  scalar_ok js t -> span_ok t reader.
Proof.
  intros <- Hty H. specialize (H Hty).
  unfold span_ok, raw_text in *. cbn [txt] in H. exact H.
Qed.

Lemma tok_read_tok_at reader T i t :
  tokens reader = Some T -> tok_read reader i = Some t -> tok_at T i = t.
Proof.
  unfold tok_read, tok_at. intros ->.
  destruct (i <? 0); [discriminate|].
  intros H. apply nth_error_nth. exact H.
Qed.

(** ** A run on a block of no cell

    The block that [realloc] gives for zero bytes on the null pointer has
    no cell.  A run on it that has room by [num_tokens] is undefined as soon
    as it takes a cell; a run that returns has stored nothing, and went as
    a run on any other block goes before its first token. *)

Lemma empty_block_alloc parser num sc :
  toknext parser = 0 -> 0 < num ->
  Jsmn.jsmn_alloc_token parser [] num sc = (Jsmn.WildPtr, parser, []).
Proof.
  intros Hk Hn. unfold Jsmn.jsmn_alloc_token. rewrite Hk.
  replace (num <=? 0) with false by (symmetry; apply Z.leb_gt; lia).
  rewrite andb_false_r.
  replace (0 <? num) with true by (symmetry; apply Z.ltb_lt; lia).
  reflexivity.
Qed.

Lemma empty_block_step js len num sc num' sc' T p cnt :
  0 < num ->
  match Jsmn.parse_step js len num sc
          (Jsmn.mkstate (mkparser p 0 (-1)) (Some []) cnt) with
  | Jsmn.Next st1 =>
      exists p1,
        st1 = Jsmn.mkstate (mkparser p1 0 (-1)) (Some []) cnt
        /\ Jsmn.parse_step js len num' sc'
             (Jsmn.mkstate (mkparser p 0 (-1)) (Some T) cnt)
           = Jsmn.Next (Jsmn.mkstate (mkparser p1 0 (-1)) (Some T) cnt)
  | Jsmn.Stop r st1 =>
      (r = JSMN_ERROR_INVAL \/ r = JSMN_ERROR_PART)
      /\ exists p1,
           st1 = Jsmn.mkstate (mkparser p1 0 (-1)) (Some []) cnt
           /\ Jsmn.parse_step js len num' sc'
                (Jsmn.mkstate (mkparser p 0 (-1)) (Some T) cnt)
              = Jsmn.Stop r (Jsmn.mkstate (mkparser p1 0 (-1)) (Some T) cnt)
  | Jsmn.Wild => True
  end.
Proof.
  intros Hn. unfold Jsmn.parse_step.
  cbn [Jsmn.ps_parser Jsmn.ps_tokens Jsmn.ps_count pos].
  destruct (_ || _).
  { unfold Jsmn.case_open.
    cbn [Jsmn.ps_parser Jsmn.ps_tokens Jsmn.ps_count].
    rewrite empty_block_alloc by (auto; reflexivity). exact I. }
  destruct (_ || _).
  { unfold Jsmn.case_close.
    cbn [Jsmn.ps_parser Jsmn.ps_tokens Jsmn.ps_count toknext Z.to_nat
         Jsmn.last_open Z.eqb].
    split; [left; reflexivity|]. exists p. split; reflexivity. }
  destruct (_ =? 34).
  { unfold Jsmn.jsmn_parse_string. cbn [pos].
    destruct (Jsmn.string_scan _ _ _ _) as [q|err] eqn:S.
    - unfold set_pos. cbn [pos toknext toksuper].
      rewrite empty_block_alloc by (auto; reflexivity). exact I.
    - pose proof (string_scan_failed _ _ _ _ _ S) as Neg.
      unfold Jsmn.case_token.
      replace (err <? 0) with true by (symmetry; apply Z.ltb_lt; lia).
      split; [exact (string_scan_error _ _ _ _ _ S)|].
      eexists. split; reflexivity. }
  destruct (Jsmn.is_space _); [exists p; split; reflexivity|].
  destruct (_ =? 58).
  { exists p. split; reflexivity. }
  destruct (_ =? 44).
  { unfold Jsmn.case_comma.
    cbn [Jsmn.ps_parser Jsmn.ps_tokens toksuper Z.eqb negb andb].
    exists p. split; reflexivity. }
  destruct (Jsmn.is_prim_start _);
    [|split; [left; reflexivity|exists p; split; reflexivity]].
  unfold Jsmn.case_primitive.
  cbn [Jsmn.ps_parser Jsmn.ps_tokens Jsmn.ps_count toksuper Z.eqb negb andb].
  unfold Jsmn.jsmn_parse_primitive. cbn [pos].
  destruct (Jsmn.primitive_scan _ _ _ _) as [q|err] eqn:S.
  - unfold set_pos. cbn [pos toknext toksuper].
    rewrite empty_block_alloc by (auto; reflexivity). exact I.
  - pose proof (primitive_scan_failed _ _ _ _ _ S) as Neg.
    unfold Jsmn.case_token.
    replace (err <? 0) with true by (symmetry; apply Z.ltb_lt; lia).
    split; [exact (primitive_scan_error _ _ _ _ _ S)|].
    eexists. split; reflexivity.
Qed.

Lemma empty_block_loop js len num sc num' sc' T :
  0 < num ->
  forall n p cnt r st',
    Jsmn.parse_loop n js len num sc
      (Jsmn.mkstate (mkparser p 0 (-1)) (Some []) cnt) = Some (r, st') ->
    (r = cnt \/ r = JSMN_ERROR_INVAL \/ r = JSMN_ERROR_PART)
    /\ exists p1,
         st' = Jsmn.mkstate (mkparser p1 0 (-1)) (Some []) cnt
         /\ Jsmn.parse_loop n js len num' sc'
              (Jsmn.mkstate (mkparser p 0 (-1)) (Some T) cnt)
            = Some (r, Jsmn.mkstate (mkparser p1 0 (-1)) (Some T) cnt).
Proof.
  intros Hn.
  assert (F : forall p cnt r st',
             Some (Jsmn.parse_finish
                     (Jsmn.mkstate (mkparser p 0 (-1)) (Some []) cnt))
             = Some (r, st') ->
             (r = cnt \/ r = JSMN_ERROR_INVAL \/ r = JSMN_ERROR_PART)
             /\ exists p1,
                  st' = Jsmn.mkstate (mkparser p1 0 (-1)) (Some []) cnt
                  /\ Some (Jsmn.parse_finish
                             (Jsmn.mkstate (mkparser p 0 (-1)) (Some T) cnt))
                     = Some (r, Jsmn.mkstate (mkparser p1 0 (-1)) (Some T)
                                  cnt)).
  { intros p cnt r st' H. cbn in H. inversion H; subst.
    split; [left; reflexivity|]. exists p. split; reflexivity. }
  induction n as [|n IH]; intros p cnt r st' H.
  - cbn [Jsmn.parse_loop] in H |- *. apply F. exact H.
  - cbn [Jsmn.parse_loop Jsmn.ps_parser pos] in H |- *.
    destruct (_ && _).
    + pose proof (empty_block_step js len num sc num' sc' T p cnt Hn) as S.
      destruct (Jsmn.parse_step js len num sc _) as [st1|r1 st1|];
        [| |discriminate].
      * destruct S as (p1 & -> & ->).
        unfold Jsmn.next_char, set_pos in H |- *.
        cbn [Jsmn.ps_parser Jsmn.ps_tokens Jsmn.ps_count pos toknext
             toksuper] in H |- *.
        apply IH. exact H.
      * destruct S as (R & p1 & -> & ->). inversion H; subst.
        split; [tauto|]. exists p1. split; reflexivity.
    + apply F. exact H.
Qed.

(** A reader whose token block is the null pointer, as a load that failed
    leaves it, stays without tokens: a load on it that returns found no
    token in the buffer. *)
Lemma load_from_null str size reader0 r reader :
  tokens reader0 = None ->
  jsmnreader_load str size reader0 = Some (r, reader) ->
  tokens reader = None /\ tokens_count reader = 0
  /\ (r = JSMN_SUCCESS \/ r = JSMN_ERROR_INVAL \/ r = JSMN_ERROR_PART).
Proof.
  intros H0 H. unfold jsmnreader_load in H. rewrite H0 in H.
  change (realloc_tokens None 0) with (Some (@nil jsmntok_t)) in H.
  unfold Jsmn.jsmn_parse in H.
  change (Jsmn.mkstate Jsmn.jsmn_init (Some [])
            (s32 (toknext Jsmn.jsmn_init)))
    with (Jsmn.mkstate (mkparser 0 0 (-1)) (Some []) 0) in H.
  destruct (Jsmn.parse_loop _ str size 2 true _) as [[c1 st1]|] eqn:L1;
    [|discriminate].
  destruct (Z_lt_le_dec c1 0) as [Neg|Pos].
  - destruct (empty_block_loop str size 2 true 2 false
                [tok_blank; tok_blank] ltac:(lia) _ _ _ _ _ L1)
      as (R & p1 & -> & L2).
    cbn [Jsmn.ps_tokens Jsmn.ps_parser] in H.
    replace (0 <=? c1) with false in H by (symmetry; apply Z.leb_gt; lia).
    change (realloc_tokens (Some []) 2) with (Some [tok_blank; tok_blank])
      in H.
    change (Jsmn.mkstate Jsmn.jsmn_init (Some [tok_blank; tok_blank])
              (s32 (toknext Jsmn.jsmn_init)))
      with (Jsmn.mkstate (mkparser 0 0 (-1)) (Some [tok_blank; tok_blank]) 0)
      in H.
    rewrite L2 in H. cbn [Jsmn.ps_tokens Jsmn.ps_parser] in H.
    destruct R as [->|[-> | ->]]; [lia| |];
      cbn in H; inversion H; subst; cbn; auto.
  - destruct (empty_block_loop str size 2 true 0 false [] ltac:(lia)
                _ _ _ _ _ L1) as (R & p1 & -> & _).
    destruct R as [->|[-> | ->]];
      [|unfold JSMN_ERROR_INVAL in Pos; lia|unfold JSMN_ERROR_PART in Pos; lia].
    cbn [Jsmn.ps_tokens Jsmn.ps_parser] in H.
    change (0 <=? 0) with true in H. cbv iota in H.
    change (realloc_tokens (Some []) (u32 0)) with (@None (list jsmntok_t))
      in H.
    destruct (null_loop_follows str size 2 true (u32 0) false _ _ _ _
                Jsmn.jsmn_init L1 ltac:(lia) eq_refl) as (st0 & L0).
    change (null_state Jsmn.jsmn_init
              (Jsmn.ps_count (Jsmn.mkstate (mkparser 0 0 (-1)) (Some []) 0)))
      with (Jsmn.mkstate Jsmn.jsmn_init None (s32 (toknext Jsmn.jsmn_init)))
      in L0.
    change (Jsmn.variant size (pos (Jsmn.ps_parser
              (Jsmn.mkstate (mkparser 0 0 (-1)) (Some []) 0))))
      with (Jsmn.variant size (pos Jsmn.jsmn_init)) in L0.
    rewrite L0 in H.
    pose proof (parse_loop_shape _ _ _ _ _ _ _ _ L0) as Sh.
    cbn [Jsmn.ps_tokens same_shape] in Sh.
    destruct (Jsmn.ps_tokens st0); [contradiction|].
    cbn in H. inversion H; subst. cbn. auto.
Qed.

(** Every String and Primitive token of a document that [jsmnreader_load]
    leaves has its span inside the buffer, with the backslashes of a string
    paired and a primitive followed by its separator. *)
Lemma loaded_span_ok str reader index t :
  loaded_from str reader -> len_of str < 2 ^ 31 ->
  0 <= index < tokens_count reader ->
  tok_read reader index = Some t ->
  type t = JSMN_STRING \/ type t = JSMN_PRIMITIVE ->
  span_ok t reader.
Proof.
  intros (size & r0 & r & H) Hl Hi Ht Hty.
  destruct (tokens r0) as [l0|] eqn:H0.
  2:{ destruct (load_from_null _ _ _ _ _ H0 H) as (N & _).
      unfold tok_read in Ht. rewrite N in Ht. discriminate. }
  unfold jsmnreader_load in H. rewrite H0 in H.
  change (realloc_tokens (Some l0) 0) with (@None (list jsmntok_t)) in H.
  destruct (Jsmn.jsmn_parse Jsmn.jsmn_init str size None 2 true)
    as [[[check p1] toks1]|] eqn:E1; [|discriminate].
  set (count := if 0 <=? check then u32 check else 2) in *.
  assert (Hc : 0 <= count < 2 ^ 32).
  { unfold count. destruct (0 <=? check); [|lia].
    unfold u32. apply Z.mod_pos_bound. lia. }
  destruct (Jsmn.jsmn_parse Jsmn.jsmn_init str size
              (realloc_tokens toks1 count) count false)
    as [[[check2 p2] toks3]|] eqn:E2; [|discriminate].
  unfold Jsmn.jsmn_parse in E1, E2.
  destruct (Jsmn.parse_loop _ str size 2 true _) as [[c1 st1]|] eqn:L1;
    [|discriminate].
  destruct (Jsmn.parse_loop _ str size count false _) as [[c2 st2]|] eqn:L2;
    [|discriminate].
  inversion E1; subst check p1 toks1. inversion E2; subst check2 p2 toks3.
  clear E1 E2.
  assert (Hnone : forall sz, tok_read (mkreader str size None sz) index
                             <> Some t)
    by (intros sz; unfold tok_read; simpl; discriminate).
  pose proof (parse_loop_shape _ _ _ _ _ _ _ _ L2) as Sh2.
  cbn [Jsmn.ps_tokens] in Sh2.
  destruct (realloc_tokens (Jsmn.ps_tokens st1) count) as [T0|] eqn:R0.
  2:{ destruct (Jsmn.ps_tokens st2); [contradiction|].
      exfalso.
      destruct (c2 =? JSMN_ERROR_NOMEM);
        [|destruct (c2 =? JSMN_ERROR_INVAL);
          [|destruct (c2 =? JSMN_ERROR_PART)]];
        inversion H; subst reader;
          first [cbn [tokens_count] in Hi; lia | eapply Hnone; eauto]. }
  apply realloc_tokens_length in R0; [|lia].
  pose proof L2 as L2'.
  apply (parse_loop_tokens_ok str size count Hl (proj2 Hc) _ _ T0) in L2';
    [|reflexivity|simpl; lia| |reflexivity].
  2:{ split; [exact R0|]. split; [simpl; lia|]. simpl. intros i Hi'; lia. }
  destruct L2' as [->|[->|(OK & D)]].
  - exfalso. simpl in H. inversion H; subst reader.
    cbn [tokens_count] in Hi. lia.
  - exfalso. simpl in H. inversion H; subst reader.
    cbn [tokens_count] in Hi. lia.
  - unfold tokens_ok in OK.
    assert (G : toknext (Jsmn.ps_parser st2) = count ->
               reader = mkreader str size (Jsmn.ps_tokens st2) count ->
               span_ok t reader).
    { intros F ->.
      destruct (Jsmn.ps_tokens st2) as [T3|] eqn:E3;
        [|exfalso; eapply Hnone; eauto].
      destruct OK as (_ & _ & OK).
      apply (span_ok_of_scalar str); auto.
      rewrite <- (tok_read_tok_at
                    (mkreader str size (Some T3) count) T3 index t
                    eq_refl Ht).
      apply OK. cbn [tokens_count] in Hi. lia. }
    destruct D as [[-> F]|D].
    + simpl in H. injection H as Hr Hreader. apply G; [exact F|auto].
    + destruct (Jsmn.ps_tokens st2) as [T3|] eqn:E3.
      2:{ exfalso.
          destruct (c2 =? JSMN_ERROR_NOMEM);
            [|destruct (c2 =? JSMN_ERROR_INVAL);
              [|destruct (c2 =? JSMN_ERROR_PART)]];
            inversion H; subst reader;
          first [cbn [tokens_count] in Hi; lia | eapply Hnone; eauto]. }
      destruct OK as (_ & Hk & _).
      destruct (null_loop_follows _ _ _ _ 2 true _ _ _ _ Jsmn.jsmn_init L2)
        as (st0 & L0); [lia|reflexivity|].
      assert (E : c1 = c2).
      { unfold null_state in L0. cbn [Jsmn.ps_count] in L0.
        rewrite L0 in L1. inversion L1; auto. }
      assert (F : toknext (Jsmn.ps_parser st2) = count).
      { unfold count in *. rewrite E in *.
        replace (0 <=? c2) with true in * by (symmetry; apply Z.leb_le; lia).
        unfold u32 in *.
        pose proof (Z.mod_le c2 (2 ^ 32)). lia. }
      replace (c2 =? JSMN_ERROR_NOMEM) with false in H
        by (symmetry; apply Z.eqb_neq; unfold JSMN_ERROR_NOMEM; lia).
      replace (c2 =? JSMN_ERROR_INVAL) with false in H
        by (symmetry; apply Z.eqb_neq; unfold JSMN_ERROR_INVAL; lia).
      replace (c2 =? JSMN_ERROR_PART) with false in H
        by (symmetry; apply Z.eqb_neq; unfold JSMN_ERROR_PART; lia).
      injection H as Hr Hreader. apply G; [exact F|auto].
Qed.

(** * Further properties *)

(** ** What one pass of the main loop does to the token block *)

Lemma jsmntype_eqb_eq a b : jsmntype_eqb a b = true -> a = b.
Proof. destruct a, b; simpl; intros H; congruence. Qed.

Lemma bump_super_evolves js p parser T i :
  evolves js p (tok_at T i) (tok_at (Jsmn.bump_super parser T) i).
Proof.
  unfold Jsmn.bump_super. destruct (toksuper parser =? -1); [constructor|].
  unfold tok_at, tok_set.
  destruct (nth_list_upd_cases size_incr tok_blank T (Z.to_nat i)
              (Z.to_nat (toksuper parser))) as [E|[_ E]];
    rewrite E; constructor.
Qed.

Lemma bump_super_new parser T k ty st en :
  0 <= k < Z.of_nat (length T) ->
  tok_at T k = mktok ty st en 0 ->
  exists sz, tok_at (Jsmn.bump_super parser T) k = mktok ty st en sz.
Proof.
  intros Hk E. unfold Jsmn.bump_super.
  destruct (toksuper parser =? -1); [eauto|].
  unfold tok_at, tok_set in *.
  destruct (nth_list_upd_cases size_incr tok_blank T (Z.to_nat k)
              (Z.to_nat (toksuper parser))) as [E'|[_ E']];
    rewrite E', E; eauto.
  unfold size_incr; simpl; eauto.
Qed.

Lemma parse_step_effect js len num parser T cnt st' :
  len_of js < 2 ^ 31 -> num < 2 ^ 32 ->
  0 <= pos parser < len_of js ->
  Z.of_nat (length T) = num ->
  0 <= toknext parser <= num ->
  Jsmn.parse_step js len num false (Jsmn.mkstate parser (Some T) cnt)
  = Jsmn.Next st' ->
  step_effect js len num (pos parser) (toknext parser) T st'.
Proof.
  intros Hl Hn Hp HL Hk.
  destruct parser as [p k s]. cbn [toknext pos] in *.
  assert (Same : forall s' c',
             step_effect js len num p k T
               (Jsmn.mkstate (mkparser p k s') (Some T) c')).
  { intros. exists T. split; [reflexivity|]. split; [reflexivity|].
    split; [intros; constructor|]. left. split; reflexivity. }
  unfold Jsmn.parse_step. cbn [Jsmn.ps_parser Jsmn.ps_tokens Jsmn.ps_count pos].
  destruct ((char_at js p =? 123) || (char_at js p =? 91)) eqn:C1.
  { unfold Jsmn.case_open. cbn [Jsmn.ps_parser Jsmn.ps_tokens Jsmn.ps_count].
    rewrite alloc_fill by assumption. cbn [toknext].
    destruct (num <=? k) eqn:E; [discriminate|]. apply Z.leb_gt in E.
    destruct (negb _ && _); [discriminate|].
    intros H; inversion H; subst st'; clear H.
    unfold step_effect, set_toksuper, set_toknext.
    cbn [Jsmn.ps_parser Jsmn.ps_tokens Jsmn.ps_count toknext pos toksuper].
    rewrite u32_small by lia. rewrite s32_pos by lia.
    eexists. split; [reflexivity|].
    split; [rewrite tok_set_length, bump_super_length, tok_set_length;
            reflexivity|].
    split.
    - intros i Hi. rewrite tok_at_set_other by lia.
      rewrite <- (tok_at_set_other T k i Jsmn.alloc_init) at 1 by lia.
      apply bump_super_evolves.
    - right. split; [reflexivity|]. split; [lia|].
      rewrite tok_at_set_same
        by (rewrite bump_super_length, tok_set_length; lia).
      destruct (bump_super_new (mkparser p (k + 1) s)
                  (tok_set T k Jsmn.alloc_init) k
                  (type (tok_at T k)) (-1) (-1)) as [sz Es].
      { rewrite tok_set_length; lia. }
      { rewrite tok_at_set_same by lia. reflexivity. }
      rewrite Es. cbn [end_ size].
      apply cr_open.
      destruct (char_at js p =? 123) eqn:C; [left|right].
      + apply Z.eqb_eq in C; auto.
      + simpl in C1. apply Z.eqb_eq in C1; auto. }
  destruct ((char_at js p =? 125) || (char_at js p =? 93)) eqn:C2.
  { unfold Jsmn.case_close.
    cbn [Jsmn.ps_parser Jsmn.ps_tokens Jsmn.ps_count toknext pos].
    pose proof (last_open_range T (Z.to_nat k)) as R.
    pose proof (last_open_is_open T (Z.to_nat k)) as O.
    destruct (Jsmn.last_open T (Z.to_nat k) =? -1) eqn:E; [discriminate|].
    apply Z.eqb_neq in E.
    destruct (negb _) eqn:Ty; [discriminate|].
    apply negb_false_iff, jsmntype_eqb_eq in Ty.
    intros H; inversion H; subst st'; clear H.
    unfold step_effect, set_toksuper.
    cbn [Jsmn.ps_parser Jsmn.ps_tokens Jsmn.ps_count toknext pos].
    rewrite u32_small by lia. rewrite s32_pos by lia.
    eexists. split; [reflexivity|].
    split; [rewrite tok_set_length; reflexivity|].
    split; [|left; split; reflexivity].
    intros i Hi.
    destruct (Z.eq_dec i (Jsmn.last_open T (Z.to_nat k))) as [->|N].
    - rewrite tok_at_set_same by lia.
      apply ev_close; [apply O; lia|].
      rewrite Ty.
      destruct (char_at js p =? 125) eqn:C; [left|right].
      + apply Z.eqb_eq in C; auto.
      + simpl in C2. apply Z.eqb_eq in C2; auto.
    - rewrite tok_at_set_other by lia. constructor. }
  destruct (char_at js p =? 34) eqn:C3.
  { apply Z.eqb_eq in C3.
    unfold Jsmn.jsmn_parse_string. cbn [pos].
    destruct (Jsmn.string_scan _ js len (p + 1)) as [q|err] eqn:S.
    - pose proof S as S'.
      apply string_scan_found in S'; [|lia]. destruct S' as (S1 & S0 & S2).
      rewrite alloc_fill by assumption. unfold set_pos. cbn [toknext pos toksuper].
      destruct (num <=? k) eqn:E; [discriminate|]. apply Z.leb_gt in E.
      unfold Jsmn.case_token.
      replace (0 <? 0) with false by reflexivity.
      intros H; inversion H; subst st'; clear H.
      unfold step_effect, set_toknext.
      cbn [Jsmn.ps_parser Jsmn.ps_tokens Jsmn.ps_count toknext pos toksuper].
      rewrite u32_small by lia. rewrite !s32_pos by lia.
      eexists. split; [reflexivity|].
      split; [rewrite bump_super_length, !tok_set_length; reflexivity|].
      split.
      + intros i Hi.
        rewrite <- (tok_at_set_other T k i Jsmn.alloc_init) at 1 by lia.
        rewrite <- (tok_at_set_other (tok_set T k Jsmn.alloc_init) k i
                      (Jsmn.jsmn_fill_token JSMN_STRING (p + 1) q))
          at 1 by lia.
        apply bump_super_evolves.
      + right. split; [reflexivity|]. split; [lia|].
        destruct (bump_super_new (mkparser q (k + 1) s)
                    (tok_set (tok_set T k Jsmn.alloc_init) k
                       (Jsmn.jsmn_fill_token JSMN_STRING (p + 1) q)) k
                    JSMN_STRING (p + 1) q) as [sz Es].
        { rewrite !tok_set_length; lia. }
        { rewrite tok_at_set_same by (rewrite tok_set_length; lia).
          reflexivity. }
        rewrite Es. apply cr_string; auto.
    - unfold Jsmn.case_token.
      apply string_scan_failed in S.
      replace (err <? 0) with true by (symmetry; apply Z.ltb_lt; lia).
      discriminate. }
  destruct (Jsmn.is_space _); [intros H; inversion H; apply Same|].
  destruct (_ =? 58); [intros H; inversion H; apply Same|].
  destruct (_ =? 44).
  { unfold Jsmn.case_comma.
    cbn [Jsmn.ps_parser Jsmn.ps_tokens Jsmn.ps_count toknext pos].
    destruct (_ && _); [|intros H; inversion H; apply Same].
    destruct (_ =? -1); intros H; inversion H; apply Same. }
  destruct (Jsmn.is_prim_start _) eqn:PS; [|discriminate].
  unfold Jsmn.case_primitive.
  cbn [Jsmn.ps_parser Jsmn.ps_tokens Jsmn.ps_count toknext pos].
  destruct (negb _ && _); [discriminate|].
  unfold Jsmn.jsmn_parse_primitive. cbn [pos].
  destruct (Jsmn.primitive_scan _ js len p) as [q|err] eqn:S.
  - pose proof S as S'.
    apply primitive_scan_found in S'; [|lia]. destruct S' as (S1 & S2).
    rewrite alloc_fill by assumption. unfold set_pos. cbn [toknext pos toksuper].
    destruct (num <=? k) eqn:E; [discriminate|]. apply Z.leb_gt in E.
    unfold Jsmn.case_token.
    replace (0 <? 0) with false by reflexivity.
    intros H; inversion H; subst st'; clear H.
    unfold step_effect, set_toknext.
    cbn [Jsmn.ps_parser Jsmn.ps_tokens Jsmn.ps_count toknext pos toksuper].
    rewrite u32_small by lia. rewrite !s32_pos by lia.
    eexists. split; [reflexivity|].
    split; [rewrite bump_super_length, !tok_set_length; reflexivity|].
    split.
    + intros i Hi.
      rewrite <- (tok_at_set_other T k i Jsmn.alloc_init) at 1 by lia.
      rewrite <- (tok_at_set_other (tok_set T k Jsmn.alloc_init) k i
                    (Jsmn.jsmn_fill_token JSMN_PRIMITIVE p q))
        at 1 by lia.
      apply bump_super_evolves.
    + right. split; [reflexivity|]. split; [lia|].
      destruct (bump_super_new (mkparser (q - 1) (k + 1) s)
                  (tok_set (tok_set T k Jsmn.alloc_init) k
                     (Jsmn.jsmn_fill_token JSMN_PRIMITIVE p q)) k
                  JSMN_PRIMITIVE p q) as [sz Es].
      { rewrite !tok_set_length; lia. }
      { rewrite tok_at_set_same by (rewrite tok_set_length; lia).
        reflexivity. }
      rewrite Es. apply cr_primitive; auto.
  - unfold Jsmn.case_token.
    apply primitive_scan_failed in S.
    replace (err <? 0) with true by (symmetry; apply Z.ltb_lt; lia).
    discriminate.
Qed.

Lemma parse_step_stop js len num parser T cnt r st' :
  Z.of_nat (length T) = num ->
  Jsmn.parse_step js len num false (Jsmn.mkstate parser (Some T) cnt)
  = Jsmn.Stop r st' ->
  r = JSMN_ERROR_INVAL \/ r = JSMN_ERROR_PART
  \/ (r = JSMN_ERROR_NOMEM /\ Jsmn.ps_tokens st' = Some T
      /\ toknext (Jsmn.ps_parser st') = toknext parser
      /\ num <= toknext parser).
Proof.
  intros HL. destruct parser as [p k s].
  unfold Jsmn.parse_step. cbn [Jsmn.ps_parser Jsmn.ps_tokens Jsmn.ps_count pos].
  destruct (_ || _).
  { unfold Jsmn.case_open. cbn [Jsmn.ps_parser Jsmn.ps_tokens Jsmn.ps_count].
    rewrite alloc_fill by assumption. cbn [toknext].
    destruct (num <=? k) eqn:E.
    - apply Z.leb_le in E. intros H; inversion H; subst. simpl. auto 6.
    - destruct (negb _ && _); [|discriminate].
      intros H; inversion H; auto. }
  destruct (_ || _).
  { unfold Jsmn.case_close.
    cbn [Jsmn.ps_parser Jsmn.ps_tokens Jsmn.ps_count toknext pos].
    destruct (_ =? -1); [intros H; inversion H; auto|].
    destruct (negb _); [intros H; inversion H; auto|discriminate]. }
  destruct (_ =? 34).
  { unfold Jsmn.jsmn_parse_string. cbn [pos].
    destruct (Jsmn.string_scan _ js len (p + 1)) as [q|err] eqn:S.
    - rewrite alloc_fill by assumption. unfold set_pos. cbn [toknext pos toksuper].
      destruct (num <=? k) eqn:E.
      + apply Z.leb_le in E. unfold Jsmn.case_token.
        replace (JSMN_ERROR_NOMEM <? 0) with true by reflexivity.
        intros H; inversion H; subst. simpl. auto 6.
      + unfold Jsmn.case_token.
        replace (0 <? 0) with false by reflexivity. discriminate.
    - apply string_scan_error in S. unfold Jsmn.case_token.
      destruct (err <? 0); [|discriminate].
      intros H; inversion H; subst. tauto. }
  destruct (Jsmn.is_space _); [discriminate|].
  destruct (_ =? 58); [discriminate|].
  destruct (_ =? 44).
  { unfold Jsmn.case_comma.
    cbn [Jsmn.ps_parser Jsmn.ps_tokens Jsmn.ps_count toknext pos].
    destruct (_ && _); [|discriminate].
    destruct (_ =? -1); discriminate. }
  destruct (Jsmn.is_prim_start _); [|intros H; inversion H; auto].
  unfold Jsmn.case_primitive.
  cbn [Jsmn.ps_parser Jsmn.ps_tokens Jsmn.ps_count toknext pos].
  destruct (negb _ && _); [intros H; inversion H; auto|].
  unfold Jsmn.jsmn_parse_primitive. cbn [pos].
  destruct (Jsmn.primitive_scan _ js len p) as [q|err] eqn:S.
  - rewrite alloc_fill by assumption. unfold set_pos. cbn [toknext pos toksuper].
    destruct (num <=? k) eqn:E.
    + apply Z.leb_le in E. unfold Jsmn.case_token.
      replace (JSMN_ERROR_NOMEM <? 0) with true by reflexivity.
      intros H; inversion H; subst. simpl. auto 6.
    + unfold Jsmn.case_token.
      replace (0 <? 0) with false by reflexivity. discriminate.
  - apply primitive_scan_error in S. unfold Jsmn.case_token.
    destruct (err <? 0); [|discriminate].
    intros H; inversion H; subst. tauto.
Qed.

Lemma firstn_pointwise {A : Type} (R : A -> A -> Prop) (d : A) :
  forall n T T',
    length T' = length T -> (n <= length T)%nat ->
    (forall i, (i < n)%nat -> R (nth i T d) (nth i T' d)) ->
    Forall2 R (firstn n T) (firstn n T').
Proof.
  induction n as [|n IH]; intros T T' HL Hn H; [constructor|].
  destruct T as [|x T]; [simpl in Hn; lia|].
  destruct T' as [|x' T']; [discriminate|].
  simpl. constructor.
  - apply (H O). lia.
  - apply IH; simpl in *; try lia.
    intros i Hi. apply (H (S i)). lia.
Qed.

Lemma firstn_succ {A : Type} (d : A) :
  forall n T, (n < length T)%nat ->
    firstn (S n) T = firstn n T ++ [nth n T d].
Proof.
  induction n as [|n IH]; intros [|x T] H; simpl in *; try lia;
    [reflexivity|].
  f_equal. apply IH. lia.
Qed.

Lemma stored_evolves js p k T T' :
  length T' = length T -> 0 <= k <= Z.of_nat (length T) ->
  (forall i, 0 <= i < k -> evolves js p (tok_at T i) (tok_at T' i)) ->
  Forall2 (evolves js p) (firstn (Z.to_nat k) T) (firstn (Z.to_nat k) T').
Proof.
  intros HL Hk H. apply (firstn_pointwise _ tok_blank); auto; [lia|].
  intros i Hi. specialize (H (Z.of_nat i)).
  unfold tok_at in H. rewrite Nat2Z.id in H. apply H. lia.
Qed.

Lemma stored_succ k T :
  0 <= k < Z.of_nat (length T) ->
  firstn (Z.to_nat (k + 1)) T = firstn (Z.to_nat k) T ++ [tok_at T k].
Proof.
  intros H. replace (Z.to_nat (k + 1)) with (S (Z.to_nat k)) by lia.
  apply firstn_succ. lia.
Qed.

(** ** Invariants of the stored tokens *)

Section TokenInvariant.

Variable js : list Z.
Variable Inv : Z -> list jsmntok_t -> Prop.

Hypothesis Hlen : len_of js < 2 ^ 31.

Hypothesis inv_evolve :
  forall p l l',
    0 <= p < len_of js -> Inv p l -> Forall2 (evolves js p) l l' ->
    Inv (p + 1) l'.

Hypothesis inv_create :
  forall len p p' l l' t,
    0 <= p < len_of js -> Inv p l -> Forall2 (evolves js p) l l' ->
    created js len p p' t -> Inv (p' + 1) (l' ++ [t]).

Lemma parse_finish_inv st T r st' :
  Jsmn.ps_tokens st = Some T ->
  Jsmn.parse_finish st = (r, st') ->
  r = JSMN_ERROR_PART
  \/ (st' = st /\ r = Jsmn.ps_count st
      /\ Jsmn.last_open T (Z.to_nat (toknext (Jsmn.ps_parser st))) = -1).
Proof.
  intros HT. unfold Jsmn.parse_finish. rewrite HT.
  destruct (_ =? -1) eqn:E; intros H; inversion H; subst; auto.
  apply Z.eqb_eq in E. auto.
Qed.

Lemma parse_loop_inv len num :
  num < 2 ^ 32 ->
  forall n st T r st',
    Jsmn.ps_tokens st = Some T ->
    Z.of_nat (length T) = num ->
    0 <= toknext (Jsmn.ps_parser st) <= num ->
    0 <= pos (Jsmn.ps_parser st) ->
    Inv (pos (Jsmn.ps_parser st)) (stored st) ->
    Jsmn.parse_loop n js len num false st = Some (r, st') ->
    r = JSMN_ERROR_INVAL \/ r = JSMN_ERROR_PART
    \/ exists T' p',
         Jsmn.ps_tokens st' = Some T'
         /\ Z.of_nat (length T') = num
         /\ Inv p' (stored st')
         /\ ((r = JSMN_ERROR_NOMEM /\ toknext (Jsmn.ps_parser st') = num)
             \/ (r = Jsmn.ps_count st'
                 /\ Jsmn.last_open T'
                      (Z.to_nat (toknext (Jsmn.ps_parser st'))) = -1)).
Proof.
  intros Hn.
  assert (F : forall st T r st',
             Jsmn.ps_tokens st = Some T ->
             Z.of_nat (length T) = num ->
             Inv (pos (Jsmn.ps_parser st)) (stored st) ->
             Jsmn.parse_finish st = (r, st') ->
             r = JSMN_ERROR_INVAL \/ r = JSMN_ERROR_PART
             \/ exists T' p',
                  Jsmn.ps_tokens st' = Some T'
                  /\ Z.of_nat (length T') = num
                  /\ Inv p' (stored st')
                  /\ ((r = JSMN_ERROR_NOMEM
                       /\ toknext (Jsmn.ps_parser st') = num)
                      \/ (r = Jsmn.ps_count st'
                          /\ Jsmn.last_open T'
                               (Z.to_nat (toknext (Jsmn.ps_parser st')))
                             = -1))).
  { intros st T r st' HT HL HI H.
    destruct (parse_finish_inv st T r st' HT H) as [->|(-> & -> & E)]; auto.
    right; right. exists T, (pos (Jsmn.ps_parser st)). auto 6. }
  induction n as [|n IH]; intros st T r st' HT HL Hk Hp HI H; simpl in H.
  - inversion H as [H']. eapply F; eauto.
  - destruct ((pos (Jsmn.ps_parser st) <? len) && _) eqn:C;
      [|inversion H as [H']; eapply F; eauto].
    apply in_text in C; [|exact Hp]. destruct C as [_ C].
    destruct st as [parser toks cnt]. cbn [Jsmn.ps_tokens] in HT. subst toks.
    cbn [Jsmn.ps_parser] in *.
    destruct (Jsmn.parse_step js len num false _) as [st1|r1 st1|] eqn:S;
      [| |discriminate].
    + apply parse_step_effect in S; auto.
      destruct S as (T1 & E1 & L1 & Ev & D).
      assert (F2 : Forall2 (evolves js (pos parser))
                     (firstn (Z.to_nat (toknext parser)) T)
                     (firstn (Z.to_nat (toknext parser)) T1))
        by (apply stored_evolves; auto; lia).
      unfold stored in HI. cbn [Jsmn.ps_tokens Jsmn.ps_parser] in HI.
      apply (IH (Jsmn.next_char st1) T1 r st'); auto.
      * rewrite <- HL, <- L1. reflexivity.
      * unfold Jsmn.next_char, set_pos. cbn [Jsmn.ps_parser toknext].
        destruct D as [[-> _]|(-> & ? & _)]; lia.
      * unfold Jsmn.next_char, set_pos. cbn [Jsmn.ps_parser pos].
        destruct D as [[_ ->]|(_ & _ & Cr)]; [lia|].
        inversion Cr; subst; try lia;
          match goal with
          | X : Jsmn.string_scan _ _ _ _ = _ |- _ =>
              apply string_scan_pos in X; lia
          | X : Jsmn.primitive_scan _ _ _ _ = _ |- _ =>
              apply primitive_scan_found in X; lia
          end.
      * unfold stored, Jsmn.next_char, set_pos.
        cbn [Jsmn.ps_parser Jsmn.ps_tokens pos toknext]. rewrite E1.
        destruct D as [[-> ->]|(-> & Hk1 & Cr)].
        -- apply (inv_evolve _ _ _ (conj Hp C) HI F2).
        -- rewrite stored_succ by lia.
           apply (inv_create len _ _ _ _ _ (conj Hp C) HI F2 Cr).
    + inversion H; subst r1 st1.
      apply parse_step_stop in S; [|exact HL].
      destruct S as [S|[S|(E & HT' & Hk' & Hfull)]]; auto.
      right; right. exists T, (pos parser).
      split; [exact HT'|]. split; [exact HL|].
      split.
      * unfold stored in *. cbn [Jsmn.ps_tokens Jsmn.ps_parser] in HI.
        rewrite HT', Hk'. exact HI.
      * left. split; [exact E|]. lia.
Qed.

End TokenInvariant.

(** ** The run that leaves the tokens of a loaded document *)

(** A load that leaves a token block ended with [JSMN_SUCCESS] or with
    [JSMN_ERROR_NOMEM]; the block is what the second run of the tokenizer
    left, and all its cells are used. *)
Lemma load_fill_run str size r0 code reader T :
  len_of str < 2 ^ 31 ->
  jsmnreader_load str size r0 = Some (code, reader) ->
  tokens reader = Some T ->
  exists T0 r st2,
    txt reader = str
    /\ 0 <= tokens_count reader < 2 ^ 32
    /\ Z.of_nat (length T0) = tokens_count reader
    /\ Jsmn.parse_loop (Jsmn.variant size (pos Jsmn.jsmn_init)) str size
         (tokens_count reader) false
         (Jsmn.mkstate Jsmn.jsmn_init (Some T0)
            (s32 (toknext Jsmn.jsmn_init)))
       = Some (r, st2)
    /\ Jsmn.ps_tokens st2 = Some T
    /\ toknext (Jsmn.ps_parser st2) = tokens_count reader
    /\ ((r = JSMN_ERROR_NOMEM /\ code = JSMN_ERROR_NOMEM)
        \/ (r = tokens_count reader /\ code = JSMN_SUCCESS)).
Proof.
  intros Hl H HT.
  destruct (tokens r0) as [l0|] eqn:H0.
  2:{ destruct (load_from_null _ _ _ _ _ H0 H) as (N & _).
      rewrite N in HT. discriminate. }
  unfold jsmnreader_load in H. rewrite H0 in H.
  change (realloc_tokens (Some l0) 0) with (@None (list jsmntok_t)) in H.
  destruct (Jsmn.jsmn_parse Jsmn.jsmn_init str size None 2 true)
    as [[[check p1] toks1]|] eqn:E1; [|discriminate].
  set (count := if 0 <=? check then u32 check else 2) in *.
  assert (Hc : 0 <= count < 2 ^ 32).
  { unfold count. destruct (0 <=? check); [|lia].
    unfold u32. apply Z.mod_pos_bound. lia. }
  destruct (Jsmn.jsmn_parse Jsmn.jsmn_init str size
              (realloc_tokens toks1 count) count false)
    as [[[check2 p2] toks3]|] eqn:E2; [|discriminate].
  unfold Jsmn.jsmn_parse in E1, E2.
  destruct (Jsmn.parse_loop _ str size 2 true _) as [[c1 st1]|] eqn:L1;
    [|discriminate].
  destruct (Jsmn.parse_loop _ str size count false _) as [[c2 st2]|] eqn:L2;
    [|discriminate].
  inversion E1; subst check p1 toks1. inversion E2; subst check2 p2 toks3.
  clear E1 E2.
  assert (Hnone : forall sz, tokens (mkreader str size None sz) <> Some T)
    by (intros sz; simpl; discriminate).
  pose proof (parse_loop_shape _ _ _ _ _ _ _ _ L2) as Sh2.
  cbn [Jsmn.ps_tokens] in Sh2.
  pose proof (parse_loop_shape _ _ _ _ _ _ _ _ L1) as Sh1.
  cbn [Jsmn.ps_tokens same_shape] in Sh1.
  destruct (Jsmn.ps_tokens st1); [contradiction|].
  destruct (realloc_tokens None count) as [T0|] eqn:R0.
  2:{ unfold realloc_tokens in R0. destruct (count =? 0); discriminate. }
  cbn [same_shape] in Sh2.
  destruct (Jsmn.ps_tokens st2) as [T3|] eqn:E3; [|contradiction].
  apply realloc_tokens_length in R0; [|lia].
  pose proof L2 as L2'.
  apply (parse_loop_tokens_ok str size count Hl (proj2 Hc) _ _ T0) in L2';
    [|reflexivity|simpl; lia| |reflexivity].
  2:{ split; [exact R0|]. split; [simpl; lia|]. simpl. intros i Hi'; lia. }
  destruct L2' as [->|[->|(OK & D)]].
  - exfalso. simpl in H. inversion H; subst reader. discriminate HT.
  - exfalso. simpl in H. inversion H; subst reader. discriminate HT.
  - exists T0, c2, st2.
    assert (G : toknext (Jsmn.ps_parser st2) = count ->
               (code, reader)
               = (code, mkreader str size (Some T3) count) ->
               txt reader = str
               /\ 0 <= tokens_count reader < 2 ^ 32
               /\ Z.of_nat (length T0) = tokens_count reader
               /\ Jsmn.parse_loop (Jsmn.variant size (pos Jsmn.jsmn_init))
                    str size (tokens_count reader) false
                    (Jsmn.mkstate Jsmn.jsmn_init (Some T0)
                       (s32 (toknext Jsmn.jsmn_init)))
                  = Some (c2, st2)
               /\ Jsmn.ps_tokens st2 = Some T
               /\ toknext (Jsmn.ps_parser st2) = tokens_count reader).
    { intros F Hr. inversion Hr; subst reader. cbn [txt tokens_count tokens] in *.
      split; [reflexivity|]. split; [lia|]. split; [exact R0|].
      split; [exact L2|]. split; [rewrite E3; exact HT|exact F]. }
    destruct D as [[-> F]|D].
    + simpl in H. injection H as Hr Hreader.
      destruct G as (G1 & G2 & G3 & G4 & G5 & G6);
        [exact F|rewrite Hreader; reflexivity|].
      repeat (split; [assumption|]). left. split; [reflexivity|].
      symmetry; exact Hr.
    + unfold tokens_ok in OK. rewrite E3 in OK.
      destruct OK as (_ & Hk & _).
      destruct (null_loop_follows _ _ _ _ 2 true _ _ _ _ Jsmn.jsmn_init L2)
        as (st0 & L0); [lia|reflexivity|].
      assert (E : c1 = c2).
      { unfold null_state in L0. cbn [Jsmn.ps_count] in L0.
        rewrite L0 in L1. inversion L1; auto. }
      assert (F : toknext (Jsmn.ps_parser st2) = count).
      { unfold count in *. rewrite E in *.
        replace (0 <=? c2) with true in * by (symmetry; apply Z.leb_le; lia).
        unfold u32 in *.
        pose proof (Z.mod_le c2 (2 ^ 32)). lia. }
      replace (c2 =? JSMN_ERROR_NOMEM) with false in H
        by (symmetry; apply Z.eqb_neq; unfold JSMN_ERROR_NOMEM; lia).
      replace (c2 =? JSMN_ERROR_INVAL) with false in H
        by (symmetry; apply Z.eqb_neq; unfold JSMN_ERROR_INVAL; lia).
      replace (c2 =? JSMN_ERROR_PART) with false in H
        by (symmetry; apply Z.eqb_neq; unfold JSMN_ERROR_PART; lia).
      injection H as Hr Hreader.
      destruct G as (G1 & G2 & G3 & G4 & G5 & G6);
        [exact F|rewrite Hreader; reflexivity|].
      repeat (split; [assumption|]). right.
      split; [|symmetry; exact Hr].
      rewrite <- Hreader. cbn [tokens_count]. lia.
Qed.

(** ** The tokens of a loaded document in the text *)

Lemma string_scan_at_quote n js len :
  forall p q,
    Jsmn.string_scan n js len p = Jsmn.Found q -> char_at js q = 34.
Proof.
  induction n as [|n IH]; simpl; intros p q H; [discriminate|].
  destruct (_ && _); [|discriminate].
  destruct (char_at js p =? 34) eqn:Q.
  { inversion H; subst. apply Z.eqb_eq; exact Q. }
  destruct (_ && _); [|eapply IH; eauto].
  destruct (Jsmn.escape_scan js len (p + 1)); [eapply IH; eauto|discriminate].
Qed.

Lemma primitive_scan_prim_chars n js len :
  forall p q,
    Jsmn.primitive_scan n js len p = Jsmn.Found q -> 0 <= p ->
    Forall prim_char (slice js p q).
Proof.
  induction n as [|n IH]; simpl; intros p q H Hp; [discriminate|].
  destruct ((p <? len) && negb (char_at js p =? 0)) eqn:C; [|discriminate].
  apply in_text in C; [|lia]. destruct C as [_ C].
  destruct (Jsmn.is_prim_end (char_at js p)) eqn:E.
  - inversion H; subst. rewrite slice_nil. constructor.
  - destruct ((char_at js p <? 32) || (127 <=? char_at js p)) eqn:B;
      [discriminate|].
    pose proof (primitive_scan_found _ _ _ _ _ H) as F.
    pose proof (IH _ _ H) as G.
    destruct F as [F _]; [lia|].
    rewrite slice_cons by lia. constructor; [|apply G; lia].
    apply orb_false_iff in B. destruct B as [B1 B2].
    apply Z.ltb_ge in B1. apply Z.leb_gt in B2.
    split; [lia|exact E].
Qed.

Lemma evolves_fields js p t t' :
  evolves js p t t' -> start t' = start t /\ type t' = type t.
Proof. intros H; destruct H as [t|t|t O C]; destruct t; simpl; auto. Qed.

Lemma evolves_starts js p l l' :
  Forall2 (evolves js p) l l' -> map start l' = map start l.
Proof.
  induction 1 as [|t t' l l' H _ IH]; [reflexivity|].
  simpl. rewrite IH. destruct (evolves_fields _ _ _ _ H) as [-> _].
  reflexivity.
Qed.

Lemma tok_good_evolves js p t t' :
  0 <= p < len_of js -> tok_good js t -> start t < p ->
  evolves js p t t' -> tok_good js t'.
Proof.
  intros Hp G S H. revert G S.
  destruct H as [t|t|t O C]; intros G S; auto.
  destruct t as [ty st en sz]. unfold tok_good in *.
  cbn [type start end_ set_end] in *.
  replace (p + 1 - 1) with p by lia.
  destruct C as [[C ->]|[C ->]]; destruct G as (G1 & G2 & _);
    (split; [exact G1|]; split; [exact G2|]; right; split; [lia|exact C]).
Qed.

Lemma tok_good_created js len p p' t :
  len_of js < 2 ^ 31 -> 0 <= p < len_of js ->
  created js len p p' t ->
  tok_good js t /\ p <= start t < p' + 1 /\ p <= p'.
Proof.
  intros Hl Hp H.
  destruct H as [ty sz C|q sz C S|q sz C S];
    unfold tok_good; cbn [type start end_].
  - split; [|lia].
    destruct C as [[C ->]|[C ->]]; (split; [lia|]; split; [exact C|]; auto).
  - pose proof (string_scan_at_quote _ _ _ _ _ S) as Q.
    apply string_scan_found in S; [|lia]. destruct S as (S1 & S0 & S2).
    split; [|lia].
    split; [lia|]. split; [lia|].
    replace (p + 1 - 1) with p by lia. auto.
  - pose proof (primitive_scan_prim_chars _ _ _ _ _ S (proj1 Hp)) as PC.
    pose proof (primitive_scan_pos _ _ _ _ _ S (prim_start_not_end _ C))
      as Lt.
    apply primitive_scan_found in S; [|lia]. destruct S as (S1 & S2).
    split; [|lia].
    split; [lia|]. split; [lia|]. split; [|exact S2].
    unfold prim_text. rewrite slice_cons in * by lia.
    cbn [hd]. split; [exact C|]. split; [discriminate|exact PC].
Qed.

Lemma StronglySorted_snoc (l : list Z) (a : Z) :
  StronglySorted Z.lt l -> Forall (fun x => x < a) l ->
  StronglySorted Z.lt (l ++ [a]).
Proof.
  induction 1 as [|x l Hs IH Hx]; intros F; simpl.
  - constructor; constructor.
  - inversion F; subst. constructor; [apply IH; assumption|].
    apply Forall_app. split; [exact Hx|]. constructor; [assumption|constructor].
Qed.

Lemma toks_good_evolve js p l l' :
  0 <= p < len_of js -> toks_good js p l ->
  Forall2 (evolves js p) l l' -> toks_good js (p + 1) l'.
Proof.
  intros Hp [G S] F. split.
  - clear S. induction F as [|t t' l l' H _ IH]; [constructor|].
    inversion G as [|? ? [G1 G2] G3]; subst.
    constructor; [|apply IH; assumption].
    split; [eapply tok_good_evolves; eauto|].
    destruct (evolves_fields _ _ _ _ H) as [-> _]. lia.
  - rewrite (evolves_starts _ _ _ _ F). exact S.
Qed.

Lemma toks_good_create js (Hlen : len_of js < 2 ^ 31) len p p' l l' t :
  0 <= p < len_of js -> toks_good js p l ->
  Forall2 (evolves js p) l l' -> created js len p p' t ->
  toks_good js (p' + 1) (l' ++ [t]).
Proof.
  intros Hp G F C.
  destruct (tok_good_created _ _ _ _ _ Hlen Hp C) as (Gt & St & Hpp).
  destruct (toks_good_evolve _ _ _ _ Hp G F) as [G' S'].
  split.
  - apply Forall_app. split.
    + eapply Forall_impl; [|exact G']. simpl. intros a [A1 A2]. split; auto. lia.
    + constructor; [|constructor]. split; [exact Gt|lia].
  - rewrite map_app. simpl. apply StronglySorted_snoc; [exact S'|].
    rewrite (evolves_starts _ _ _ _ F).
    destruct G as [G _]. clear - G St.
    induction G as [|a l [_ A] _ IH]; simpl; constructor; auto. lia.
Qed.

Lemma last_open_none T :
  forall k, Jsmn.last_open T k = -1 ->
    forall i, (i < k)%nat -> tok_open (nth i T tok_blank) = false.
Proof.
  induction k as [|k IH]; simpl; intros H i Hi; [lia|].
  destruct (tok_open (nth k T tok_blank)) eqn:O; [lia|].
  destruct (Nat.eq_dec i k) as [->|N]; [exact O|].
  apply IH; auto. lia.
Qed.

Lemma tok_good_closed js t :
  tok_good js t -> tok_open t = false -> tok_closed t.
Proof.
  unfold tok_good, tok_open, tok_closed. intros G O.
  assert (S : 0 <= start t) by (destruct (type t); try tauto; lia).
  split; [lia|].
  replace (start t =? -1) with false in O
    by (symmetry; apply Z.eqb_neq; lia).
  simpl in O. apply Z.eqb_neq in O. exact O.
Qed.

(** The tokens that a load leaves are as [toks_good] says; after
    [JSMN_SUCCESS] each of them is closed. *)
Lemma loaded_toks_good str size r0 code reader T :
  len_of str < 2 ^ 31 ->
  jsmnreader_load str size r0 = Some (code, reader) ->
  tokens reader = Some T ->
  txt reader = str
  /\ Z.of_nat (length T) = tokens_count reader
  /\ (exists p, toks_good str p T)
  /\ (code = JSMN_SUCCESS -> Forall tok_closed T).
Proof.
  intros Hl H HT.
  destruct (load_fill_run _ _ _ _ _ _ Hl H HT)
    as (T0 & r & st2 & Htxt & Hc & L0 & Run & HT2 & Hk & Hr).
  pose proof (parse_loop_shape _ _ _ _ _ _ _ _ Run) as Sh.
  cbn [Jsmn.ps_tokens] in Sh. rewrite HT2 in Sh. simpl in Sh.
  assert (HL : Z.of_nat (length T) = tokens_count reader) by lia.
  apply (parse_loop_inv str (toks_good str) Hl (toks_good_evolve str)
           (toks_good_create str Hl) size (tokens_count reader)
           (proj2 Hc) _ _ T0) in Run;
    [|reflexivity|exact L0|simpl; lia|simpl; lia|].
  2:{ unfold stored. simpl. split; constructor. }
  assert (St : stored st2 = T).
  { unfold stored. rewrite HT2, Hk, <- HL, Nat2Z.id. apply firstn_all. }
  split; [exact Htxt|]. split; [exact HL|].
  destruct Run as [->|[->|(T' & p' & E' & L' & I' & D)]].
  - exfalso. destruct Hr as [[X _]|[X _]]; [discriminate X|].
    unfold JSMN_ERROR_INVAL in X. lia.
  - exfalso. destruct Hr as [[X _]|[X _]]; [discriminate X|].
    unfold JSMN_ERROR_PART in X. lia.
  - rewrite St in I'. split; [exists p'; exact I'|].
    intros Hcode.
    destruct Hr as [[_ X]|[Hr _]];
      [rewrite X in Hcode; discriminate Hcode|].
    destruct D as [[X _]|[_ LO]];
      [unfold JSMN_ERROR_NOMEM in X; lia|].
    rewrite HT2 in E'. inversion E'; subst T'.
    rewrite Hk, <- HL, Nat2Z.id in LO.
    destruct I' as [G _].
    apply Forall_forall. intros t Ht.
    destruct (In_nth _ _ tok_blank Ht) as (i & Hi & <-).
    apply (tok_good_closed str).
    + rewrite Forall_forall in G. apply G. apply nth_In. exact Hi.
    + apply (last_open_none T _ LO). exact Hi.
Qed.

Lemma sorted_nth (l : list Z) :
  StronglySorted Z.lt l ->
  forall i j x y, (i < j)%nat ->
    nth_error l i = Some x -> nth_error l j = Some y -> x < y.
Proof.
  induction 1 as [|a l Hs IH Ha]; intros i j x y Hij Hi Hj.
  - destruct i; discriminate.
  - destruct j as [|j]; [lia|]. simpl in Hj.
    destruct i as [|i]; simpl in Hi.
    + inversion Hi; subst. rewrite Forall_forall in Ha.
      apply Ha. eapply nth_error_In; eauto.
    + apply (IH i j); auto. lia.
Qed.

Lemma sorted_length (l : list Z) (b : Z) :
  StronglySorted Z.lt l ->
  forall a, a <= b -> Forall (fun x => a <= x < b) l ->
    Z.of_nat (length l) <= b - a.
Proof.
  induction 1 as [|x l Hs IH Hx]; intros a Hab F; simpl length; [lia|].
  inversion F as [|? ? Fx Fl]; subst.
  assert (G : Forall (fun y => x + 1 <= y < b) l).
  { rewrite Forall_forall in *. intros y Hy.
    specialize (Hx y Hy). specialize (Fl y Hy). lia. }
  assert (I : Z.of_nat (length l) <= b - (x + 1)) by (apply IH; [lia|exact G]).
  lia.
Qed.

Lemma tok_good_start js t : tok_good js t -> 0 <= start t < len_of js.
Proof.
  unfold tok_good. destruct (type t); try tauto; lia.
Qed.

(** X1.  After a successful load every token lies on the text in the way
    of its type: an object or an array starts on an opening bracket of its
    kind and ends just after a closing bracket of the same kind (which of
    the closing brackets of the text it is, the statement does not say), a
    string lies between two quotes with no backslash left unpaired, a
    primitive is a run of printable characters that starts as a primitive
    does and is followed by a separator; both ends are set and lie in the
    buffer. *)
Theorem loaded_tokens_well_formed (str : list Z) (size : Z)
  (r0 reader : jsmnreader_obj) (index : Z) (t : jsmntok_t) :
  len_of str < 2 ^ 31 ->
  jsmnreader_load str size r0 = Some (JSMN_SUCCESS, reader) ->
  tok_read reader index = Some t ->
  tok_good str t /\ tok_closed t
  /\ 0 <= start t <= end_ t /\ end_ t <= len_of str.
Proof.
  intros Hl H Ht.
  destruct (tokens reader) as [T|] eqn:HT;
    [|unfold tok_read in Ht; rewrite HT in Ht; discriminate].
  destruct (loaded_toks_good _ _ _ _ _ _ Hl H HT)
    as (_ & _ & (p & G & _) & C).
  assert (In t T).
  { unfold tok_read in Ht. rewrite HT in Ht.
    destruct (index <? 0); [discriminate|].
    eapply nth_error_In; eauto. }
  rewrite Forall_forall in G, C.
  destruct (G t H0) as [Gt _]. destruct (C eq_refl t H0) as [C1 C2].
  split; [exact Gt|]. split; [split; assumption|].
  unfold tok_good in Gt. destruct (type t); try tauto; lia.
Qed.

Lemma loaded_tokens_well_formed_witness :
  tok_good (text "{'a':[1,'x']}"%string) (mktok JSMN_ARRAY 5 12 2)
  /\ tok_closed (mktok JSMN_ARRAY 5 12 2)
  /\ 0 <= 5 <= 12 /\ 12 <= len_of (text "{'a':[1,'x']}"%string).
Proof.
  apply (loaded_tokens_well_formed (text "{'a':[1,'x']}"%string) 13
           jsmnreader_init (load_text (text "{'a':[1,'x']}"%string)) 2
           (mktok JSMN_ARRAY 5 12 2)).
  - vm_compute. reflexivity.
  - vm_compute. reflexivity.
  - vm_compute. reflexivity.
Defined.

(** X2.  The tokens that a load leaves are in the order of the text: a
    token with a smaller index starts before a token with a larger one. *)
Theorem loaded_tokens_in_text_order (str : list Z) (size : Z)
  (r0 reader : jsmnreader_obj) (code i j : Z) (a b : jsmntok_t) :
  len_of str < 2 ^ 31 ->
  jsmnreader_load str size r0 = Some (code, reader) ->
  i < j ->
  tok_read reader i = Some a -> tok_read reader j = Some b ->
  start a < start b.
Proof.
  intros Hl H Hij Ha Hb.
  destruct (tokens reader) as [T|] eqn:HT;
    [|unfold tok_read in Ha; rewrite HT in Ha; discriminate].
  destruct (loaded_toks_good _ _ _ _ _ _ Hl H HT)
    as (_ & _ & (p & _ & S) & _).
  unfold tok_read in Ha, Hb. rewrite HT in Ha, Hb.
  destruct (i <? 0) eqn:Ei; [discriminate|].
  destruct (j <? 0) eqn:Ej; [discriminate|].
  apply Z.ltb_ge in Ei. apply Z.ltb_ge in Ej.
  apply (sorted_nth _ S (Z.to_nat i) (Z.to_nat j)); [lia| |].
  - rewrite nth_error_map, Ha. reflexivity.
  - rewrite nth_error_map, Hb. reflexivity.
Qed.

Lemma loaded_tokens_in_text_order_witness :
  start (mktok JSMN_STRING 2 3 1) < start (mktok JSMN_PRIMITIVE 6 7 0).
Proof.
  apply (loaded_tokens_in_text_order (text "{'a':[1,'x']}"%string) 13
           jsmnreader_init (load_text (text "{'a':[1,'x']}"%string))
           JSMN_SUCCESS 1 3).
  - vm_compute. reflexivity.
  - vm_compute. reflexivity.
  - lia.
  - vm_compute. reflexivity.
  - vm_compute. reflexivity.
Defined.

(** X3.  A load never leaves more tokens than the buffer has bytes,
    whatever it returns. *)
Theorem loaded_token_count_bounded (str : list Z) (size : Z)
  (r0 reader : jsmnreader_obj) (code : Z) :
  len_of str < 2 ^ 31 ->
  jsmnreader_load str size r0 = Some (code, reader) ->
  0 <= tokens_count reader <= len_of str.
Proof.
  intros Hl H.
  destruct (tokens reader) as [T|] eqn:HT.
  - destruct (loaded_toks_good _ _ _ _ _ _ Hl H HT)
      as (_ & L & (p & G & S) & _).
    rewrite <- L. split; [lia|].
    replace (length T) with (length (map start T)) by apply length_map.
    replace (len_of str) with (len_of str - 0) by lia.
    apply sorted_length; [exact S|unfold len_of; lia|].
    apply Forall_map. eapply Forall_impl; [|exact G].
    simpl. intros t [Gt _]. apply tok_good_start. exact Gt.
  - assert (W : reader_wf reader)
      by (apply loaded_wf; exists str, size, r0, code; exact H).
    unfold reader_wf in W. rewrite HT in W. rewrite W.
    unfold len_of. lia.
Qed.

Lemma loaded_token_count_bounded_witness :
  0 <= tokens_count (load_text (text "[1,2,3"%string))
  <= len_of (text "[1,2,3"%string).
Proof.
  apply (loaded_token_count_bounded (text "[1,2,3"%string) 6
           jsmnreader_init _ JSMN_ERROR_NOMEM).
  - vm_compute. reflexivity.
  - vm_compute. reflexivity.
Defined.

(** ** The accessors on a loaded document *)

Lemma loaded_tok_good str reader index t :
  loaded_from str reader -> len_of str < 2 ^ 31 ->
  tok_read reader index = Some t ->
  txt reader = str /\ tok_good str t.
Proof.
  intros (size & r0 & code & H) Hl Ht.
  destruct (tokens reader) as [T|] eqn:HT;
    [|unfold tok_read in Ht; rewrite HT in Ht; discriminate].
  destruct (loaded_toks_good _ _ _ _ _ _ Hl H HT)
    as (Htxt & _ & (p & G & _) & _).
  split; [exact Htxt|].
  rewrite Forall_forall in G. apply G.
  unfold tok_read in Ht. rewrite HT in Ht.
  destruct (index <? 0); [discriminate|].
  eapply nth_error_In; eauto.
Qed.

Lemma prim_text_unescaped s :
  prim_text s -> unescape_drop_next s <> [].
Proof.
  intros (Hs & Hne & _). destruct s as [|c s]; [contradiction|].
  cbn [hd] in Hs. cbn [unescape_drop_next].
  destruct (c =? 92) eqn:E; [|discriminate].
  apply Z.eqb_eq in E. subst c. discriminate Hs.
Qed.

Lemma cstr_id s : ~ In 0 s -> cstr s = s.
Proof.
  induction s as [|c s IH]; intros H; [reflexivity|].
  cbn [cstr]. destruct (c =? 0) eqn:E.
  - apply Z.eqb_eq in E. exfalso. apply H. left. exact E.
  - rewrite IH; [reflexivity|]. intros X. apply H. right. exact X.
Qed.

Lemma unescape_drop_next_in c :
  forall s, In c (unescape_drop_next s) -> In c s.
Proof.
  assert (G : forall n s, (length s <= n)%nat ->
                In c (unescape_drop_next s) -> In c s).
  { induction n as [|n IH]; intros s Hn H.
    - destruct s; [exact H|simpl in Hn; lia].
    - destruct s as [|a s]; [exact H|].
      cbn [unescape_drop_next] in H. simpl in Hn.
      destruct (a =? 92).
      + destruct s as [|d s]; [contradiction|]. simpl in Hn.
        assert (R : In c (unescape_drop_next s) -> In c (a :: d :: s))
          by (intros X; right; right; apply IH; [lia|exact X]).
        destruct (d =? 92) eqn:E1.
        { apply Z.eqb_eq in E1. destruct H as [H|H]; [|auto].
          right. left. congruence. }
        destruct (d =? 34) eqn:E2.
        { apply Z.eqb_eq in E2. destruct H as [H|H]; [|auto].
          right. left. congruence. }
        auto.
      + destruct H as [H|H]; [left; exact H|].
        right. apply IH; [lia|exact H]. }
  intros s. apply (G (length s)). lia.
Qed.

(** The tokenizer starts a primitive on a character that is no backslash,
    so [jsmnreader_extract] stores at least one character for it; and a
    primitive holds printable characters, so no NUL is stored. *)
Lemma loaded_prim_stored str reader index t :
  loaded_from str reader -> len_of str < 2 ^ 31 ->
  tok_read reader index = Some t ->
  type t = JSMN_PRIMITIVE ->
  unescape_drop_next (raw_text t reader) <> []
  /\ cstr (unescape_drop_next (raw_text t reader))
     = unescape_drop_next (raw_text t reader).
Proof.
  intros Hld Hl Ht Hty.
  destruct (loaded_tok_good _ _ _ _ Hld Hl Ht) as (Htxt & G).
  unfold tok_good in G. rewrite Hty in G. destruct G as (_ & _ & P & _).
  unfold raw_text. rewrite Htxt.
  split; [apply prim_text_unescaped; exact P|].
  apply cstr_id. intros X. apply unescape_drop_next_in in X.
  destruct P as (_ & _ & A). rewrite Forall_forall in A.
  destruct (A 0 X) as [B _]. lia.
Qed.

(** C4, as the code has it.  For every String or Primitive token of a
    document that [jsmnreader_load] leaves (the buffer shorter than 2^31
    bytes, the width of the token fields), [jsmnreader_token_get_string]
    returns the block that [jsmnreader_extract] builds from the span:
    backslash-quote and backslash-backslash are decoded to the quote and
    the backslash, and every other backslash sequence is removed whole, the
    backslash and the character after it both dropped.  When a character
    is left the block holds these characters as a string.  When none is
    left, as for the empty string and for a string of removed sequences
    only, the block is the one of [malloc(0)] in which no terminator was
    written, and what is returned is no string.  A Primitive token always
    leaves a character. *)
Theorem token_get_string_unescapes (str : list Z) (reader : jsmnreader_obj)
  (index : Z) (t : jsmntok_t) :
  loaded_from str reader -> len_of str < 2 ^ 31 ->
  0 <= index < tokens_count reader ->
  tok_read reader index = Some t ->
  type t = JSMN_STRING \/ type t = JSMN_PRIMITIVE ->
  let out := unescape_drop_next (raw_text t reader) in
  (out <> [] -> jsmnreader_token_get_string index reader = Done (Str out))
  /\ (out = [] -> jsmnreader_token_get_string index reader = Done ZeroBlock)
  /\ (type t = JSMN_PRIMITIVE -> out <> []).
Proof.
  intros Hld Hl Hi Ht Hty out.
  assert (G : jsmnreader_token_get_string index reader
              = Done (as_block out)).
  { apply get_string_of_span; auto.
    apply (loaded_span_ok str reader index t); auto. }
  split; [|split].
  - intros N. rewrite G, as_block_str by exact N. reflexivity.
  - intros E. rewrite G, E. reflexivity.
  - intros P. apply (loaded_prim_stored str reader index t); auto.
Qed.

Lemma token_get_string_unescapes_witness :
  jsmnreader_token_get_string 1 (load_text (text "['a\'b\\c\nd']"%string))
  = Done (Str (text "a'b\cd"%string)).
Proof.
  destruct (token_get_string_unescapes
              (text "['a\'b\\c\nd']"%string)
              (load_text (text "['a\'b\\c\nd']"%string)) 1
              (mktok JSMN_STRING 2 12 0)) as (A & _).
  - exists 14, jsmnreader_init, JSMN_SUCCESS. vm_compute. reflexivity.
  - vm_compute. reflexivity.
  - split; [lia | vm_compute; reflexivity].
  - vm_compute. reflexivity.
  - left. reflexivity.
  - apply A. vm_compute. discriminate.
Defined.

(** The empty string of the document [['']] (apostrophes for quotes): no
    character is stored for it, [jsmnreader_token_get_string] returns the
    block of [malloc(0)], and [jsmnreader_token_get_raw] the string of the
    two quotes. *)
Example token_get_string_of_empty_string :
  let reader := load_text (text "['']"%string) in
  tok_read reader 1 = Some (mktok JSMN_STRING 2 2 0)
  /\ jsmnreader_token_get_string 1 reader = Done ZeroBlock
  /\ jsmnreader_token_get_raw 1 reader = Done (Str [34; 34]).
Proof. vm_compute. repeat split; reflexivity. Qed.

(** C7, as the code has it.  For every Primitive token of a document that
    [jsmnreader_load] leaves (the buffer shorter than 2^31 bytes),
    [jsmnreader_token_get_int] works on the text of the token as
    [jsmnreader_extract] returns it, that is, with its backslash sequences
    treated as in [get_string]: the result is 1 when that text is exactly
    [true], and otherwise its base-10 conversion by [strtol], which is 0 for
    a text that does not start with a number.  A raw text without backslash
    is extracted as it is, so the raw texts [true], [false] and [-5] give 1,
    0 and -5. *)
Theorem token_get_int_of_extracted_text (long_bits : Z) (str : list Z)
  (reader : jsmnreader_obj) (index : Z) (t : jsmntok_t) :
  32 <= long_bits ->
  loaded_from str reader -> len_of str < 2 ^ 31 ->
  0 <= index < tokens_count reader ->
  tok_read reader index = Some t ->
  type t = JSMN_PRIMITIVE ->
  let raw := raw_text t reader in
  let extracted := unescape_drop_next raw in
  let result := jsmnreader_token_get_int long_bits index reader in
  result = Done (int_of_text long_bits extracted)
  /\ (~ In 92 raw -> result = Done (int_of_text long_bits raw))
  /\ (raw = text "true"%string -> result = Done 1)
  /\ (raw = text "false"%string -> result = Done 0)
  /\ (raw = text "-5"%string -> result = Done (-5))
  /\ (extracted <> text "true"%string ->
      starts_numeric extracted = false -> result = Done 0).
Proof.
  intros Hl Hld Hlen Hi Ht Hty raw extracted result.
  assert (Hs : span_ok t reader)
    by (apply (loaded_span_ok str reader index t); auto).
  destruct (loaded_prim_stored str reader index t Hld Hlen Ht Hty)
    as [Hne Hz]. fold raw in Hne, Hz. fold extracted in Hne, Hz.
  assert (R : result = Done (int_of_text long_bits extracted)).
  { unfold result, jsmnreader_token_get_int.
    rewrite (with_token_in_range _ _ _ _ t) by auto.
    rewrite Hty. cbn [jsmntype_eqb run_join].
    rewrite tok_str_block, tok_text_spec by auto. fold raw. fold extracted.
    rewrite as_block_str by exact Hne. cbn [read_str]. rewrite Hz.
    unfold int_of_text.
    destruct (list_eqb extracted (text "true"%string)) eqn:E.
    - apply list_eqb_eq in E. rewrite E. reflexivity.
    - rewrite andb_false_r. reflexivity. }
  assert (P : ~ In 92 raw -> result = Done (int_of_text long_bits raw)).
  { intros N. rewrite R. unfold extracted.
    destruct (unescape_drop_next_plain raw N) as [-> _]. reflexivity. }
  pose proof (long_range long_bits Hl) as LR.
  split; [exact R|]. split; [exact P|].
  split; [|split; [|split]].
  - intros E. rewrite P; rewrite E; [reflexivity|].
    simpl; intros [X|[X|[X|[X|[]]]]]; discriminate.
  - intros E. rewrite P; rewrite E;
      [|simpl; intros [X|[X|[X|[X|[X|[]]]]]]; discriminate].
    unfold int_of_text.
    replace (list_eqb (text "false"%string) (text "true"%string)) with false
      by reflexivity.
    rewrite strtol_non_numeric by (auto; reflexivity). reflexivity.
  - intros E. rewrite P; rewrite E;
      [|simpl; intros [X|[X|[]]]; discriminate].
    unfold int_of_text.
    replace (list_eqb (text "-5"%string) (text "true"%string)) with false
      by reflexivity.
    unfold strtol.
    replace (match skip_spaces (text "-5"%string) with
             | [] => 0
             | c :: s2 =>
                 if c =? 45 then - digits_value 0 s2
                 else if c =? 43 then digits_value 0 s2
                 else digits_value 0 (skip_spaces (text "-5"%string))
             end) with (-5) by reflexivity.
    rewrite Z.min_r by lia. rewrite Z.max_r by lia. reflexivity.
  - intros N S. rewrite R. unfold int_of_text.
    destruct (list_eqb extracted (text "true"%string)) eqn:E.
    + apply list_eqb_eq in E. contradiction.
    + rewrite strtol_non_numeric by auto. reflexivity.
Qed.

Lemma token_get_int_of_extracted_text_witness :
  let reader := load_text (text "[true,false,-5,null,12]"%string) in
  jsmnreader_token_get_int 64 3 reader = Done (-5).
Proof.
  intros reader.
  assert (H1 : 32 <= 64) by lia.
  assert (H2 : 0 <= 3 < tokens_count reader)
    by (split; [lia | vm_compute; reflexivity]).
  assert (H3 : tok_read reader 3 = Some (mktok JSMN_PRIMITIVE 12 14 0))
    by (vm_compute; reflexivity).
  assert (H4 : type (mktok JSMN_PRIMITIVE 12 14 0) = JSMN_PRIMITIVE)
    by reflexivity.
  assert (H5 : loaded_from (text "[true,false,-5,null,12]"%string) reader).
  { exists 23, jsmnreader_init, JSMN_SUCCESS. vm_compute. reflexivity. }
  assert (H6 : len_of (text "[true,false,-5,null,12]"%string) < 2 ^ 31)
    by (vm_compute; reflexivity).
  pose proof (token_get_int_of_extracted_text 64
                (text "[true,false,-5,null,12]"%string) reader 3
                (mktok JSMN_PRIMITIVE 12 14 0) H1 H5 H6 H2 H3 H4) as T.
  cbv zeta in T.
  exact (proj1 (proj2 (proj2 (proj2 (proj2 T)))) eq_refl).
Defined.

(** ** The token accessors *)

(** X4.  On a document that [jsmnreader_load] left, whatever it returned
    (the buffer shorter than 2^31 bytes), the token accessors read no cell
    outside the token block and no byte outside a string, for any index; for
    an index at or after the token count each returns its default: 0, or
    the empty string. *)
Theorem token_accessors_stay_in_block (long_bits : Z) (str : list Z)
  (reader : jsmnreader_obj) (index : Z) :
  loaded_from str reader -> len_of str < 2 ^ 31 -> 0 <= index ->
  exists i u s r n p z,
    jsmnreader_token_get_int long_bits index reader = Done i
    /\ jsmnreader_token_get_uint long_bits index reader = Done u
    /\ jsmnreader_token_get_string index reader = Done s
    /\ jsmnreader_token_get_raw index reader = Done r
    /\ jsmnreader_token_is_null index reader = Done n
    /\ jsmnreader_token_is_special index reader = Done p
    /\ jsmnreader_token_size index reader = Done z
    /\ (tokens_count reader <= index ->
        i = 0 /\ u = 0 /\ s = Str [] /\ r = Str [] /\ n = 0 /\ p = 0
        /\ z = 0).
Proof.
  intros Hld Hl H.
  assert (W : reader_wf reader).
  { destruct Hld as (size & r0 & code & L). apply loaded_wf.
    exists str, size, r0, code. exact L. }
  unfold jsmnreader_token_get_int, jsmnreader_token_get_uint,
    jsmnreader_token_get_string, jsmnreader_token_get_raw,
    jsmnreader_token_is_null, jsmnreader_token_is_special,
    jsmnreader_token_size.
  destruct (index <? tokens_count reader) eqn:E.
  - apply Z.ltb_lt in E.
    destruct (wf_tok_read reader index W) as [t Ht]; [lia|].
    rewrite !(with_token_in_range _ _ _ _ t) by (auto; lia).
    cbn [run_join].
    destruct (jsmntype_eqb (type t) JSMN_PRIMITIVE) eqn:P.
    + apply jsmntype_eqb_eq in P.
      rewrite tok_str_block, tok_text_spec
        by (apply (loaded_span_ok str reader index t); auto; lia).
      rewrite as_block_str
        by (apply (loaded_prim_stored str reader index t); auto).
      cbn [read_str].
      do 7 eexists. do 7 (split; [reflexivity|]). intros; lia.
    + do 7 eexists. do 7 (split; [reflexivity|]). intros; lia.
  - apply Z.ltb_ge in E.
    rewrite !with_token_out_of_range by exact E.
    cbn [run_join].
    do 7 eexists. do 7 (split; [reflexivity|]).
    intros _. repeat split; reflexivity.
Qed.

Lemma token_accessors_stay_in_block_witness :
  exists i u s r n p z,
    jsmnreader_token_get_int 64 7 (load_text (text "[1,2,3"%string)) = Done i
    /\ jsmnreader_token_get_uint 64 7 (load_text (text "[1,2,3"%string))
       = Done u
    /\ jsmnreader_token_get_string 7 (load_text (text "[1,2,3"%string))
       = Done s
    /\ jsmnreader_token_get_raw 7 (load_text (text "[1,2,3"%string)) = Done r
    /\ jsmnreader_token_is_null 7 (load_text (text "[1,2,3"%string)) = Done n
    /\ jsmnreader_token_is_special 7 (load_text (text "[1,2,3"%string))
       = Done p
    /\ jsmnreader_token_size 7 (load_text (text "[1,2,3"%string)) = Done z
    /\ (tokens_count (load_text (text "[1,2,3"%string)) <= 7 ->
        i = 0 /\ u = 0 /\ s = Str [] /\ r = Str [] /\ n = 0 /\ p = 0
        /\ z = 0).
Proof.
  apply (token_accessors_stay_in_block 64 (text "[1,2,3"%string)
           (load_text (text "[1,2,3"%string)) 7).
  - exists 6, jsmnreader_init, JSMN_ERROR_NOMEM.
    vm_compute. reflexivity.
  - vm_compute. reflexivity.
  - lia.
Defined.

Lemma escapes_closed_app_gen n :
  forall s s2, (length s <= n)%nat -> escapes_closed s = true ->
    escapes_closed (s ++ s2) = escapes_closed s2
    /\ unescape_drop_next (s ++ s2)
       = unescape_drop_next s ++ unescape_drop_next s2.
Proof.
  induction n as [|n IH]; intros s s2 Hn Hc.
  - destruct s; [split; reflexivity|simpl in Hn; lia].
  - destruct s as [|c s]; [split; reflexivity|].
    cbn [escapes_closed unescape_drop_next app] in *.
    destruct (c =? 92).
    + destruct s as [|d s]; [discriminate|].
      cbn [app]. simpl in Hn.
      destruct (IH s s2) as [I1 I2]; [lia|exact Hc|].
      split; [exact I1|].
      destruct (d =? 92); [rewrite I2; reflexivity|].
      destruct (d =? 34); rewrite I2; reflexivity.
    + simpl in Hn. destruct (IH s s2) as [I1 I2]; [lia|exact Hc|].
      split; [exact I1|]. rewrite I2. reflexivity.
Qed.

Lemma tok_read_in_range reader index t :
  reader_wf reader -> tok_read reader index = Some t ->
  0 <= index < tokens_count reader.
Proof.
  unfold reader_wf, tok_read. destruct (tokens reader) as [T|]; [|discriminate].
  intros W. destruct (index <? 0) eqn:E; [discriminate|].
  apply Z.ltb_ge in E. intros H.
  assert (nth_error T (Z.to_nat index) <> None) by congruence.
  apply nth_error_Some in H0. lia.
Qed.

(** X5.  On a loaded document [jsmnreader_token_get_raw] returns, for a
    String token, a string between two quotes: the characters that
    [jsmnreader_token_get_string] stores, so with the backslash sequences
    of the string removed or decoded all the same.  When there is such a
    character [get_string] returns them as a string; when there is none,
    [get_raw] returns the string of the two quotes and [get_string] the
    block of [malloc(0)], which holds no string.  For a Primitive token the
    two return the same string. *)
Theorem token_get_raw_of_get_string (str : list Z) (size : Z)
  (r0 reader : jsmnreader_obj) (code index : Z) (t : jsmntok_t) :
  len_of str < 2 ^ 31 ->
  jsmnreader_load str size r0 = Some (code, reader) ->
  tok_read reader index = Some t ->
  (type t = JSMN_STRING ->
   exists s,
     jsmnreader_token_get_raw index reader = Done (Str (34 :: s ++ [34]))
     /\ (s <> [] ->
         jsmnreader_token_get_string index reader = Done (Str s))
     /\ (s = [] ->
         jsmnreader_token_get_string index reader = Done ZeroBlock))
  /\ (type t = JSMN_PRIMITIVE ->
      jsmnreader_token_get_raw index reader
      = jsmnreader_token_get_string index reader
      /\ exists s, jsmnreader_token_get_string index reader = Done (Str s)).
Proof.
  intros Hl H Ht.
  assert (Hld : loaded_from str reader) by (exists size, r0, code; exact H).
  assert (W : reader_wf reader)
    by (apply loaded_wf; exists str, size, r0, code; exact H).
  pose proof (tok_read_in_range _ _ _ W Ht) as Hi.
  split; intros Hty.
  - exists (unescape_drop_next (raw_text t reader)).
    assert (GS : jsmnreader_token_get_string index reader
                 = Done (as_block (unescape_drop_next (raw_text t reader)))).
    { apply get_string_of_span; auto.
      apply (loaded_span_ok str reader index t); auto. }
    split; [|split;
             [intros N; rewrite GS, as_block_str by exact N; reflexivity
             |intros E; rewrite GS, E; reflexivity]].
    destruct (loaded_tok_good _ _ _ _ Hld Hl Ht) as (Htxt & Gt).
    unfold tok_good in Gt. rewrite Hty in Gt.
    destruct Gt as (G1 & G2 & G3 & G4 & G5).
    unfold jsmnreader_token_get_raw.
    rewrite (with_token_in_range _ _ _ _ t) by auto.
    rewrite Hty. f_equal.
    pose (t' := mktok JSMN_STRING (start t - 1) (end_ t + 1) 0).
    change (jsmnreader_extract (u32 (start t - 1)) (u32 (end_ t + 1)) reader)
      with (tok_str t' reader).
    assert (R : raw_text t' reader = 34 :: raw_text t reader ++ [34]).
    { unfold raw_text, t'. cbn [start end_]. rewrite Htxt.
      change (firstn (Z.to_nat (end_ t + 1 - (start t - 1)))
                (skipn (Z.to_nat (start t - 1)) str))
        with (slice str (start t - 1) (end_ t + 1)).
      change (firstn (Z.to_nat (end_ t - start t))
                (skipn (Z.to_nat (start t)) str))
        with (slice str (start t) (end_ t)).
      rewrite slice_cons by lia. rewrite G3.
      replace (start t - 1 + 1) with (start t) by lia.
      rewrite (slice_app str (start t) (end_ t) (end_ t + 1)) by lia.
      rewrite (slice_cons str (end_ t)) by lia.
      rewrite G4, slice_nil. reflexivity. }
    assert (C : escapes_closed (raw_text t reader) = true).
    { unfold raw_text. rewrite Htxt. exact G5. }
    destruct (escapes_closed_app_gen _ (raw_text t reader) [34]
                (Nat.le_refl _) C) as [C1 C2].
    rewrite tok_str_block, tok_text_spec.
    + rewrite R. cbn [unescape_drop_next Z.eqb]. rewrite C2. reflexivity.
    + unfold span_ok. cbn [start end_ t']. rewrite Htxt.
      split; [lia|]. split; [lia|]. split; [lia|].
      left. fold t'. rewrite R. cbn [escapes_closed Z.eqb].
      rewrite C1. reflexivity.
  - split.
    + unfold jsmnreader_token_get_raw, jsmnreader_token_get_string.
      rewrite !(with_token_in_range _ _ _ _ t) by auto.
      rewrite Hty. reflexivity.
    + exists (unescape_drop_next (raw_text t reader)).
      rewrite (get_string_of_span reader index t) by
        (auto; apply (loaded_span_ok str reader index t); auto).
      rewrite as_block_str
        by (apply (loaded_prim_stored str reader index t); auto).
      reflexivity.
Qed.

Lemma token_get_raw_of_get_string_witness :
  exists s,
    jsmnreader_token_get_raw 1 (load_text (text "['a\'b\\c\nd']"%string))
    = Done (Str (34 :: s ++ [34]))
    /\ (s <> [] ->
        jsmnreader_token_get_string 1
          (load_text (text "['a\'b\\c\nd']"%string)) = Done (Str s))
    /\ (s = [] ->
        jsmnreader_token_get_string 1
          (load_text (text "['a\'b\\c\nd']"%string)) = Done ZeroBlock).
Proof.
  apply (token_get_raw_of_get_string (text "['a\'b\\c\nd']"%string) 14
           jsmnreader_init (load_text (text "['a\'b\\c\nd']"%string))
           JSMN_SUCCESS 1 (mktok JSMN_STRING 2 12 0)).
  - vm_compute. reflexivity.
  - vm_compute. reflexivity.
  - vm_compute. reflexivity.
  - reflexivity.
Defined.












(** ** Paths *)

Lemma join_path_snoc acc x :
  join_path (acc ++ [x])
  = match acc with
    | [] => x
    | _ => join_path acc ++ 92 :: x
    end.
Proof.
  induction acc as [|a acc IH]; [reflexivity|].
  cbn [app join_path]. rewrite IH.
  destruct acc as [|b acc]; [reflexivity|].
  cbn [app]. rewrite <- app_assoc. reflexivity.
Qed.

Lemma join_path_snoc_char acc temp c :
  join_path (acc ++ [temp ++ [c]]) = join_path (acc ++ [temp]) ++ [c].
Proof.
  rewrite !join_path_snoc. destruct acc; [reflexivity|].
  rewrite <- app_assoc. reflexivity.
Qed.

Lemma parsepath_loop_spec s :
  forall temp acc,
    ~ In 92 temp -> Forall (fun seg => ~ In 92 seg) acc ->
    let l := parsepath_loop s temp acc in
    join_path l = join_path (acc ++ [temp]) ++ s
    /\ length l = (length acc + 1 + count_occ Z.eq_dec s 92%Z)%nat
    /\ Forall (fun seg => ~ In 92 seg) l.
Proof.
  induction s as [|c s IH]; intros temp acc Ht Ha; cbn [parsepath_loop].
  - cbv zeta. rewrite app_nil_r, length_app. simpl.
    split; [reflexivity|]. split; [lia|].
    apply Forall_app. split; [exact Ha|]. constructor; [exact Ht|constructor].
  - destruct (c =? 92) eqn:E.
    + apply Z.eqb_eq in E. subst c.
      destruct (IH [] (acc ++ [temp])) as (I1 & I2 & I3).
      { intros []. }
      { apply Forall_app. split; [exact Ha|].
        constructor; [exact Ht|constructor]. }
      cbv zeta in *. split; [|split; [|exact I3]].
      * rewrite I1. rewrite (join_path_snoc (acc ++ [temp]) []).
        destruct (acc ++ [temp]) eqn:X;
          [destruct acc; discriminate|].
        rewrite <- X. rewrite <- app_assoc. reflexivity.
      * rewrite I2, length_app. simpl.
        destruct (Z.eq_dec 92 92); [lia|contradiction].
    + apply Z.eqb_neq in E.
      destruct (IH (temp ++ [c]) acc) as (I1 & I2 & I3).
      { intros X. apply in_app_or in X. destruct X as [X|[X|[]]]; auto. }
      { exact Ha. }
      cbv zeta in *. split; [|split; [|exact I3]].
      * rewrite I1, join_path_snoc_char, <- app_assoc. reflexivity.
      * rewrite I2. simpl.
        destruct (Z.eq_dec c 92); [contradiction|lia].
Qed.

(** X8.  [jsmnreader_tree_parsepath] cuts a path at its backslashes: a
    path that is not empty gives one segment more than it has backslashes,
    no segment holds a backslash, and the segments joined by backslashes
    are the path again; the count returned is the number of segments.  Two
    backslashes in a row, or one at either end, give an empty segment. *)
Theorem parsepath_round_trip (mypath : list Z) :
  cstr mypath <> [] ->
  let '(path_list, path_count) := jsmnreader_tree_parsepath mypath in
  join_path path_list = cstr mypath
  /\ path_count = Z.of_nat (length path_list)
  /\ path_count = 1 + Z.of_nat (count_occ Z.eq_dec (cstr mypath) 92)
  /\ Forall (fun seg => ~ In 92 seg) path_list.
Proof.
  intros H. unfold jsmnreader_tree_parsepath.
  destruct (cstr mypath) as [|c s] eqn:E; [contradiction|].
  destruct (parsepath_loop_spec (c :: s) [] []) as (I1 & I2 & I3);
    [intros []|constructor|].
  cbv zeta in *. split; [exact I1|]. split; [reflexivity|].
  split; [|exact I3]. rewrite I2. simpl length. lia.
Qed.

Lemma parsepath_round_trip_witness :
  let '(path_list, path_count) :=
    jsmnreader_tree_parsepath (text "repository\sub\monkey"%string) in
  join_path path_list = cstr (text "repository\sub\monkey"%string)
  /\ path_count = Z.of_nat (length path_list)
  /\ path_count
     = 1 + Z.of_nat (count_occ Z.eq_dec
                       (cstr (text "repository\sub\monkey"%string)) 92)
  /\ Forall (fun seg => ~ In 92 seg) path_list.
Proof.
  apply (parsepath_round_trip (text "repository\sub\monkey"%string)).
  vm_compute. discriminate.
Defined.

(** ** Walks in the token block *)

(** [jsmnreader_dataskip] moves forward, and has fuel enough when it has
    more than the cells after [r]. *)
Lemma dataskip_walk reader :
  forall fuel r mode,
    0 <= r ->
    (forall r', jsmnreader_dataskip fuel reader r mode = Done r' -> r < r')
    /\ (0 < Z.of_nat fuel -> tokens_count reader - r < Z.of_nat fuel ->
        jsmnreader_dataskip fuel reader r mode <> Timeout).
Proof.
  induction fuel as [|f IH]; intros r mode Hr.
  { split; [discriminate|simpl; lia]. }
  cbn [jsmnreader_dataskip].
  destruct (tok_read reader r) as [t|]; [|split; [discriminate|discriminate]].
  generalize (u32 (size t)) as objs.
  match goal with
  | |- forall objs, (forall r', ?L f (r + 1) objs = _ -> _) /\ _ =>
      set (loop := L)
  end.
  assert (G : forall k r1 objs,
             r + 1 <= r1 ->
             (forall r', loop k r1 objs = Done r' -> r1 <= r')
             /\ (tokens_count reader - r1 <= Z.of_nat k ->
                 tokens_count reader - r - 1 < Z.of_nat f ->
                 loop k r1 objs <> Timeout)).
  { induction k as [|k IHk]; intros r1 objs H1.
    - unfold loop. cbn.
      destruct ((r1 <? tokens_count reader) && (0 <? objs)) eqn:C.
      + split; [discriminate|]. apply andb_prop in C. destruct C as [C _].
        apply Z.ltb_lt in C. simpl. lia.
      + split; [intros r' X; inversion X; lia|discriminate].
    - unfold loop. cbn. fold loop.
      destruct ((r1 <? tokens_count reader) && (0 <? objs)) eqn:C;
        [|split; [intros r' X; inversion X; lia|discriminate]].
      apply andb_prop in C. destruct C as [C _]. apply Z.ltb_lt in C.
      destruct (tok_read reader _) as [t'|];
        [|split; [discriminate|discriminate]].
      assert (N : forall m,
                 (forall r',
                    match jsmnreader_dataskip f reader
                            (if mode =? 0 then r1 + 1 else r1) m with
                    | Done r2 => loop k r2 (objs - 1)
                    | Fault => Fault
                    | Timeout => Timeout
                    end = Done r' -> r1 <= r')
                 /\ (tokens_count reader - r1 <= Z.of_nat (S k) ->
                     tokens_count reader - r - 1 < Z.of_nat f ->
                     match jsmnreader_dataskip f reader
                             (if mode =? 0 then r1 + 1 else r1) m with
                     | Done r2 => loop k r2 (objs - 1)
                     | Fault => Fault
                     | Timeout => Timeout
                     end <> Timeout)).
      { intros m.
        destruct (IH (if mode =? 0 then r1 + 1 else r1) m) as [P T];
          [destruct (mode =? 0); lia|].
        destruct (jsmnreader_dataskip f reader _ m) as [r2| |] eqn:D.
        - specialize (P r2 eq_refl).
          assert (R2 : r1 + 1 <= r2) by (destruct (mode =? 0); lia).
          destruct (IHk r2 (objs - 1)) as [P2 T2]; [lia|].
          split.
          + intros r' X. specialize (P2 r' X). lia.
          + intros K F. apply T2; lia.
        - split; discriminate.
        - split; [discriminate|]. intros K F. apply T; [lia|].
          destruct (mode =? 0); lia. }
      assert (M : forall r2, r1 + 1 <= r2 ->
                 (forall r', loop k r2 (objs - 1) = Done r' -> r1 <= r')
                 /\ (tokens_count reader - r1 <= Z.of_nat (S k) ->
                     tokens_count reader - r - 1 < Z.of_nat f ->
                     loop k r2 (objs - 1) <> Timeout)).
      { intros r2 R2. destruct (IHk r2 (objs - 1)) as [P2 T2]; [lia|].
        split.
        - intros r' X. specialize (P2 r' X). lia.
        - intros K F. apply T2; lia. }
      destruct (type t'); try apply N;
        apply M; destruct (mode =? 1); lia. }
  intros objs. destruct (G f (r + 1) objs) as [P T]; [lia|].
  split.
  - intros r' X. specialize (P r' X). lia.
  - intros F0 F. apply T; lia.
Qed.

Lemma dataskip_progress reader fuel r mode r' :
  0 <= r -> jsmnreader_dataskip fuel reader r mode = Done r' -> r < r'.
Proof. intros Hr. apply (dataskip_walk reader fuel r mode Hr). Qed.

Lemma dataskip_no_timeout reader r mode :
  0 <= r ->
  jsmnreader_dataskip (walk_fuel reader) reader r mode <> Timeout.
Proof.
  intros Hr. apply (dataskip_walk reader _ r mode Hr); unfold walk_fuel; lia.
Qed.

Lemma found_at_later reader pl pc r0 r1 i loc :
  r0 <= r1 -> found_at reader pl pc r1 i loc -> found_at reader pl pc r0 i loc.
Proof.
  intros H (A & B & r & key & C & D & E).
  split; [lia|]. split; [exact B|]. exists r, key. split; [lia|auto].
Qed.

Lemma selected_ends pl pc i ex_txt : selected pl pc i ex_txt <> Timeout.
Proof.
  unfold selected. destruct (_ && _); [|discriminate].
  destruct ex_txt; discriminate.
Qed.

Lemma selected_str pl pc i ex_txt :
  selected pl pc i ex_txt = Done true ->
  exists x, ex_txt = Str x /\ cstr x = nth (Z.to_nat i) pl [].
Proof.
  unfold selected. destruct (_ && _); [|discriminate].
  destruct ex_txt as [x| |]; cbn [read_str]; try discriminate.
  intros H. inversion H as [E]. apply list_eqb_eq in E.
  exists x. split; [reflexivity|symmetry; exact E].
Qed.

Lemma tree_get_x_loop_spec reader pl pc :
  forall n s,
    0 <= x_r s -> x_loc s = UINT_NEG1 ->
    tokens_count reader - x_r s <= Z.of_nat n ->
    loop_result_ok reader pl pc (x_r s) (x_i s)
      (tree_get_x_loop n reader pl pc s).
Proof.
  induction n as [|n IH]; intros s Hr Hloc Hn.
  - cbn [tree_get_x_loop].
    destruct ((0 <? x_objs s) && (x_r s <? tokens_count reader)) eqn:C.
    + apply andb_prop in C. destruct C as [_ C]. apply Z.ltb_lt in C.
      simpl in Hn. lia.
    + left. exact Hloc.
  - cbn [tree_get_x_loop].
    destruct ((0 <? x_objs s) && (x_r s <? tokens_count reader)) eqn:C;
      [|left; exact Hloc].
    unfold tree_get_x_body.
    destruct (tok_read reader (x_r s)) as [key|] eqn:K; [|exact I].
    destruct (selected pl pc (x_i s) (tok_str key reader)) as [sel| |] eqn:Sel;
      [|exact I|exfalso; exact (selected_ends _ _ _ _ Sel)].
    destruct (tok_read reader (x_r s + 1)) as [v|] eqn:V; [|exact I].
    assert (Found : sel = true -> type v <> JSMN_UNDEFINED ->
                    found_at reader pl pc (x_r s) (x_i s) (x_r s + 1)).
    { intros S Ty. split; [lia|]. split; [exists v; auto|].
      exists (x_r s), key. split; [lia|]. split; [exact K|].
      rewrite Sel, S. reflexivity. }
    assert (Go : forall s',
               x_r s < x_r s' -> x_loc s' = UINT_NEG1 ->
               (sel = false -> x_i s' = x_i s) ->
               loop_result_ok reader pl pc (x_r s) (x_i s)
                 (tree_get_x_loop n reader pl pc s')).
    { intros s' R L Hi.
      pose proof (IH s') as G.
      destruct (tree_get_x_loop n reader pl pc s') as [loc| |];
        cbn [loop_result_ok] in *;
        [|exact I|apply G; lia].
      destruct G as [->|(A & B & r & k & E1 & E2 & E3)]; [lia|exact L|lia| |];
        [left; reflexivity|].
      right. split; [lia|]. split; [exact B|].
      destruct sel.
      - exists (x_r s), key. split; [lia|]. split; [exact K|exact Sel].
      - exists r, k. split; [lia|]. split; [exact E2|].
        rewrite <- (Hi eq_refl). exact E3. }
    assert (Skip : forall mode,
               sel = false ->
               loop_result_ok reader pl pc (x_r s) (x_i s)
                 match skip_value reader mode s with
                 | Done (true, s') => Done (x_loc s')
                 | Done (false, s') => tree_get_x_loop n reader pl pc s'
                 | Fault => Fault
                 | Timeout => Timeout
                 end).
    { intros mode S. unfold skip_value.
      pose proof (dataskip_no_timeout reader (x_r s + 1) mode) as NT.
      destruct (jsmnreader_dataskip (walk_fuel reader) reader (x_r s + 1) mode)
        as [r'| |] eqn:D; [|exact I|apply NT; [lia|reflexivity]].
      apply dataskip_progress in D; [|lia].
      apply Go; cbn [x_r x_loc x_i]; auto. lia. }
    destruct (type v) eqn:Ty.
    + left. exact Hloc.
    + (* object *)
      destruct sel eqn:S; cbn [negb]; [|apply Skip; reflexivity].
      destruct (x_i s =? u32 (pc - 1)).
      * right. apply Found; [reflexivity|congruence].
      * apply Go; cbn [x_r x_loc x_i]; [lia|exact Hloc|discriminate].
    + (* array *)
      destruct sel eqn:S; cbn [negb]; [|apply Skip; reflexivity].
      destruct (x_i s =? u32 (pc - 1)).
      * right. apply Found; [reflexivity|congruence].
      * left. exact Hloc.
    + (* string *)
      destruct sel eqn:S.
      * right. apply Found; [reflexivity|congruence].
      * apply Go; cbn [x_r x_loc x_i]; [lia|exact Hloc|reflexivity].
    + (* primitive *)
      destruct sel eqn:S.
      * right. apply Found; [reflexivity|congruence].
      * apply Go; cbn [x_r x_loc x_i]; [lia|exact Hloc|reflexivity].
Qed.

Lemma in_offset_cases only_objects offset reader :
  in_offset only_objects offset reader = Fault
  \/ in_offset only_objects offset reader = Done false
  \/ (in_offset only_objects offset reader = Done true
      /\ exists t, tok_read reader offset = Some t
                   /\ is_container (type t) = true
                   /\ (only_objects = true -> type t = JSMN_OBJECT)).
Proof.
  unfold in_offset, with_token.
  destruct (_ && _); [|auto].
  destruct (tok_read reader offset) as [t|]; [|auto].
  destruct (type t) eqn:Ty; auto.
  - right; right. split; [reflexivity|]. exists t. rewrite Ty. auto.
  - destruct only_objects; cbn [negb]; auto.
    right; right. split; [reflexivity|]. exists t. rewrite Ty.
    split; [reflexivity|]. split; [reflexivity|discriminate].
Qed.

Lemma tree_get_x_spec mypath offset reader :
  0 <= offset ->
  in_offset false offset reader = Fault
  /\ jsmnreader_tree_get_x mypath offset reader = Fault
  \/ in_offset false offset reader = Done false
     /\ jsmnreader_tree_get_x mypath offset reader = Done 0
  \/ in_offset false offset reader = Done true
     /\ loop_result_ok reader (fst (jsmnreader_tree_parsepath mypath))
          (snd (jsmnreader_tree_parsepath mypath)) (offset + 1) 0
          (jsmnreader_tree_get_x mypath offset reader).
Proof.
  intros Ho. unfold jsmnreader_tree_get_x.
  destruct (in_offset_cases false offset reader)
    as [E|[E|(E & t & Ht & _)]]; rewrite E; auto.
  right; right. split; [reflexivity|].
  destruct (jsmnreader_tree_parsepath mypath) as [pl pc]. cbn [fst snd].
  rewrite Ht.
  apply (tree_get_x_loop_spec reader pl pc (walk_fuel reader)
           (mkx (offset + 1) (u32 (size t)) 0 offset UINT_NEG1));
    cbn [x_r x_loc]; [lia|reflexivity|].
  unfold walk_fuel. lia.
Qed.

(** X9.  [jsmnreader_tree_get_x] ends on every reader, whatever the token
    block holds: each pass of its loop either leaves it or moves forward in
    the block, and so does each pass of [jsmnreader_dataskip]. *)
Theorem tree_get_x_terminates (mypath : list Z) (offset : Z)
  (reader : jsmnreader_obj) :
  0 <= offset ->
  jsmnreader_tree_get_x mypath offset reader <> Timeout.
Proof.
  intros Ho.
  destruct (tree_get_x_spec mypath offset reader Ho)
    as [[_ E]|[[_ E]|[_ E]]]; try (rewrite E; discriminate).
  destruct (jsmnreader_tree_get_x mypath offset reader);
    [discriminate|discriminate|contradiction].
Qed.

Lemma tree_get_x_terminates_witness :
  jsmnreader_tree_get_x (text "a\b"%string) 0
    (load_text (text "{'a':{'c':[1,{}],'b':2}}"%string)) <> Timeout.
Proof.
  apply (tree_get_x_terminates (text "a\b"%string) 0). lia.
Defined.

(** X10.  What [jsmnreader_tree_get_x] returns is 0 for a scope that is
    not an object or an array in the block, or [-1], or the index of a
    token that is in the block, lies after the first token of the scope and
    has a type: a location found can be read. *)
Theorem tree_get_x_location (mypath : list Z) (offset : Z)
  (reader : jsmnreader_obj) (loc : Z) :
  0 <= offset ->
  jsmnreader_tree_get_x mypath offset reader = Done loc ->
  (loc = 0 /\ in_offset false offset reader = Done false)
  \/ loc = UINT_NEG1
  \/ (offset + 1 < loc
      /\ exists v, tok_read reader loc = Some v /\ type v <> JSMN_UNDEFINED).
Proof.
  intros Ho H.
  destruct (tree_get_x_spec mypath offset reader Ho)
    as [[_ E]|[[E0 E]|[_ E]]]; rewrite H in E.
  - discriminate.
  - inversion E. auto.
  - destruct E as [->|(A & B & _)]; auto.
Qed.

Lemma tree_get_x_location_witness :
  (4 = 0
   /\ in_offset false 0
        (load_text (text "{'a':{'c':[1,{}],'b':2}}"%string)) = Done false)
  \/ 4 = UINT_NEG1
  \/ (0 + 1 < 4
      /\ exists v,
           tok_read (load_text (text "{'a':{'c':[1,{}],'b':2}}"%string)) 4
           = Some v
           /\ type v <> JSMN_UNDEFINED).
Proof.
  apply (tree_get_x_location (text "a\c"%string) 0
           (load_text (text "{'a':{'c':[1,{}],'b':2}}"%string)) 4).
  - lia.
  - vm_compute. reflexivity.
Defined.

(** X11.  A key that is missing gives [-1]: when the scope is an object or
    an array and the path is empty, or no token of the block has for
    extracted string (the characters stored, up to the first NUL) the first
    segment of the path, [jsmnreader_tree_get_x] returns [-1], unless it
    reads outside a block. *)
Theorem tree_get_x_missing_key (mypath : list Z) (offset : Z)
  (reader : jsmnreader_obj) :
  0 <= offset ->
  in_offset false offset reader = Done true ->
  cstr mypath = []
  \/ (forall r key,
        tok_read reader r = Some key ->
        cstr (tok_text key reader)
        <> nth 0 (fst (jsmnreader_tree_parsepath mypath)) []) ->
  jsmnreader_tree_get_x mypath offset reader = Done UINT_NEG1
  \/ jsmnreader_tree_get_x mypath offset reader = Fault.
Proof.
  intros Ho Hin Hm.
  destruct (tree_get_x_spec mypath offset reader Ho)
    as [[E0 _]|[[E0 _]|[_ E]]]; try congruence.
  destruct (jsmnreader_tree_get_x mypath offset reader) as [loc| |];
    [|auto|contradiction].
  left. f_equal.
  destruct E as [->|(_ & _ & r & key & _ & K & S)]; [reflexivity|].
  exfalso.
  destruct (selected_bounds _ _ _ _ S) as [S0 _].
  apply selected_str in S. destruct S as (x & S & Sx).
  rewrite tok_str_block in S.
  destruct Hm as [Hm|Hm].
  - unfold jsmnreader_tree_parsepath in S0. rewrite Hm in S0.
    simpl in S0. lia.
  - apply (Hm r key K).
    destruct (tok_text key reader); [discriminate S|].
    cbn [as_block] in S. inversion S; subst x. exact Sx.
Qed.

Lemma tree_get_x_missing_key_witness :
  jsmnreader_tree_get_x (text "b"%string) 0
    (load_text (text "{'a':1}"%string)) = Done UINT_NEG1
  \/ jsmnreader_tree_get_x (text "b"%string) 0
       (load_text (text "{'a':1}"%string)) = Fault.
Proof.
  apply (tree_get_x_missing_key (text "b"%string) 0
           (load_text (text "{'a':1}"%string))).
  - lia.
  - vm_compute. reflexivity.
  - right. intros r key H.
    assert (R : r = 0 \/ r = 1 \/ r = 2).
    { unfold tok_read in H.
      change (tokens (load_text (text "{'a':1}"%string)))
        with (Some [mktok JSMN_OBJECT 0 7 1; mktok JSMN_STRING 2 3 1;
                    mktok JSMN_PRIMITIVE 5 6 0]) in H.
      destruct (r <? 0) eqn:E; [discriminate|]. apply Z.ltb_ge in E.
      assert (nth_error [mktok JSMN_OBJECT 0 7 1; mktok JSMN_STRING 2 3 1;
                         mktok JSMN_PRIMITIVE 5 6 0] (Z.to_nat r) <> None)
        by congruence.
      apply nth_error_Some in H0. simpl in H0. lia. }
    destruct R as [->|[->| ->]]; vm_compute in H; inversion H; subst;
      vm_compute; discriminate.
Defined.

Lemma wf_read_past reader index :
  reader_wf reader -> tokens_count reader <= index ->
  tok_read reader index = None.
Proof.
  unfold reader_wf, tok_read. intros W H.
  destruct (tokens reader) as [T|]; [|reflexivity].
  destruct (index <? 0); [reflexivity|].
  apply nth_error_None. lia.
Qed.

Lemma in_offset_true only_objects offset reader t :
  0 <= offset < tokens_count reader ->
  tok_read reader offset = Some t ->
  type t = JSMN_OBJECT \/ (type t = JSMN_ARRAY /\ only_objects = false) ->
  in_offset only_objects offset reader = Done true.
Proof.
  intros Ho Ht Ty. unfold in_offset.
  rewrite (with_token_in_range _ _ _ _ t) by auto.
  destruct Ty as [->|[-> ->]]; reflexivity.
Qed.

(** X12.  When the key that the walk is on is the last token of the block,
    the walk reads the type of the token after it, which is outside the
    block: [jsmnreader_tree_get_x] does so for a scope that is an object or
    an array with a child and with one token after it in the block, as in
    the documents [{'a':}] and [[1]]; [jsmnreader_token_object_tokens] does
    so for such an object. *)
Theorem walk_reads_past_block (mypath : list Z) (offset : Z)
  (reader : jsmnreader_obj) (t : jsmntok_t) :
  reader_wf reader -> 0 <= offset ->
  tokens_count reader = offset + 2 ->
  tok_read reader offset = Some t ->
  is_container (type t) = true -> 0 < u32 (size t) ->
  jsmnreader_tree_get_x mypath offset reader = Fault
  /\ (type t = JSMN_OBJECT ->
      forall read_setting,
        jsmnreader_token_object_tokens offset read_setting reader = Fault).
Proof.
  intros W Ho Hc Ht Ty Sz.
  destruct (wf_tok_read reader (offset + 1) W) as [key K]; [lia|].
  assert (C : (0 <? u32 (size t)) && (offset + 1 <? tokens_count reader)
              = true).
  { apply andb_true_intro. split; [apply Z.ltb_lt; lia|apply Z.ltb_lt; lia]. }
  split.
  - unfold jsmnreader_tree_get_x.
    rewrite (in_offset_true false offset reader t) by
      (try lia; auto; destruct (type t); try discriminate; auto).
    destruct (jsmnreader_tree_parsepath mypath) as [pl pc].
    rewrite Ht. unfold walk_fuel. cbn [tree_get_x_loop x_objs x_r].
    rewrite C. unfold tree_get_x_body. cbn [x_r x_i]. rewrite K.
    rewrite (wf_read_past reader (offset + 1 + 1) W) by lia.
    pose proof (selected_ends pl pc 0 (tok_str key reader)) as NT.
    destruct (selected pl pc 0 (tok_str key reader));
      [reflexivity|reflexivity|contradiction].
  - intros Hty rs. unfold jsmnreader_token_object_tokens.
    rewrite (in_offset_true true offset reader t) by (try lia; auto).
    destruct (jsmnreader_tree_parsepath []) as [pl pc].
    rewrite Ht. unfold walk_fuel. cbn [object_tokens_loop o_objs o_r].
    rewrite C. unfold object_tokens_body. cbn [o_r o_i]. rewrite K.
    rewrite (wf_read_past reader (offset + 1 + 1) W) by lia.
    pose proof (selected_ends pl pc 0 (tok_str key reader)) as NT.
    destruct (selected pl pc 0 (tok_str key reader));
      [reflexivity|reflexivity|contradiction].
Qed.

Lemma walk_reads_past_block_witness :
  jsmnreader_tree_get_x (text "a"%string) 0 (load_text (text "{'a':}"%string))
  = Fault
  /\ jsmnreader_token_object_tokens 0 JSMNR_BOTH
       (load_text (text "{'a':}"%string)) = Fault.
Proof.
  destruct (walk_reads_past_block (text "a"%string) 0
              (load_text (text "{'a':}"%string)) (mktok JSMN_OBJECT 0 6 1))
    as [A B].
  - apply loaded_wf.
    exists (text "{'a':}"%string), 6, jsmnreader_init, JSMN_SUCCESS.
    vm_compute. reflexivity.
  - lia.
  - vm_compute. reflexivity.
  - vm_compute. reflexivity.
  - reflexivity.
  - vm_compute. reflexivity.
  - split; [exact A|]. apply B. reflexivity.
Defined.

(** X13.  On a reader without tokens, just initialised or after a load
    that failed, [jsmnreader_tree_get_x] returns 0 for every path and
    scope, and the typed queries take this 0 for a location: each of them
    reads the token 0 of a block that has none. *)
Theorem typed_queries_without_tokens (long_bits : Z) (mypath : list Z)
  (offset : Z) (reader : jsmnreader_obj) :
  reader_wf reader -> tokens_count reader = 0 ->
  jsmnreader_tree_get_x mypath offset reader = Done 0
  /\ jsmnreader_tree_get_any mypath offset reader = Done 0
  /\ jsmnreader_tree_get_int long_bits mypath offset reader = Fault
  /\ jsmnreader_tree_get_uint long_bits mypath offset reader = Fault
  /\ jsmnreader_tree_get_string mypath offset reader = Fault
  /\ jsmnreader_tree_get_raw mypath offset reader = Fault
  /\ jsmnreader_tree_get_object mypath offset reader = Fault
  /\ jsmnreader_tree_get_array mypath offset reader = Fault.
Proof.
  intros W Hc.
  assert (X : jsmnreader_tree_get_x mypath offset reader = Done 0).
  { unfold jsmnreader_tree_get_x, in_offset, with_token.
    rewrite Hc. reflexivity. }
  pose proof (wf_read_past reader 0 W) as R.
  unfold jsmnreader_tree_get_any, jsmnreader_tree_get_int,
    jsmnreader_tree_get_uint, jsmnreader_tree_get_string,
    jsmnreader_tree_get_raw, jsmnreader_tree_get_object,
    jsmnreader_tree_get_array, at_loc.
  rewrite X.
  replace (0 =? UINT_NEG1) with false by reflexivity.
  change (s32 0) with 0. rewrite R by lia.
  repeat split; reflexivity.
Qed.

Lemma typed_queries_without_tokens_witness :
  jsmnreader_tree_get_x (text "a"%string) 0
    (load_text (text "{'a':1"%string)) = Done 0
  /\ jsmnreader_tree_get_int 64 (text "a"%string) 0
       (load_text (text "{'a':1"%string)) = Fault.
Proof.
  destruct (typed_queries_without_tokens 64 (text "a"%string) 0
              (load_text (text "{'a':1"%string)))
    as (A & _ & B & _).
  - apply loaded_wf.
    exists (text "{'a':1"%string), 6, jsmnreader_init, JSMN_ERROR_PART.
    vm_compute. reflexivity.
  - vm_compute. reflexivity.
  - split; [exact A|exact B].
Defined.

(** X14.  With a scope that is not an object or an array of the block, the
    0 that [jsmnreader_tree_get_x] returns is taken for the root token by
    the typed queries: when the root is an object,
    [jsmnreader_tree_get_object] returns 0 as if the path led to the root,
    [jsmnreader_tree_get_array] returns [-1], the queries for a number
    return 0, and those for a text return their local variable
    unassigned. *)
Theorem typed_queries_with_bad_scope (long_bits : Z) (mypath : list Z)
  (offset : Z) (reader : jsmnreader_obj) (root : jsmntok_t) :
  in_offset false offset reader = Done false ->
  tok_read reader 0 = Some root -> type root = JSMN_OBJECT ->
  jsmnreader_tree_get_object mypath offset reader = Done 0
  /\ jsmnreader_tree_get_array mypath offset reader = Done UINT_NEG1
  /\ jsmnreader_tree_get_int long_bits mypath offset reader = Done 0
  /\ jsmnreader_tree_get_uint long_bits mypath offset reader = Done 0
  /\ jsmnreader_tree_get_string mypath offset reader = Done Unset
  /\ jsmnreader_tree_get_raw mypath offset reader = Done Unset.
Proof.
  intros Hin Hr Ty.
  assert (X : jsmnreader_tree_get_x mypath offset reader = Done 0).
  { unfold jsmnreader_tree_get_x. rewrite Hin. reflexivity. }
  unfold jsmnreader_tree_get_int, jsmnreader_tree_get_uint,
    jsmnreader_tree_get_string, jsmnreader_tree_get_raw,
    jsmnreader_tree_get_object, jsmnreader_tree_get_array, at_loc.
  rewrite X.
  replace (0 =? UINT_NEG1) with false by reflexivity.
  change (s32 0) with 0. rewrite Hr, Ty.
  repeat split; reflexivity.
Qed.

Lemma typed_queries_with_bad_scope_witness :
  jsmnreader_tree_get_object (text "a"%string) 7
    (load_text (text "{'a':1}"%string)) = Done 0
  /\ jsmnreader_tree_get_string (text "a"%string) 7
       (load_text (text "{'a':1}"%string)) = Done Unset.
Proof.
  destruct (typed_queries_with_bad_scope 64 (text "a"%string) 7
              (load_text (text "{'a':1}"%string)) (mktok JSMN_OBJECT 0 7 1))
    as (A & _ & _ & _ & B & _).
  - vm_compute. reflexivity.
  - vm_compute. reflexivity.
  - reflexivity.
  - split; [exact A|exact B].
Defined.



(** The empty key of the document [{'':1}] (apostrophes for quotes): no
    character is stored for it, and with a path that starts with an empty
    segment the comparison of [jsmnreader_tree_get_x] reads the block of
    [malloc(0)]. *)
Example tree_get_x_on_empty_key :
  let reader := load_text (text "{'':1}"%string) in
  tok_read reader 1 = Some (mktok JSMN_STRING 2 2 1)
  /\ tok_str (mktok JSMN_STRING 2 2 1) reader = ZeroBlock
  /\ jsmnreader_tree_get_x (text "\x"%string) 0 reader = Fault.
Proof. vm_compute. repeat split; reflexivity. Qed.

(** ** Enumerators *)

Lemma render_app rs a b : render rs (a ++ b) = render rs a ++ render rs b.
Proof.
  destruct rs; simpl; [apply flat_map_app|reflexivity|apply map_app].
Qed.

Lemma emit_render rs r keys :
  emit rs r (render rs keys) = render rs (emit JSMNR_KEYONLY r keys).
Proof.
  unfold emit. cbn [render]. rewrite render_app.
  destruct rs; simpl; rewrite <- ?app_assoc; reflexivity.
Qed.

Lemma object_tokens_body_render rs reader pl pc r objs i off keys :
  object_tokens_body rs reader pl pc (mko r objs i off (render rs keys))
  = run_map (fun s => mko (o_r s) (o_objs s) (o_i s) (o_offset s)
                        (render rs (o_arrays s)))
      (object_tokens_body JSMNR_KEYONLY reader pl pc (mko r objs i off keys)).
Proof.
  unfold object_tokens_body. cbn [o_r o_objs o_i o_offset o_arrays].
  destruct (tok_read reader r) as [key|]; [|reflexivity].
  destruct (selected pl pc i (tok_str key reader)) as [sel| |];
    [|reflexivity|reflexivity].
  destruct (tok_read reader (r + 1)) as [v|]; [|reflexivity].
  assert (E : (if i =? pc then emit rs r (render rs keys) else render rs keys)
              = render rs (if i =? pc then emit JSMNR_KEYONLY r keys
                           else keys)).
  { destruct (i =? pc); [apply emit_render|reflexivity]. }
  rewrite E.
  destruct (type v); cbn [run_map o_r o_objs o_i o_offset o_arrays];
    try reflexivity.
  - destruct (negb _).
    + destruct (jsmnreader_dataskip _ _ _ _); reflexivity.
    + destruct (i =? pc - 1); reflexivity.
  - destruct (negb _); [|reflexivity].
    destruct (jsmnreader_dataskip _ _ _ _); reflexivity.
Qed.

Lemma object_tokens_loop_render rs reader pl pc :
  forall n r objs i off keys,
    object_tokens_loop n rs reader pl pc (mko r objs i off (render rs keys))
    = run_map (render rs)
        (object_tokens_loop n JSMNR_KEYONLY reader pl pc
           (mko r objs i off keys)).
Proof.
  induction n as [|n IH]; intros r objs i off keys;
    cbn [object_tokens_loop o_objs o_r o_arrays].
  - destruct (_ && _); reflexivity.
  - destruct (_ && _); [|reflexivity].
    rewrite object_tokens_body_render.
    destruct (object_tokens_body JSMNR_KEYONLY reader pl pc _) as [s'| |];
      cbn [run_map]; try reflexivity.
    destruct s' as [r' objs' i' off' keys']. cbn [o_r o_objs o_i o_offset o_arrays].
    apply IH.
Qed.

Lemma object_tokens_render offset rs reader :
  jsmnreader_token_object_tokens offset rs reader
  = run_map (render rs)
      (jsmnreader_token_object_tokens offset JSMNR_KEYONLY reader).
Proof.
  unfold jsmnreader_token_object_tokens.
  destruct (in_offset true offset reader) as [[|]| |]; try reflexivity.
  - destruct (jsmnreader_tree_parsepath []) as [pl pc].
    destruct (tok_read reader offset) as [t|]; [|reflexivity].
    pose proof (object_tokens_loop_render rs reader pl pc
                  (walk_fuel reader) (offset + 1) (u32 (size t)) 0 offset [])
      as G.
    replace (render rs []) with (@nil Z) in G
      by (destruct rs; reflexivity).
    exact G.
  - destruct rs; reflexivity.
Qed.

(** X16.  The three settings of [jsmnreader_token_object_tokens] walk the
    object in the same way and differ in what they list: with
    [JSMNR_ITEMONLY] each entry is one more than the entry of
    [JSMNR_KEYONLY], the token after the key, and with [JSMNR_BOTH] each
    key is followed by the token after it; a read outside the block or a
    walk without end happens with all three or with none. *)
Theorem object_tokens_by_setting (offset : Z)
  (read_setting : jsmnreaderobjread_t) (reader : jsmnreader_obj) :
  jsmnreader_token_object_tokens offset read_setting reader
  = run_map (render read_setting)
      (jsmnreader_token_object_tokens offset JSMNR_KEYONLY reader).
Proof.
  unfold jsmnreader_token_object_tokens.
  destruct (in_offset true offset reader) as [[|]| |]; try reflexivity.
  - destruct (jsmnreader_tree_parsepath []) as [pl pc].
    destruct (tok_read reader offset) as [t|]; [|reflexivity].
    pose proof (object_tokens_loop_render read_setting reader pl pc
                  (walk_fuel reader) (offset + 1) (u32 (size t)) 0 offset [])
      as G.
    replace (render read_setting []) with (@nil Z) in G
      by (destruct read_setting; reflexivity).
    exact G.
  - destruct read_setting; reflexivity.
Qed.

Lemma array_tokens_loop_spec reader offset :
  forall n r objs edit,
    0 <= offset < r -> objs <= Z.of_nat n ->
    match array_tokens_loop n reader r objs edit with
    | Timeout => False
    | Fault => True
    | Done edit' =>
        exists tail,
          edit' = edit ++ tail
          /\ Z.of_nat (length tail) <= Z.max 0 objs
          /\ StronglySorted Z.lt tail
          /\ Forall (fun x => r <= x /\ listed reader offset x) tail
    end.
Proof.
  induction n as [|n IH]; intros r objs edit Hr Hn;
    cbn [array_tokens_loop].
  - destruct ((0 <? objs) && (r <? tokens_count reader)) eqn:C.
    + apply andb_prop in C. destruct C as [C _]. apply Z.ltb_lt in C.
      simpl in Hn. lia.
    + exists []. rewrite app_nil_r. simpl.
      repeat split; try constructor. lia.
  - destruct ((0 <? objs) && (r <? tokens_count reader)) eqn:C.
    2:{ exists []. rewrite app_nil_r. simpl.
        repeat split; try constructor. lia. }
    apply andb_prop in C. destruct C as [C1 C2].
    apply Z.ltb_lt in C1. apply Z.ltb_lt in C2.
    destruct (tok_read reader r) as [t|] eqn:T; [|exact I].
    assert (Go : forall r', r < r' -> type t <> JSMN_UNDEFINED ->
               match array_tokens_loop n reader r' (objs - 1) (edit ++ [r])
               with
               | Timeout => False
               | Fault => True
               | Done edit' =>
                   exists tail,
                     edit' = edit ++ tail
                     /\ Z.of_nat (length tail) <= Z.max 0 objs
                     /\ StronglySorted Z.lt tail
                     /\ Forall (fun x => r <= x /\ listed reader offset x)
                          tail
               end).
    { intros r' R Ty.
      pose proof (IH r' (objs - 1) (edit ++ [r])) as G.
      destruct (array_tokens_loop n reader r' (objs - 1) (edit ++ [r]))
        as [edit'| |]; [|exact I|apply G; lia].
      destruct G as (tail & E & L & S & F); [lia|lia|].
      exists (r :: tail). rewrite E, <- app_assoc.
      split; [reflexivity|]. split; [simpl length; lia|].
      split.
      - constructor; [exact S|].
        eapply Forall_impl; [|exact F]. simpl. intros a [A _]. lia.
      - constructor.
        + split; [lia|]. split; [lia|]. exists t. auto.
        + eapply Forall_impl; [|exact F]. simpl. intros a [A B].
          split; [lia|exact B]. }
    assert (Skip : forall mode, type t <> JSMN_UNDEFINED ->
               match
                 match jsmnreader_dataskip (walk_fuel reader) reader r mode
                 with
                 | Done r' =>
                     array_tokens_loop n reader r' (objs - 1) (edit ++ [r])
                 | Fault => Fault
                 | Timeout => Timeout
                 end
               with
               | Timeout => False
               | Fault => True
               | Done edit' =>
                   exists tail,
                     edit' = edit ++ tail
                     /\ Z.of_nat (length tail) <= Z.max 0 objs
                     /\ StronglySorted Z.lt tail
                     /\ Forall (fun x => r <= x /\ listed reader offset x)
                          tail
               end).
    { intros mode Ty.
      pose proof (dataskip_no_timeout reader r mode) as NT.
      destruct (jsmnreader_dataskip (walk_fuel reader) reader r mode)
        as [r'| |] eqn:D; [|exact I|apply NT; [lia|reflexivity]].
      apply dataskip_progress in D; [|lia].
      apply Go; auto. }
    destruct (type t) eqn:Ty.
    + pose proof (IH r (objs - 1) edit) as G.
      destruct (array_tokens_loop n reader r (objs - 1) edit)
        as [edit'| |]; [|exact I|apply G; lia].
      destruct G as (tail & E & L & S & F); [lia|lia|].
      exists tail. repeat split; auto. lia.
    + apply Skip. discriminate.
    + apply Skip. discriminate.
    + apply Go; [lia|discriminate].
    + apply Go; [lia|discriminate].
Qed.

(** X17.  [jsmnreader_token_array_tokens] ends on every reader.  For a
    scope that is not an array of the block it lists nothing and reports
    the size 0.  For an array it reports the size of the array token, as
    [jsmnreader_token_size] does, and the cells it writes hold tokens of the
    block that come after the array and have a type, in increasing order;
    there are at most as many as the size reported. *)
Theorem array_tokens_entries (offset : Z) (reader : jsmnreader_obj) :
  0 <= offset < UINT_NEG1 ->
  match jsmnreader_token_array_tokens offset reader with
  | Timeout => False
  | Fault => True
  | Done (edit, arrays_size) =>
      (jsmnreader_token_get_array offset reader = Done UINT_NEG1 ->
       edit = [] /\ arrays_size = 0)
      /\ (jsmnreader_token_get_array offset reader = Done offset ->
          jsmnreader_token_size offset reader = Done arrays_size)
      /\ Z.of_nat (length edit) <= arrays_size
      /\ StronglySorted Z.lt edit
      /\ Forall (listed reader offset) edit
  end.
Proof.
  intros Ho.
  unfold jsmnreader_token_array_tokens, jsmnreader_token_size,
    jsmnreader_token_get_array, with_token.
  destruct ((0 <? tokens_count reader) && (offset <? tokens_count reader)).
  2:{ replace (UINT_NEG1 =? UINT_NEG1) with true by reflexivity.
      split; [auto|]. split; [intros X; inversion X; lia|].
      split; [simpl; lia|]. split; constructor. }
  destruct (tok_read reader offset) as [t|] eqn:T; [|exact I].
  destruct (jsmntype_eqb (type t) JSMN_ARRAY) eqn:Ty.
  2:{ replace (UINT_NEG1 =? UINT_NEG1) with true by reflexivity.
      split; [auto|]. split; [intros X; inversion X; lia|].
      split; [simpl; lia|]. split; constructor. }
  rewrite orb_true_r.
  replace (offset =? UINT_NEG1) with false
    by (symmetry; apply Z.eqb_neq; lia).
  pose proof (array_tokens_loop_spec reader offset
                (Z.to_nat (u32 (size t))) (offset + 1) (u32 (size t)) [])
    as G.
  destruct (array_tokens_loop _ reader (offset + 1) (u32 (size t)) [])
    as [edit| |]; [|exact I|apply G; lia].
  destruct G as (tail & E1 & L & S & F); [lia|lia|].
  simpl in E1. subst tail.
  assert (0 <= u32 (size t)) by (unfold u32; apply Z.mod_pos_bound; lia).
  split; [intros X; inversion X; lia|].
  split; [reflexivity|]. split; [lia|]. split; [exact S|].
  eapply Forall_impl; [|exact F]. simpl. intros a [_ A]. exact A.
Qed.

Lemma array_tokens_entries_witness :
  match jsmnreader_token_array_tokens 4
          (load_text (text "{'a':{'c':[1,{},'x'],'b':2}}"%string)) with
  | Timeout => False
  | Fault => True
  | Done (edit, arrays_size) =>
      (jsmnreader_token_get_array 4
         (load_text (text "{'a':{'c':[1,{},'x'],'b':2}}"%string))
       = Done UINT_NEG1 -> edit = [] /\ arrays_size = 0)
      /\ (jsmnreader_token_get_array 4
            (load_text (text "{'a':{'c':[1,{},'x'],'b':2}}"%string))
          = Done 4 ->
          jsmnreader_token_size 4
            (load_text (text "{'a':{'c':[1,{},'x'],'b':2}}"%string))
          = Done arrays_size)
      /\ Z.of_nat (length edit) <= arrays_size
      /\ StronglySorted Z.lt edit
      /\ Forall
           (listed (load_text (text "{'a':{'c':[1,{},'x'],'b':2}}"%string))
              4) edit
  end.
Proof.
  apply (array_tokens_entries 4
           (load_text (text "{'a':{'c':[1,{},'x'],'b':2}}"%string))).
  vm_compute. split; [discriminate|reflexivity].
Defined.

Lemma array_tokens_loop_prefix reader :
  forall n r objs edit edit',
    array_tokens_loop n reader r objs edit = Done edit' ->
    exists tail, edit' = edit ++ tail.
Proof.
  induction n as [|n IH]; intros r objs edit edit';
    cbn [array_tokens_loop].
  - destruct (_ && _); [discriminate|].
    intros H; inversion H. exists []. rewrite app_nil_r. reflexivity.
  - destruct (_ && _);
      [|intros H; inversion H; exists []; rewrite app_nil_r; reflexivity].
    destruct (tok_read reader r) as [t|]; [|discriminate].
    assert (Go : forall r',
               array_tokens_loop n reader r' (objs - 1) (edit ++ [r])
               = Done edit' -> exists tail, edit' = edit ++ tail).
    { intros r' H. apply IH in H. destruct H as [tail ->].
      exists (r :: tail). rewrite <- app_assoc. reflexivity. }
    destruct (type t); try apply Go; try apply IH.
    + destruct (jsmnreader_dataskip _ _ _ _); try discriminate. apply Go.
    + destruct (jsmnreader_dataskip _ _ _ _); try discriminate. apply Go.
Qed.

Lemma array_loops_agree reader index :
  forall n r objs edit edit',
    array_tokens_loop n reader r objs edit = Done edit' ->
    Z.of_nat (length edit) <= index ->
    token_array_loop n reader index r objs (Z.of_nat (length edit))
    = Done (nth (Z.to_nat index) edit' UINT_NEG1).
Proof.
  induction n as [|n IH]; intros r objs edit edit';
    cbn [array_tokens_loop token_array_loop].
  - destruct (_ && _); [discriminate|].
    intros H Hi; inversion H; subst.
    rewrite nth_overflow by lia. reflexivity.
  - destruct (_ && _).
    2:{ intros H Hi; inversion H; subst.
        rewrite nth_overflow by lia. reflexivity. }
    destruct (tok_read reader r) as [t|]; [|discriminate].
    assert (Hit : forall r',
               array_tokens_loop n reader r' (objs - 1) (edit ++ [r])
               = Done edit' ->
               Z.of_nat (length edit) = index ->
               Done r = Done (A := Z) (nth (Z.to_nat index) edit' UINT_NEG1)).
    { intros r' H E. apply array_tokens_loop_prefix in H.
      destruct H as [tail ->]. rewrite <- app_assoc. cbn [app].
      rewrite <- E, Nat2Z.id, nth_middle. reflexivity. }
    assert (Go : forall r',
               array_tokens_loop n reader r' (objs - 1) (edit ++ [r])
               = Done edit' ->
               Z.of_nat (length edit) <= index ->
               Z.of_nat (length edit) <> index ->
               token_array_loop n reader index r' (objs - 1)
                 (Z.of_nat (length edit) + 1)
               = Done (nth (Z.to_nat index) edit' UINT_NEG1)).
    { intros r' H Hi N. apply IH in H.
      - rewrite length_app in H. simpl length in H.
        replace (Z.of_nat (length edit + 1)) with (Z.of_nat (length edit) + 1)
          in H by lia.
        exact H.
      - rewrite length_app. simpl length. lia. }
    destruct (type t).
    + intros H Hi. apply IH; auto.
    + destruct (jsmnreader_dataskip _ _ _ _) as [r'| |]; try discriminate.
      intros H Hi.
      destruct (Z.of_nat (length edit) =? index) eqn:E.
      * apply Z.eqb_eq in E. eapply Hit; eauto.
      * apply Z.eqb_neq in E. apply Go; auto.
    + destruct (jsmnreader_dataskip _ _ _ _) as [r'| |]; try discriminate.
      intros H Hi.
      destruct (Z.of_nat (length edit) =? index) eqn:E.
      * apply Z.eqb_eq in E. eapply Hit; eauto.
      * apply Z.eqb_neq in E. apply Go; auto.
    + intros H Hi.
      destruct (Z.of_nat (length edit) =? index) eqn:E.
      * apply Z.eqb_eq in E. eapply Hit; eauto.
      * apply Z.eqb_neq in E. apply Go; auto.
    + intros H Hi.
      destruct (Z.of_nat (length edit) =? index) eqn:E.
      * apply Z.eqb_eq in E. eapply Hit; eauto.
      * apply Z.eqb_neq in E. apply Go; auto.
Qed.

(** X18.  [jsmnreader_token_array] agrees with
    [jsmnreader_token_array_tokens]: when the latter lists the elements of
    an array, the former returns for an index the cell of that index in the
    list, and [-1] for an index that has no cell; so also for a scope that
    is not an array, whose list is empty. *)
Theorem token_array_of_array_tokens (index offset : Z)
  (reader : jsmnreader_obj) (edit : list Z) (arrays_size : Z) :
  0 <= index ->
  jsmnreader_token_array_tokens offset reader = Done (edit, arrays_size) ->
  jsmnreader_token_array index offset reader
  = Done (nth (Z.to_nat index) edit UINT_NEG1).
Proof.
  intros Hi. unfold jsmnreader_token_array_tokens, jsmnreader_token_array.
  destruct (jsmnreader_token_get_array offset reader) as [g| |];
    try discriminate.
  destruct (g =? UINT_NEG1).
  { intros H; inversion H. destruct (Z.to_nat index); reflexivity. }
  destruct (tok_read reader offset) as [t|]; [|discriminate].
  destruct (array_tokens_loop _ reader (offset + 1) (u32 (size t)) [])
    as [e| |] eqn:L; try discriminate.
  intros H; inversion H; subst e arrays_size.
  apply (array_loops_agree reader index _ _ _ [] edit L). simpl. lia.
Qed.

Lemma token_array_of_array_tokens_witness :
  jsmnreader_token_array 1 4
    (load_text (text "{'a':{'c':[1,{},'x'],'b':2}}"%string))
  = Done (nth (Z.to_nat 1) [5; 6; 7] UINT_NEG1).
Proof.
  apply (token_array_of_array_tokens 1 4
           (load_text (text "{'a':{'c':[1,{},'x'],'b':2}}"%string))
           [5; 6; 7] 3).
  - lia.
  - vm_compute. reflexivity.
Defined.

(** ** Loading is defined *)





Lemma nth_error_flat_pair (keys : list Z) :
  forall j k,
    nth_error keys j = Some k ->
    nth_error (flat_map (fun r => [r; r + 1]) keys) (2 * j) = Some k
    /\ nth_error (flat_map (fun r => [r; r + 1]) keys) (2 * j + 1)
       = Some (k + 1).
Proof.
  induction keys as [|a keys IH]; intros j k H; [destruct j; discriminate|].
  destruct j as [|j].
  - inversion H; subst. split; reflexivity.
  - simpl in H. destruct (IH j k H) as [I1 I2].
    replace (2 * S j)%nat with (S (S (2 * j))) by lia.
    split; [exact I1|exact I2].
Qed.

(** X20.  [jsmnreader_token_object] picks a cell of the list of
    [jsmnreader_token_object_tokens]: for the key number [j] of an object,
    the settings [JSMNR_KEYONLY] and [JSMNR_ITEMONLY] give at [j] the key
    and the token after the key, and [JSMNR_BOTH] gives the same two at
    [2j] and [2j + 1]. *)
Theorem token_object_of_key (j offset : Z) (reader : jsmnreader_obj)
  (keys : list Z) (k : Z) :
  0 <= j -> 2 * Z.of_nat (length keys) < 2 ^ 32 ->
  jsmnreader_token_object_tokens offset JSMNR_KEYONLY reader = Done keys ->
  nth_error keys (Z.to_nat j) = Some k ->
  jsmnreader_token_object j offset JSMNR_KEYONLY reader = Done k
  /\ jsmnreader_token_object j offset JSMNR_ITEMONLY reader = Done (k + 1)
  /\ jsmnreader_token_object (2 * j) offset JSMNR_BOTH reader = Done k
  /\ jsmnreader_token_object (2 * j + 1) offset JSMNR_BOTH reader
     = Done (k + 1).
Proof.
  intros Hj Hl H N.
  assert (L : (Z.to_nat j < length keys)%nat)
    by (apply nth_error_Some; congruence).
  assert (In_range : forall n idx,
             0 <= idx < Z.of_nat n -> Z.of_nat n < 2 ^ 32 ->
             (0 <? u32 (Z.of_nat n)) && (idx <? u32 (Z.of_nat n)) = true).
  { intros n idx Hi Hn. rewrite u32_small by lia.
    apply andb_true_intro. split; apply Z.ltb_lt; lia. }
  unfold jsmnreader_token_object.
  rewrite (object_tokens_render offset JSMNR_ITEMONLY),
    (object_tokens_render offset JSMNR_BOTH), H.
  cbn [run_map render].
  destruct (nth_error_flat_pair keys _ _ N) as [B1 B2].
  assert (LB : length (flat_map (fun r => [r; r + 1]) keys)
               = (2 * length keys)%nat).
  { clear. induction keys as [|a keys IH]; [reflexivity|].
    simpl. rewrite IH. lia. }
  rewrite length_map, LB.
  rewrite !In_range by lia.
  rewrite nth_error_map, N. cbn [option_map].
  replace (Z.to_nat (2 * j)) with (2 * Z.to_nat j)%nat by lia.
  replace (Z.to_nat (2 * j + 1)) with (2 * Z.to_nat j + 1)%nat by lia.
  rewrite B1, B2. repeat split; reflexivity.
Qed.

Lemma token_object_of_key_witness :
  jsmnreader_token_object 1 0 JSMNR_KEYONLY
    (load_text (text "{'a':1,'b':[2],'c':3}"%string)) = Done 3
  /\ jsmnreader_token_object 1 0 JSMNR_ITEMONLY
       (load_text (text "{'a':1,'b':[2],'c':3}"%string)) = Done (3 + 1)
  /\ jsmnreader_token_object (2 * 1) 0 JSMNR_BOTH
       (load_text (text "{'a':1,'b':[2],'c':3}"%string)) = Done 3
  /\ jsmnreader_token_object (2 * 1 + 1) 0 JSMNR_BOTH
       (load_text (text "{'a':1,'b':[2],'c':3}"%string)) = Done (3 + 1).
Proof.
  apply (token_object_of_key 1 0
           (load_text (text "{'a':1,'b':[2],'c':3}"%string)) [1; 3; 6] 3).
  - lia.
  - vm_compute. reflexivity.
  - vm_compute. reflexivity.
  - reflexivity.
Defined.

(** ** The count of a run *)

Lemma case_token_count c count st' :
  Jsmn.case_token c count = Jsmn.Next st' ->
  exists r q t',
    c = Some (r, q, t') /\ 0 <= r
    /\ Jsmn.ps_parser st' = q /\ Jsmn.ps_count st' = count + 1.
Proof.
  unfold Jsmn.case_token. destruct c as [[[r q] t']|]; [|discriminate].
  destruct (r <? 0) eqn:E; [discriminate|]. apply Z.ltb_ge in E.
  intros H; inversion H; subst. exists r, q, t'. auto.
Qed.

(** A pass that goes on leaves the position in the text and adds at most
    one to the count. *)
Lemma parse_step_count js len num sc st st' :
  0 <= pos (Jsmn.ps_parser st) < len_of js ->
  Jsmn.parse_step js len num sc st = Jsmn.Next st' ->
  pos (Jsmn.ps_parser st) <= pos (Jsmn.ps_parser st') < len_of js
  /\ Jsmn.ps_count st <= Jsmn.ps_count st' <= Jsmn.ps_count st + 1.
Proof.
  intros Hp. unfold Jsmn.parse_step.
  destruct (_ || _).
  { unfold Jsmn.case_open.
    destruct (Jsmn.ps_tokens st) as [toks|].
    - destruct (Jsmn.jsmn_alloc_token _ _ _ _) as [[ptr p1] t1] eqn:E.
      apply alloc_pos in E. destruct E as [E _].
      destruct ptr; try discriminate.
      destruct (_ && _); [discriminate|].
      intros H; inversion H; subst. simpl. lia.
    - intros H; inversion H; subst. simpl. lia. }
  destruct (_ || _).
  { unfold Jsmn.case_close.
    destruct (Jsmn.ps_tokens st) as [toks|];
      [|intros H; inversion H; subst; lia].
    destruct (_ =? -1); [discriminate|].
    destruct (negb _); [discriminate|].
    intros H; inversion H; subst. simpl. lia. }
  destruct (_ =? 34).
  { intros H. apply case_token_count in H.
    destruct H as (r & q & t' & C & Hr & -> & ->). split; [|lia].
    unfold Jsmn.jsmn_parse_string in C.
    destruct (Jsmn.string_scan _ js len _) as [q0|err] eqn:S.
    - apply string_scan_found in S; [|lia]. destruct S as (S1 & _ & _).
      destruct (Jsmn.ps_tokens st) as [toks|].
      + destruct (Jsmn.jsmn_alloc_token _ _ _ _) as [[ptr p1] t1] eqn:E.
        apply alloc_pos in E. destruct E as [E _]. simpl in E.
        destruct ptr; inversion C; subst;
          try (unfold JSMN_ERROR_NOMEM in Hr; lia); simpl; lia.
      + inversion C; subst; simpl; lia.
    - apply string_scan_failed in S. inversion C; subst; lia. }
  destruct (Jsmn.is_space _); [intros H; inversion H; subst; lia|].
  destruct (_ =? 58); [intros H; inversion H; subst; simpl; lia|].
  destruct (_ =? 44).
  { unfold Jsmn.case_comma.
    destruct (Jsmn.ps_tokens st) as [toks|];
      [|intros H; inversion H; subst; lia].
    destruct (_ && _); [|intros H; inversion H; subst; lia].
    destruct (_ =? -1); intros H; inversion H; subst; simpl; lia. }
  destruct (Jsmn.is_prim_start _) eqn:PS; [|discriminate].
  unfold Jsmn.case_primitive.
  destruct (match Jsmn.ps_tokens st with Some _ => _ | None => _ end);
    [discriminate|].
  intros H. apply case_token_count in H.
  destruct H as (r & q & t' & C & Hr & -> & ->). split; [|lia].
  unfold Jsmn.jsmn_parse_primitive in C.
  destruct (Jsmn.primitive_scan _ js len _) as [q0|err] eqn:S.
  - pose proof (primitive_scan_pos _ _ _ _ _ S (prim_start_not_end _ PS))
      as Lt.
    apply primitive_scan_found in S; [|lia]. destruct S as (S1 & _).
    destruct (Jsmn.ps_tokens st) as [toks|].
    + destruct (Jsmn.jsmn_alloc_token _ _ _ _) as [[ptr p1] t1] eqn:E.
      apply alloc_pos in E. destruct E as [E _]. simpl in E.
      destruct ptr; inversion C; subst;
        try (unfold JSMN_ERROR_NOMEM in Hr; lia); simpl; lia.
    + inversion C; subst; simpl; lia.
  - apply primitive_scan_failed in S. inversion C; subst; lia.
Qed.

(** The count that a run returns is at most the length of the text. *)
Lemma parse_loop_count js len num sc :
  forall n st r st',
    0 <= pos (Jsmn.ps_parser st) <= len_of js ->
    Jsmn.ps_count st <= pos (Jsmn.ps_parser st) ->
    Jsmn.parse_loop n js len num sc st = Some (r, st') ->
    r <= len_of js /\ (0 <= r -> Jsmn.ps_count st <= r).
Proof.
  assert (F : forall st r st',
             0 <= pos (Jsmn.ps_parser st) <= len_of js ->
             Jsmn.ps_count st <= pos (Jsmn.ps_parser st) ->
             Jsmn.parse_finish st = (r, st') ->
             r <= len_of js /\ (0 <= r -> Jsmn.ps_count st <= r)).
  { intros st r st' Hp Hc. unfold Jsmn.parse_finish.
    destruct (Jsmn.ps_tokens st); [destruct (_ =? -1)|];
      intros H; inversion H; subst; unfold JSMN_ERROR_PART; lia. }
  induction n as [|n IH]; intros st r st' Hp Hc H; simpl in H.
  - inversion H as [H']. eapply F; eauto.
  - destruct ((pos (Jsmn.ps_parser st) <? len) && _) eqn:C;
      [|inversion H as [H']; eapply F; eauto].
    apply in_text in C; [|lia]. destruct C as [_ C].
    destruct (Jsmn.parse_step js len num sc st) as [st1|r1 st1|] eqn:S;
      [| |discriminate].
    + apply parse_step_count in S; [|lia]. destruct S as [S1 S2].
      apply IH in H.
      * destruct H as [H1 H2]. split; [exact H1|]. intros Hr.
        specialize (H2 Hr). unfold Jsmn.next_char in H2. simpl in H2. lia.
      * unfold Jsmn.next_char, set_pos. simpl. lia.
      * unfold Jsmn.next_char, set_pos. simpl. lia.
    + inversion H; subst r1 st1.
      pose proof (null_step_follows js len num sc num sc st
                    (Jsmn.ps_parser st) eq_refl) as N.
      rewrite S in N. lia.
Qed.

(** ** Loading JSON texts *)

(** X21.  A JSON text loads on a reader that has a token block, as
    [jsmnreader_init] leaves it: for a buffer that holds one JSON value
    between white space, and is not ended by a number or a literal,
    [jsmnreader_load] with the length of the buffer returns
    [JSMN_SUCCESS] and leaves a token block with at least one token and as
    many cells as tokens. *)
Theorem load_of_json_text (js w1 v w2 : list Z) (reader0 : jsmnreader_obj) :
  json_ws w1 -> json_value v -> json_ws w2 -> js = w1 ++ v ++ w2 ->
  (Jsmn.is_prim_start (hd 0 v) = true -> w2 <> []) ->
  len_of js < 2 ^ 31 ->
  tokens reader0 <> None ->
  exists reader T,
    jsmnreader_load js (len_of js) reader0 = Some (JSMN_SUCCESS, reader)
    /\ tokens reader = Some T
    /\ 0 < tokens_count reader
    /\ Z.of_nat (length T) = tokens_count reader.
Proof.
  intros Hw1 Hv Hw2 Hjs Hend Hlen H0.
  destruct (tokens reader0) as [l0|] eqn:E0; [|contradiction].
  destruct (sizing_fill_agree js w1 v w2 Hw1 Hv Hw2 Hjs Hend Hlen)
    as (c & parser & Hsz & Hc & R).
  assert (Hb : c <= len_of js).
  { rewrite sizing_run_unfold in Hsz. unfold parse_from in Hsz.
    destruct (Jsmn.parse_loop _ js (len_of js) 2 true _) as [[r st]|] eqn:L;
      [|discriminate].
    inversion Hsz; subst r.
    apply parse_loop_count in L; [tauto| |]; simpl; unfold len_of; lia. }
  unfold jsmnreader_load. rewrite E0.
  change (Jsmn.jsmn_parse Jsmn.jsmn_init js (len_of js)
            (realloc_tokens (Some l0) 0) 2 true)
    with (sizing_run js).
  rewrite Hsz.
  replace (0 <=? c) with true by (symmetry; apply Z.leb_le; lia).
  rewrite u32_small by lia.
  destruct (realloc_tokens None c) as [T0|] eqn:R0.
  2:{ unfold realloc_tokens in R0.
      replace (c =? 0) with false in R0 by (symmetry; apply Z.eqb_neq; lia).
      discriminate R0. }
  pose proof (realloc_tokens_length _ _ _ R0) as L0.
  destruct (R T0) as (p' & T' & E1 & _ & _); [lia|].
  unfold block_run in E1. rewrite L0 in E1 by lia. rewrite E1.
  pose proof (jsmn_parse_shape _ _ _ _ _ _ _ _ _ E1) as Sh. simpl in Sh.
  replace (c =? JSMN_ERROR_NOMEM) with false
    by (symmetry; apply Z.eqb_neq; unfold JSMN_ERROR_NOMEM; lia).
  replace (c =? JSMN_ERROR_INVAL) with false
    by (symmetry; apply Z.eqb_neq; unfold JSMN_ERROR_INVAL; lia).
  replace (c =? JSMN_ERROR_PART) with false
    by (symmetry; apply Z.eqb_neq; unfold JSMN_ERROR_PART; lia).
  do 2 eexists. split; [reflexivity|]. cbn [tokens tokens_count].
  split; [reflexivity|]. split; [lia|]. lia.
Qed.

Lemma load_of_json_text_witness :
  exists reader T,
    jsmnreader_load (text "{'a':[1,'x']}"%string)
      (len_of (text "{'a':[1,'x']}"%string)) jsmnreader_init
    = Some (JSMN_SUCCESS, reader)
    /\ tokens reader = Some T
    /\ 0 < tokens_count reader
    /\ Z.of_nat (length T) = tokens_count reader.
Proof.
  destruct json_text_sample as (w1 & v & w2 & Hw1 & Hv & Hw2 & Hjs).
  apply (load_of_json_text (text "{'a':[1,'x']}"%string) w1 v w2
           jsmnreader_init Hw1 Hv Hw2 Hjs).
  - intros P E. subst w2. rewrite app_nil_r in Hjs.
    destruct w1 as [|c w1].
    + simpl in Hjs. subst v. discriminate P.
    + inversion Hw1 as [|? ? Hc _]; subst.
      vm_compute in Hjs. inversion Hjs; subst c.
      destruct Hc as [X|[X|[X|X]]]; discriminate X.
  - vm_compute. reflexivity.
  - discriminate.
Defined.

(** X22.  A number or a literal that ends the buffer does not load: for a
    buffer that holds only such a primitive, after white space or not,
    [jsmnreader_load] with the length of the buffer returns
    [JSMN_ERROR_PART] and leaves no token; the tokenizer ends a primitive
    only on a separator.  So the JSON texts [42] and [true] are refused when
    nothing follows them. *)
Theorem load_of_bare_primitive (js w1 v : list Z) (reader0 : jsmnreader_obj) :
  json_ws w1 -> prim_text v -> js = w1 ++ v ->
  len_of js < 2 ^ 31 ->
  jsmnreader_load js (len_of js) reader0
  = Some (JSMN_ERROR_PART, mkreader js (len_of js) None 0).
Proof.
  intros Hw1 Hv Hjs Hlen.
  unfold jsmnreader_load, Jsmn.jsmn_parse.
  pose proof (run_bare_primitive js Hlen 2 true w1 v
                (Jsmn.mkstate Jsmn.jsmn_init
                   (realloc_tokens (tokens reader0) 0)
                   (s32 (toknext Jsmn.jsmn_init)))
                Hw1 Hv Hjs eq_refl (or_intror eq_refl)) as E1.
  unfold parse_from in E1. cbn [Jsmn.ps_parser] in E1.
  rewrite E1. cbn [Jsmn.ps_tokens at_pos].
  replace (0 <=? JSMN_ERROR_PART) with false by reflexivity.
  pose proof (run_bare_primitive js Hlen 2 false w1 v
                (Jsmn.mkstate Jsmn.jsmn_init
                   (realloc_tokens (realloc_tokens (tokens reader0) 0) 2)
                   (s32 (toknext Jsmn.jsmn_init)))
                Hw1 Hv Hjs eq_refl (or_intror eq_refl)) as E2.
  unfold parse_from in E2. cbn [Jsmn.ps_parser] in E2.
  rewrite E2. destruct (tokens reader0); reflexivity.
Qed.

Lemma load_of_bare_primitive_witness :
  jsmnreader_load (text " 42"%string) (len_of (text " 42"%string))
    jsmnreader_init
  = Some (JSMN_ERROR_PART,
          mkreader (text " 42"%string) (len_of (text " 42"%string)) None 0).
Proof.
  apply (load_of_bare_primitive (text " 42"%string) (text " "%string)
           (text "42"%string) jsmnreader_init).
  - constructor; [left; reflexivity|constructor].
  - split; [reflexivity|]. split; [discriminate|].
    repeat constructor; vm_compute; try reflexivity; discriminate.
  - reflexivity.
  - vm_compute. reflexivity.
Defined.

(** ** A load on a reader without a token block *)



(** ** When a load runs out of cells *)

(** A run without a block takes no account of the number of cells nor of
    the mode. *)
Lemma null_step_indep js len num sc num' sc' p count :
  Jsmn.parse_step js len num sc (null_state p count)
  = Jsmn.parse_step js len num' sc' (null_state p count).
Proof. reflexivity. Qed.

Lemma null_loop_indep js len num sc num' sc' :
  forall n p count,
    Jsmn.parse_loop n js len num sc (null_state p count)
    = Jsmn.parse_loop n js len num' sc' (null_state p count).
Proof.
  induction n as [|n IH]; intros p count; [reflexivity|].
  cbn [Jsmn.parse_loop].
  destruct (_ && _); [|reflexivity].
  rewrite (null_step_indep js len num sc num' sc').
  pose proof (parse_step_shape js len num' sc' (null_state p count)) as Sh.
  destruct (Jsmn.parse_step js len num' sc' (null_state p count))
    as [st1|r st1|]; try reflexivity.
  cbn [step_keeps_shape null_state Jsmn.ps_tokens same_shape] in Sh.
  destruct st1 as [p1 [t1|] c1]; [contradiction|].
  apply (IH (set_pos p1 (pos p1 + 1)) c1).
Qed.

(** Where a run on a block finds no cell left, the run without a block
    counts one token more. *)
Lemma nomem_step_counts js len num parser T cnt st' num' sc' p0 :
  pos p0 = pos parser ->
  Jsmn.parse_step js len num false (Jsmn.mkstate parser (Some T) cnt)
  = Jsmn.Stop JSMN_ERROR_NOMEM st' ->
  exists p1,
    Jsmn.parse_step js len num' sc' (null_state p0 cnt)
    = Jsmn.Next (null_state p1 (cnt + 1)).
Proof.
  intros Hp. destruct parser as [p k s]. cbn [pos] in Hp.
  unfold Jsmn.parse_step, null_state.
  cbn [Jsmn.ps_parser Jsmn.ps_tokens Jsmn.ps_count pos].
  rewrite Hp.
  destruct (_ || _).
  { unfold Jsmn.case_open. cbn. intros _. eexists. reflexivity. }
  destruct (_ || _).
  { unfold Jsmn.case_close.
    cbn [Jsmn.ps_parser Jsmn.ps_tokens Jsmn.ps_count toknext pos].
    destruct (_ =? -1); [discriminate|].
    destruct (negb _); discriminate. }
  destruct (_ =? 34).
  { unfold Jsmn.jsmn_parse_string. cbn [pos]. rewrite Hp.
    destruct (Jsmn.string_scan _ js len (p + 1)) as [q|err] eqn:S.
    - intros _. unfold Jsmn.case_token.
      replace (0 <? 0) with false by reflexivity.
      eexists. reflexivity.
    - apply string_scan_error in S. unfold Jsmn.case_token.
      destruct S as [-> | ->]; simpl; discriminate. }
  destruct (Jsmn.is_space _); [discriminate|].
  destruct (_ =? 58); [discriminate|].
  destruct (_ =? 44).
  { unfold Jsmn.case_comma.
    cbn [Jsmn.ps_parser Jsmn.ps_tokens Jsmn.ps_count toknext pos].
    destruct (_ && _); [|discriminate].
    destruct (_ =? -1); discriminate. }
  destruct (Jsmn.is_prim_start _); [|discriminate].
  unfold Jsmn.case_primitive.
  cbn [Jsmn.ps_parser Jsmn.ps_tokens Jsmn.ps_count toknext pos toksuper].
  destruct (negb _ && _); [discriminate|].
  unfold Jsmn.jsmn_parse_primitive. cbn [pos]. rewrite Hp.
  destruct (Jsmn.primitive_scan _ js len p) as [q|err] eqn:S.
  - intros _. unfold Jsmn.case_token.
    replace (0 <? 0) with false by reflexivity.
    eexists. reflexivity.
  - apply primitive_scan_error in S. unfold Jsmn.case_token.
    destruct S as [-> | ->]; simpl; discriminate.
Qed.

(** The count of a run never goes down. *)
Lemma parse_loop_count_mono js len num sc :
  forall n s a b,
    Jsmn.parse_loop n js len num sc s = Some (a, b) ->
    0 <= a -> 0 <= pos (Jsmn.ps_parser s) ->
    Jsmn.ps_count s <= a.
Proof.
  induction n as [|n IH]; intros s a b L Ha Hs; simpl in L.
  - unfold Jsmn.parse_finish in L.
    destruct (Jsmn.ps_tokens s); [destruct (_ =? -1)|];
      inversion L; subst; unfold JSMN_ERROR_PART in *; lia.
  - destruct ((pos (Jsmn.ps_parser s) <? len) && _) eqn:C.
    + apply in_text in C; [|lia]. destruct C as [_ C].
      destruct (Jsmn.parse_step js len num sc s) as [s1|r1 s1|] eqn:S;
        [| |discriminate].
      * apply parse_step_count in S; [|lia].
        apply IH in L; auto.
        -- unfold Jsmn.next_char in L. simpl in L. lia.
        -- unfold Jsmn.next_char, set_pos. simpl. lia.
      * inversion L; subst.
        pose proof (null_step_follows js len num sc num sc s
                      (Jsmn.ps_parser s) eq_refl) as N.
        rewrite S in N. lia.
    + unfold Jsmn.parse_finish in L.
      destruct (Jsmn.ps_tokens s); [destruct (_ =? -1)|];
        inversion L; subst; unfold JSMN_ERROR_PART in *; lia.
Qed.

(** A run on a block that finds no cell left stops where the run without
    a block, if it ends well, counts more tokens than the block has
    cells. *)
Lemma fill_nomem_overflows js len num :
  len_of js < 2 ^ 31 -> num < 2 ^ 32 ->
  forall n st T st' p0 c st0,
    Jsmn.ps_tokens st = Some T ->
    tokens_ok js num st -> count_ok st ->
    0 <= pos (Jsmn.ps_parser st) ->
    pos p0 = pos (Jsmn.ps_parser st) ->
    Jsmn.parse_loop n js len num false st = Some (JSMN_ERROR_NOMEM, st') ->
    Jsmn.parse_loop n js len 2 true (null_state p0 (Jsmn.ps_count st))
    = Some (c, st0) ->
    c < 0 \/ num < c.
Proof.
  intros Hl Hn.
  assert (F : forall st T st',
             Jsmn.ps_tokens st = Some T -> tokens_ok js num st ->
             count_ok st ->
             Jsmn.parse_finish st = (JSMN_ERROR_NOMEM, st') -> False).
  { intros st T st' HT OK Hc.
    unfold Jsmn.parse_finish, tokens_ok, count_ok in *.
    rewrite HT in *. destruct OK as (_ & K & _).
    destruct (_ =? -1); intros H; inversion H.
    unfold JSMN_ERROR_NOMEM in *. lia. }
  induction n as [|n IH]; intros st T st' p0 c st0 HT OK Hc Hp Hp0 H H0;
    cbn [Jsmn.parse_loop] in H, H0.
  - exfalso. inversion H as [H']. eapply F; eauto.
  - cbn [null_state Jsmn.ps_parser] in H0. rewrite Hp0 in H0.
    destruct ((pos (Jsmn.ps_parser st) <? len) && _) eqn:C;
      [|exfalso; inversion H as [H']; eapply F; eauto].
    apply in_text in C; [|lia]. destruct C as [_ C].
    destruct st as [parser toks cnt]. cbn [Jsmn.ps_tokens] in HT. subst toks.
    cbn [Jsmn.ps_parser Jsmn.ps_count] in *.
    pose proof (parse_step_tokens_ok js len num parser T cnt Hl Hn
                  Hp OK Hc) as St.
    pose proof (null_step_follows js len num false 2 true
                  (Jsmn.mkstate parser (Some T) cnt) p0 Hp0) as NF.
    pose proof (parse_step_shape js len num false
                  (Jsmn.mkstate parser (Some T) cnt)) as Sh.
    change (Jsmn.mkstate p0 None cnt) with (null_state p0 cnt) in H0.
    destruct (Jsmn.parse_step js len num false
                (Jsmn.mkstate parser (Some T) cnt)) as [st1|r1 st1|] eqn:S;
      [| |discriminate].
    + cbn [Jsmn.ps_count] in NF. destruct NF as (p1 & E1 & Hp1).
      rewrite E1 in H0.
      destruct St as [OK1 Hc1].
      cbn [step_keeps_shape same_shape Jsmn.ps_tokens] in Sh.
      destruct (Jsmn.ps_tokens st1) as [T1|] eqn:ET; [|contradiction].
      apply parse_step_count in S; [|cbn [Jsmn.ps_parser]; lia].
      cbn [Jsmn.ps_parser Jsmn.ps_count] in S. destruct S as [S1 S2].
      assert (OK1' : tokens_ok js num (Jsmn.next_char st1)).
      { unfold tokens_ok, Jsmn.next_char in *.
        cbn [Jsmn.ps_tokens Jsmn.ps_parser set_pos toknext] in *.
        rewrite ET in *. exact OK1. }
      assert (Hc1' : count_ok (Jsmn.next_char st1)).
      { unfold count_ok, Jsmn.next_char in *.
        cbn [Jsmn.ps_tokens Jsmn.ps_parser Jsmn.ps_count set_pos toknext]
          in *.
        rewrite ET in *. exact Hc1. }
      apply (IH (Jsmn.next_char st1) T1 st'
               (set_pos p1 (pos p1 + 1)) c st0);
        [exact ET|exact OK1'|exact Hc1'| | |exact H|exact H0].
      * unfold Jsmn.next_char, set_pos. cbn [Jsmn.ps_parser pos]. lia.
      * unfold Jsmn.next_char, set_pos. cbn [Jsmn.ps_parser pos]. lia.
    + inversion H; subst r1 st1.
      pose proof S as S'.
      apply parse_step_stop in S'; [|destruct OK as (HL & _); exact HL].
      destruct S' as [X|[X|(_ & _ & _ & Full)]];
        [discriminate X|discriminate X|].
      destruct (nomem_step_counts js len num parser T cnt st' 2 true p0
                  Hp0 S) as [p1 E1].
      rewrite E1 in H0.
      unfold count_ok in Hc.
      cbn [Jsmn.ps_tokens Jsmn.ps_count Jsmn.ps_parser] in Hc.
      destruct (Z_lt_le_dec c 0) as [Neg|Pos]; [left; exact Neg|right].
      pose proof (parse_step_count js len 2 true (null_state p0 cnt)
                    (null_state p1 (cnt + 1))) as PC.
      cbn [null_state Jsmn.ps_parser] in PC.
      destruct PC as [PC _]; [lia|exact E1|].
      apply parse_loop_count_mono in H0; [|exact Pos|].
      * unfold Jsmn.next_char, null_state in H0. simpl in H0. lia.
      * unfold Jsmn.next_char, null_state, set_pos. simpl. lia.
Qed.

(** X23.  [jsmnreader_load] returns [JSMN_ERROR_NOMEM] only when its first
    run of the tokenizer, the one that counts, ended with an error: the
    second run then works on two cells, and [tokens_count] is 2.  When the
    count succeeds the block has a cell for every token, and the load
    returns [JSMN_SUCCESS], [JSMN_ERROR_INVAL] or [JSMN_ERROR_PART]. *)
Theorem load_nomem_after_failed_count (str : list Z) (size : Z)
  (reader0 reader : jsmnreader_obj) :
  len_of str < 2 ^ 31 ->
  jsmnreader_load str size reader0 = Some (JSMN_ERROR_NOMEM, reader) ->
  (exists c parser,
     Jsmn.jsmn_parse Jsmn.jsmn_init str size None 2 true
     = Some (c, parser, None)
     /\ c < 0)
  /\ tokens_count reader = 2.
Proof.
  intros Hl H.
  destruct (tokens reader0) as [l0|] eqn:E0.
  2:{ destruct (load_from_null _ _ _ _ _ E0 H) as (_ & _ & [X|[X|X]]);
        discriminate X. }
  unfold jsmnreader_load in H. rewrite E0 in H.
  change (realloc_tokens (Some l0) 0) with (@None (list jsmntok_t)) in H.
  destruct (Jsmn.jsmn_parse Jsmn.jsmn_init str size None 2 true)
    as [[[check p1] toks1]|] eqn:E1; [|discriminate].
  pose proof (jsmn_parse_shape _ _ _ _ _ _ _ _ _ E1) as Sh1.
  destruct toks1 as [|]; [contradiction|].
  set (count := if 0 <=? check then u32 check else 2) in *.
  destruct (Jsmn.jsmn_parse Jsmn.jsmn_init str size
              (realloc_tokens None count) count false)
    as [[[check2 p2] toks3]|] eqn:E2; [|discriminate].
  assert (C2 : check2 = JSMN_ERROR_NOMEM /\ tokens_count reader = count).
  { destruct (check2 =? JSMN_ERROR_NOMEM) eqn:X.
    - apply Z.eqb_eq in X. inversion H; subst. auto.
    - destruct (check2 =? JSMN_ERROR_INVAL); [discriminate|].
      destruct (check2 =? JSMN_ERROR_PART); discriminate. }
  destruct C2 as [-> Hcount]. clear H.
  destruct (Z_lt_le_dec check 0) as [Neg|Pos].
  { split; [exists check, p1; auto|].
    rewrite Hcount. unfold count.
    replace (0 <=? check) with false by (symmetry; apply Z.leb_gt; lia).
    reflexivity. }
  exfalso.
  unfold Jsmn.jsmn_parse in E1, E2.
  destruct (Jsmn.parse_loop _ str size 2 true _) as [[c1 st1]|] eqn:L1;
    [|discriminate].
  destruct (Jsmn.parse_loop _ str size count false _) as [[c2 st2]|] eqn:L2;
    [|discriminate].
  inversion E1; subst c1. inversion E2; subst c2. clear E1 E2.
  assert (Hb : check <= len_of str).
  { apply parse_loop_count in L1; [tauto| |]; simpl;
      [unfold len_of; lia|vm_compute; discriminate]. }
  assert (Hc : count = check).
  { unfold count.
    replace (0 <=? check) with true by (symmetry; apply Z.leb_le; lia).
    apply u32_small. lia. }
  destruct (realloc_tokens None count) as [T0|] eqn:R0.
  2:{ unfold realloc_tokens in R0. destruct (count =? 0); discriminate. }
  apply realloc_tokens_length in R0; [|lia].
  set (st0 := Jsmn.mkstate Jsmn.jsmn_init (Some T0)
                (s32 (toknext Jsmn.jsmn_init))) in L2.
  assert (X : check < 0 \/ count < check).
  { apply (fill_nomem_overflows str size count Hl ltac:(lia)
             (Jsmn.variant size (pos Jsmn.jsmn_init)) st0 T0 st2
             Jsmn.jsmn_init check st1); try reflexivity.
    - unfold tokens_ok, st0. cbn. repeat split; try lia.
    - exact L2.
    - exact L1. }
  lia.
Qed.

Lemma load_nomem_after_failed_count_witness :
  exists reader,
    jsmnreader_load (text "[1,2,3"%string) 6 jsmnreader_init
    = Some (JSMN_ERROR_NOMEM, reader)
    /\ (exists c parser,
          Jsmn.jsmn_parse Jsmn.jsmn_init (text "[1,2,3"%string) 6 None 2 true
          = Some (c, parser, None)
          /\ c < 0)
    /\ tokens_count reader = 2.
Proof.
  eexists. split; [vm_compute; reflexivity|].
  apply (load_nomem_after_failed_count (text "[1,2,3"%string) 6
           jsmnreader_init).
  - vm_compute. reflexivity.
  - vm_compute. reflexivity.
Defined.
